(* ===== verification/_CoqProject ===== *)
-Q . S2P
Prelude.v
CString.v
Kernel.v
Utils.v
Blacklist.v
Logger.v
Kprobes.v
Scth.v
Monitor.v
Security.v
Mediation.v
Concurrency.v
ProbeThreads.v
NodeGraph.v
MonitorLogic.v
ProbeLogic.v
Interleaving.v
Syscall.v
Stdio.v
Client.v
Sessions.v
Deployment.v
LogFs.v
LogDriver.v
LogPath.v
LogInterleaving.v
UserPrograms.v
Discoverer.v
Concrete.v
ConcreteLog.v
ConcreteClient.v
ConcreteThreads.v
