(* ===== verification/Prelude.v ===== *)
(** * STACK reference monitor: verification library

    The program is a Linux kernel module that protects a list of paths (the
    blacklist).  Its parts, under src/:

    - reference-monitor/stack_reference_monitor.c: the monitor structure (state,
      blacklist, password digest, lock), six system calls, [is_blacklisted], and
      the loading and unloading of the module;
    - reference-monitor/utils/blacklist.c and utils.c: the linked list of paths;
      the password, user and state checks, and the path of a dentry;
    - reference-monitor/kprobes/kprobes.c: ten kretprobes whose entry handlers ask
      [is_blacklisted] and whose return handler replaces the result by -EACCES;
    - reference-monitor/log/logger.c: a row of the log for each blocked access,
      written later by a work queue;
    - reference-monitor/syscall-mount/scth.c: free entries of the system call
      table, where the six system calls are installed;
    - log-filesystem/: the file system with one append-only file that holds the
      log, and the program that makes its image;
    - syscall-table-discoverer/: the module that finds the system call table in
      kernel memory and gives its address to the monitor;
    - client/: a text menu over the six system calls;
    - reference-monitor/user/: switch_reconfigure.c, one of them as a command, and
      the test programs of the monitor (user.c, remove.c, open.c), with those of the
      other modules (log-filesystem/user.c, syscall-table-discoverer/user/user.c).

    ** Files

    - Prelude: integers at their width ([int32], [uint64]), error numbers, lists
      overwritten in place ([write_at]), tactics and hint databases.
    - CString: NUL-terminated strings in byte buffers, the string functions of the
      C library the code uses, and the decimal and hexadecimal conversions.
    - Kernel: the state and the monad [K].  A [world] is a heap of objects
      (buffers, nodes, log items, probe arrays) at addresses and the variables of
      the module ([globals]).  An operation returns a value and a world or crashes
      with a [fault]: NULL or dangling pointer, access outside of an object, use of
      uninitialised data, bad unlock, deadlock on the spinlock, store to a
      protected page.  Allocation is a parameter ([Alloc]): each request succeeds
      or not, and the content of the memory is not chosen by the code.  [keeps] and
      [reads] are the program logics of operations that only add objects, and of
      operations that change nothing.
    - Utils: utils.c.  The digest function and the dentry cache are parameters
      with laws ([Crypto], [Vfs]).
    - Blacklist: blacklist.c and [is_blacklisted].  The heap list represents an
      abstract [blacklist] ([bl_rep]); addition and removal refine the abstract
      operations.
    - Logger: logger.c.  Kprobes: kprobes.c, with the kprobes API as a parameter.
    - Scth: scth.c.  The table is a list of words; CR0.WP is a bit of the state.
    - Monitor: the six system calls, [initialize_syscalls], [init_module] and
      [cleanup_module].
    - Security: the invariant [secure] of the loaded module, the relation [step] of
      one operation with any arguments, and what runs of steps guarantee.
    - Mediation: a call of a probed function through an interface of the kretprobe
      dispatch ([Kretprobes], with the laws of its documentation).
    - Concurrency: the system calls with a critical section, and the test of a path,
      as threads of atomic parts that several processors interleave ([pool_step]).
      ProbeThreads: the entry handlers, the return handler, a whole probed call (on an
      interface of the dispatch, [KretprobeThreads], where a probe has a bounded number
      of instances and a call without one is missed), [sys_print_blacklist] and
      [sys_get_blacklist_size] as threads.
    - NodeGraph: the graph of the nodes that were ever linked (a removed node is
      never freed, and a reader can still be on it).  MonitorLogic: a separation
      logic for threads in the base logic of Iris; the nodes belong to the lock, what
      a thread allocates is its own, a queued log item belongs to nobody.  ProbeLogic:
      its rules for the handlers, the log and a probed call.  Interleaving: any number
      of requests, adequacy of the logic ([pool_sound]) and what holds of every run.
    - Syscall: the numbers of client.h, the way of a call through the system call
      table to the function of the module ([dispatch]), and what an error leaves.
    - Stdio: what the user programs use of the C library (formatted input, strtok,
      strtol, errno, malloc, the terminal), the monad [U] of a program that reads
      its input, writes its output and calls a system ([Sys]), and three logics:
      [eats] (the input consumed), [obeys] (what happens to the system), [wp] (total
      correctness).
    - Client: client.c, with [main] as a machine on its labels, and
      switch_reconfigure.c.
    - Sessions: what the monitor promises to a program ([MonitorSpec]) and what a
      user then gets from the text typed at the client.
    - Deployment: the kernel with the loaded module as such a system; the theorems
      of Security discharge the promise ([kernel_monitor]).
    - LogFs: the file system (its own monad [FS] on a device) and its image.
      LogDriver: its registration and mount, and the runs of the driver ([log_step]).
    - LogPath: the second half of the logger on that file system, a monad [L] over both
      states; the opening of the log file is a parameter whose law is that it calls
      [security_file_open], where the module has a probe ([LogOpen], [LogOpenLaws]).
      LogInterleaving: the log after an interleaving.
    - UserPrograms: the test programs, in the monad [U]; the opening of a file is a
      parameter ([OpenCall]).
    - Discoverer: the walk of the page tables, the search and the free entries, on
      a [Machine] where the words of the last 4 GiB of the address space are readable
      exactly when the hardware walk maps their page.
    - Concrete, ConcreteLog, ConcreteClient, ConcreteThreads: instances of every
      interface, a loaded module, typed sessions and concurrent requests on which
      each theorem with hypotheses is applied.

    ** What the theorems show

    - Safety of the monitor (Security, Mediation): on zeroed memory every run keeps the
      invariant;
      in ON and REC_ON a probed call on a protected path returns -EACCES and is
      logged, any other call returns what the function returned; the state changes
      only by root with the right password, the blacklist only by root with the
      right password in a reconfiguration state; loading then unloading gives the
      table back.
    - Behaviour of the operations on every branch (Utils, Blacklist, Kprobes,
      Logger, Scth, Monitor): refinement of the abstract blacklist, the decision
      of [is_blacklisted] and of the ten handlers, the password check, the text of
      [sys_print_blacklist], the entries found by [get_entries].
    - From the keyboard to the kernel (Sessions, Deployment): the text typed at the
      menu has exactly the effect of the call, on every system that keeps the
      promise and on the loaded kernel; whatever is typed, a turn of the menu changes
      neither the state nor the protected paths when the user is not root; and the exit
      is reached.
    - The client itself (Client): every turn reads a byte, so it ends, faults, or comes
      to the loop of [FFLUSH] at the end of the input, which never ends; the password
      stays in its array with a terminator, and the module menu reaches only the six
      commands.
    - Errors (Syscall): a call that returns an error has changed nothing that the
      monitor protects or is protected by.
    - Interleavings (Concurrency, ProbeThreads, Interleaving): a thread alone is the
      call; two threads can leave the monitor ON with disabled probes, edit the list
      after the state changed, or make [sys_print_blacklist] follow NULL.  But no
      interleaving of any number of the other requests faults, loses or invents a path,
      leaves the lock held or goes on for ever, and a probed call below an entry that
      nobody removes is denied and its log item queued, as long as the probe has an
      instance for each call of its function.
    - The log (LogPath, LogInterleaving): what is queued, by any sequence or any
      interleaving of calls, is what a reader of the log file gets, one row per blocked
      access, when no entry protects the log file itself; when one does, the worker
      faults; and how a row is lost when the file cannot take it.
    - The test programs (UserPrograms): user.c adds its path and exits with 0 exactly
      when the password and the state allow it, remove.c exits with 1 even after a
      removal, and the program of the log file system never reaches its file.
    - The log file system: appends, reads, the image mounts with its header, and any
      run of mounts, unmounts and accesses keeps the image.
    - The discoverer: on plain entries its walk fails exactly when the one of the
      hardware does, and gives the frame, or the first one of a page of 2 MiB; the search
      never faults and finds the lowest table, and what is published serves
      [get_entries].
    - Defects: theorems that exhibit a fault or a wrong result for precise inputs
      (an uninitialised next pointer, the empty path of an unreadable argument, a
      path too long for the message, a state change reported as an error, a load
      without password, appended rows lost by a remount, an old password sent when
      the terminal fails, a command without its number, a blacklist that protects the
      log file).

    ** Bounds and hypotheses

    - The loops on the blacklist have as fuel the number of heap objects plus one
      ([loop_fuel]), which is enough for every list [bl_rep] admits: its nodes are
      distinct objects, and the theorems prove that the loops return.
    - Counters are C ints that wrap.  [counter_covers_list] bounds a run by 2^31
      operations, the point where the counter could wrap to zero.
    - Where memory must be available, [mem_up n k] says that the next [k]
      allocations succeed; the safety theorems of Security do not assume it.
    - [InitOnAlloc] says that allocated memory is zero (init_on_alloc=1).  The
      invariant and what rests on it (Security, Mediation, Interleaving, LogPath) assume
      it.  The code needs it, since it never sets the next pointer of a new node:
      [add_uninitialised_next] shows the fault without it.
    - Paths up to 196 bytes fit in the message of the handlers; for longer ones
      [open_entry_overrun] shows the overrun.
    - The search of the discoverer has as many steps as the range has pages.
    - The theorems on every interleaving assume that memory and hashing are available
      and that the arguments are terminated; [interleaving_protects] also that the
      counter covers the list, that 2^31 is not reached and that the calls of the
      function are no more than the free instances of its probe (set_kretprobe asks for
      the default number, which depends on that of the processors).  Waiting for the lock
      is not a step of a run.
    - The blocks of the device have 4096 bytes, as the driver assumes.
    - [main_from] has a number of steps; one more than the bytes of the input is
      enough, unless the client comes to an endless loop, where it gives no result for
      any number ([client_ends_or_hangs]).

    ** What is not modelled

    In Security an operation is one step.  The interleavings are of the parts that the
    threads of Concurrency and ProbeThreads are cut into; inside of a part the
    processor runs alone.  [sys_print_blacklist] is a thread but not a request of
    Interleaving: it can fault there ([print_race]).  The work items run after the
    processors, one after the other.  printk to the kernel log, module parameters,
    reference counts of files and the kernel functions themselves (kprobes, VFS, crypto,
    page tables, [mount_bdev], the registry of file systems) are outside: what the code
    needs of them are parameters with named laws.  So are the C library, the terminal
    and the shell of the user programs.  Inode modes and times and the pauses of
    [exit_function] are not modelled.

    ** Plan

    Next: the workers of the queue as threads beside the processors, with the items
    they release. *)

From Stdlib Require Export Strings.Ascii.
From stdpp Require Export base tactics numbers gmap strings option list.

(** ** Error numbers ([<linux/errno.h>]) *)

Definition EPERM : Z := 1.
Definition ENOENT : Z := 2.
Definition EIO : Z := 5.
Definition EBADF : Z := 9.
Definition EAGAIN : Z := 11.
Definition ENOMEM : Z := 12.
Definition EACCES : Z := 13.
Definition EEXIST : Z := 17.
Definition EINVAL : Z := 22.
Definition ERANGE : Z := 34.
Definition ENOSYS : Z := 38.
Definition EBUSY : Z := 16.

(** ** Machine integers *)

(** Two's complement wrap-around of a C [int] (the kernel is built with
    [-fno-strict-overflow], so signed overflow wraps). *)
Definition int32 (z : Z) : Z := ((z + 2 ^ 31) mod 2 ^ 32 - 2 ^ 31)%Z.

(** Wrap-around of an [unsigned long]. *)
Definition uint64 (z : Z) : Z := (z mod 2 ^ 64)%Z.

Definition INT_MAX : Z := (2 ^ 31 - 1)%Z.

Lemma int32_small (z : Z) : (- 2 ^ 31 ≤ z < 2 ^ 31)%Z → int32 z = z.
Proof. intros H. unfold int32. rewrite Z.mod_small; lia. Qed.

Lemma int32_range (z : Z) : (- 2 ^ 31 ≤ int32 z < 2 ^ 31)%Z.
Proof.
  unfold int32. pose proof (Z.mod_pos_bound (z + 2 ^ 31) (2 ^ 32) ltac:(lia)). lia.
Qed.

Lemma int32_add (z k : Z) : int32 (int32 z + k) = int32 (z + k).
Proof.
  unfold int32. f_equal.
  replace ((z + 2 ^ 31) mod 2 ^ 32 - 2 ^ 31 + k + 2 ^ 31)%Z with ((z + 2 ^ 31) mod 2 ^ 32 + k)%Z by lia.
  rewrite Zplus_mod_idemp_l. f_equal. lia.
Qed.

Lemma uint64_small (z : Z) : (0 ≤ z < 2 ^ 64)%Z → uint64 z = z.
Proof. intros H. unfold uint64. by rewrite Z.mod_small. Qed.

Lemma uint64_range (z : Z) : (0 ≤ uint64 z < 2 ^ 64)%Z.
Proof. unfold uint64. apply Z.mod_pos_bound. lia. Qed.

(** ** Hint databases and tactics *)

(** [monitor] carries the facts that close side conditions of the proofs
    below: heap freshness, lock balance, list shape. *)
Create HintDb monitor.

(** [list_len] rewrites list lengths. *)
Create Rewrite HintDb list_len.
#[export] Hint Rewrite @length_app @length_take @length_drop @length_replicate
  @length_fmap @length_insert @length_seq : list_len.

(** Destruct the conjunctions and existentials of the context. *)
Ltac breakup :=
  repeat match goal with
  | H : _ ∧ _ |- _ => destruct H
  | H : ∃ x, _ |- _ => let y := fresh x in destruct H as [y H]
  end.

(** Solve length goals. *)
Ltac len := autorewrite with list_len in *; cbn [length] in *; lia.

(** ** Lists *)

Section lists.
Context {A : Type}.
Implicit Types l k : list A.

(** The list [l] with the elements from [off] on overwritten by [k]; [None]
    when the write would leave the list: the way a store through a C
    pointer behaves on an object of [length l] elements. *)
Definition write_at (l : list A) (off : nat) (k : list A) : option (list A) :=
  if decide (off + length k ≤ length l)
  then Some (take off l ++ k ++ drop (off + length k) l)
  else None.

Lemma write_at_length l off k l' :
  write_at l off k = Some l' → length l' = length l.
Proof.
  unfold write_at. intros H. case_decide; simplify_eq. len.
Qed.

Lemma write_at_app l1 l2 l3 k :
  length k = length l2 →
  write_at (l1 ++ l2 ++ l3) (length l1) k = Some (l1 ++ k ++ l3).
Proof.
  intros Hk. unfold write_at. rewrite decide_True by len.
  rewrite take_app_length, drop_app_add', Hk by done.
  by rewrite drop_app_length.
Qed.

Lemma write_at_end l k :
  length k ≤ length l →
  write_at l (length l - length k) k = Some (take (length l - length k) l ++ k).
Proof.
  intros Hk. unfold write_at. rewrite decide_True by lia.
  by rewrite drop_ge, app_nil_r by lia.
Qed.

Lemma write_at_all l k : length k = length l → write_at l 0 k = Some k.
Proof.
  intros Hk. unfold write_at. rewrite decide_True by lia.
  by rewrite drop_ge, app_nil_r by lia.
Qed.

Lemma prefix_take_iff l k n :
  n ≤ length l → take n l `prefix_of` k ↔ take n l = take n k.
Proof.
  intros Hn. split.
  - intros [r ->]. rewrite take_app_le by len. by rewrite take_take, Nat.min_id.
  - intros ->. exists (drop n k). by rewrite take_drop.
Qed.

(** Filtering out an element that occurs at most once. *)
Lemma filter_ne_absent `{EqDecision A} l (x : A) : x ∉ l → filter (.≠ x) l = l.
Proof.
  induction l as [|y l IH]; intros Hx; [done|]. apply not_elem_of_cons in Hx as [Hy Hl].
  rewrite filter_cons_True by done. by rewrite IH.
Qed.

Lemma filter_ne_middle `{EqDecision A} l1 l2 (x : A) :
  x ∉ l1 → x ∉ l2 → filter (.≠ x) (l1 ++ x :: l2) = l1 ++ l2.
Proof.
  intros H1 H2. rewrite filter_app, filter_cons_False by naive_solver. by rewrite !filter_ne_absent.
Qed.
End lists.
