(* ===== verification/CString.v ===== *)
(** * C strings: the byte-level string functions the modules call

    A [char] object is the list of its bytes; a C string is the part of it
    before the first NUL.  Each function returns [None] where the C function
    would run past the end of one of its objects. *)

From S2P Require Import Prelude.

Abbreviation buf := (list ascii).

Definition NUL : ascii := Ascii.zero.

(** The C string stored in an object. *)
Fixpoint c_str (b : buf) : option buf :=
  match b with
  | [] => None
  | c :: b' => if decide (c = NUL) then Some [] else cons c <$> c_str b'
  end.

(** A string literal. *)
Definition lit (s : string) : buf := String.list_ascii_of_string s.

(** [strlen] *)
Fixpoint strlen (b : buf) : option nat :=
  match b with
  | [] => None
  | c :: b' => if decide (c = NUL) then Some 0 else S <$> strlen b'
  end.

(** The sign a byte comparison returns (bytes compare as [unsigned char]). *)
Definition byte_cmp (c1 c2 : ascii) : Z :=
  if (N_of_ascii c1 <? N_of_ascii c2)%N then (-1)%Z else 1%Z.

(** [strcmp] *)
Fixpoint strcmp (cs ct : buf) : option Z :=
  match cs, ct with
  | c1 :: cs', c2 :: ct' =>
      if decide (c1 = c2) then
        if decide (c1 = NUL) then Some 0%Z else strcmp cs' ct'
      else Some (byte_cmp c1 c2)
  | _, _ => None
  end.

(** [strncmp] *)
Fixpoint strncmp (cs ct : buf) (count : nat) : option Z :=
  match count with
  | O => Some 0%Z
  | S count' =>
      match cs, ct with
      | c1 :: cs', c2 :: ct' =>
          if decide (c1 = c2) then
            if decide (c1 = NUL) then Some 0%Z else strncmp cs' ct' count'
          else Some (byte_cmp c1 c2)
      | _, _ => None
      end
  end.

(** [strcpy]: the destination after the copy. *)
Fixpoint strcpy (dest src : buf) : option buf :=
  match dest, src with
  | _ :: dest', c :: src' =>
      if decide (c = NUL) then Some (NUL :: dest') else cons c <$> strcpy dest' src'
  | _, _ => None
  end.

(** [strncpy]: copies at most [count] bytes and pads with NUL. *)
Fixpoint strncpy (dest src : buf) (count : nat) : option buf :=
  match count with
  | O => Some dest
  | S count' =>
      match dest, src with
      | _ :: dest', c :: src' =>
          if decide (c = NUL) then write_at dest 0 (replicate count NUL)
          else cons c <$> strncpy dest' src' count'
      | _, _ => None
      end
  end.

(** [sprintf(dest + off, ...)] of the already formatted text [s]. *)
Definition sprintf_at (dest : buf) (off : nat) (s : buf) : option buf :=
  write_at dest off (s ++ [NUL]).

(** [snprintf(dest, size, ...)] of the already formatted text [s]. *)
Definition snprintf (dest : buf) (size : nat) (s : buf) : option buf :=
  match size with
  | O => Some dest
  | S n => write_at dest 0 (take n s ++ [NUL])
  end.

(** ** Facts *)

(** A byte string with no NUL inside. *)
Definition no_nul (s : buf) : Prop := NUL ∉ s.

#[export] Instance no_nul_dec (s : buf) : Decision (no_nul s).
Proof. unfold no_nul. apply _. Defined.

Lemma c_str_Some (b s : buf) :
  c_str b = Some s ↔ no_nul s ∧ ∃ r, b = s ++ NUL :: r.
Proof.
  unfold no_nul. revert s. induction b as [|c b IH]; intros s; simpl.
  { split; [done|]. intros [_ [r Hr]]. by destruct s. }
  case_decide as Hc.
  - split.
    + intros ?. simplify_eq. split; [set_solver|]. by exists b.
    + intros [Hs [r Hr]]. destruct s as [|x s]; [done|]. simplify_eq/=. set_solver.
  - rewrite fmap_Some. split.
    + intros (s' & Hs' & ->). apply IH in Hs' as [Hs' [r ->]].
      split; [set_solver|]. by exists r.
    + intros [Hs [r Hr]]. destruct s as [|x s]; simplify_eq/=.
      exists s. split; [|done]. apply IH. split; [set_solver|]. by exists r.
Qed.

Lemma c_str_app (s r : buf) : no_nul s → c_str (s ++ NUL :: r) = Some s.
Proof. intros Hs. apply c_str_Some. eauto. Qed.

Lemma c_str_None (b : buf) : c_str b = None ↔ NUL ∉ b.
Proof.
  induction b as [|c b IH]; simpl; [set_solver|]. case_decide.
  - set_solver.
  - rewrite fmap_None, IH. set_solver.
Qed.

Lemma c_str_no_nul (b s : buf) : c_str b = Some s → no_nul s.
Proof. by intros [? _]%c_str_Some. Qed.

Lemma strlen_c_str (b : buf) : strlen b = length <$> c_str b.
Proof.
  induction b as [|c b IH]; simpl; [done|]. case_decide; [done|].
  rewrite IH. by destruct (c_str b).
Qed.

Lemma byte_cmp_ne (c1 c2 : ascii) : byte_cmp c1 c2 ≠ 0%Z.
Proof. unfold byte_cmp. by destruct (_ <? _)%N. Qed.

(** [strcmp] of two terminated strings is defined, and 0 exactly when they
    are equal. *)
Lemma strcmp_spec (b1 b2 s1 s2 : buf) :
  c_str b1 = Some s1 → c_str b2 = Some s2 →
  ∃ r, strcmp b1 b2 = Some r ∧ (r = 0%Z ↔ s1 = s2).
Proof.
  revert b2 s1 s2. induction b1 as [|c1 b1 IH]; intros [|c2 b2] s1 s2; simpl; try done.
  intros H1 H2. destruct (decide (c1 = c2)) as [<-|Hne].
  - case_decide; [by simplify_eq; eexists|].
    apply fmap_Some in H1 as (t1 & H1 & ->). apply fmap_Some in H2 as (t2 & H2 & ->).
    destruct (IH _ _ _ H1 H2) as (r & Hr & Hiff). exists r. split; [done|].
    rewrite Hiff. naive_solver.
  - eexists. split; [done|]. split; [by intros ?%byte_cmp_ne|]. intros <-.
    repeat case_decide; simplify_eq/=; try done;
      repeat match goal with H : _ <$> _ = Some _ |- _ => apply fmap_Some in H as (? & ? & ?) end;
      simplify_eq.
Qed.

(** [strcmp] with an object that is longer than the string ends inside it,
    whether it is terminated or not. *)
Lemma strcmp_bounded (b1 b2 s1 : buf) :
  c_str b1 = Some s1 → length s1 < length b2 →
  ∃ r, strcmp b1 b2 = Some r ∧ (r = 0%Z ↔ c_str b2 = Some s1).
Proof.
  revert b2 s1. induction b1 as [|c1 b1 IH]; intros [|c2 b2] s1; simpl; try done; try lia.
  intros H1 Hl. destruct (decide (c1 = c2)) as [<-|Hne].
  - case_decide; [by simplify_eq; eexists|].
    apply fmap_Some in H1 as (t1 & H1 & ->). simpl in Hl.
    destruct (IH b2 _ H1 ltac:(lia)) as (r & Hr & Hiff). exists r. split; [done|].
    rewrite Hiff, fmap_Some. naive_solver.
  - eexists. split; [done|]. split; [by intros ?%byte_cmp_ne|]. intros H2.
    repeat case_decide; simplify_eq/=; try done;
      repeat match goal with H : _ <$> _ = Some _ |- _ => apply fmap_Some in H as (? & ? & ?) end;
      simplify_eq.
Qed.

(** [strncmp(path, s, n)] with [n] inside [s] is defined, and 0 exactly when
    the first [n] bytes of [s] start [path]. *)
Lemma strncmp_spec (b1 b2 p s : buf) (n : nat) :
  c_str b1 = Some p → c_str b2 = Some s → n ≤ length s →
  ∃ r, strncmp b1 b2 n = Some r ∧ (r = 0%Z ↔ take n s `prefix_of` p).
Proof.
  revert b2 p s n. induction b1 as [|c1 b1 IH]; intros b2 p s n; simpl; [done|].
  intros H1 H2 Hn. destruct n as [|n].
  { exists 0%Z. split; [done|]. split; [|done]. intros _. apply prefix_nil. }
  destruct b2 as [|c2 b2]; [done|]. simpl in H2 |- *.
  destruct (decide (c2 = NUL)) as [->|Hc2]; [simplify_eq/=; lia|].
  apply fmap_Some in H2 as (t2 & H2 & ->). simpl in Hn |- *.
  destruct (decide (c1 = c2)) as [<-|Hne].
  - destruct (decide (c1 = NUL)); [done|].
    apply fmap_Some in H1 as (t1 & H1 & ->).
    destruct (IH _ _ _ n H1 H2 ltac:(lia)) as (r & Hr & Hiff).
    exists r. split; [done|]. rewrite Hiff. split.
    + apply prefix_cons.
    + apply prefix_cons_inv_2.
  - eexists. split; [done|]. split; [by intros ?%byte_cmp_ne|]. intros Hpre.
    case_decide; simplify_eq/=.
    + by destruct Hpre.
    + apply fmap_Some in H1 as (t1 & H1 & ->). by apply prefix_cons_inv_1 in Hpre as ->.
Qed.

(** [strcpy] copies the string and its terminator, and is defined exactly when
    the source is terminated and the destination has room. *)
Lemma strcpy_spec (dest src s : buf) :
  c_str src = Some s → length s < length dest →
  strcpy dest src = Some (s ++ NUL :: drop (S (length s)) dest).
Proof.
  revert src s. induction dest as [|d dest IH]; intros [|c src] s; simpl; try lia; try done.
  intros Hs Hlen. case_decide; simplify_eq/=; [done|].
  apply fmap_Some in Hs as (t & Hs & ->). simpl in *. by rewrite (IH _ _ Hs) by lia.
Qed.

Lemma strcpy_unterminated (dest src : buf) : c_str src = None → strcpy dest src = None.
Proof.
  revert src. induction dest as [|d dest IH]; intros [|c src]; simpl; try done.
  case_decide; [done|]. rewrite fmap_None. intros Hn. by rewrite (IH _ Hn).
Qed.

(** [strncpy] of exactly the length of the source writes no terminator. *)
Lemma strncpy_exact (dest src s : buf) :
  c_str src = Some s → length s ≤ length dest →
  strncpy dest src (length s) = Some (s ++ drop (length s) dest).
Proof.
  revert src s. induction dest as [|d dest IH]; intros [|c src] s; simpl; try done.
  - intros H Hlen. destruct s; [done|simpl in *; lia].
  - intros Hs Hlen. destruct (decide (c = NUL)); simplify_eq/=; [done|].
    apply fmap_Some in Hs as (t & Hs & ->). simpl in *.
    by rewrite (IH _ _ Hs) by lia.
Qed.

Example c_str_ex : c_str (lit "ab" ++ [NUL] ++ lit "c") = Some (lit "ab").
Proof. reflexivity. Qed.

Example strncmp_ex :
  strncmp (lit "/tmp/x" ++ [NUL]) (lit "/tmp" ++ [NUL]) 4 = Some 0%Z.
Proof. reflexivity. Qed.
