(* ===== verification/Kernel.v ===== *)
(** * The kernel the module runs in

    The module's global variables, the kernel heap and the monad of kernel
    code: a computation takes the world to a result and a world, or crashes
    the kernel.  The allocator is a parameter ([Alloc]): whether each request
    succeeds, and what an uninitialised object holds. *)

From S2P Require Import Prelude CString.

(** ** Data (stack_reference_monitor.h, kprobes.h, logger.h) *)

Abbreviation ptr := N.
Definition NULL : ptr := 0%N.

Definition PATH_MAX : nat := N.to_nat 4096.
Definition PAGE_SIZE : nat := N.to_nat 4096.
Definition PASSW_LEN : nat := 32.
Arguments PATH_MAX : simpl never.
Arguments PAGE_SIZE : simpl never.
Definition MODNAME : buf := lit "STACK REFERENCE MONITOR".
Definition LOG_FILE : buf := lit "/opt/mount/ref_monitor_log.txt".

Definition RF_ON : Z := 0.
Definition RF_OFF : Z := 1.
Definition RF_REC_ON : Z := 2.
Definition RF_REC_OFF : Z := 3.

(** [struct blacklist_node] *)
Record blacklist_node := mk_node { n_path : ptr; n_next : ptr }.

(** [struct reference_monitor]; the spinlock is the flag "held". *)
Record reference_monitor := mk_rf {
  rf_state : Z;
  rf_password : ptr;
  rf_blacklist_head : ptr;
  rf_lock : bool;
  rf_blacklist_size : Z;
}.

(** [struct log_data] *)
Record log_data := mk_log_data {
  l_tid : Z; l_tgid : Z; l_uid : Z; l_euid : Z;
  l_exe_path : ptr; l_hash : ptr;
}.

(** [packed_work]; [the_work] is the work item queued with the handler. *)
Record packed_work := mk_packed_work { pw_buffer : ptr; pw_log_data : ptr }.

(** The static kretprobe structures of kprobes.c. *)
Inductive probe_id :=
  | file_open | file_delete | file_create | file_mkdir | file_rename
  | file_rmdir | file_link | file_symlink | file_write | file_lseek.

#[export] Instance probe_id_eq_dec : EqDecision probe_id.
Proof. solve_decision. Defined.

(** The entry handlers of kprobes.c. *)
Inductive entry_handler_id :=
  | open_entry | inode_link_entry | inode_symlink_entry | inode_unlink_entry
  | inode_create_entry | inode_mkdir_entry | inode_rename_entry
  | inode_rmdir_entry | vfs_write_entry | vfs_lseek_entry.

#[export] Instance entry_handler_id_eq_dec : EqDecision entry_handler_id.
Proof. solve_decision. Defined.

(** [KPROBE_FLAG_DISABLED] *)
Definition KPROBE_FLAG_DISABLED : Z := 2.

(** [struct kretprobe]: the fields the module sets, and whether the kernel has
    the probe registered.  [kp_handler] tells that [handler] is [ret_handler]. *)
Record kretprobe := mk_kretprobe {
  kp_symbol : option string;
  kp_flags : Z;
  kp_handler : bool;
  kp_entry : option entry_handler_id;
  kp_maxactive : Z;
  kp_data_size : Z;
  kp_registered : bool;
}.

(** The objects of the kernel heap. *)
Inductive obj :=
  | OBuf (b : buf)
  | ONode (n : blacklist_node)
  | OLog (d : log_data)
  | OWork (k : packed_work)
  | OProbes (l : list probe_id).

Record heap := mk_heap {
  h_mem : gmap ptr obj;   (* live objects *)
  h_brk : ptr;            (* next address *)
  h_clock : nat;          (* allocation requests so far *)
}.

(** The system call table and what the module keeps about it. *)
Record sys_table := mk_sys_table {
  st_address : Z;          (* module parameter syscalls_table_address *)
  st_entries : list Z;     (* the words at that address *)
  st_new : list Z;         (* new_sys_call_array *)
  st_restore : list Z;     (* restore *)
  st_ni_syscall : Z;       (* the_ni_syscall *)
  st_cr0 : Z;              (* control register CR0 *)
  st_saved_cr0 : Z;        (* the variable cr0 of scth.c *)
  st_codes : list Z;       (* switch_state_code ... get_blacklist_size_code *)
}.

(** The global variables of the module, and what the kernel keeps for it: the work
    queue, the log file, and how many instances of its kretprobes are in use. *)
Record globals := mk_globals {
  g_rf : reference_monitor;
  g_password : ptr;               (* the static array password[PASSW_LEN] *)
  g_krp : probe_id → kretprobe;
  g_kprobe_array : ptr;
  g_queue : list ptr;             (* scheduled packed_work items *)
  g_def_work_lock : bool;
  g_log : list buf;               (* rows written to LOG_FILE *)
  g_sys : sys_table;
  g_active : probe_id → nat;      (* instances of each kretprobe in use *)
}.

Record world := mk_world { w_heap : heap; w_glob : globals }.

(** ** The monad of kernel code *)

(** Ways a run of kernel code goes wrong. *)
Inductive fault :=
  | NullDeref        (* access through NULL *)
  | WildAccess       (* access to an object that is not live, or of another type *)
  | Overrun          (* access past the end of an object *)
  | UninitRead       (* use of an uninitialised local variable *)
  | Deadlock         (* spin_lock of a lock that is held *)
  | BadUnlock        (* spin_unlock of a lock that is free *)
  | WriteProtect     (* store to a read-only page with CR0.WP set *)
  | OutOfFuel.       (* a loop that does not end *)

#[export] Instance fault_eq_dec : EqDecision fault.
Proof. solve_decision. Defined.

Inductive outcome (A : Type) :=
  | Ret (a : A) (w : world)
  | Crash (f : fault).
Arguments Ret {_} _ _.
Arguments Crash {_} _.

Definition K (A : Type) : Type := world → outcome A.

#[export] Instance K_ret : MRet K := λ A a w, Ret a w.
#[export] Instance K_bind : MBind K := λ A B k m w,
  match m w with Ret a w' => k a w' | Crash f => Crash f end.

Definition crash {A} (f : fault) : K A := λ _, Crash f.
Definition of_opt {A} (f : fault) (o : option A) : K A :=
  match o with Some a => mret a | None => crash f end.
Definition get_glob : K globals := λ w, Ret (w_glob w) w.
Definition put_glob (g : globals) : K unit := λ w, Ret tt (mk_world (w_heap w) g).

Lemma K_bind_Ret {A B} (m : K A) (k : A → K B) w a w' :
  m w = Ret a w' → (m ≫= k) w = k a w'.
Proof. intros H. unfold mbind, K_bind. by rewrite H. Qed.

Lemma K_bind_Crash {A B} (m : K A) (k : A → K B) w f :
  m w = Crash f → (m ≫= k) w = Crash f.
Proof. intros H. unfold mbind, K_bind. by rewrite H. Qed.

(** ** Field updates *)

Definition set_rf (r : reference_monitor) (g : globals) : globals :=
  mk_globals r (g_password g) (g_krp g) (g_kprobe_array g) (g_queue g)
    (g_def_work_lock g) (g_log g) (g_sys g) (g_active g).
Definition set_krp (k : probe_id → kretprobe) (g : globals) : globals :=
  mk_globals (g_rf g) (g_password g) k (g_kprobe_array g) (g_queue g)
    (g_def_work_lock g) (g_log g) (g_sys g) (g_active g).
Definition set_kprobe_array (p : ptr) (g : globals) : globals :=
  mk_globals (g_rf g) (g_password g) (g_krp g) p (g_queue g)
    (g_def_work_lock g) (g_log g) (g_sys g) (g_active g).
Definition set_queue (q : list ptr) (g : globals) : globals :=
  mk_globals (g_rf g) (g_password g) (g_krp g) (g_kprobe_array g) q
    (g_def_work_lock g) (g_log g) (g_sys g) (g_active g).
Definition set_sys (s : sys_table) (g : globals) : globals :=
  mk_globals (g_rf g) (g_password g) (g_krp g) (g_kprobe_array g) (g_queue g)
    (g_def_work_lock g) (g_log g) s (g_active g).

Definition set_log (l : list buf) (g : globals) : globals :=
  mk_globals (g_rf g) (g_password g) (g_krp g) (g_kprobe_array g) (g_queue g)
    (g_def_work_lock g) l (g_sys g) (g_active g).

Definition set_def_work_lock (b : bool) (g : globals) : globals :=
  mk_globals (g_rf g) (g_password g) (g_krp g) (g_kprobe_array g) (g_queue g)
    b (g_log g) (g_sys g) (g_active g).

Definition set_active (n : probe_id → nat) (g : globals) : globals :=
  mk_globals (g_rf g) (g_password g) (g_krp g) (g_kprobe_array g) (g_queue g)
    (g_def_work_lock g) (g_log g) (g_sys g) n.

Definition rf_with_state (s : Z) (r : reference_monitor) : reference_monitor :=
  mk_rf s (rf_password r) (rf_blacklist_head r) (rf_lock r) (rf_blacklist_size r).
Definition rf_with_password (p : ptr) (r : reference_monitor) : reference_monitor :=
  mk_rf (rf_state r) p (rf_blacklist_head r) (rf_lock r) (rf_blacklist_size r).
Definition rf_with_head (p : ptr) (r : reference_monitor) : reference_monitor :=
  mk_rf (rf_state r) (rf_password r) p (rf_lock r) (rf_blacklist_size r).
Definition rf_with_lock (b : bool) (r : reference_monitor) : reference_monitor :=
  mk_rf (rf_state r) (rf_password r) (rf_blacklist_head r) b (rf_blacklist_size r).
Definition rf_with_size (z : Z) (r : reference_monitor) : reference_monitor :=
  mk_rf (rf_state r) (rf_password r) (rf_blacklist_head r) (rf_lock r) z.

Definition get_rf : K reference_monitor := g ← get_glob; mret (g_rf g).
Definition modify_rf (f : reference_monitor → reference_monitor) : K unit :=
  g ← get_glob; put_glob (set_rf (f (g_rf g)) g).

(** [spin_lock(&reference_monitor.lock)], [spin_unlock(...)] *)
Definition spin_lock : K unit :=
  r ← get_rf; if rf_lock r then crash Deadlock else modify_rf (rf_with_lock true).
Definition spin_unlock : K unit :=
  r ← get_rf; if rf_lock r then modify_rf (rf_with_lock false) else crash BadUnlock.

(** ** Memory *)

Definition lookup_obj (p : ptr) : K obj := λ w,
  if decide (p = NULL) then Crash NullDeref else
  match h_mem (w_heap w) !! p with
  | Some o => Ret o w
  | None => Crash WildAccess
  end.

Definition store_obj (p : ptr) (o : obj) : K unit := λ w,
  Ret tt (mk_world (mk_heap (<[p:=o]> (h_mem (w_heap w))) (h_brk (w_heap w))
                            (h_clock (w_heap w))) (w_glob w)).

(** Typed accesses. *)
Definition load_buf (p : ptr) : K buf :=
  o ← lookup_obj p; match o with OBuf b => mret b | _ => crash WildAccess end.
Definition load_node (p : ptr) : K blacklist_node :=
  o ← lookup_obj p; match o with ONode n => mret n | _ => crash WildAccess end.
Definition load_log (p : ptr) : K log_data :=
  o ← lookup_obj p; match o with OLog d => mret d | _ => crash WildAccess end.
Definition load_work (p : ptr) : K packed_work :=
  o ← lookup_obj p; match o with OWork k => mret k | _ => crash WildAccess end.
Definition load_probes (p : ptr) : K (list probe_id) :=
  o ← lookup_obj p; match o with OProbes l => mret l | _ => crash WildAccess end.

Definition store_buf (p : ptr) (b : buf) : K unit := load_buf p ≫= λ _, store_obj p (OBuf b).
Definition store_node (p : ptr) (n : blacklist_node) : K unit :=
  load_node p ≫= λ _, store_obj p (ONode n).

(** [kfree] *)
Definition kfree (p : ptr) : K unit := λ w,
  if decide (p = NULL) then Ret tt w else
  match h_mem (w_heap w) !! p with
  | Some _ => Ret tt (mk_world (mk_heap (delete p (h_mem (w_heap w))) (h_brk (w_heap w))
                                       (h_clock (w_heap w))) (w_glob w))
  | None => Crash WildAccess
  end.

(** The allocator: the answer to the [n]-th request, and the bytes and
    pointers an object it returns holds before it is written. *)
Class Alloc := {
  kmalloc_ok : nat → bool;
  fresh_byte : nat → nat → ascii;
  fresh_ptr : nat → nat → ptr;
}.

(** A kernel running with [init_on_alloc]: objects come zeroed. *)
Class InitOnAlloc `{AL : Alloc} : Prop := {
  fresh_byte_zero n i : fresh_byte n i = NUL;
  fresh_ptr_null n i : fresh_ptr n i = NULL;
}.

Section memory.
Context `{AL : Alloc}.

(** Allocation of an object with content [mk n] at request [n]. *)
Definition kmalloc_obj (mk : nat → obj) : K ptr := λ w,
  let h := w_heap w in
  if kmalloc_ok (h_clock h)
  then Ret (h_brk h)
         (mk_world (mk_heap (<[h_brk h := mk (h_clock h)]> (h_mem h)) (N.succ (h_brk h))
                            (S (h_clock h))) (w_glob w))
  else Ret NULL (mk_world (mk_heap (h_mem h) (h_brk h) (S (h_clock h))) (w_glob w)).

Definition fresh_bytes (n size : nat) : buf := fresh_byte n <$> seq 0 size.

(** [kmalloc(size, ...)] for bytes, and [kmalloc(sizeof(blacklist_node), ...)]. *)
Definition kmalloc (size : nat) : K ptr := kmalloc_obj (λ n, OBuf (fresh_bytes n size)).
Definition kmalloc_node : K ptr :=
  kmalloc_obj (λ n, ONode (mk_node (fresh_ptr n 0) (fresh_ptr n 8))).

(** [kstrdup]: NULL for NULL, NULL when the copy cannot be allocated. *)
Definition kstrdup (p : ptr) : K ptr :=
  if decide (p = NULL) then mret NULL else
  b ← load_buf p;
  s ← of_opt Overrun (c_str b);
  kmalloc_obj (λ _, OBuf (s ++ [NUL])).
End memory.

(** The string functions on heap objects. *)
Definition k_strlen (p : ptr) : K nat := b ← load_buf p; of_opt Overrun (strlen b).
Definition k_strcmp (p q : ptr) : K Z :=
  a ← load_buf p; b ← load_buf q; of_opt Overrun (strcmp a b).
Definition k_strncmp (p q : ptr) (n : nat) : K Z :=
  if decide (n = 0) then mret 0%Z else
  a ← load_buf p; b ← load_buf q; of_opt Overrun (strncmp a b n).
Definition k_strcpy (dest src : ptr) : K unit :=
  s ← load_buf src; d ← load_buf dest; d' ← of_opt Overrun (strcpy d s); store_buf dest d'.

(** [printk] of a kernel string reads it. *)
Definition k_print (p : ptr) : K unit := k_strlen p ;; mret tt.

(** A user-space address: the bytes that can be read from it on. *)
Abbreviation user_ptr := (list ascii) (only parsing).

(** [copy_from_user(to, from, n)]: copies what is readable, zeroes the rest of
    the destination range, and returns the number of bytes not copied. *)
Definition copy_from_user (to : ptr) (from : user_ptr) (n : nat) : K Z :=
  b ← load_buf to;
  b' ← of_opt Overrun (write_at b 0 (take n from ++ replicate (n - length from) NUL));
  store_buf to b' ;; mret (Z.of_nat (n - length from)).

(** ** Heap facts *)

(** Live objects lie below the break, so the next address is fresh. *)
Definition wf_heap (h : heap) : Prop :=
  (0 < h_brk h)%N ∧ ∀ p o, h_mem h !! p = Some o → (0 < p < h_brk h)%N.

(** [h'] keeps every object of [h] as it is. *)
Definition heap_le (h h' : heap) : Prop :=
  h_mem h ⊆ h_mem h' ∧ (h_brk h ≤ h_brk h')%N ∧ h_clock h ≤ h_clock h' ∧
  (wf_heap h → wf_heap h').

(** [w'] differs from [w] only by new objects. *)
Definition extends (w w' : world) : Prop :=
  heap_le (w_heap w) (w_heap w') ∧ w_glob w' = w_glob w.

#[export] Instance heap_le_preorder : PreOrder heap_le.
Proof.
  split.
  - intros h. by unfold heap_le.
  - intros h1 h2 h3 (?&?&?&?) (?&?&?&?).
    split; [by transitivity (h_mem h2)|split; [lia|split; [lia|auto]]].
Qed.

#[export] Instance extends_preorder : PreOrder extends.
Proof.
  split.
  - intros w. by split.
  - intros w1 w2 w3 [??] [??]. split; [by etransitivity|congruence].
Qed.

Lemma wf_heap_fresh h q : wf_heap h → (h_brk h ≤ q)%N → h_mem h !! q = None.
Proof.
  intros [_ Hwf] Hq. destruct (h_mem h !! q) as [o|] eqn:E; [|done].
  apply Hwf in E. lia.
Qed.

Lemma wf_heap_ne h p q o : wf_heap h → h_mem h !! p = Some o → (h_brk h ≤ q)%N → p ≠ q.
Proof. intros [_ Hwf] Hp Hq ->. apply Hwf in Hp. lia. Qed.

Lemma wf_heap_not_null h p o : wf_heap h → h_mem h !! p = Some o → p ≠ NULL.
Proof. intros [_ Hwf] Hp ->. apply Hwf in Hp. unfold NULL in Hp. lia. Qed.

(** The world after an allocation of [o], after a failed one, after a store and
    after a free. *)
Definition w_alloc (o : obj) (w : world) : world :=
  mk_world (mk_heap (<[h_brk (w_heap w) := o]> (h_mem (w_heap w))) (N.succ (h_brk (w_heap w)))
              (S (h_clock (w_heap w)))) (w_glob w).
Definition w_tick (w : world) : world :=
  mk_world (mk_heap (h_mem (w_heap w)) (h_brk (w_heap w)) (S (h_clock (w_heap w)))) (w_glob w).
Definition w_store (p : ptr) (o : obj) (w : world) : world :=
  mk_world (mk_heap (<[p:=o]> (h_mem (w_heap w))) (h_brk (w_heap w)) (h_clock (w_heap w)))
    (w_glob w).
Definition w_free (p : ptr) (w : world) : world :=
  mk_world (mk_heap (delete p (h_mem (w_heap w))) (h_brk (w_heap w)) (h_clock (w_heap w)))
    (w_glob w).
Definition w_put (g : globals) (w : world) : world := mk_world (w_heap w) g.

Abbreviation mem w := (h_mem (w_heap w)).
Abbreviation brk w := (h_brk (w_heap w)).
Abbreviation clock w := (h_clock (w_heap w)).
Abbreviation wf w := (wf_heap (w_heap w)).
Abbreviation rf w := (g_rf (w_glob w)).

Section runs.
Context `{AL : Alloc}.

Lemma run_kmalloc_obj mk w :
  kmalloc_obj mk w =
  if kmalloc_ok (clock w) then Ret (brk w) (w_alloc (mk (clock w)) w) else Ret NULL (w_tick w).
Proof. reflexivity. Qed.

Lemma run_lookup_obj p o w : mem w !! p = Some o → p ≠ NULL → lookup_obj p w = Ret o w.
Proof. intros Hp Hn. unfold lookup_obj. by rewrite decide_False, Hp. Qed.

Lemma run_load_buf p b w : mem w !! p = Some (OBuf b) → p ≠ NULL → load_buf p w = Ret b w.
Proof. intros. unfold load_buf. by erewrite K_bind_Ret by (by apply run_lookup_obj). Qed.

Lemma run_load_node p n w : mem w !! p = Some (ONode n) → p ≠ NULL → load_node p w = Ret n w.
Proof. intros. unfold load_node. by erewrite K_bind_Ret by (by apply run_lookup_obj). Qed.

Lemma run_load_log p d w : mem w !! p = Some (OLog d) → p ≠ NULL → load_log p w = Ret d w.
Proof. intros. unfold load_log. by erewrite K_bind_Ret by (by apply run_lookup_obj). Qed.

Lemma run_load_work p k w : mem w !! p = Some (OWork k) → p ≠ NULL → load_work p w = Ret k w.
Proof. intros. unfold load_work. by erewrite K_bind_Ret by (by apply run_lookup_obj). Qed.

Lemma run_load_probes p l w :
  mem w !! p = Some (OProbes l) → p ≠ NULL → load_probes p w = Ret l w.
Proof. intros. unfold load_probes. by erewrite K_bind_Ret by (by apply run_lookup_obj). Qed.

Lemma run_store_buf p b b' w :
  mem w !! p = Some (OBuf b) → p ≠ NULL → store_buf p b' w = Ret tt (w_store p (OBuf b') w).
Proof. intros. unfold store_buf. by erewrite K_bind_Ret by (by apply run_load_buf). Qed.

Lemma run_store_node p n n' w :
  mem w !! p = Some (ONode n) → p ≠ NULL → store_node p n' w = Ret tt (w_store p (ONode n') w).
Proof. intros. unfold store_node. by erewrite K_bind_Ret by (by apply run_load_node). Qed.

Lemma run_kfree p o w : mem w !! p = Some o → p ≠ NULL → kfree p w = Ret tt (w_free p w).
Proof. intros Hp Hn. unfold kfree. by rewrite decide_False, Hp. Qed.

Lemma load_buf_null w : load_buf NULL w = Crash NullDeref.
Proof. reflexivity. Qed.

Lemma length_fresh_bytes n size : length (fresh_bytes n size) = size.
Proof. unfold fresh_bytes. len. Qed.

Lemma extends_alloc o w : wf w → extends w (w_alloc o w).
Proof.
  intros Hwf. split; [|done]. split; [|split; [|split]]; simpl; try lia.
  - apply insert_subseteq, (wf_heap_fresh (w_heap w)); [done|lia].
  - intros _. destruct Hwf as [Hb Hwf]. split; simpl; [lia|]. intros p o' Hp.
    destruct (decide (p = brk w)) as [->|Hne]; [lia|].
    rewrite lookup_insert_ne in Hp by done. apply Hwf in Hp. lia.
Qed.

Lemma extends_tick w : extends w (w_tick w).
Proof. split; [|done]. split; [done|split; [done|split]]; simpl; [lia|done]. Qed.

Lemma extends_alloc_r o w w' : extends w w' → wf w → extends w (w_alloc o w').
Proof. intros He Hwf. etransitivity; [done|]. apply extends_alloc. by apply He. Qed.

Lemma extends_tick_r w w' : extends w w' → extends w (w_tick w').
Proof. intros He. etransitivity; [done|]. apply extends_tick. Qed.

(** A store to, or a free of, an object that [w] does not have. *)
Lemma extends_store w w' p o o' :
  extends w w' → wf w → (brk w ≤ p)%N → mem w' !! p = Some o' → extends w (w_store p o w').
Proof.
  intros [(Hsub & Hb & Hc & Hw) Hg] Hwf Hp Ho. split; [|done].
  split; [|split; [done|split; [done|]]]; simpl.
  - apply insert_subseteq_r; [|done]. by apply wf_heap_fresh.
  - intros _. destruct (Hw Hwf) as [Hb' Hwf']. split; [done|]. simpl. intros q oq Hq.
    destruct (decide (q = p)) as [->|Hne]; [by eapply Hwf'|].
    rewrite lookup_insert_ne in Hq by done. by eapply Hwf'.
Qed.

Lemma extends_free w w' p :
  extends w w' → wf w → (brk w ≤ p)%N → extends w (w_free p w').
Proof.
  intros [(Hsub & Hb & Hc & Hw) Hg] Hwf Hp. split; [|done].
  split; [|split; [done|split; [done|]]]; simpl.
  - apply map_subseteq_spec. intros q o Hq. rewrite lookup_delete_ne.
    + by eapply lookup_weaken.
    + intros ->. apply Hwf in Hq. lia.
  - intros _. destruct (Hw Hwf) as [Hb' Hwf']. split; [done|]. simpl. intros q o Hq.
    apply lookup_delete_Some in Hq as [_ Hq]. by eapply Hwf'.
Qed.

Lemma extends_lookup w w' p o : extends w w' → mem w !! p = Some o → mem w' !! p = Some o.
Proof. intros [(Hsub & _) _] Hp. by eapply lookup_weaken. Qed.

Lemma extends_wf w w' : extends w w' → wf w → wf w'.
Proof. intros [(_ & _ & _ & Hw) _]. done. Qed.

Lemma extends_brk w w' : extends w w' → (brk w ≤ brk w')%N.
Proof. by intros [(_ & Hb & _) _]. Qed.

Lemma extends_glob w w' : extends w w' → w_glob w' = w_glob w.
Proof. by intros [_ ?]. Qed.
End runs.

#[export] Hint Resolve extends_alloc extends_tick extends_wf : monitor.

(** ** Symbolic execution *)

Lemma run_kmalloc_ok `{AL : Alloc} mk w :
  kmalloc_ok (clock w) = true → kmalloc_obj mk w = Ret (brk w) (w_alloc (mk (clock w)) w).
Proof. intros Hok. by rewrite run_kmalloc_obj, Hok. Qed.

Lemma run_kmalloc_fail `{AL : Alloc} mk w :
  kmalloc_ok (clock w) = false → kmalloc_obj mk w = Ret NULL (w_tick w).
Proof. intros Hok. by rewrite run_kmalloc_obj, Hok. Qed.

(** The next [k] requests after [n] succeed. *)
Definition mem_up `{AL : Alloc} (n k : nat) : Prop := ∀ i, i < k → kmalloc_ok (n + i) = true.

Lemma mem_up_at `{AL : Alloc} n k i m : mem_up n k → i < k → m = n + i → kmalloc_ok m = true.
Proof. intros Hup Hi ->. by apply Hup. Qed.

Lemma mem_up_sub `{AL : Alloc} n k n' k' : mem_up n k → n ≤ n' → n' + k' ≤ n + k → mem_up n' k'.
Proof. intros Hup Hn Hk i Hi. apply (mem_up_at n k (n' - n + i)); [done|lia..]. Qed.

Lemma w_store_id p o w : mem w !! p = Some o → w_store p o w = w.
Proof. intros Hp. unfold w_store. rewrite insert_id by done. by destruct w as [[] ?]. Qed.

Lemma w_store_store p o o' w : w_store p o' (w_store p o w) = w_store p o' w.
Proof. unfold w_store. simpl. by rewrite insert_insert_eq. Qed.

Lemma run_of_opt {A} (f : fault) (o : option A) (a : A) w :
  o = Some a → of_opt f o w = Ret a w.
Proof. by intros ->. Qed.

Lemma run_copy_from_user to from n b w :
  mem w !! to = Some (OBuf b) → to ≠ NULL → n = length b →
  copy_from_user to from n w =
  Ret (Z.of_nat (n - length from))
      (w_store to (OBuf (take n from ++ replicate (n - length from) NUL)) w).
Proof.
  intros Hto Hn ->. unfold copy_from_user.
  erewrite K_bind_Ret by (by apply run_load_buf).
  erewrite K_bind_Ret by (apply run_of_opt, write_at_all; len).
  by erewrite K_bind_Ret by (by eapply run_store_buf).
Qed.

(** Side conditions: pointers that are not NULL or differ, and the content of
    an object of a world built by [w_alloc], [w_store], [w_free]. *)
Ltac ksimpl :=
  cbn [w_heap w_glob h_mem h_brk h_clock w_alloc w_tick w_store w_free w_put] in *.
Ltac kptr := unfold NULL in *; ksimpl; lia.
Ltac kmem :=
  ksimpl;
  repeat first [ eassumption | apply lookup_insert_eq | rewrite lookup_insert_ne by kptr
               | rewrite lookup_delete_ne by kptr ].

(** [extends w w'] for such a world [w'], with [wf w] in the context. *)
Ltac kext :=
  lazymatch goal with
  | |- extends _ (w_free _ _) => apply extends_free; [kext | assumption | kptr]
  | |- extends _ (w_store _ _ _) => eapply extends_store; [kext | assumption | kptr | kmem]
  | |- extends _ (w_alloc _ _) => apply extends_alloc_r; [kext | assumption]
  | |- extends _ (w_tick _) => apply extends_tick_r; kext
  | _ => first [ assumption | reflexivity ]
  end.

(** The first operation of a sequence, by its equation. *)
Ltac krun_with tac :=
  erewrite K_bind_Ret by
    (first [ tac
           | eapply run_load_buf; [kmem | kptr]
           | eapply run_load_node; [kmem | kptr]
           | eapply run_load_log; [kmem | kptr]
           | eapply run_load_work; [kmem | kptr]
           | eapply run_load_probes; [kmem | kptr]
           | eapply run_store_buf; [kmem | kptr]
           | eapply run_store_node; [kmem | kptr]
           | eapply run_kfree; [kmem | kptr]
           | eapply run_kmalloc_ok; eassumption
           | eapply run_kmalloc_fail; eassumption
           | eapply run_of_opt; eassumption
           | reflexivity ]); cbv beta.
Ltac kstep := krun_with fail.
Ltac kdec := first [ rewrite decide_True by kptr | rewrite decide_False by kptr ].

(** ** Framing

    [keeps w0 m Q]: run from any extension of [w0], the code [m] leaves
    everything [w0] had as it was, and its result satisfies [Q]; this holds
    whatever the allocator answers. *)

Definition keeps (w0 : world) {A} (m : K A) (Q : A → Prop) : Prop :=
  ∀ w a w', extends w0 w → m w = Ret a w' → extends w0 w' ∧ Q a.

(** A pointer that [w0] does not own: NULL or a new object. *)
Definition new_ptr (w0 : world) (p : ptr) : Prop := p = NULL ∨ (brk w0 ≤ p)%N.

Section keeps.
Context `{AL : Alloc} (w0 : world) (Hwf : wf w0).

Lemma keeps_ret {A} (a : A) (Q : A → Prop) : Q a → keeps w0 (mret a) Q.
Proof. intros HQ w b w' He [= <- <-]. done. Qed.

Lemma keeps_crash {A} f (Q : A → Prop) : keeps w0 (crash f) Q.
Proof. intros w b w' He [=]. Qed.

Lemma keeps_bind {A B} (m : K A) (k : A → K B) (P : A → Prop) (Q : B → Prop) :
  keeps w0 m P → (∀ a, P a → keeps w0 (k a) Q) → keeps w0 (m ≫= k) Q.
Proof.
  intros Hm Hk w b w' He Hrun. unfold mbind, K_bind in Hrun.
  destruct (m w) as [a w1|] eqn:Ew; [|done].
  destruct (Hm _ _ _ He Ew) as [He1 HP]. by eapply Hk.
Qed.

Lemma keeps_of_opt {A} f (o : option A) : keeps w0 (of_opt f o) (λ a, o = Some a).
Proof. destruct o; [by apply keeps_ret|apply keeps_crash]. Qed.

Lemma keeps_get_glob : keeps w0 get_glob (λ g, g = w_glob w0).
Proof. intros w a w' He [= <- <-]. by apply extends_glob in He as Hg. Qed.

Lemma keeps_get_rf : keeps w0 get_rf (λ r, r = rf w0).
Proof.
  eapply keeps_bind; [apply keeps_get_glob|]. intros g ->. by apply keeps_ret.
Qed.

Lemma keeps_kmalloc_obj mk : keeps w0 (kmalloc_obj mk) (new_ptr w0).
Proof.
  intros w a w' He. rewrite run_kmalloc_obj. pose proof (extends_brk _ _ He).
  destruct (kmalloc_ok _); intros [= <- <-].
  - split; [by apply extends_alloc_r|by right].
  - split; [by apply extends_tick_r|by left].
Qed.

Lemma keeps_lookup_obj p : keeps w0 (lookup_obj p) (λ _, p ≠ NULL).
Proof.
  intros w a w' He. unfold lookup_obj. case_decide; [done|].
  destruct (_ !! p); intros [= <- <-]. done.
Qed.

Lemma keeps_load_buf p : keeps w0 (load_buf p) (λ _, p ≠ NULL).
Proof.
  eapply keeps_bind; [apply keeps_lookup_obj|]. intros [] ?; [by apply keeps_ret|apply keeps_crash..].
Qed.

Lemma keeps_load_node p : keeps w0 (load_node p) (λ _, p ≠ NULL).
Proof.
  eapply keeps_bind; [apply keeps_lookup_obj|].
  intros [] ?; first [by apply keeps_ret | apply keeps_crash].
Qed.

Lemma keeps_store_buf p b : new_ptr w0 p → keeps w0 (store_buf p b) (λ _, True).
Proof.
  intros Hp w a w' He. unfold store_buf, load_buf, mbind, K_bind, lookup_obj.
  case_decide as Hn; [done|]. destruct (mem w !! p) as [[]|] eqn:Ep; try done.
  intros [= <- <-]. split; [|done]. destruct Hp as [|Hp]; [done|].
  by eapply extends_store.
Qed.

Lemma keeps_kfree p : new_ptr w0 p → keeps w0 (kfree p) (λ _, True).
Proof.
  intros Hp w a w' He. unfold kfree. case_decide as Hn; [by intros [= <- <-]|].
  destruct (mem w !! p); intros [= <- <-]. split; [|done].
  destruct Hp as [|Hp]; [done|]. by apply extends_free.
Qed.

Lemma keeps_copy_from_user p u n : new_ptr w0 p → keeps w0 (copy_from_user p u n) (λ _, True).
Proof.
  intros Hp. eapply keeps_bind; [apply keeps_load_buf|]. intros b _.
  eapply keeps_bind; [apply keeps_of_opt|]. intros b' _.
  eapply keeps_bind; [by apply keeps_store_buf|]. intros _ _. by apply keeps_ret.
Qed.

Lemma keeps_weaken {A} (m : K A) (P Q : A → Prop) :
  keeps w0 m P → (∀ a, P a → Q a) → keeps w0 m Q.
Proof. intros Hm HPQ w a w' He Hrun. destruct (Hm _ _ _ He Hrun). auto. Qed.
End keeps.

Lemma new_ptr_null w0 : new_ptr w0 NULL.
Proof. by left. Qed.

#[export] Hint Resolve keeps_ret keeps_crash keeps_of_opt keeps_get_glob keeps_get_rf
  keeps_kmalloc_obj keeps_lookup_obj keeps_load_buf keeps_load_node keeps_store_buf
  keeps_kfree keeps_copy_from_user new_ptr_null : monitor.

(** Framing of straight-line code: sequence and branch by the structure of the
    code, close the primitive operations with the hints. *)
Ltac kkeeps_step :=
  lazymatch goal with
  | |- keeps _ ((if _ then _ else _) ≫= _) _ =>
      eapply (keeps_bind _ _ _ (λ _, True)); [ | intros ? ?]
  | |- keeps _ (_ ≫= _) _ => eapply keeps_bind; [kkeeps_step | intros ? ?; cbv beta in *]
  | |- keeps _ (if decide _ then _ else _) _ => case_decide
  | |- keeps _ (if ?b then _ else _) _ => destruct b
  | |- keeps _ (match ?x with _ => _ end) _ => destruct x
  | |- keeps _ (mret _) _ => apply keeps_ret; eauto with monitor
  | |- keeps _ (kmalloc _) _ => apply keeps_kmalloc_obj; assumption
  | |- keeps _ (kmalloc_node) _ => apply keeps_kmalloc_obj; assumption
  | _ => first [ solve [ eauto with monitor ]
               | eapply keeps_weaken; [ solve [ eauto with monitor ] | by auto ] ]
  end.
Ltac kkeeps := repeat (kkeeps_step; try assumption).

Section keeps_structs.
Context (w0 : world).

Lemma keeps_load_log p : keeps w0 (load_log p) (λ _, p ≠ NULL).
Proof.
  eapply keeps_bind; [apply keeps_lookup_obj|].
  intros [] ?; first [by apply keeps_ret | apply keeps_crash].
Qed.

Lemma keeps_load_work p : keeps w0 (load_work p) (λ _, p ≠ NULL).
Proof.
  eapply keeps_bind; [apply keeps_lookup_obj|].
  intros [] ?; first [by apply keeps_ret | apply keeps_crash].
Qed.
End keeps_structs.

#[export] Hint Resolve keeps_load_log keeps_load_work : monitor.

Section keeps_strings.
Context `{AL : Alloc} (w0 : world) (Hwf : wf w0).

Lemma keeps_k_strlen p : keeps w0 (k_strlen p) (λ _, True).
Proof. unfold k_strlen. kkeeps. Qed.

Lemma keeps_k_print p : keeps w0 (k_print p) (λ _, True).
Proof. eapply keeps_bind; [apply keeps_k_strlen|]. intros. by apply keeps_ret. Qed.

Lemma keeps_k_strcmp p q : keeps w0 (k_strcmp p q) (λ _, True).
Proof. unfold k_strcmp. kkeeps. Qed.

Lemma keeps_k_strncmp p q n : keeps w0 (k_strncmp p q n) (λ _, True).
Proof. unfold k_strncmp. kkeeps. Qed.

Lemma keeps_k_strcpy p q : new_ptr w0 p → keeps w0 (k_strcpy p q) (λ _, True).
Proof. intros. unfold k_strcpy. kkeeps. Qed.

Lemma keeps_kstrdup p : keeps w0 (kstrdup p) (new_ptr w0).
Proof. unfold kstrdup. kkeeps. Qed.
End keeps_strings.

#[export] Hint Resolve keeps_k_strlen keeps_k_print keeps_k_strcmp keeps_k_strncmp keeps_k_strcpy
  keeps_kstrdup : monitor.

(** ** Code that only reads *)

Definition reads {A} (m : K A) : Prop := ∀ w a w', m w = Ret a w' → w' = w.

Lemma bind_Ret_inv {A B} (m : K A) (k : A → K B) w b w' :
  (m ≫= k) w = Ret b w' → ∃ a w1, m w = Ret a w1 ∧ k a w1 = Ret b w'.
Proof. unfold mbind, K_bind. destruct (m w) as [a w1|]; [|done]. eauto. Qed.

Lemma reads_bind {A B} (m : K A) (k : A → K B) : reads m → (∀ a, reads (k a)) → reads (m ≫= k).
Proof.
  intros Hm Hk w b w' (a & w1 & H1 & H2)%bind_Ret_inv. apply Hm in H1 as ->. by apply Hk in H2.
Qed.

Lemma reads_ret {A} (a : A) : reads (mret a).
Proof. by intros w b w' [= <- <-]. Qed.

Lemma reads_crash {A} f : reads (A := A) (crash f).
Proof. by intros w b w' [=]. Qed.

Lemma reads_of_opt {A} f (o : option A) : reads (of_opt f o).
Proof. destruct o; [apply reads_ret|apply reads_crash]. Qed.

Lemma reads_lookup_obj p : reads (lookup_obj p).
Proof.
  intros w a w'. unfold lookup_obj. case_decide; [done|]. destruct (_ !! p); by intros [= <- <-].
Qed.

Lemma reads_load_buf p : reads (load_buf p).
Proof.
  apply reads_bind; [apply reads_lookup_obj|].
  intros []; first [apply reads_ret | apply reads_crash].
Qed.

Lemma reads_load_node p : reads (load_node p).
Proof.
  apply reads_bind; [apply reads_lookup_obj|].
  intros []; first [apply reads_ret | apply reads_crash].
Qed.

Lemma reads_k_strlen p : reads (k_strlen p).
Proof. apply reads_bind; [apply reads_load_buf|]. intros. apply reads_of_opt. Qed.

Lemma reads_k_print p : reads (k_print p).
Proof. apply reads_bind; [apply reads_k_strlen|]. intros. apply reads_ret. Qed.

Lemma reads_k_strncmp p q n : reads (k_strncmp p q n).
Proof.
  unfold k_strncmp. case_decide; [apply reads_ret|].
  do 2 (apply reads_bind; [apply reads_load_buf|intros]). apply reads_of_opt.
Qed.

#[export] Hint Resolve reads_ret reads_crash reads_of_opt reads_lookup_obj reads_load_buf
  reads_load_node reads_k_strlen reads_k_print reads_k_strncmp : monitor.

(** The first operation of a run that only reads. *)
Ltac kread H :=
  let a := fresh "a" in let w := fresh "w" in let Hr := fresh "Hr" in
  apply bind_Ret_inv in H as (a & w & Hr & H);
  match type of Hr with ?m _ = _ =>
    let Hm := fresh in assert (reads m) as Hm by (eauto with monitor);
    apply Hm in Hr; clear Hm; subst w end.

(** ** The string functions on terminated strings *)

Section run_strings.
(** A comparison with NULL crashes the kernel, one way or the other. *)
Lemma k_strcmp_null {A} p (k : Z → K A) w a w' : ((k_strcmp p NULL ≫= k) w = Ret a w') ↔ False.
Proof.
  split; [|done]. unfold k_strcmp, mbind, K_bind. destruct (load_buf p w) as [b w1|f]; [|done].
  by rewrite load_buf_null.
Qed.

Lemma run_k_strcmp p q b1 b2 s1 s2 w :
  mem w !! p = Some (OBuf b1) → mem w !! q = Some (OBuf b2) → p ≠ NULL → q ≠ NULL →
  c_str b1 = Some s1 → c_str b2 = Some s2 →
  ∃ c, k_strcmp p q w = Ret c w ∧ (c = 0%Z ↔ s1 = s2).
Proof.
  intros Hp Hq Hpn Hqn H1 H2. destruct (strcmp_spec _ _ _ _ H1 H2) as (c & Hc & Hiff).
  exists c. split; [|done]. unfold k_strcmp. kstep. kstep. by apply run_of_opt.
Qed.

Lemma run_k_strcmp_bounded p q b1 b2 s1 w :
  mem w !! p = Some (OBuf b1) → mem w !! q = Some (OBuf b2) → p ≠ NULL → q ≠ NULL →
  c_str b1 = Some s1 → length s1 < length b2 →
  ∃ c, k_strcmp p q w = Ret c w ∧ (c = 0%Z ↔ c_str b2 = Some s1).
Proof.
  intros Hp Hq Hpn Hqn H1 H2. destruct (strcmp_bounded _ b2 _ H1 H2) as (c & Hc & Hiff).
  exists c. split; [|done]. unfold k_strcmp. kstep. kstep. by apply run_of_opt.
Qed.

Lemma run_k_strlen p b s w :
  mem w !! p = Some (OBuf b) → p ≠ NULL → c_str b = Some s → k_strlen p w = Ret (length s) w.
Proof.
  intros Hp Hn Hs. unfold k_strlen. kstep. apply run_of_opt. by rewrite strlen_c_str, Hs.
Qed.

Lemma run_k_print p b s w :
  mem w !! p = Some (OBuf b) → p ≠ NULL → c_str b = Some s → k_print p w = Ret tt w.
Proof.
  intros Hp Hn Hs. unfold k_print. by erewrite K_bind_Ret by (by eapply run_k_strlen).
Qed.

Lemma run_k_strncmp p q b1 b2 s1 s2 n w :
  mem w !! p = Some (OBuf b1) → mem w !! q = Some (OBuf b2) → p ≠ NULL → q ≠ NULL →
  c_str b1 = Some s1 → c_str b2 = Some s2 → n ≤ length s2 →
  ∃ c, k_strncmp p q n w = Ret c w ∧ (c = 0%Z ↔ take n s2 `prefix_of` s1).
Proof.
  intros Hp Hq Hpn Hqn H1 H2 Hn. destruct (strncmp_spec _ _ _ _ n H1 H2 Hn) as (c & Hc & Hiff).
  unfold k_strncmp. case_decide as H0.
  - exists 0%Z. split; [done|]. subst n. split; [|done]. intros _. apply prefix_nil.
  - exists c. split; [|done]. kstep. kstep. by apply run_of_opt.
Qed.

Lemma run_k_strcpy p q b1 b2 s w :
  mem w !! p = Some (OBuf b1) → mem w !! q = Some (OBuf b2) → p ≠ NULL → q ≠ NULL →
  c_str b2 = Some s → length s < length b1 →
  k_strcpy p q w = Ret tt (w_store p (OBuf (s ++ NUL :: drop (S (length s)) b1)) w).
Proof.
  intros Hp Hq Hpn Hqn Hs Hl. unfold k_strcpy. kstep. kstep.
  erewrite K_bind_Ret by (by apply run_of_opt, strcpy_spec). by eapply run_store_buf.
Qed.
End run_strings.
