(* ===== verification/Utils.v ===== *)
(** * Checks and helpers (reference-monitor/utils/utils.c)

    Password hashing and checking, the privilege and state checks of the
    system calls, and the path of a dentry.  The kernel crypto API and the
    dentry cache are parameters ([Crypto], [Vfs]). *)

From S2P Require Import Prelude CString Kernel.

(** The crypto API: whether [crypto_alloc_shash] succeeds, the error
    [crypto_shash_digest] returns (0 for none), both at the allocation request
    that comes next, and the SHA-256 digest of a message. *)
Class Crypto := {
  crypto_alloc_shash_ok : nat → bool;
  crypto_shash_digest_err : nat → Z;
  sizeof_shash_desc : nat;
  crypto_shash_descsize : nat;
  sha256 : buf → buf;
}.

Class CryptoLaws `{CR : Crypto} : Prop := {
  length_sha256 msg : length (sha256 msg) = 32;
}.

(** The dentry cache: [dentry_path_raw(d, buf, n)] is an error or the path it
    leaves at the end of the buffer. *)
Class Vfs := {
  dentry : Type;
  d_parent : dentry → dentry;
  dentry_path_raw : dentry → nat → Z + buf;
}.

Class VfsLaws `{VF : Vfs} : Prop := {
  dentry_path_raw_fits d n s : dentry_path_raw d n = inr s → length s < n;
  dentry_path_raw_no_nul d n s : dentry_path_raw d n = inr s → no_nul s;
}.

(** ** Hexadecimal text *)

Definition hex_digit (n : N) : ascii :=
  ascii_of_N (if (n <? 10)%N then 48 + n else 87 + n)%N.

(** [sprintf(_, "%02x", c)] of an [unsigned char]. *)
Definition hex2 (c : ascii) : buf :=
  [hex_digit (N_of_ascii c / 16); hex_digit (N_of_ascii c mod 16)].

Definition hex (digest : buf) : buf := mjoin (hex2 <$> digest).

Section utils.
Context `{AL : Alloc} `{CR : Crypto} `{VF : Vfs}.

(** ** encrypt_password *)

(** The loop that prints the digest, from byte [i] on, [n] bytes left. *)
Fixpoint print_digest (result digest : ptr) (i n : nat) : K unit :=
  match n with
  | O => mret tt
  | S n' =>
      d ← load_buf digest;
      c ← of_opt Overrun (d !! i);
      r ← load_buf result;
      r' ← of_opt Overrun (sprintf_at r (i * 2) (hex2 c));
      store_buf result r' ;;
      print_digest result digest (S i) n'
  end.

(** The label [out]. *)
Definition encrypt_out (digest desc result : ptr) : K ptr :=
  (if decide (digest = NULL) then mret tt else kfree digest) ;;
  (if decide (desc = NULL) then mret tt else kfree desc) ;;
  mret result.

Definition get_clock : K nat := λ w, Ret (clock w) w.

Definition encrypt_password (password : ptr) : K ptr :=
  t ← get_clock;
  if negb (crypto_alloc_shash_ok t) then mret NULL else
  desc ← kmalloc (sizeof_shash_desc + crypto_shash_descsize);
  (* the jump to out reads the uninitialised variable digest *)
  if decide (desc = NULL) then crash UninitRead else
  digest ← kmalloc 32;
  if decide (digest = NULL) then encrypt_out digest desc NULL else
  len ← k_strlen password;
  msg ← load_buf password;
  t ← get_clock;
  if decide (crypto_shash_digest_err t ≠ 0%Z) then encrypt_out digest desc NULL else
  d ← load_buf digest;
  d' ← of_opt Overrun (write_at d 0 (sha256 (take len msg)));
  store_buf digest d' ;;
  result ← kmalloc (2 * 32 + 1);
  if decide (result = NULL) then encrypt_out digest desc NULL else
  print_digest result digest 0 32 ;;
  encrypt_out digest desc result.

(** ** Checks of the system calls *)

Definition is_rf_rec : K Z :=
  r ← get_rf;
  if (rf_state r <? 2)%Z then mret (- EPERM)%Z else mret 0%Z.

Definition password_check (password : user_ptr) : K Z :=
  kernel_password ← kmalloc PASSW_LEN;
  if decide (kernel_password = NULL) then mret (- ENOMEM)%Z else
  ret ← copy_from_user kernel_password password PASSW_LEN;
  if decide (ret ≠ 0%Z) then kfree kernel_password ;; mret (- EAGAIN)%Z else
  enc ← encrypt_password kernel_password;
  r ← get_rf;
  c ← k_strcmp (rf_password r) enc;
  if decide (c ≠ 0%Z) then kfree kernel_password ;; mret (- EACCES)%Z else
  kfree kernel_password ;; mret 0%Z.

(** [uid_eq(euid, GLOBAL_ROOT_UID)] compares with 0. *)
Definition euid_check (euid : Z) : Z :=
  if negb (euid =? 0)%Z then (- EPERM)%Z else 0%Z.

Definition rf_state_check (state : Z) : Z :=
  if (state <? 0)%Z || (3 <? state)%Z then (- EINVAL)%Z else 0%Z.

(** ** get_path_from_dentry *)

Definition get_path_from_dentry (d : dentry) : K ptr :=
  buffer ← kmalloc PAGE_SIZE;
  if decide (buffer = NULL) then mret NULL else
  match dentry_path_raw d PATH_MAX with
  | inl _ => kfree buffer ;; mret NULL
  | inr s =>
      (* the path ends at the end of the buffer: ret = buffer + off *)
      let off := PATH_MAX - S (length s) in
      b ← load_buf buffer;
      b' ← of_opt Overrun (write_at b off (s ++ [NUL]));
      store_buf buffer b' ;;
      len ← of_opt Overrun (strlen (drop off b'));
      full_path ← kmalloc (len + 2);
      if decide (full_path = NULL) then mret NULL else
      f ← load_buf full_path;
      f' ← of_opt Overrun (strncpy f (drop off b') len);
      f'' ← of_opt Overrun (write_at f' (len + 1) [NUL]);
      store_buf full_path f'' ;;
      kfree buffer ;;
      mret full_path
  end.
End utils.

(** ** Facts: hexadecimal text *)

Lemma hex_digit_inj (m n : N) : (m < 16)%N → (n < 16)%N → hex_digit m = hex_digit n → m = n.
Proof.
  unfold hex_digit. intros Hm Hn Heq%(f_equal N_of_ascii).
  destruct (N.ltb_spec m 10), (N.ltb_spec n 10);
    rewrite !N_ascii_embedding in Heq by lia; lia.
Qed.

Lemma N_of_ascii_lt (c : ascii) : (N_of_ascii c < 256)%N.
Proof. apply N_ascii_bounded. Qed.

Lemma hex2_inj (c d : ascii) : hex2 c = hex2 d → c = d.
Proof.
  unfold hex2. intros Heq. injection Heq as H1 H2.
  pose proof (N_of_ascii_lt c). pose proof (N_of_ascii_lt d).
  apply hex_digit_inj in H1; [|apply N.Div0.div_lt_upper_bound; lia..].
  apply hex_digit_inj in H2; [|apply N.mod_lt; lia..].
  rewrite <- (ascii_N_embedding c), <- (ascii_N_embedding d). f_equal.
  rewrite (N.div_mod (N_of_ascii c) 16), (N.div_mod (N_of_ascii d) 16) by lia. lia.
Qed.

Lemma hex_cons (c : ascii) (d : buf) : hex (c :: d) = hex2 c ++ hex d.
Proof. reflexivity. Qed.

Lemma hex_inj (d1 d2 : buf) : length d1 = length d2 → hex d1 = hex d2 → d1 = d2.
Proof.
  revert d2. induction d1 as [|c d1 IH]; intros [|c2 d2] Hl Heq; try done.
  rewrite !hex_cons in Heq.
  apply app_inj_1 in Heq as [Hc Heq]; [|done].
  apply hex2_inj in Hc as ->. f_equal. apply IH; [by simplify_eq/=|done].
Qed.

Lemma length_hex (d : buf) : length (hex d) = 2 * length d.
Proof.
  induction d as [|c d IH]; [done|]. rewrite hex_cons, length_app, IH. simpl. lia.
Qed.

Lemma hex_digit_not_nul (n : N) : (n < 16)%N → hex_digit n ≠ NUL.
Proof.
  unfold hex_digit. intros Hn Heq%(f_equal N_of_ascii).
  destruct (N.ltb_spec n 10); rewrite N_ascii_embedding in Heq by lia;
    change (N_of_ascii NUL) with 0%N in Heq; lia.
Qed.

Lemma no_nul_hex (d : buf) : no_nul (hex d).
Proof.
  unfold no_nul. induction d as [|c d IH]; [by apply not_elem_of_nil|].
  rewrite hex_cons, elem_of_app. intros [Hin|Hin]; [|done].
  pose proof (N_of_ascii_lt c). unfold hex2 in Hin.
  rewrite !elem_of_cons in Hin. destruct Hin as [Hin|[Hin|Hin]].
  - symmetry in Hin. revert Hin. apply hex_digit_not_nul, N.Div0.div_lt_upper_bound. lia.
  - symmetry in Hin. revert Hin. apply hex_digit_not_nul, N.mod_lt. lia.
  - set_solver.
Qed.

(** ** Facts: encrypt_password *)

Section encrypt.
Context `{AL : Alloc} `{CR : Crypto} `{CL : !CryptoLaws}.

(** The effect of the printing loop on the result buffer. *)
Fixpoint print_buf (r d : buf) (i n : nat) : option buf :=
  match n with
  | O => Some r
  | S n' => c ← d !! i; r' ← sprintf_at r (i * 2) (hex2 c); print_buf r' d (S i) n'
  end.

Lemma run_print_digest result digest i n r d r' w :
  mem w !! digest = Some (OBuf d) → mem w !! result = Some (OBuf r) →
  digest ≠ NULL → result ≠ NULL → digest ≠ result → print_buf r d i n = Some r' →
  print_digest result digest i n w = Ret tt (w_store result (OBuf r') w).
Proof.
  revert i r w. induction n as [|n IH]; intros i r w Hd Hr Hdn Hrn Hne; simpl.
  { intros [= ->]. by rewrite w_store_id. }
  destruct (d !! i) as [c|] eqn:Hc; simpl; [|done].
  destruct (sprintf_at r (i * 2) (hex2 c)) as [r1|] eqn:Hr1; simpl; [|done]. intros Hp.
  kstep. kstep. kstep. kstep. kstep.
  rewrite (IH _ r1); [by rewrite w_store_store| | |done..].
  - simpl. by rewrite lookup_insert_ne.
  - simpl. apply lookup_insert_eq.
Qed.

Lemma print_buf_hex a k d0 d1 t :
  length a = length d0 * 2 → length t = S (length k * 2) →
  print_buf (a ++ t) (d0 ++ k ++ d1) (length d0) (length k) =
  Some (a ++ hex k ++ (if decide (k = []) then t else [NUL])).
Proof.
  revert a d0 t. induction k as [|c k IH]; intros a d0 t Ha Ht; [done|].
  cbn [print_buf length app].
  rewrite (list_lookup_middle _ _ _ (length d0)) by done. simpl in Ht |- *.
  destruct t as [|t1 [|t2 [|t3 t]]]; simpl in Ht; try lia.
  unfold sprintf_at. rewrite <- Ha.
  change (a ++ t1 :: t2 :: t3 :: t) with (a ++ [t1; t2; t3] ++ t).
  rewrite write_at_app by done. simpl.
  replace (d0 ++ c :: k ++ d1) with ((d0 ++ [c]) ++ k ++ d1) by by rewrite <- app_assoc.
  replace (S (length d0)) with (length (d0 ++ [c])) by len.
  replace (a ++ hex_digit (N_of_ascii c / 16) :: hex_digit (N_of_ascii c `mod` 16) :: NUL :: t)
    with ((a ++ hex2 c) ++ NUL :: t) by by rewrite <- app_assoc.
  rewrite IH; [|simpl in *; rewrite !length_app; simpl; lia|simpl; lia].
  rewrite <- app_assoc. repeat f_equal. destruct k as [|c' k]; [|done].
  destruct t; [done|simpl in Ht; lia].
Qed.

Lemma print_buf_digest t d :
  d ≠ [] → length t = S (length d * 2) → print_buf t d 0 (length d) = Some (hex d ++ [NUL]).
Proof.
  intros Hd Ht. pose proof (print_buf_hex [] d [] [] t eq_refl Ht) as Hp.
  by rewrite decide_False, app_nil_r in Hp.
Qed.

(** Memory and the crypto API serve the hash computed at request [n]. *)
Definition crypto_up (n : nat) : Prop :=
  crypto_alloc_shash_ok n = true ∧ kmalloc_ok n = true ∧ kmalloc_ok (S n) = true ∧
  crypto_shash_digest_err (S (S n)) = 0%Z ∧ kmalloc_ok (S (S n)) = true.

Lemma encrypt_password_run p b msg w :
  wf w → mem w !! p = Some (OBuf b) → c_str b = Some msg → crypto_up (clock w) →
  ∃ r w', encrypt_password p w = Ret r w' ∧ extends w w' ∧ r = (brk w + 2)%N ∧
    mem w' !! r = Some (OBuf (hex (sha256 msg) ++ [NUL])) ∧ clock w' = clock w + 3 ∧
    mem w' = <[r := OBuf (hex (sha256 msg) ++ [NUL])]> (mem w).
Proof.
  intros Hwf Hp Hmsg (Hc & Hk1 & Hk2 & He & Hk3).
  pose proof (proj2 Hwf _ _ Hp) as Hlt. pose proof (proj1 Hwf) as Hb.
  assert (strlen b = Some (length msg)) as Hlen by by rewrite strlen_c_str, Hmsg.
  apply c_str_Some in Hmsg as [Hnn [rest ->]].
  eexists _, _. split.
  { unfold encrypt_password, k_strlen. kstep. rewrite Hc. cbn [negb].
  kstep. kdec. kstep. kdec.
  erewrite K_bind_Ret by (kstep; by apply run_of_opt).
  kstep. kstep. rewrite decide_False by (intros Hn; by apply Hn).
  rewrite take_app_length. kstep.
  erewrite K_bind_Ret by
    (apply run_of_opt, write_at_all; by rewrite length_sha256, length_fresh_bytes).
  kstep. kstep. kdec.
  erewrite K_bind_Ret.
  2:{ eapply run_print_digest; [kmem|kmem|kptr|kptr|kptr|].
      rewrite <- (length_sha256 msg) at 2. apply print_buf_digest.
      - intros Hn. pose proof (length_sha256 msg). by rewrite Hn in *.
      - by rewrite length_fresh_bytes, length_sha256. }
  unfold encrypt_out. kdec. kdec. kstep. kstep. reflexivity. }
  split; [kext|split; [kptr|split; [kmem|split; [simpl; lia|]]]]. ksimpl. apply map_eq. intros q.
  pose proof (λ q, wf_heap_fresh (w_heap w) q Hwf) as Hfr.
  destruct (decide (q = brk w)) as [->|H0]; [rewrite lookup_delete_eq, lookup_insert_ne by kptr; symmetry; apply Hfr; lia|].
  destruct (decide (q = N.succ (brk w))) as [->|H1];
    [rewrite lookup_delete_ne, lookup_delete_eq, lookup_insert_ne by kptr; symmetry; apply Hfr; lia|].
  rewrite !lookup_delete_ne by kptr.
  destruct (decide (q = N.succ (N.succ (brk w)))) as [->|H2]; [by rewrite !lookup_insert_eq|].
  by rewrite !lookup_insert_ne by kptr.
Qed.

(** When a request or the digest fails, the only result is NULL. *)
Lemma encrypt_password_down p b r w w' :
  wf w → mem w !! p = Some (OBuf b) → ¬ crypto_up (clock w) →
  encrypt_password p w = Ret r w' → r = NULL.
Proof.
  intros Hwf Hp Hdown.
  pose proof (proj2 Hwf _ _ Hp) as Hlt. pose proof (proj1 Hwf) as Hb.
  unfold encrypt_password, k_strlen. kstep.
  destruct (crypto_alloc_shash_ok (clock w)) eqn:Hc; cbn [negb]; [|by intros [= <- <-]].
  destruct (kmalloc_ok (clock w)) eqn:Hk1; kstep; [|by kdec]. kdec.
  destruct (kmalloc_ok (S (clock w))) eqn:Hk2; kstep.
  2:{ kdec. unfold encrypt_out. kdec. kdec. kstep. kstep. by intros [= <- <-]. }
  kdec. destruct (strlen b) as [n|] eqn:Hlen.
  2:{ erewrite K_bind_Crash; [done|]. kstep. by rewrite Hlen. }
  erewrite K_bind_Ret by (kstep; by apply run_of_opt). kstep. kstep.
  destruct (decide (crypto_shash_digest_err (S (S (clock w))) = 0%Z)) as [He|He].
  2:{ rewrite decide_True by done. unfold encrypt_out. kdec. kdec. kstep. kstep.
      by intros [= <- <-]. }
  rewrite decide_False by (intros Hn; by apply Hn). kstep.
  erewrite K_bind_Ret by
    (apply run_of_opt, write_at_all; by rewrite length_sha256, length_fresh_bytes).
  kstep. destruct (kmalloc_ok (S (S (clock w)))) eqn:Hk3; [by destruct Hdown|].
  kstep. kdec. unfold encrypt_out. kdec. kdec. kstep. kstep. by intros [= <- <-].
Qed.

#[export] Instance crypto_up_dec n : Decision (crypto_up n).
Proof. unfold crypto_up. apply _. Defined.
End encrypt.

(** ** Framing *)

Section utils_frame.
Context `{AL : Alloc} `{CR : Crypto} `{VF : Vfs} (w0 : world) (Hwf : wf w0).

Lemma keeps_get_clock : keeps w0 get_clock (λ _, True).
Proof. by intros w a w' He [= <- <-]. Qed.

Lemma keeps_print_digest result digest i n :
  new_ptr w0 result → keeps w0 (print_digest result digest i n) (λ _, True).
Proof.
  intros Hr. revert i. induction n as [|n IH]; intros i; simpl; [by apply keeps_ret|].
  kkeeps.
Qed.

Lemma keeps_encrypt_out digest desc result :
  new_ptr w0 digest → new_ptr w0 desc → new_ptr w0 result →
  keeps w0 (encrypt_out digest desc result) (new_ptr w0).
Proof. intros. unfold encrypt_out. kkeeps. Qed.

Hint Resolve keeps_get_clock keeps_print_digest keeps_encrypt_out : monitor.

Lemma keeps_encrypt_password p : keeps w0 (encrypt_password p) (new_ptr w0).
Proof. unfold encrypt_password. kkeeps. Qed.

Hint Resolve keeps_encrypt_password : monitor.

Lemma keeps_password_check u : keeps w0 (password_check u) (λ _, True).
Proof. unfold password_check. kkeeps. Qed.

Lemma keeps_get_path_from_dentry d : keeps w0 (get_path_from_dentry d) (new_ptr w0).
Proof. unfold get_path_from_dentry. kkeeps. Qed.
End utils_frame.

#[export] Hint Resolve keeps_get_clock keeps_encrypt_password keeps_password_check
  keeps_get_path_from_dentry : monitor.

(** ** password_check *)

Section password.
Context `{AL : Alloc} `{CR : Crypto} `{CL : !CryptoLaws}.

(** The monitor holds the text of the digest [dg]. *)
Definition stored_digest (w : world) (dg : buf) : Prop :=
  length dg = 32 ∧ mem w !! rf_password (rf w) = Some (OBuf (hex dg ++ [NUL])).

Lemma stored_digest_extends w w' dg : extends w w' → stored_digest w dg → stored_digest w' dg.
Proof.
  intros He [Hl Hs]. split; [done|]. rewrite (extends_glob _ _ He). by eapply extends_lookup.
Qed.

(** With memory and crypto available, a readable terminated password is
    accepted exactly when it hashes to the stored digest. *)
Lemma password_check_run u pw dg w :
  wf w → stored_digest w dg → kmalloc_ok (clock w) = true → crypto_up (S (clock w)) →
  PASSW_LEN ≤ length u → c_str (take PASSW_LEN u) = Some pw →
  ∃ w', password_check u w = Ret (if decide (sha256 pw = dg) then 0 else - EACCES)%Z w' ∧
    extends w w' ∧ clock w' = clock w + 4.
Proof.
  intros Hwf [Hdl Hdg] Hk Hcu Hlen Hpw. pose proof (proj1 Hwf) as Hb.
  pose proof (proj2 Hwf _ _ Hdg) as Hdgp.
  set (w1 := w_alloc (OBuf (fresh_bytes (clock w) PASSW_LEN)) w).
  set (w2 := w_store (brk w) (OBuf (take PASSW_LEN u)) w1).
  assert (extends w w2) as He2 by (unfold w2, w1; kext).
  destruct (encrypt_password_run (brk w) (take PASSW_LEN u) pw w2)
    as (r & w3 & Henc & He3 & Hr & Hmr & Hc3 & _); [by eapply extends_wf|apply lookup_insert_eq|done|exact Hcu|].
  assert (extends w w3) as He by by etransitivity.
  assert (mem w3 !! brk w = Some (OBuf (take PASSW_LEN u))) as Hkp
    by (eapply (extends_lookup w2); [done|apply lookup_insert_eq]).
  pose proof (extends_brk _ _ He2). pose proof (extends_wf _ _ He Hwf) as Hwf3.
  assert (r ≠ NULL) as Hrn by (by eapply wf_heap_not_null).
  destruct (run_k_strcmp (rf_password (rf w3)) r (hex dg ++ [NUL]) (hex (sha256 pw) ++ [NUL])
              (hex dg) (hex (sha256 pw)) w3) as (c & Hc & Hiff).
  { rewrite (extends_glob _ _ He). by eapply extends_lookup. }
  { done. } { rewrite (extends_glob _ _ He). kptr. } { done. }
  { apply c_str_app, no_nul_hex. } { apply c_str_app, no_nul_hex. }
  exists (w_free (brk w) w3). split; [|split; [kext|by simpl; rewrite Hc3; simpl; lia]].
  unfold password_check. kstep. fold w1. kdec.
  erewrite K_bind_Ret.
  2:{ eapply run_copy_from_user; [kmem|kptr|by rewrite length_fresh_bytes]. }
  replace (PASSW_LEN - length u) with 0 by lia. rewrite app_nil_r. fold w2.
  rewrite decide_False by (intros Hn; by apply Hn).
  erewrite K_bind_Ret by done. kstep. erewrite K_bind_Ret by done.
  assert (c = 0%Z ↔ sha256 pw = dg) as Hcd.
  { rewrite Hiff. split; [|by intros ->]. intros Heq. symmetry.
    apply hex_inj; [by rewrite length_sha256|done]. }
  destruct (decide (c ≠ 0%Z)) as [Hc0|Hc0].
  - rewrite (decide_False (P := sha256 pw = dg)) by naive_solver. by kstep.
  - rewrite (decide_True (P := sha256 pw = dg)) by (apply Hcd, dec_stable, Hc0). by kstep.
Qed.

(** The other branches. *)
Lemma password_check_nomem u w :
  kmalloc_ok (clock w) = false → password_check u w = Ret (- ENOMEM)%Z (w_tick w).
Proof. intros Hk. unfold password_check. kstep. by kdec. Qed.

Lemma password_check_fault u w :
  wf w → kmalloc_ok (clock w) = true → length u < PASSW_LEN →
  ∃ w', password_check u w = Ret (- EAGAIN)%Z w' ∧ extends w w'.
Proof.
  intros Hwf Hk Hlen. pose proof (proj1 Hwf) as Hb.
  eexists. split.
  { unfold password_check. kstep. kdec. erewrite K_bind_Ret.
    2:{ eapply run_copy_from_user; [kmem|kptr|by rewrite length_fresh_bytes]. }
    rewrite decide_True by (unfold PASSW_LEN in *; lia). kstep. reflexivity. }
  kext.
Qed.

(** A password that fills its buffer with no terminator is read past the end. *)
Lemma password_check_overrun u w :
  wf w → kmalloc_ok (clock w) = true → crypto_up (S (clock w)) →
  PASSW_LEN ≤ length u → c_str (take PASSW_LEN u) = None →
  password_check u w = Crash Overrun.
Proof.
  intros Hwf Hk (Hc & Hk1 & Hk2 & _) Hlen Hnone. pose proof (proj1 Hwf) as Hb.
  unfold password_check. kstep. kdec.
  erewrite K_bind_Ret.
  2:{ eapply run_copy_from_user; [kmem|kptr|by rewrite length_fresh_bytes]. }
  replace (PASSW_LEN - length u) with 0 by lia. rewrite app_nil_r.
  rewrite decide_False by (intros Hn; by apply Hn).
  apply K_bind_Crash. unfold encrypt_password. kstep. cbn [clock w_store w_alloc w_heap h_clock].
  rewrite Hc. cbn [negb]. kstep. kdec. kstep. kdec.
  apply K_bind_Crash. unfold k_strlen. kstep. by rewrite strlen_c_str, Hnone.
Qed.

(** With no stored password the comparison dereferences NULL. *)
Lemma password_check_null u pw w :
  wf w → rf_password (rf w) = NULL → kmalloc_ok (clock w) = true → crypto_up (S (clock w)) →
  PASSW_LEN ≤ length u → c_str (take PASSW_LEN u) = Some pw → password_check u w = Crash NullDeref.
Proof.
  intros Hwf Hnull Hk Hcu Hlen Hpw. pose proof (proj1 Hwf) as Hb.
  set (w1 := w_alloc (OBuf (fresh_bytes (clock w) PASSW_LEN)) w).
  set (w2 := w_store (brk w) (OBuf (take PASSW_LEN u)) w1).
  assert (extends w w2) as He2 by (unfold w2, w1; kext).
  destruct (encrypt_password_run (brk w) (take PASSW_LEN u) pw w2)
    as (r & w3 & Henc & He3 & _); [by eapply extends_wf|apply lookup_insert_eq|done|exact Hcu|].
  unfold password_check. kstep. fold w1. kdec. erewrite K_bind_Ret.
  2:{ eapply run_copy_from_user; [kmem|kptr|by rewrite length_fresh_bytes]. }
  replace (PASSW_LEN - length u) with 0 by lia. rewrite app_nil_r. fold w2.
  rewrite decide_False by (intros Hn; by apply Hn).
  erewrite K_bind_Ret by done. kstep. apply K_bind_Crash.
  rewrite (extends_glob _ _ He3), (extends_glob _ _ He2), Hnull. done.
Qed.

(** Whatever the allocator and the crypto API answer, only a password that
    hashes to the stored digest is accepted. *)
Lemma password_check_sound u dg w w' :
  wf w → stored_digest w dg → password_check u w = Ret 0%Z w' →
  ∃ pw, c_str (take PASSW_LEN u) = Some pw ∧ sha256 pw = dg.
Proof.
  intros Hwf Hdg Hrun.
  destruct (kmalloc_ok (clock w)) eqn:Hk; [|by rewrite password_check_nomem in Hrun].
  destruct (decide (PASSW_LEN ≤ length u)) as [Hlen|Hlen].
  2:{ destruct (password_check_fault u w) as (? & Hf & _); [done|done|lia|by rewrite Hf in Hrun]. }
  destruct (decide (crypto_up (S (clock w)))) as [Hup|Hdown].
  - destruct (c_str (take PASSW_LEN u)) as [pw|] eqn:Hpw;
      [|by rewrite password_check_overrun in Hrun].
    destruct (password_check_run u pw dg w) as (w1 & Hr & _); [done..|].
    exists pw. split; [done|]. rewrite Hr in Hrun. by case_decide.
  - exfalso. revert Hrun. pose proof (proj1 Hwf) as Hb.
    unfold password_check. kstep. kdec. erewrite K_bind_Ret.
    2:{ eapply run_copy_from_user; [kmem|kptr|by rewrite length_fresh_bytes]. }
    replace (PASSW_LEN - length u) with 0 by lia. rewrite app_nil_r.
    rewrite decide_False by (intros Hn; by apply Hn).
    match goal with |- mbind _ _ ?w = _ → _ => set (w2 := w) end.
    assert (extends w w2) as He by (unfold w2; kext).
    destruct (encrypt_password (brk w) w2) as [r w3|f] eqn:Henc;
      [|by rewrite (K_bind_Crash _ _ _ _ Henc)].
    erewrite K_bind_Ret by exact Henc. kstep.
    apply (encrypt_password_down _ (take PASSW_LEN u)) in Henc as ->;
      [|by eapply extends_wf|apply lookup_insert_eq|done].
    by rewrite k_strcmp_null.
Qed.
End password.

Lemma run_is_rf_rec w :
  is_rf_rec w = Ret (if decide (rf_state (rf w) < 2)%Z then - EPERM else 0)%Z w.
Proof.
  unfold is_rf_rec. unfold get_rf, get_glob. kstep.
  destruct (Z.ltb_spec (rf_state (rf w)) 2); [rewrite decide_True by done|rewrite decide_False by lia]; done.
Qed.

(** ** get_path_from_dentry *)

Section get_path.
Context `{AL : Alloc} `{VF : Vfs} `{VL : !VfsLaws}.

(** With memory available the path comes back followed by one byte of fresh
    memory and a NUL. *)
Lemma get_path_run d s w :
  wf w → dentry_path_raw d PATH_MAX = inr s →
  kmalloc_ok (clock w) = true → kmalloc_ok (S (clock w)) = true →
  ∃ w', get_path_from_dentry d w = Ret (brk w + 1)%N w' ∧ extends w w' ∧
    clock w' = clock w + 2 ∧
    mem w' !! (brk w + 1)%N = Some (OBuf (s ++ [fresh_byte (S (clock w)) (length s); NUL])).
Proof.
  intros Hwf Hd Hk1 Hk2. pose proof (proj1 Hwf) as Hb.
  pose proof (dentry_path_raw_fits _ _ _ Hd) as Hfit.
  pose proof (dentry_path_raw_no_nul _ _ _ Hd) as Hnn.
  set (off := PATH_MAX - S (length s)).
  set (pg := fresh_bytes (clock w) PAGE_SIZE) in *.
  assert (length pg = PATH_MAX) as Hfl by apply length_fresh_bytes.
  assert (off = length pg - length (s ++ [NUL])) as Hoff by (unfold off; len).
  assert (write_at pg off (s ++ [NUL]) = Some (take off pg ++ s ++ [NUL])) as Hwr
    by (rewrite Hoff; apply write_at_end; len).
  assert (length (take off pg) = off) as Htl by len.
  assert (drop off (take off pg ++ s ++ [NUL]) = s ++ [NUL]) as Hdr.
  { rewrite <- Htl at 1. by rewrite drop_app_length. }
  assert (c_str (s ++ [NUL]) = Some s) as Hcs by by apply c_str_app.
  set (fr := fresh_bytes (S (clock w)) (length s + 2)).
  assert (fr = fresh_bytes (S (clock w)) (length s) ++
            [fresh_byte (S (clock w)) (length s); fresh_byte (S (clock w)) (S (length s))]) as Hfr.
  { unfold fr, fresh_bytes. rewrite seq_app, fmap_app. done. }
  eexists. split.
  { unfold get_path_from_dentry. kstep. kdec. rewrite Hd. fold off. kstep. fold pg.
    erewrite K_bind_Ret by (by apply run_of_opt). kstep.
    erewrite K_bind_Ret by (apply run_of_opt; rewrite Hdr, strlen_c_str, Hcs; done).
    kstep. kdec. kstep. cbn [clock w_store w_alloc w_heap h_clock]. fold fr.
    erewrite K_bind_Ret.
    2:{ apply run_of_opt. rewrite Hdr. apply strncpy_exact; [done|].
        unfold fr. rewrite length_fresh_bytes. lia. }
    erewrite K_bind_Ret.
    2:{ apply run_of_opt. rewrite Hfr, drop_app_length' by (by rewrite length_fresh_bytes).
        change (s ++ [fresh_byte (S (clock w)) (length s); fresh_byte (S (clock w)) (S (length s))])
          with (s ++ [fresh_byte (S (clock w)) (length s)] ++ [fresh_byte (S (clock w)) (S (length s))] ++ []).
        rewrite (app_assoc s).
        replace (length s + 1) with (length (s ++ [fresh_byte (S (clock w)) (length s)])) by len.
        by apply write_at_app. }
    kstep. kstep. unfold mret, K_ret. f_equal. kptr. }
  split; [kext|split; [simpl; lia|]].
  replace (brk w + 1)%N with (N.succ (brk w)) by lia. simpl.
  rewrite lookup_delete_ne by kptr. rewrite lookup_insert_eq.
  by rewrite <- app_assoc.
Qed.
End get_path.

(** ** Properties *)

Section utils_properties.
Context `{AL : Alloc} `{CR : Crypto} `{CL : !CryptoLaws} `{VF : Vfs} `{VL : !VfsLaws}.

(** With memory and the crypto API available, [encrypt_password] returns a
    new string with the hexadecimal text of the digest and has freed its two
    temporary buffers; two messages get the same text only when they have the
    same digest. *)
Theorem encrypt_password_correct p b msg msg' w :
  wf w → mem w !! p = Some (OBuf b) → c_str b = Some msg → crypto_up (clock w) →
  (∃ r w', encrypt_password p w = Ret r w' ∧ mem w !! r = None ∧ w_glob w' = w_glob w ∧
     mem w' = <[r := OBuf (hex (sha256 msg) ++ [NUL])]> (mem w)) ∧
  (hex (sha256 msg) = hex (sha256 msg') → sha256 msg = sha256 msg').
Proof.
  intros Hwf Hp Hmsg Hup. split.
  - destruct (encrypt_password_run p b msg w) as (r & w' & Hrun & He & -> & _ & _ & Hm); [done..|].
    exists (brk w + 2)%N, w'. split; [done|]. split; [|split; [by apply extends_glob|done]].
    apply wf_heap_fresh; [done|lia].
  - apply hex_inj. by rewrite !length_sha256.
Qed.

(** With memory and the crypto API available, a readable terminated password
    is accepted exactly when its digest is the stored one, and the check changes
    nothing the module had. *)
Theorem password_check_decides u pw dg w :
  wf w → stored_digest w dg → kmalloc_ok (clock w) = true → crypto_up (S (clock w)) →
  PASSW_LEN ≤ length u → c_str (take PASSW_LEN u) = Some pw →
  ∃ z w', password_check u w = Ret z w' ∧ extends w w' ∧ (z = 0%Z ↔ sha256 pw = dg) ∧
    (z ≠ 0%Z → z = (- EACCES)%Z).
Proof.
  intros Hwf Hdg Hk Hup Hl Hpw. destruct (password_check_run u pw dg w) as (w' & Hrun & He & _); [done..|].
  eexists _, w'. split; [exact Hrun|]. split; [done|]. case_decide; naive_solver.
Qed.

(** C17. Whatever the allocator and the crypto API answer, [password_check]
    returns 0 only for a terminated password with the stored digest. *)
Theorem password_check_never_wrong u dg w w' :
  wf w → stored_digest w dg → password_check u w = Ret 0%Z w' →
  extends w w' ∧ ∃ pw, c_str (take PASSW_LEN u) = Some pw ∧ sha256 pw = dg.
Proof.
  intros Hwf Hdg Hrun. split; [|by eapply password_check_sound].
  by apply (keeps_password_check w Hwf u w 0%Z w').
Qed.

(** The error branches of [password_check]: no memory, an unreadable
    password, and a password of 32 bytes with no terminator, which is read past
    the end of its buffer. *)
Theorem password_check_errors u w :
  wf w →
  (kmalloc_ok (clock w) = false → password_check u w = Ret (- ENOMEM)%Z (w_tick w)) ∧
  (kmalloc_ok (clock w) = true → length u < PASSW_LEN →
     ∃ w', password_check u w = Ret (- EAGAIN)%Z w' ∧ extends w w') ∧
  (kmalloc_ok (clock w) = true → crypto_up (S (clock w)) → PASSW_LEN ≤ length u →
     c_str (take PASSW_LEN u) = None → password_check u w = Crash Overrun).
Proof.
  intros Hwf. split; [apply password_check_nomem|]. split; [by apply password_check_fault|].
  by apply password_check_overrun.
Qed.

(** [get_path_from_dentry] returns a new string with the path of the dentry,
    followed by one byte it never writes: the string is the path when the
    allocator zeroes memory, and one byte longer when that byte is not NUL. *)
Theorem get_path_from_dentry_path d s w :
  wf w → dentry_path_raw d PATH_MAX = inr s → mem_up (clock w) 2 →
  ∃ p b w', get_path_from_dentry d w = Ret p w' ∧ extends w w' ∧ mem w' !! p = Some (OBuf b) ∧
    length b = length s + 2 ∧
    let c := fresh_byte (S (clock w)) (length s) in
    c_str b = Some (if decide (c = NUL) then s else s ++ [c]).
Proof.
  intros Hwf Hd Hup.
  destruct (get_path_run d s w) as (w' & Hrun & He & _ & Hm);
    [done|done|apply (mem_up_at _ _ 0 _ Hup); lia|apply (mem_up_at _ _ 1 _ Hup); lia|].
  eexists _, _, w'. split; [exact Hrun|]. split; [done|]. split; [exact Hm|]. split; [len|].
  pose proof (dentry_path_raw_no_nul _ _ _ Hd) as Hn. cbv zeta. case_decide as Hc.
  - rewrite Hc. by apply c_str_app.
  - change [?x; NUL] with ([x] ++ [NUL]). rewrite app_assoc. apply c_str_app.
    unfold no_nul in *. set_solver.
Qed.
End utils_properties.
