(* ===== verification/Blacklist.v ===== *)
(** * The blacklist (reference-monitor/utils/blacklist.c) and the test for a
    protected path ([is_blacklisted] of stack_reference_monitor.c)

    The list is the singly linked list of the C code, in the kernel heap.  The
    theorems relate it to the abstract blacklist: the sequence of protected
    paths and the counter. *)

From S2P Require Import Prelude CString Kernel.

(** An upper bound on the nodes a loop can visit on an acyclic list. *)
Definition loop_fuel : K nat := λ w, Ret (S (size (mem w))) w.

Section blacklist.
Context `{AL : Alloc}.

(** ** add_to_blacklist *)

(** [while (curr->next != NULL) {...}]: [None] when the path is found before
    the last node, which is the result otherwise. *)
Fixpoint find_last (fuel : nat) (curr kernel_rel_path : ptr) : K (option ptr) :=
  match fuel with
  | O => crash OutOfFuel
  | S fuel' =>
      n ← load_node curr;
      if decide (n_next n = NULL) then mret (Some curr) else
      c ← k_strcmp (n_path n) kernel_rel_path;
      if decide (c = 0%Z) then mret None else
      find_last fuel' (n_next n) kernel_rel_path
  end.

(** The three early returns of an existing path. *)
Definition add_exists (kernel_rel_path : ptr) : K Z :=
  spin_unlock ;; kfree kernel_rel_path ;; mret (- EEXIST)%Z.

(** The end of the function, once the node is linked. *)
Definition add_linked (kernel_rel_path : ptr) : K Z :=
  modify_rf (λ r, rf_with_size (int32 (rf_blacklist_size r + 1)) r) ;;
  spin_unlock ;; k_print kernel_rel_path ;; kfree kernel_rel_path ;; mret 0%Z.

(** The critical section: link the node [new] unless the path is there. *)
Definition add_insert (new kernel_rel_path : ptr) : K Z :=
  spin_lock ;;
  r ← get_rf;
  let curr := rf_blacklist_head r in
  if decide (curr = NULL) then
    modify_rf (rf_with_head new) ;; add_linked kernel_rel_path
  else
    n ← load_node curr;
    if decide (n_next n = NULL) then
      c ← k_strcmp (n_path n) kernel_rel_path;
      if decide (c = 0%Z) then add_exists kernel_rel_path else
      store_node curr (mk_node (n_path n) new) ;;
      add_linked kernel_rel_path
    else
      fuel ← loop_fuel;
      last ← find_last fuel curr kernel_rel_path;
      match last with
      | None => add_exists kernel_rel_path
      | Some curr =>
          n ← load_node curr;
          c ← k_strcmp (n_path n) kernel_rel_path;
          if decide (c = 0%Z) then add_exists kernel_rel_path else
          store_node curr (mk_node (n_path n) new) ;;
          add_linked kernel_rel_path
      end.

Definition add_to_blacklist (path : user_ptr) : K Z :=
  kernel_rel_path ← kmalloc PATH_MAX;
  if decide (kernel_rel_path = NULL) then mret (- ENOMEM)%Z else
  ret ← copy_from_user kernel_rel_path path PATH_MAX;
  if decide (ret = -1)%Z then kfree kernel_rel_path ;; mret (- EAGAIN)%Z else
  new ← kmalloc_node;
  if decide (new = NULL) then mret (- ENOMEM)%Z else
  new_path ← kmalloc PATH_MAX;
  n ← load_node new;
  store_node new (mk_node new_path (n_next n)) ;;
  k_strcpy new_path kernel_rel_path ;;
  add_insert new kernel_rel_path.

(** ** remove_from_blacklist *)

(** [while (curr != NULL && strcmp(curr->path, kernel_path) != 0) {...}];
    [prev] is uninitialised before the first iteration. *)
Fixpoint find_node (fuel : nat) (prev : option ptr) (curr kernel_path : ptr)
  : K (option ptr * ptr) :=
  match fuel with
  | O => crash OutOfFuel
  | S fuel' =>
      if decide (curr = NULL) then mret (prev, curr) else
      n ← load_node curr;
      c ← k_strcmp (n_path n) kernel_path;
      if decide (c = 0%Z) then mret (prev, curr) else
      find_node fuel' (Some curr) (n_next n) kernel_path
  end.

(** The labels [not_found] and [found]. *)
Definition remove_not_found (kernel_path : ptr) : K Z :=
  spin_unlock ;; k_print kernel_path ;; mret (- EINVAL)%Z.
Definition remove_found (kernel_path : ptr) : K Z :=
  spin_unlock ;; k_print kernel_path ;; mret 0%Z.

(** The critical section: unlink the node of the path. *)
Definition remove_unlink (kernel_path : ptr) : K Z :=
  spin_lock ;;
  r ← get_rf;
  let curr := rf_blacklist_head r in
  if decide (curr = NULL) then remove_not_found kernel_path else
  n ← load_node curr;
  c ← k_strcmp (n_path n) kernel_path;
  if decide (c = 0%Z) then
    modify_rf (rf_with_head (n_next n)) ;;
    modify_rf (λ r, rf_with_size (int32 (rf_blacklist_size r - 1)) r) ;;
    remove_found kernel_path
  else
    fuel ← loop_fuel;
    pc ← find_node fuel None curr kernel_path;
    let '(prev, curr) := pc in
    if decide (curr = NULL) then remove_not_found kernel_path else
    p ← of_opt UninitRead prev;
    n ← load_node curr;
    m ← load_node p;
    store_node p (mk_node (n_path m) (n_next n)) ;;
    remove_found kernel_path.

Definition remove_from_blacklist (path : user_ptr) : K Z :=
  kernel_path ← kmalloc PATH_MAX;
  if decide (kernel_path = NULL) then mret (- ENOMEM)%Z else
  ret ← copy_from_user kernel_path path PATH_MAX;
  if decide (ret = -1)%Z then kfree kernel_path ;; mret (- EAGAIN)%Z else
  remove_unlink kernel_path.

(** ** is_blacklisted *)

Definition slash : ascii := "/"%char.

(** [curr->path[strlen(curr->path) - 1]] *)
Definition last_char (b : buf) (len : nat) : option ascii :=
  match len with O => None | S i => b !! i end.

Fixpoint match_walk (fuel : nat) (curr path : ptr) : K Z :=
  match fuel with
  | O => crash OutOfFuel
  | S fuel' =>
      if decide (curr = NULL) then spin_unlock ;; mret 0%Z else
      n ← load_node curr;
      len ← k_strlen (n_path n);
      c ← k_strncmp path (n_path n) len;
      if decide (c = 0%Z) then spin_unlock ;; mret 1%Z else
      b ← load_buf (n_path n);
      ch ← of_opt Overrun (last_char b len);
      if decide (ch = slash) then
        c ← k_strncmp path (n_path n) (len - 1);
        if decide (c = 0%Z) then spin_unlock ;; mret 1%Z else
        match_walk fuel' (n_next n) path
      else match_walk fuel' (n_next n) path
  end.

Definition is_blacklisted (path : ptr) : K Z :=
  r ← get_rf;
  if decide (rf_blacklist_size r = 0%Z) then mret 0%Z else
  if decide (rf_state r = 1%Z ∨ rf_state r = 3%Z) then mret 0%Z else
  let curr := rf_blacklist_head r in
  spin_lock ;;
  fuel ← loop_fuel;
  match_walk fuel curr path.
End blacklist.

(** ** List segments *)

(** [seg m p q l]: the nodes [l], each with its address and its path, lead from
    [p] to [q]. *)
Fixpoint seg (m : gmap ptr obj) (p q : ptr) (l : list (ptr * buf)) : Prop :=
  match l with
  | [] => p = q
  | (x, s) :: l' =>
      p = x ∧ x ≠ NULL ∧ ∃ n b, m !! x = Some (ONode n) ∧ n_path n ≠ NULL ∧
        m !! n_path n = Some (OBuf b) ∧ c_str b = Some s ∧ seg m (n_next n) q l'
  end.

Abbreviation chain m p l := (seg m p NULL l).

Lemma seg_mono m m' p q l : m ⊆ m' → seg m p q l → seg m' p q l.
Proof.
  intros Hm. revert p. induction l as [|[x s] l IH]; intros p; simpl; [done|].
  intros (-> & Hx & n & b & Hn & Hnp & Hb & Hs & Hl). split; [done|split; [done|]].
  exists n, b. eauto 10 using lookup_weaken.
Qed.

Lemma seg_app m p q l1 l2 : seg m p q (l1 ++ l2) ↔ ∃ r, seg m p r l1 ∧ seg m r q l2.
Proof.
  revert p. induction l1 as [|[x s] l1 IH]; intros p; simpl.
  - naive_solver.
  - split.
    + intros (-> & Hx & n & b & Hn & Hnp & Hb & Hs & [r [H1 H2]]%IH). exists r. naive_solver.
    + intros (r & (-> & Hx & n & b & Hn & Hnp & Hb & Hs & H1) & H2).
      split; [done|split; [done|]]. exists n, b. repeat (split; [done|]). apply IH. eauto.
Qed.

Lemma chain_det m p l l' : chain m p l → chain m p l' → l = l'.
Proof.
  revert p l'. induction l as [|[x s] l IH]; intros p [|[x' s'] l']; simpl.
  1-3: naive_solver.
  intros (-> & Hx & n & b & Hn & Hnp & Hb & Hs & Hl) (<- & _ & n' & b' & Hn' & _ & Hb' & Hs' & Hl').
  simplify_eq. f_equal. by eapply IH.
Qed.

(** A list that ends in NULL visits no node twice. *)
Lemma chain_NoDup m p l : chain m p l → NoDup l.*1.
Proof.
  revert p. induction l as [|[x s] l IH]; intros p Hc; [by constructor|].
  pose proof Hc as (-> & Hx & n & b & Hn & Hnp & Hb & Hs & Hl).
  apply NoDup_cons. split; [|by eapply IH].
  intros ([x' s'] & Heq & Hin)%list_elem_of_fmap. simpl in Heq. subst x'.
  apply list_elem_of_split in Hin as (l1 & l2 & ->).
  apply seg_app in Hl as (r & _ & Hr). pose proof Hr as (-> & _).
  pose proof (chain_det _ _ _ _ Hc Hr) as Heq%(f_equal length). simpl in Heq. len.
Qed.

Lemma seg_dom m p q l : seg m p q l → list_to_set l.*1 ⊆ dom m.
Proof.
  revert p. induction l as [|[x s] l IH]; intros p; simpl; [set_solver|].
  intros (-> & Hx & n & b & Hn & _ & _ & _ & Hl%IH).
  apply elem_of_dom_2 in Hn. set_solver.
Qed.

(** The loops have enough fuel. *)
Lemma chain_size m p l : chain m p l → length l ≤ size m.
Proof.
  intros Hc. pose proof (chain_NoDup _ _ _ Hc) as Hnd.
  pose proof (subseteq_size _ _ (seg_dom _ _ _ _ Hc)) as Hsz.
  rewrite size_dom, size_list_to_set, length_fmap in Hsz by done. done.
Qed.

(** Changing a node outside the segment. *)
Lemma seg_store m p q l x n n' :
  m !! x = Some (ONode n) → x ∉ l.*1 → seg m p q l → seg (<[x:=ONode n']> m) p q l.
Proof.
  intros Hx. revert p. induction l as [|[y s] l IH]; intros p; simpl; [done|].
  rewrite not_elem_of_cons. intros [Hne Hnin] (-> & Hy & k & b & Hk & Hkp & Hb & Hs & Hl).
  split; [done|split; [done|]]. exists k, b.
  rewrite lookup_insert_ne by congruence. split; [done|split; [done|]].
  rewrite lookup_insert_ne by congruence. eauto.
Qed.

(** Linking a node after the last one. *)
Lemma chain_snoc m p l x s n y s' ny b' :
  chain m p (l ++ [(x, s)]) → m !! x = Some (ONode n) →
  m !! y = Some (ONode ny) → y ≠ NULL → y ∉ (l ++ [(x, s)]).*1 → n_next ny = NULL →
  n_path ny ≠ NULL → m !! n_path ny = Some (OBuf b') → c_str b' = Some s' →
  chain (<[x:=ONode (mk_node (n_path n) y)]> m) p (l ++ [(x, s)] ++ [(y, s')]).
Proof.
  intros Hc Hx Hy Hyn Hynin Hnext Hnp Hb' Hs'. pose proof (chain_NoDup _ _ _ Hc) as Hnd.
  rewrite fmap_app in Hnd, Hynin. apply NoDup_app in Hnd as (_ & Hdisj & _).
  apply seg_app in Hc as (r & H1 & H2). simpl in H2.
  destruct H2 as (-> & Hxn & n' & b & Hn' & Hn'p & Hb & Hs & Hend). simplify_eq.
  apply seg_app. exists x. split; [eapply seg_store; [done| |done]; set_solver|]. simpl.
  split; [done|split; [done|]]. eexists _, b. rewrite lookup_insert_eq. split; [done|].
  simpl. split; [done|]. rewrite lookup_insert_ne by congruence. split; [done|split; [done|]].
  split; [done|split; [done|]]. exists ny, b'.
  rewrite !lookup_insert_ne by (congruence || set_solver). done.
Qed.

(** Unlinking the node after [x]. *)
Lemma chain_unlink m p l1 x s y t l2 n ny :
  chain m p (l1 ++ (x, s) :: (y, t) :: l2) →
  m !! x = Some (ONode n) → m !! y = Some (ONode ny) →
  chain (<[x:=ONode (mk_node (n_path n) (n_next ny))]> m) p (l1 ++ (x, s) :: l2).
Proof.
  intros Hc Hx Hy. pose proof (chain_NoDup _ _ _ Hc) as Hnd.
  rewrite fmap_app in Hnd. apply NoDup_app in Hnd as (_ & Hdisj & Hnd2).
  rewrite !fmap_cons in Hnd2. apply NoDup_cons in Hnd2 as [Hxnin _].
  apply seg_app in Hc as (r & H1 & H2). simpl in H2.
  destruct H2 as (-> & Hxn & n' & b & Hn' & Hn'p & Hb & Hs & H2).
  destruct H2 as (Hnx & Hyn & k & b2 & Hk & Hkp & Hb2 & Ht & H3). simplify_eq.
  apply seg_app. exists x. split; [eapply seg_store; [done| |done]; set_solver|]. simpl.
  split; [done|split; [done|]]. eexists _, b. rewrite lookup_insert_eq. split; [done|].
  simpl. split; [done|]. rewrite lookup_insert_ne by congruence.
  split; [done|split; [done|]]. eapply seg_store; [done| |done]. set_solver.
Qed.

(** ** The loops *)

(** [e] protects the path [p]: it starts it, or it does without its final slash. *)
Definition matches (e p : buf) : Prop :=
  e `prefix_of` p ∨ (last e = Some slash ∧ take (length e - 1) e `prefix_of` p).

#[export] Instance matches_dec e p : Decision (matches e p).
Proof. unfold matches. apply _. Defined.

(** The world with the monitor's lock taken or released. *)
Definition w_lock (b : bool) (w : world) : world :=
  w_put (set_rf (rf_with_lock b (rf w)) (w_glob w)) w.

Lemma run_spin_lock w : rf_lock (rf w) = false → spin_lock w = Ret tt (w_lock true w).
Proof. intros Hl. unfold spin_lock. kstep. by rewrite Hl. Qed.

Lemma run_spin_unlock w : rf_lock (rf w) = true → spin_unlock w = Ret tt (w_lock false w).
Proof. intros Hl. unfold spin_unlock. kstep. by rewrite Hl. Qed.

Lemma last_char_c_str b s : c_str b = Some s → s ≠ [] → last_char b (length s) = last s.
Proof.
  intros [_ [r ->]]%c_str_Some Hs. destruct s as [|c s] using rev_ind; [done|].
  rewrite last_snoc, length_app, Nat.add_comm. simpl.
  rewrite <- app_assoc. by apply list_lookup_middle.
Qed.

Section walks.
Context `{AL : Alloc}.

Lemma find_last_run fuel curr l x s kp kb k w :
  chain (mem w) curr (l ++ [(x, s)]) →
  mem w !! kp = Some (OBuf kb) → kp ≠ NULL → c_str kb = Some k → length l < fuel →
  find_last fuel curr kp w = Ret (if decide (k ∈ l.*2) then None else Some x) w.
Proof.
  intros Hc Hkp Hkn Hk. revert fuel curr Hc.
  induction l as [|[y t] l IH]; intros [|fuel] curr Hc Hf; simpl in Hf; try lia.
  - destruct Hc as (-> & Hx & n & b & Hn & Hnp & Hb & Hs & Hend). cbn [find_last].
    kstep. rewrite decide_True by done. done.
  - destruct Hc as (-> & Hy & n & b & Hn & Hnp & Hb & Hs & Hl). cbn [find_last].
    kstep. rewrite decide_False.
    2:{ destruct l as [|[z u] l]; simpl in Hl; destruct Hl as (-> & ? & _); done. }
    destruct (run_k_strcmp (n_path n) kp b kb t k w) as (c & Hc & Hiff); [done..|].
    erewrite K_bind_Ret by done. rewrite fmap_cons. cbn [snd].
    destruct (decide (c = 0%Z)) as [H0|H0].
    + rewrite decide_True by (apply elem_of_cons; left; symmetry; by apply Hiff). done.
    + rewrite IH by (done || lia). f_equal. apply decide_ext. rewrite elem_of_cons.
      naive_solver.
Qed.

Lemma find_node_absent fuel prev curr l kp kb w :
  chain (mem w) curr l → mem w !! kp = Some (OBuf kb) → kp ≠ NULL →
  length l < fuel → Forall (λ s, length s < length kb ∧ c_str kb ≠ Some s) l.*2 →
  ∃ prev', find_node fuel prev curr kp w = Ret (prev', NULL) w.
Proof.
  intros Hc Hkp Hkn. revert fuel prev curr Hc.
  induction l as [|[y t] l IH]; intros [|fuel] prev curr Hc Hf Hnin; simpl in Hf; try lia.
  - simpl in Hc. subst curr. cbn [find_node]. rewrite decide_True by done. by eexists.
  - destruct Hc as (-> & Hy & n & b & Hn & Hnp & Hb & Hs & Hl). cbn [find_node].
    rewrite fmap_cons in Hnin. apply Forall_cons in Hnin as [[Hlen Hne] Hnin].
    rewrite decide_False by done. kstep.
    destruct (run_k_strcmp_bounded (n_path n) kp b kb t w) as (c & Hc & Hiff); [done..|].
    erewrite K_bind_Ret by done. rewrite decide_False by naive_solver.
    apply IH; [done|lia|done].
Qed.

Lemma find_node_present fuel prev curr l1 x s y l2 kp kb k w :
  chain (mem w) curr (l1 ++ (x, s) :: (y, k) :: l2) →
  mem w !! kp = Some (OBuf kb) → kp ≠ NULL → c_str kb = Some k →
  S (length l1) < fuel → k ∉ l1.*2 → k ≠ s →
  find_node fuel prev curr kp w = Ret (Some x, y) w.
Proof.
  intros Hc Hkp Hkn Hk. revert fuel prev curr Hc.
  induction l1 as [|[z t] l1 IH]; intros [|fuel] prev curr Hc Hf Hnin Hne; simpl in Hf; try lia.
  - destruct Hc as (-> & Hx & n & b & Hn & Hnp & Hb & Hs & Hl). cbn [find_node].
    rewrite decide_False by done. kstep.
    destruct (run_k_strcmp (n_path n) kp b kb s k w) as (c & Hc & Hiff); [done..|].
    erewrite K_bind_Ret by done. rewrite decide_False by naive_solver.
    destruct fuel as [|fuel]; [lia|].
    destruct Hl as (-> & Hy & n2 & b2 & Hn2 & Hnp2 & Hb2 & Hs2 & _). cbn [find_node].
    rewrite decide_False by done. kstep.
    destruct (run_k_strcmp (n_path n2) kp b2 kb k k w) as (c2 & Hc2 & Hiff2); [done..|].
    erewrite K_bind_Ret by done. rewrite decide_True by naive_solver. done.
  - destruct Hc as (-> & Hy & n & b & Hn & Hnp & Hb & Hs & Hl). cbn [find_node].
    rewrite fmap_cons in Hnin. cbn [snd] in Hnin. rewrite decide_False by done. kstep.
    destruct (run_k_strcmp (n_path n) kp b kb t k w) as (c & Hc & Hiff); [done..|].
    erewrite K_bind_Ret by done. rewrite decide_False by set_solver.
    apply IH; [done|lia|set_solver|done].
Qed.

Lemma match_walk_run fuel curr l pp pb p w :
  chain (mem w) curr l → mem w !! pp = Some (OBuf pb) → pp ≠ NULL → c_str pb = Some p →
  rf_lock (rf w) = true → length l < fuel →
  match_walk fuel curr pp w =
  Ret (if decide (Exists (λ e, matches e p) l.*2) then 1 else 0)%Z (w_lock false w).
Proof.
  intros Hc Hpp Hpn Hp Hlk. revert fuel curr Hc.
  induction l as [|[y t] l IH]; intros [|fuel] curr Hc Hf; simpl in Hf; try lia.
  - simpl in Hc. subst curr. cbn [match_walk]. rewrite decide_True by done.
    erewrite K_bind_Ret by (by apply run_spin_unlock).
    rewrite decide_False by (simpl; by inversion 1). done.
  - destruct Hc as (-> & Hy & n & b & Hn & Hnp & Hb & Hs & Hl). cbn [match_walk].
    rewrite decide_False by done. kstep.
    erewrite K_bind_Ret by (by eapply run_k_strlen).
    destruct (run_k_strncmp pp (n_path n) pb b p t (length t) w) as (c & Hc & Hiff); [done..|].
    rewrite take_ge in Hiff by done.
    erewrite K_bind_Ret by done. rewrite fmap_cons. cbn [snd].
    destruct (decide (c = 0%Z)) as [H0|H0].
    { erewrite K_bind_Ret by (by apply run_spin_unlock).
      rewrite decide_True; [done|]. apply Exists_cons. left. left. by apply Hiff. }
    assert (t ≠ []) as Htn by (intros ->; apply H0, Hiff, prefix_nil).
    kstep. destruct (last t) as [ch|] eqn:Hlast; [|by apply last_None in Hlast].
    erewrite K_bind_Ret by (apply run_of_opt; by erewrite last_char_c_str).
    destruct (decide (ch = slash)) as [->|Hch].
    + destruct (run_k_strncmp pp (n_path n) pb b p t (length t - 1) w)
        as (c2 & Hc2 & Hiff2); [done..|lia|].
      erewrite K_bind_Ret by done. destruct (decide (c2 = 0%Z)) as [H2|H2].
      { erewrite K_bind_Ret by (by apply run_spin_unlock).
        rewrite decide_True; [done|]. apply Exists_cons. left. right. naive_solver. }
      rewrite IH by (done || lia). do 2 f_equal. apply decide_ext. rewrite Exists_cons.
      unfold matches. naive_solver.
    + rewrite IH by (done || lia). do 2 f_equal. apply decide_ext. rewrite Exists_cons.
      unfold matches. naive_solver.
Qed.
End walks.

(** ** The abstract blacklist *)

Record blacklist := mk_blacklist { bl_paths : list buf; bl_size : Z }.

(** The buffer a system call fills from user space: what is readable, then NUL
    bytes; and the string in it. *)
Definition user_buf (u : user_ptr) : buf := take PATH_MAX u ++ replicate (PATH_MAX - length u) NUL.
Definition user_path (u : user_ptr) : option buf := c_str (user_buf u).

(** The abstract list with [k] added. *)
Definition bl_snoc (k : buf) (a : blacklist) : blacklist :=
  mk_blacklist (bl_paths a ++ [k]) (int32 (bl_size a + 1)).

(** The abstract list with [k] removed; the counter follows only when [k] was
    the first. *)
Definition bl_remove (k : buf) (a : blacklist) : blacklist :=
  mk_blacklist (filter (.≠ k) (bl_paths a))
    (if decide (head (bl_paths a) = Some k) then int32 (bl_size a - 1) else bl_size a).

Section spec.
Context `{AL : Alloc}.

(** What an addition does to the abstract blacklist, on every branch: the
    result and the new list, or the fault.  [n] is the allocation request that
    comes next. *)
Definition spec_add (n : nat) (u : user_ptr) (a : blacklist) : fault + Z * blacklist :=
  if negb (kmalloc_ok n) then inr ((- ENOMEM)%Z, a) else
  if negb (kmalloc_ok (S n)) then inr ((- ENOMEM)%Z, a) else
  if negb (kmalloc_ok (S (S n))) then inl NullDeref else
  match user_path u with
  | None => inl Overrun
  | Some k =>
      if decide (k ∈ bl_paths a) then inr ((- EEXIST)%Z, a)
      else inr (0%Z, bl_snoc k a)
  end.

(** What a removal does, on every branch. *)
Definition spec_remove (n : nat) (u : user_ptr) (a : blacklist) : fault + Z * blacklist :=
  if negb (kmalloc_ok n) then inr ((- ENOMEM)%Z, a) else
  match user_path u with
  | None => inl Overrun
  | Some k =>
      if decide (k ∈ bl_paths a) then
        inr (0%Z, bl_remove k a)
      else inr ((- EINVAL)%Z, a)
  end.
End spec.

(** The heap holds the abstract blacklist [a], and the lock is free. *)
Record bl_rep (w : world) (a : blacklist) : Prop := {
  rep_wf : wf w;
  rep_lock : rf_lock (rf w) = false;
  rep_chain : ∃ l, chain (mem w) (rf_blacklist_head (rf w)) l ∧ l.*2 = bl_paths a;
  rep_nodup : NoDup (bl_paths a);
  rep_len : Forall (λ s, length s < PATH_MAX) (bl_paths a);
  rep_size : rf_blacklist_size (rf w) = bl_size a;
}.

Lemma bl_rep_extends w w' a : extends w w' → bl_rep w a → bl_rep w' a.
Proof.
  intros He [Hwf Hlk (l & Hc & Hl) Hnd Hlen Hsz].
  split; rewrite ?(extends_glob _ _ He); try done.
  - by eapply extends_wf.
  - exists l. split; [|done]. eapply seg_mono; [|done]. apply He.
Qed.

(** Only list nodes and the list fields of the monitor changed. *)
Definition list_frame (w w' : world) : Prop :=
  (∀ q o, mem w !! q = Some o → (∀ n, o ≠ ONode n) → mem w' !! q = Some o) ∧
  ∃ h z, w_glob w' =
    set_rf (mk_rf (rf_state (rf w)) (rf_password (rf w)) h (rf_lock (rf w)) z) (w_glob w).

Lemma extends_list_frame w w' : extends w w' → list_frame w w'.
Proof.
  intros He. split; [by intros; eapply extends_lookup|].
  exists (rf_blacklist_head (rf w)), (rf_blacklist_size (rf w)).
  rewrite (extends_glob _ _ He). by destruct (w_glob w) as [[]].
Qed.

Lemma list_frame_trans w1 w2 w3 : list_frame w1 w2 → list_frame w2 w3 → list_frame w1 w3.
Proof.
  intros [H1 (h1 & z1 & Hg1)] [H2 (h2 & z2 & Hg2)]. split; [by intros; auto|].
  exists h2, z2. rewrite Hg2, Hg1. done.
Qed.

(** The critical section of an addition: [krp] holds the path, [new] a node
    with a copy of it, both outside the list. *)
Section critical.
Context `{AL : Alloc}.

(** The world in which the critical section ends. *)
Definition w_rf (r : reference_monitor) (w : world) : world := w_put (set_rf r (w_glob w)) w.

Lemma add_linked_run krp kb k w :
  rf_lock (rf w) = true → mem w !! krp = Some (OBuf kb) → krp ≠ NULL → c_str kb = Some k →
  add_linked krp w =
  Ret 0%Z (w_free krp (w_rf (rf_with_lock false
             (rf_with_size (int32 (rf_blacklist_size (rf w) + 1)) (rf w))) w)).
Proof.
  intros Hlk Hk Hkn Hs. unfold add_linked. kstep.
  erewrite K_bind_Ret by (by apply run_spin_unlock).
  erewrite K_bind_Ret by (by eapply run_k_print).
  by erewrite K_bind_Ret by (by eapply run_kfree).
Qed.

Lemma add_exists_run krp o w :
  rf_lock (rf w) = true → mem w !! krp = Some o → krp ≠ NULL →
  add_exists krp w = Ret (- EEXIST)%Z (w_free krp (w_lock false w)).
Proof.
  intros Hlk Hk Hkn. unfold add_exists.
  erewrite K_bind_Ret by (by apply run_spin_unlock).
  by erewrite K_bind_Ret by (by eapply run_kfree).
Qed.

(** The list search and link of [add_insert], on a list that is not empty. *)
Lemma add_insert_nonempty new krp kb k l x s w :
  rf_lock (rf w) = false → chain (mem w) (rf_blacklist_head (rf w)) (l ++ [(x, s)]) →
  mem w !! krp = Some (OBuf kb) → krp ≠ NULL → c_str kb = Some k →
  ∃ n, mem w !! x = Some (ONode n) ∧
  add_insert new krp w =
  if decide (k ∈ (l ++ [(x, s)]).*2) then add_exists krp (w_lock true w)
  else add_linked krp (w_store x (ONode (mk_node (n_path n) new)) (w_lock true w)).
Proof.
  intros Hlk Hc Hk Hkn Hs. pose proof Hc as Hc'.
  apply seg_app in Hc' as (r & Hl & Hx). simpl in Hx.
  destruct Hx as (-> & Hxn & n & b & Hn & Hnp & Hb & Hbs & Hend). exists n. split; [done|].
  unfold add_insert. erewrite K_bind_Ret by (by apply run_spin_lock). kstep. cbn zeta.
  change (rf_blacklist_head (g_rf (w_glob (w_lock true w)))) with (rf_blacklist_head (rf w)).
  destruct (run_k_strcmp (n_path n) krp b kb s k (w_lock true w)) as (c & Hcr & Hiff); [done..|].
  assert (k ∈ (l ++ [(x, s)]).*2 ↔ k ∈ l.*2 ∨ k = s) as Hin
    by (rewrite fmap_app, elem_of_app; simpl; by rewrite list_elem_of_singleton).
  destruct l as [|[y t] l].
  - simpl in Hl. rewrite Hl in *. rewrite decide_False by done.
    kstep. rewrite decide_True by done. erewrite K_bind_Ret by done.
    destruct (decide (c = 0%Z)) as [H0|H0].
    + rewrite decide_True; [done|]. apply Hin. right. symmetry. by apply Hiff.
    + rewrite decide_False by (rewrite Hin; set_solver). by kstep.
  - destruct Hl as (Hy & Hyn & ny & by_ & Hny & Hnyp & Hby & Hbys & Hl). rewrite Hy in *.
    rewrite decide_False by done. kstep. rewrite decide_False.
    2:{ destruct l as [|[z u] l]; simpl in Hl; [by rewrite Hl|]. by destruct Hl as (-> & ? & _). }
    kstep. erewrite K_bind_Ret.
    2:{ eapply find_last_run; [exact Hc|done|done|done|].
        apply chain_size in Hc. rewrite length_app in Hc. ksimpl. simpl in *. lia. }
    destruct (decide (k ∈ ((y, t) :: l).*2)) as [Hkl|Hkl].
    + rewrite decide_True; [done|]. apply Hin. by left.
    + kstep. erewrite K_bind_Ret by done. destruct (decide (c = 0%Z)) as [H0|H0].
      * rewrite decide_True; [done|]. apply Hin. right. symmetry. by apply Hiff.
      * rewrite decide_False by (rewrite Hin; intros [?|?]; [done|naive_solver]). by kstep.
Qed.
End critical.

Lemma w_lock_lock w : rf_lock (rf w) = false → w_lock false (w_lock true w) = w.
Proof. destruct w as [h [[s p hd lk z] ? ? ? ? ? ? ?]]. simpl. by intros ->. Qed.

Lemma wf_heap_store h x o o' c :
  wf_heap h → h_mem h !! x = Some o → wf_heap (mk_heap (<[x:=o']> (h_mem h)) (h_brk h) c).
Proof.
  intros [Hb Hwf] Hx. split; [done|]. simpl. intros p q Hp.
  destruct (decide (p = x)) as [->|Hne]; [by eapply Hwf|].
  rewrite lookup_insert_ne in Hp by done. by eapply Hwf.
Qed.

Section refinement.
Context `{AL : Alloc}.

(** A world [w] that extends [w0] by a buffer with the path [k] and a node with
    a copy of it. *)
Record add_ready (w0 w : world) (krp new : ptr) (k : buf) : Prop := {
  ar_extends : extends w0 w;
  ar_krp : ∃ kb, mem w !! krp = Some (OBuf kb) ∧ c_str kb = Some k;
  ar_krp_new : (brk w0 ≤ krp)%N;
  ar_new : (brk w0 ≤ new)%N;
  ar_node : ∃ pn pb, mem w !! new = Some (ONode (mk_node pn NULL)) ∧ (brk w0 ≤ pn)%N ∧
              pn ≠ krp ∧ mem w !! pn = Some (OBuf pb) ∧ c_str pb = Some k;
}.

Lemma add_insert_found w0 w krp new k a :
  bl_rep w0 a → add_ready w0 w krp new k → k ∈ bl_paths a →
  ∃ w', add_insert new krp w = Ret (- EEXIST)%Z w' ∧ list_frame w0 w' ∧ bl_rep w' a.
Proof.
  intros Hrep [He (kb & Hk & Hs) Hkn Hnn _] Hin.
  pose proof (rep_wf _ _ Hrep) as Hwf. pose proof (proj1 Hwf) as Hb.
  destruct (bl_rep_extends _ _ _ He Hrep) as [_ Hlk (l & Hc & Hl) _ _ _].
  destruct l as [|[x s] l _] using rev_ind; [rewrite <- Hl in Hin; by apply not_elem_of_nil in Hin|].
  destruct (add_insert_nonempty new krp kb k l x s w) as (n & Hx & Hrun); [done|done|done|kptr|done|].
  assert (extends w0 (w_free krp w)) as He' by by apply extends_free.
  exists (w_free krp w). split; [|split; [by apply extends_list_frame|by eapply bl_rep_extends]].
  rewrite Hrun, decide_True by (by rewrite Hl).
  erewrite add_exists_run; [|done|done|kptr]. by rewrite w_lock_lock.
Qed.

(** A world whose list now ends in the node [new] represents [bl_snoc k a]. *)
Lemma bl_rep_snoc w0 w' k a l x :
  bl_rep w0 a → k ∉ bl_paths a → length k < PATH_MAX → wf w' →
  rf w' = rf_with_lock false (rf_with_size (int32 (rf_blacklist_size (rf w0) + 1))
            (rf_with_head (rf_blacklist_head (rf w')) (rf w0))) →
  chain (mem w') (rf_blacklist_head (rf w')) (l ++ [(x, k)]) → l.*2 = bl_paths a →
  bl_rep w' (bl_snoc k a).
Proof.
  intros [_ _ _ Hnd Hlen Hsz] Hnin Hk Hwf Hrf Hc Hl. split; simpl.
  - done.
  - by rewrite Hrf.
  - exists (l ++ [(x, k)]). split; [done|]. by rewrite fmap_app, Hl.
  - apply NoDup_app. split; [done|]. split; [set_solver|apply NoDup_singleton].
  - apply Forall_app. by rewrite Forall_singleton.
  - rewrite Hrf. simpl. by rewrite Hsz.
Qed.

Lemma add_insert_empty w0 w krp new k a :
  bl_rep w0 a → add_ready w0 w krp new k → bl_paths a = [] → length k < PATH_MAX →
  ∃ w', add_insert new krp w = Ret 0%Z w' ∧ list_frame w0 w' ∧ bl_rep w' (bl_snoc k a).
Proof.
  intros Hrep [He (kb & Hk & Hs) Hkn Hnn (pn & pb & Hnew & Hpn & Hpk & Hpb & Hps)] Hnil Hlen.
  pose proof (proj1 (rep_wf _ _ Hrep)) as Hb.
  assert (extends w0 (w_free krp w)) as He'
    by (apply extends_free; [done|by eapply rep_wf|done]).
  pose proof (bl_rep_extends _ _ _ He Hrep) as [_ Hlk (l & Hc & Hl) _ _ _].
  rewrite Hnil in Hl. apply fmap_nil_inv in Hl as ->. simpl in Hc. eexists. split; [|split].
  - unfold add_insert. erewrite K_bind_Ret by (by apply run_spin_lock). kstep. cbn zeta.
    rewrite decide_True by exact Hc. kstep.
    eapply add_linked_run; [done|exact Hk|kptr|done].
  - split; [by intros q o Hq _; eapply (extends_lookup _ _ _ _ He')|].
    eexists new, _. simpl. rewrite (extends_glob _ _ He). by rewrite (rep_lock _ _ Hrep).
  - eapply (bl_rep_snoc w0 _ k a [] new); rewrite ?Hnil; try done.
    + set_solver.
    + by apply (extends_wf _ _ He'), (rep_wf _ _ Hrep).
    + simpl. by rewrite (extends_glob _ _ He).
    + simpl. split; [done|split; [kptr|]]. exists (mk_node pn NULL), pb. simpl.
      rewrite !lookup_delete_ne by congruence. split; [done|]. split; [kptr|done].
Qed.

(** The new node is not in the list. *)
Lemma add_ready_fresh w0 w krp new k a l :
  bl_rep w0 a → add_ready w0 w krp new k → chain (mem w) (rf_blacklist_head (rf w)) l →
  (new ∉ l.*1) ∧ chain (delete krp (mem w)) (rf_blacklist_head (rf w)) l.
Proof.
  intros Hrep [He _ Hkn Hnn _] Hc. pose proof (rep_wf _ _ Hrep) as Hwf.
  assert (extends w0 (w_free krp w)) as He' by by apply extends_free.
  destruct (rep_chain _ _ Hrep) as (l0 & Hc0 & _). rewrite (extends_glob _ _ He) in Hc |- *.
  pose proof (chain_det _ _ _ _ (seg_mono _ _ _ _ _ (proj1 (proj1 He)) Hc0) Hc) as ->.
  split; [|by apply (seg_mono _ _ _ _ _ (proj1 (proj1 He')))].
  intros Hin. apply seg_dom in Hc0.
  assert (new ∈ dom (mem w0)) as [o Ho]%elem_of_dom by set_solver.
  apply (proj2 Hwf) in Ho. lia.
Qed.

Lemma add_insert_tail w0 w krp new k a l x s :
  bl_rep w0 a → add_ready w0 w krp new k → k ∉ bl_paths a → length k < PATH_MAX →
  chain (mem w) (rf_blacklist_head (rf w)) (l ++ [(x, s)]) → (l ++ [(x, s)]).*2 = bl_paths a →
  ∃ w', add_insert new krp w = Ret 0%Z w' ∧ list_frame w0 w' ∧ bl_rep w' (bl_snoc k a).
Proof.
  intros Hrep Hready Hnin Hlen Hc Hl.
  destruct (add_ready_fresh _ _ _ _ _ _ _ Hrep Hready Hc) as [Hfresh Hc'].
  destruct Hready as [He (kb & Hk & Hs) Hkn Hnn (pn & pb & Hnew & Hpn & Hpk & Hpb & Hps)].
  pose proof (rep_wf _ _ Hrep) as Hwf. pose proof (proj1 Hwf) as Hb.
  assert (extends w0 (w_free krp w)) as He' by by apply extends_free.
  pose proof (rep_lock _ _ (bl_rep_extends _ _ _ He Hrep)) as Hlk.
  destruct (add_insert_nonempty new krp kb k l x s w) as (n & Hx & Hrun);
    [done|done|done|kptr|done|].
  rewrite decide_False in Hrun by (by rewrite Hl). assert (x ≠ krp) as Hxk by congruence.
  rewrite (add_linked_run krp kb k) in Hrun; [|done| |kptr|done].
  2:{ simpl. rewrite lookup_insert_ne by done. exact Hk. }
  eexists. split; [exact Hrun|]. split.
  - split.
    + intros q o Hq Ho. simpl. rewrite delete_insert_ne by done. rewrite lookup_insert_ne.
      * by apply (extends_lookup _ _ _ _ He').
      * intros <-. apply (extends_lookup _ _ _ _ He) in Hq. simplify_eq. by eapply Ho.
    + eexists _, _. simpl. rewrite (extends_glob _ _ He). by rewrite (rep_lock _ _ Hrep).
  - eapply (bl_rep_snoc w0 _ k a (l ++ [(x, s)]) new); try done; simpl.
    + rewrite delete_insert_ne by done.
      apply (wf_heap_store (w_heap (w_free krp w)) _ (ONode n)); [by apply (extends_wf _ _ He')|].
      simpl. by rewrite lookup_delete_ne.
    + rewrite (extends_glob _ _ He). by destruct (rf w0).
    + rewrite delete_insert_ne, <- app_assoc by done.
      apply (chain_snoc _ _ l x s n new k (mk_node pn NULL) pb);
        simpl; rewrite ?lookup_delete_ne by congruence; try done; kptr.
Qed.

Lemma add_insert_new w0 w krp new k a :
  bl_rep w0 a → add_ready w0 w krp new k → k ∉ bl_paths a → length k < PATH_MAX →
  ∃ w', add_insert new krp w = Ret 0%Z w' ∧ list_frame w0 w' ∧ bl_rep w' (bl_snoc k a).
Proof.
  intros Hrep Hready Hnin Hlen.
  destruct (bl_rep_extends _ _ _ (ar_extends _ _ _ _ _ Hready) Hrep) as [_ _ (l & Hc & Hl) _ _ _].
  destruct l as [|[x s] l _] using rev_ind.
  - by apply add_insert_empty.
  - by eapply add_insert_tail.
Qed.

Lemma length_user_buf u : length (user_buf u) = PATH_MAX.
Proof. unfold user_buf. len. Qed.

Lemma user_path_length u k : user_path u = Some k → length k < PATH_MAX.
Proof.
  intros [_ [r Hr]]%c_str_Some. pose proof (length_user_buf u) as Hl.
  rewrite Hr in Hl. len.
Qed.

(** The two first steps of both operations: allocate a buffer and fill it. *)
Definition w_user (u : user_ptr) (w : world) : world :=
  w_store (brk w) (OBuf (user_buf u)) (w_alloc (OBuf (fresh_bytes (clock w) PATH_MAX)) w).

Lemma run_user_copy u w :
  wf w →
  copy_from_user (brk w) u PATH_MAX (w_alloc (OBuf (fresh_bytes (clock w) PATH_MAX)) w) =
  Ret (Z.of_nat (PATH_MAX - length u)) (w_user u w).
Proof.
  intros [Hb _]. eapply run_copy_from_user; [kmem|kptr|by rewrite length_fresh_bytes].
Qed.

Lemma w_user_extends u w : wf w → extends w (w_user u w).
Proof. intros Hwf. unfold w_user. kext. Qed.

Context `{IA : !InitOnAlloc}.

(** The allocations of an addition all succeed: the critical section runs with
    the copied path and the new node. *)
Lemma add_prepare u w :
  wf w → kmalloc_ok (clock w) = true → kmalloc_ok (S (clock w)) = true →
  kmalloc_ok (S (S (clock w))) = true →
  match user_path u with
  | Some k => ∃ w5, add_to_blacklist u w = add_insert (N.succ (brk w)) (brk w) w5 ∧
                    add_ready w w5 (brk w) (N.succ (brk w)) k
  | None => add_to_blacklist u w = Crash Overrun
  end.
Proof.
  intros Hwf Hk1 Hk2 Hk3. pose proof (proj1 Hwf) as Hb. unfold add_to_blacklist.
  kstep. kdec. erewrite K_bind_Ret by (by apply run_user_copy). rewrite decide_False by lia.
  erewrite K_bind_Ret by (by apply run_kmalloc_ok). rewrite decide_False by (unfold w_user; kptr).
  rewrite fresh_ptr_null, fresh_ptr_null.
  erewrite K_bind_Ret by (by apply run_kmalloc_ok).
  unfold w_user. kstep. kstep. cbn [n_next]. ksimpl.
  destruct (user_path u) as [k|] eqn:Huk.
  - pose proof (user_path_length _ _ Huk) as Hkl. eexists. split.
    + erewrite K_bind_Ret; [reflexivity|].
      eapply run_k_strcpy; [kmem|kmem|kptr|kptr|exact Huk|by rewrite length_fresh_bytes].
    + split.
      * kext.
      * exists (user_buf u). split; [kmem|done].
      * lia.
      * lia.
      * eexists _, _. split; [kmem|]. split; [lia|]. split; [lia|].
        split; [kmem|]. apply c_str_app. by eapply c_str_no_nul.
  - apply K_bind_Crash. unfold k_strcpy. kstep. kstep. by rewrite strcpy_unterminated.
Qed.

(** One of the allocations fails. *)
Lemma add_no_buffer u w :
  kmalloc_ok (clock w) = false → add_to_blacklist u w = Ret (- ENOMEM)%Z (w_tick w).
Proof. intros Hk. unfold add_to_blacklist. kstep. by kdec. Qed.

Lemma add_no_node u w :
  wf w → kmalloc_ok (clock w) = true → kmalloc_ok (S (clock w)) = false →
  add_to_blacklist u w = Ret (- ENOMEM)%Z (w_tick (w_user u w)).
Proof.
  intros Hwf Hk1 Hk2. pose proof (proj1 Hwf) as Hb. unfold add_to_blacklist.
  kstep. kdec. erewrite K_bind_Ret by (by apply run_user_copy). rewrite decide_False by lia.
  erewrite K_bind_Ret by (by apply run_kmalloc_fail). by kdec.
Qed.

Lemma add_no_path u w :
  wf w → kmalloc_ok (clock w) = true → kmalloc_ok (S (clock w)) = true →
  kmalloc_ok (S (S (clock w))) = false → add_to_blacklist u w = Crash NullDeref.
Proof.
  intros Hwf Hk1 Hk2 Hk3. pose proof (proj1 Hwf) as Hb. unfold add_to_blacklist.
  kstep. kdec. erewrite K_bind_Ret by (by apply run_user_copy). rewrite decide_False by lia.
  erewrite K_bind_Ret by (by apply run_kmalloc_ok). rewrite decide_False by (unfold w_user; kptr).
  erewrite K_bind_Ret by (by apply run_kmalloc_fail).
  unfold w_user. kstep. kstep. apply K_bind_Crash. unfold k_strcpy. by kstep.
Qed.

(** [add_to_blacklist] implements [spec_add]. *)
Lemma add_refines u a w :
  bl_rep w a →
  match spec_add (clock w) u a with
  | inl f => add_to_blacklist u w = Crash f
  | inr (z, a') =>
      ∃ w', add_to_blacklist u w = Ret z w' ∧ list_frame w w' ∧ bl_rep w' a'
  end.
Proof.
  intros Hrep. pose proof (rep_wf _ _ Hrep) as Hwf. unfold spec_add.
  assert (∀ w', extends w w' → list_frame w w' ∧ bl_rep w' a) as Hext
    by (intros w' He; split; [by apply extends_list_frame|by eapply bl_rep_extends]).
  destruct (kmalloc_ok (clock w)) eqn:Hk1; cbn [negb].
  2:{ eexists. split; [by apply add_no_buffer|]. apply Hext, extends_tick. }
  destruct (kmalloc_ok (S (clock w))) eqn:Hk2; cbn [negb].
  2:{ eexists. split; [by apply add_no_node|]. by apply Hext, extends_tick_r, w_user_extends. }
  destruct (kmalloc_ok (S (S (clock w)))) eqn:Hk3; cbn [negb]; [|by apply add_no_path].
  pose proof (add_prepare u w Hwf Hk1 Hk2 Hk3) as Hprep.
  destruct (user_path u) as [k|] eqn:Huk; [|done]. destruct Hprep as (w5 & -> & Hready).
  destruct (decide (k ∈ bl_paths a)).
  - destruct (add_insert_found _ _ _ _ _ _ Hrep Hready) as (w' & ? & ? & ?); eauto.
  - apply (add_insert_new w); eauto using user_path_length.
Qed.

(** *** Removal *)

(** The end of a removal that found the path: the lock is released. *)
Lemma remove_found_run kp kb k w :
  rf_lock (rf w) = true → mem w !! kp = Some (OBuf kb) → kp ≠ NULL → c_str kb = Some k →
  remove_found kp w = Ret 0%Z (w_lock false w).
Proof.
  intros Hlk Hk Hkn Hs. unfold remove_found.
  erewrite K_bind_Ret by (by apply run_spin_unlock).
  by erewrite K_bind_Ret by (by eapply run_k_print).
Qed.

(** The end of a removal that did not: the path is read to be printed. *)
Lemma remove_not_found_run kp kb w :
  rf_lock (rf w) = true → mem w !! kp = Some (OBuf kb) → kp ≠ NULL →
  remove_not_found kp w =
  match c_str kb with
  | Some _ => Ret (- EINVAL)%Z (w_lock false w)
  | None => Crash Overrun
  end.
Proof.
  intros Hlk Hk Hkn. unfold remove_not_found.
  erewrite K_bind_Ret by (by apply run_spin_unlock). destruct (c_str kb) eqn:Hs.
  - by erewrite K_bind_Ret by (by eapply run_k_print).
  - apply K_bind_Crash. unfold k_print, k_strlen. apply K_bind_Crash.
    erewrite K_bind_Ret by (by eapply run_load_buf). by rewrite strlen_c_str, Hs.
Qed.

(** Nothing to remove. *)
Lemma remove_unlink_absent kp kb l w :
  rf_lock (rf w) = false → chain (mem w) (rf_blacklist_head (rf w)) l →
  mem w !! kp = Some (OBuf kb) → kp ≠ NULL →
  Forall (λ s, length s < length kb ∧ c_str kb ≠ Some s) l.*2 →
  remove_unlink kp w =
  match c_str kb with Some _ => Ret (- EINVAL)%Z w | None => Crash Overrun end.
Proof.
  intros Hlk Hc Hk Hkn Hall. unfold remove_unlink.
  erewrite K_bind_Ret by (by apply run_spin_lock). kstep. cbn zeta.
  assert (remove_not_found kp (w_lock true w) =
          match c_str kb with Some _ => Ret (- EINVAL)%Z w | None => Crash Overrun end) as Hnf
    by (erewrite remove_not_found_run by done; by rewrite w_lock_lock).
  change (rf_blacklist_head (g_rf (w_glob (w_lock true w)))) with (rf_blacklist_head (rf w)).
  destruct l as [|[x s] l].
  { simpl in Hc. by rewrite decide_True. }
  pose proof Hc as (Hx & Hxn & n & b & Hn & Hnp & Hb & Hs & Hl). rewrite Hx in *.
  rewrite decide_False by done. kstep. pose proof Hall as Hall'.
  rewrite fmap_cons in Hall'. apply Forall_cons in Hall' as [[Hlen Hne] _].
  destruct (run_k_strcmp_bounded (n_path n) kp b kb s (w_lock true w)) as (c & Hcr & Hiff); [done..|].
  erewrite K_bind_Ret by done. rewrite decide_False by naive_solver. kstep.
  destruct (find_node_absent (S (size (mem w))) None x ((x, s) :: l) kp kb (w_lock true w))
    as (prev & Hfn); [done|done|done| |done|].
  { apply chain_size in Hc. lia. }
  erewrite K_bind_Ret by exact Hfn. cbv beta iota. by rewrite decide_True.
Qed.

(** The first node goes: the head and the counter follow. *)
Lemma remove_unlink_head kp kb k x l w :
  rf_lock (rf w) = false → chain (mem w) (rf_blacklist_head (rf w)) ((x, k) :: l) →
  mem w !! kp = Some (OBuf kb) → kp ≠ NULL → c_str kb = Some k →
  ∃ n, mem w !! x = Some (ONode n) ∧ chain (mem w) (n_next n) l ∧
  remove_unlink kp w =
  Ret 0%Z (w_rf (rf_with_size (int32 (rf_blacklist_size (rf w) - 1))
                  (rf_with_head (n_next n) (rf w))) w).
Proof.
  intros Hlk Hc Hk Hkn Hks. destruct Hc as (Hx & Hxn & n & b & Hn & Hnp & Hb & Hs & Hl).
  exists n. split; [done|split; [done|]]. unfold remove_unlink.
  erewrite K_bind_Ret by (by apply run_spin_lock). kstep. cbn zeta.
  change (rf_blacklist_head (g_rf (w_glob (w_lock true w)))) with (rf_blacklist_head (rf w)).
  rewrite Hx, decide_False by done. kstep.
  destruct (run_k_strcmp (n_path n) kp b kb k k (w_lock true w)) as (c & Hcr & Hiff); [done..|].
  erewrite K_bind_Ret by done. rewrite decide_True by naive_solver. kstep. kstep.
  rewrite (remove_found_run kp kb k) by done.
  revert Hlk. clear. destruct w as [h [[] ? ? ? ? ? ? ?]]. simpl. by intros ->.
Qed.

(** Another node goes: the counter stays. *)
Lemma remove_unlink_inner kp kb k l1 x s y l2 w :
  rf_lock (rf w) = false →
  chain (mem w) (rf_blacklist_head (rf w)) (l1 ++ (x, s) :: (y, k) :: l2) →
  mem w !! kp = Some (OBuf kb) → kp ≠ NULL → c_str kb = Some k → k ∉ l1.*2 → k ≠ s →
  ∃ n ny, mem w !! x = Some (ONode n) ∧ mem w !! y = Some (ONode ny) ∧
  remove_unlink kp w = Ret 0%Z (w_store x (ONode (mk_node (n_path n) (n_next ny))) w).
Proof.
  intros Hlk Hc Hk Hkn Hks Hk1 Hkne. pose proof Hc as Hc'.
  apply seg_app in Hc' as (r & Hl1 & Hx). simpl in Hx.
  destruct Hx as (-> & Hxn & n & b & Hn & Hnp & Hb & Hs & (Hy & Hyn & ny & b2 & Hny & _)).
  exists n, ny. split; [done|split; [done|]]. unfold remove_unlink.
  erewrite K_bind_Ret by (by apply run_spin_lock). kstep. cbn zeta.
  change (rf_blacklist_head (g_rf (w_glob (w_lock true w)))) with (rf_blacklist_head (rf w)).
  assert (∃ x0 s0 l0, l1 ++ (x, s) :: (y, k) :: l2 = (x0, s0) :: l0 ∧ k ≠ s0) as (x0 & s0 & l0 & Heq & Hne0).
  { destruct l1 as [|[x0 s0] l1]; eexists _, _, _; (split; [done|]); [done|]. set_solver. }
  pose proof Hc as Hc0. rewrite Heq in Hc0.
  destruct Hc0 as (Hx0 & Hxn0 & n0 & b0 & Hn0 & Hnp0 & Hb0 & Hs0 & _).
  rewrite Hx0 in *. rewrite decide_False by done. kstep.
  destruct (run_k_strcmp (n_path n0) kp b0 kb s0 k (w_lock true w)) as (c & Hcr & Hiff); [done..|].
  erewrite K_bind_Ret by done. rewrite decide_False by naive_solver. kstep.
  erewrite K_bind_Ret.
  2:{ eapply find_node_present; [exact Hc|done|done|done| |done|done].
      apply chain_size in Hc. rewrite length_app in Hc. simpl in *. lia. }
  cbv beta iota. rewrite decide_False by done. kstep. kstep. kstep. kstep.
  rewrite (remove_found_run kp kb k); [|done| |done|done].
  2:{ simpl. rewrite lookup_insert_ne by congruence. exact Hk. }
  revert Hlk. clear. destruct w as [h [[] ? ? ? ? ? ? ?]]. simpl. by intros ->.
Qed.

(** A world in which the list lost the path [k] represents [bl_remove k a]. *)
Lemma bl_rep_remove w w' k a l1 l2 :
  bl_rep w a → wf w' → bl_paths a = l1.*2 ++ k :: l2.*2 →
  rf w' = rf_with_size (if decide (l1 = []) then int32 (rf_blacklist_size (rf w) - 1)
                        else rf_blacklist_size (rf w))
            (rf_with_head (rf_blacklist_head (rf w')) (rf w)) →
  chain (mem w') (rf_blacklist_head (rf w')) (l1 ++ l2) →
  bl_rep w' (bl_remove k a).
Proof.
  intros [_ Hlk _ Hnd Hlen Hsz] Hwf Hp Hrf Hc. unfold bl_remove. rewrite Hp in *.
  apply NoDup_app in Hnd as (Hnd1 & Hdisj & [Hk2 Hnd2]%NoDup_cons).
  assert (k ∉ l1.*2) as Hk1 by set_solver.
  rewrite filter_ne_middle by done. apply Forall_app in Hlen as [Hlen1 [_ Hlen2]%Forall_cons].
  split; simpl.
  - done.
  - rewrite Hrf. done.
  - exists (l1 ++ l2). split; [done|]. apply fmap_app.
  - apply NoDup_app. split; [done|]. split; [set_solver|done].
  - by apply Forall_app.
  - rewrite Hrf. simpl. rewrite Hsz. apply decide_ext. destruct l1 as [|[x s] l1]; simpl; [done|].
    split; [done|]. intros [= ->]. simpl in Hk1. set_solver.
Qed.

Lemma remove_unlink_refines kp kb k a w :
  bl_rep w a → mem w !! kp = Some (OBuf kb) → c_str kb = Some k → k ∈ bl_paths a →
  ∃ w', remove_unlink kp w = Ret 0%Z w' ∧ list_frame w w' ∧ bl_rep w' (bl_remove k a).
Proof.
  intros Hrep Hk Hks Hin. pose proof Hrep as [Hwf Hlk (l & Hc & Hl) Hnd _ _].
  pose proof (proj2 Hwf _ _ Hk) as Hkp.
  rewrite <- Hl in Hin. apply list_elem_of_fmap in Hin as ([y k'] & Heq & Hin).
  simpl in Heq. subst k'. apply list_elem_of_split in Hin as (l1 & l2 & ->).
  destruct l1 as [|[x s] l1 _] using rev_ind.
  - destruct (remove_unlink_head kp kb k y l2 w) as (n & Hn & Hc2 & Hrun); [done..|kptr|done|].
    eexists. split; [exact Hrun|]. split.
    + split; [done|]. eexists _, _. done.
    + by eapply (bl_rep_remove w _ k a [] l2).
  - rewrite <- app_assoc in Hc, Hl. simpl in Hc, Hl.
    assert ((k ∉ l1.*2) ∧ k ≠ s) as [Hk1 Hks'].
    { rewrite <- Hl, fmap_app in Hnd. apply NoDup_app in Hnd as (_ & Hd & Hnd).
      rewrite !fmap_cons in Hnd. apply NoDup_cons in Hnd as [Hs _]. set_solver. }
    destruct (remove_unlink_inner kp kb k l1 x s y l2 w)
      as (n & ny & Hn & Hny & Hrun); [done|done|done|kptr|done|done|done|].
    eexists. split; [exact Hrun|]. split.
    + split.
      * intros q o Hq Ho. simpl. rewrite lookup_insert_ne; [done|]. intros <-. simplify_eq. by eapply Ho.
      * exists (rf_blacklist_head (rf w)), (rf_blacklist_size (rf w)). simpl.
        by destruct (w_glob w) as [[]].
    + eapply (bl_rep_remove w _ k a (l1 ++ [(x, s)]) l2); simpl.
      * done.
      * by eapply (wf_heap_store (w_heap w)).
      * rewrite <- Hl, !fmap_app, <- app_assoc. done.
      * rewrite decide_False by (by destruct l1). by destruct (rf w).
      * rewrite <- app_assoc. by eapply chain_unlink.
Qed.

(** [remove_from_blacklist] implements [spec_remove]. *)
Lemma remove_refines u a w :
  bl_rep w a →
  match spec_remove (clock w) u a with
  | inl f => remove_from_blacklist u w = Crash f
  | inr (z, a') =>
      ∃ w', remove_from_blacklist u w = Ret z w' ∧ list_frame w w' ∧ bl_rep w' a'
  end.
Proof.
  intros Hrep. pose proof (rep_wf _ _ Hrep) as Hwf. pose proof (proj1 Hwf) as Hb.
  unfold spec_remove, remove_from_blacklist.
  destruct (kmalloc_ok (clock w)) eqn:Hk1; cbn [negb].
  2:{ kstep. kdec. eexists. split; [done|]. pose proof (extends_tick w) as He.
      split; [by apply extends_list_frame|by eapply bl_rep_extends]. }
  kstep. kdec. erewrite K_bind_Ret by (by apply run_user_copy). rewrite decide_False by lia.
  pose proof (w_user_extends u w Hwf) as He. pose proof (bl_rep_extends _ _ _ He Hrep) as Hrep'.
  assert (mem (w_user u w) !! brk w = Some (OBuf (user_buf u))) as Hu by apply lookup_insert_eq.
  pose proof Hrep' as [_ Hlk (l & Hc & Hl) _ Hlen _].
  assert ((∀ k, user_path u = Some k → k ∉ bl_paths a) →
          Forall (λ s, length s < length (user_buf u) ∧ c_str (user_buf u) ≠ Some s) l.*2) as Habs.
  { intros Hn. rewrite Hl, length_user_buf. rewrite Forall_forall in Hlen |- *.
    intros s Hs. split; [by apply Hlen|]. intros Hu'. by eapply Hn. }
  destruct (user_path u) as [k|] eqn:Huk.
  - destruct (decide (k ∈ bl_paths a)) as [Hin|Hnin].
    + destruct (remove_unlink_refines _ _ _ _ _ Hrep' Hu Huk Hin) as (w' & Hrun & Hf & Hr).
      exists w'. split; [done|]. split; [|done]. by eapply list_frame_trans, Hf; apply extends_list_frame.
    + exists (w_user u w). split; [|split; [by apply extends_list_frame|done]].
      rewrite (remove_unlink_absent _ _ _ _ Hlk Hc Hu); [|kptr|apply Habs; naive_solver].
      unfold user_path in Huk. by rewrite Huk.
  - rewrite (remove_unlink_absent _ _ _ _ Hlk Hc Hu); [|kptr|by apply Habs].
    unfold user_path in Huk. by rewrite Huk.
Qed.
End refinement.

(** ** The test for a protected path *)

(** The blacklist [a] protects [p] in the state [st]. *)
Definition protected (st : Z) (a : blacklist) (p : buf) : Prop :=
  bl_size a ≠ 0%Z ∧ st ≠ RF_OFF ∧ st ≠ RF_REC_OFF ∧ Exists (λ e, matches e p) (bl_paths a).

#[export] Instance protected_dec st a p : Decision (protected st a p).
Proof. unfold protected. apply _. Defined.

Section matching.
Context `{AL : Alloc}.

(** [is_blacklisted] decides [protected], leaves the world as it is and the
    lock free. *)
Lemma is_blacklisted_run pp pb p a w :
  bl_rep w a → mem w !! pp = Some (OBuf pb) → c_str pb = Some p →
  is_blacklisted pp w = Ret (if decide (protected (rf_state (rf w)) a p) then 1 else 0)%Z w.
Proof.
  intros [Hwf Hlk (l & Hc & Hl) _ _ Hsz] Hpp Hp.
  assert (pp ≠ NULL) as Hpn by by eapply wf_heap_not_null.
  unfold is_blacklisted, protected, RF_OFF, RF_REC_OFF. kstep. rewrite Hsz.
  destruct (decide (bl_size a = 0%Z)); [by rewrite decide_False by naive_solver|].
  destruct (decide (rf_state (rf w) = 1%Z ∨ rf_state (rf w) = 3%Z));
    [by rewrite decide_False by naive_solver|].
  cbn zeta. erewrite K_bind_Ret by (by apply run_spin_lock). kstep.
  erewrite match_walk_run; [|exact Hc|done|done|done|done|].
  2:{ apply chain_size in Hc. ksimpl. simpl. lia. }
  rewrite w_lock_lock, Hl by done. f_equal. apply decide_ext. naive_solver.
Qed.

(** A path that could not be computed is dereferenced. *)
Lemma is_blacklisted_null a w :
  bl_rep w a → bl_size a ≠ 0%Z → rf_state (rf w) ≠ RF_OFF → rf_state (rf w) ≠ RF_REC_OFF →
  bl_paths a ≠ [] → head (bl_paths a) ≠ Some [] → is_blacklisted NULL w = Crash NullDeref.
Proof.
  intros [Hwf Hlk (l & Hc & Hl) _ _ Hsz] Hs Hoff Hroff Hne Hhd. unfold RF_OFF, RF_REC_OFF in *.
  unfold is_blacklisted. kstep. rewrite Hsz, !decide_False by naive_solver.
  cbn zeta. erewrite K_bind_Ret by (by apply run_spin_lock). kstep.
  rewrite <- Hl in *. destruct l as [|[x s] l]; [done|]. simpl in Hhd.
  destruct Hc as (Hx & Hxn & n & b & Hn & Hnp & Hb & Hbs & _). cbn [match_walk].
  rewrite decide_False by (simpl; congruence). ksimpl. rewrite Hx. kstep.
  erewrite K_bind_Ret by (by eapply run_k_strlen).
  apply K_bind_Crash. unfold k_strncmp. rewrite decide_False; [done|].
  intros H0%nil_length_inv. congruence.
Qed.

(** Whatever the path pointer, the test leaves the world as it was. *)
Lemma match_walk_same fuel curr p z w w' :
  rf_lock (rf w) = true → match_walk fuel curr p w = Ret z w' → w' = w_lock false w.
Proof.
  intros Hl. revert curr. induction fuel as [|fuel IH]; intros curr; [done|]. cbn [match_walk].
  destruct (decide (curr = NULL)).
  { erewrite K_bind_Ret by by apply run_spin_unlock. by intros [= <- <-]. }
  intros H. kread H. kread H. kread H. destruct (decide (a1 = 0%Z)).
  { revert H. erewrite K_bind_Ret by by apply run_spin_unlock. by intros [= <- <-]. }
  kread H. kread H. destruct (decide (a3 = slash)); [|by eapply IH].
  kread H. destruct (decide (a4 = 0%Z)); [|by eapply IH].
  revert H. erewrite K_bind_Ret by by apply run_spin_unlock. by intros [= <- <-].
Qed.

Lemma is_blacklisted_same p z w w' :
  rf_lock (rf w) = false → is_blacklisted p w = Ret z w' → w' = w.
Proof.
  intros Hl. unfold is_blacklisted, get_rf, get_glob. kstep. case_decide; [by intros [= <- <-]|].
  case_decide; [by intros [= <- <-]|]. cbv zeta.
  erewrite K_bind_Ret by by apply run_spin_lock. unfold loop_fuel. kstep.
  intros ->%match_walk_same; [|done]. by apply w_lock_lock.
Qed.

Lemma keeps_is_blacklisted w0 p :
  rf_lock (rf w0) = false → keeps w0 (is_blacklisted p) (λ _, True).
Proof.
  intros Hl w z w' He Hrun. apply is_blacklisted_same in Hrun as ->; [done|].
  by rewrite (extends_glob _ _ He).
Qed.
End matching.

#[export] Hint Resolve keeps_is_blacklisted : monitor.

(** ** Properties *)

Section blacklist_properties.
Context `{AL : Alloc} `{IA : !InitOnAlloc}.

(** C14. [add_to_blacklist] implements the abstract insertion on every branch:
    no memory, a path with no terminator in its 4096 bytes, a path that is there
    already, a new path (appended at the end, counter incremented); the lock is
    released and the state and the password are as they were. *)
Theorem add_to_blacklist_refines u a w :
  bl_rep w a →
  match spec_add (clock w) u a with
  | inl f => add_to_blacklist u w = Crash f
  | inr (z, a') =>
      ∃ w', add_to_blacklist u w = Ret z w' ∧ list_frame w w' ∧ bl_rep w' a'
  end.
Proof. apply add_refines. Qed.

(** C15. [remove_from_blacklist] implements the abstract removal on every branch:
    no memory, a path with no terminator, an absent path (-EINVAL), a path of the
    list, which is unlinked; the counter is decremented only when the path is the
    first of the list. *)
Theorem remove_from_blacklist_refines u a w :
  bl_rep w a →
  match spec_remove (clock w) u a with
  | inl f => remove_from_blacklist u w = Crash f
  | inr (z, a') =>
      ∃ w', remove_from_blacklist u w = Ret z w' ∧ list_frame w w' ∧ bl_rep w' a'
  end.
Proof. apply remove_refines. Qed.

(** Adding a new path and removing it again succeeds and gives the same
    sequence of paths; the counter comes back to its value for an empty list and
    stays one too high otherwise. *)
Theorem add_remove_roundtrip u k a w :
  (∀ n, kmalloc_ok n = true) → bl_rep w a → user_path u = Some k → k ∉ bl_paths a →
  ∃ w1 w2 a', add_to_blacklist u w = Ret 0%Z w1 ∧ remove_from_blacklist u w1 = Ret 0%Z w2 ∧
    bl_rep w2 a' ∧ bl_paths a' = bl_paths a ∧
    bl_size a' = int32 (bl_size a + if decide (bl_paths a = []) then 0 else 1).
Proof.
  intros Hk Hrep Hu Hnew.
  pose proof (add_refines u a w Hrep) as Hadd. unfold spec_add in Hadd. rewrite !Hk, Hu in Hadd.
  simpl in Hadd. rewrite decide_False in Hadd by done. destruct Hadd as (w1 & H1 & _ & Hrep1).
  pose proof (remove_refines u _ w1 Hrep1) as Hrem. unfold spec_remove in Hrem.
  rewrite Hk, Hu in Hrem. simpl negb in Hrem. cbv iota in Hrem.
  rewrite decide_True in Hrem by (simpl; set_solver). destruct Hrem as (w2 & H2 & _ & Hrep2).
  exists w1, w2, (bl_remove k (bl_snoc k a)). split; [done|]. split; [done|]. split; [done|].
  unfold bl_remove, bl_snoc. simpl. split.
  - by rewrite filter_ne_middle, app_nil_r by set_solver.
  - destruct (bl_paths a) as [|x l]; simpl.
    + rewrite decide_True by done. unfold Z.sub. rewrite int32_add. f_equal. lia.
    + rewrite decide_False by (intros [= ->]; set_solver). done.
Qed.

(** C16. [is_blacklisted] returns 1 exactly for a protected path, 0 otherwise, and
    leaves the module as it was (the lock included). *)
Theorem is_blacklisted_decides pp pb p a w :
  bl_rep w a → mem w !! pp = Some (OBuf pb) → c_str pb = Some p →
  ∃ z, is_blacklisted pp w = Ret z w ∧ (z = 1%Z ↔ protected (rf_state (rf w)) a p) ∧
    (z = 1%Z ∨ z = 0%Z).
Proof.
  intros. eexists. split; [by eapply is_blacklisted_run|]. case_decide; naive_solver.
Qed.

(** In the states ON and REC_ON an entry of the list covers every path that
    starts with it, a sibling that only extends its last component included, and
    an entry that ends with a slash also covers the path without it. *)
Theorem is_blacklisted_covers e p pp pb a w :
  bl_rep w a → bl_size a ≠ 0%Z → rf_state (rf w) = RF_ON ∨ rf_state (rf w) = RF_REC_ON →
  e ∈ bl_paths a → mem w !! pp = Some (OBuf pb) → c_str pb = Some p →
  (∃ r, p = e ++ r) ∨ (∃ d r, e = d ++ [slash] ∧ p = d ++ r) →
  is_blacklisted pp w = Ret 1%Z w.
Proof.
  intros Hrep Hsz Hst He Hpp Hp Hm. erewrite is_blacklisted_run by done.
  rewrite decide_True; [done|]. unfold RF_ON, RF_REC_ON in Hst.
  split; [done|]. unfold RF_OFF, RF_REC_OFF. split; [lia|]. split; [lia|].
  apply Exists_exists. exists e. split; [done|]. destruct Hm as [[r ->]|(d & r & -> & ->)].
  - left. by exists r.
  - right. rewrite last_snoc. split; [done|]. rewrite length_app, Nat.add_sub, take_app_length.
    by exists r.
Qed.

(** An unreadable user address is not refused: the empty path is added, and
    then every path is protected in the states ON and REC_ON. *)
Theorem add_unreadable_blocks_all a w :
  (∀ n, kmalloc_ok n = true) → bl_rep w a → [] ∉ bl_paths a → (0 ≤ bl_size a < 2 ^ 31 - 1)%Z →
  rf_state (rf w) = RF_ON ∨ rf_state (rf w) = RF_REC_ON →
  ∃ w', add_to_blacklist [] w = Ret 0%Z w' ∧
    ∀ pp pb p, mem w' !! pp = Some (OBuf pb) → c_str pb = Some p → is_blacklisted pp w' = Ret 1%Z w'.
Proof.
  intros Hk Hrep Hnew Hsz Hst.
  pose proof (add_refines [] a w Hrep) as Hadd. unfold spec_add in Hadd. rewrite !Hk in Hadd.
  change (user_path []) with (c_str (replicate (S (pred PATH_MAX)) NUL)) in Hadd. simpl in Hadd.
  rewrite decide_False in Hadd by done. destruct Hadd as (w1 & H1 & [_ (h & z & Hg)] & Hrep1).
  exists w1. split; [done|]. intros pp pb p Hpp Hp. erewrite is_blacklisted_run by done.
  rewrite decide_True; [done|]. rewrite Hg. simpl. unfold RF_ON, RF_REC_ON in Hst.
  split; [simpl; rewrite int32_small by lia; lia|]. unfold RF_OFF, RF_REC_OFF. split; [lia|].
  split; [lia|]. apply Exists_exists. exists []. split; [simpl; set_solver|]. left. apply prefix_nil.
Qed.
End blacklist_properties.
