(* ===== verification/Logger.v ===== *)
(** * The log of blocked accesses (reference-monitor/log/logger.c)

    [write_on_log] collects the data of the offending thread and queues the
    deferred work that hashes the program path and writes the row.  The
    opening of the log file is a parameter ([LogFile]). *)

From stdpp Require Import pretty.
From S2P Require Import Prelude CString Kernel Utils.

(** [filp_open(LOG_FILE, ...)]: the error at the allocation request that comes
    next, 0 for none. *)
Class LogFile := { filp_open_err : nat → Z }.

(** The thread in [current]; [t_exe] is the dentry of [mm->exe_file], absent
    for a thread with no user memory. *)
Record task `{VF : Vfs} := mk_task {
  t_pid : Z; t_tgid : Z; t_uid : Z; t_euid : Z;
  t_exe : option dentry;
}.

(** The text of a number. *)
Definition dec (z : Z) : buf := lit (pretty z).

(** [snprintf(row, 256, "%d, %d, %u, %u, %s, %s\n", ...)] before truncation. *)
Definition row_text (tid tgid uid euid : Z) (exe hash : buf) : buf :=
  dec tid ++ lit ", " ++ dec tgid ++ lit ", " ++ dec uid ++ lit ", " ++ dec euid ++
  lit ", " ++ exe ++ lit ", " ++ hash ++ [ascii_of_nat 10].

(** A kernel string printed with [%s]; NULL prints as [(null)]. *)
Definition load_text (p : ptr) : K buf :=
  if decide (p = NULL) then mret (lit "(null)") else
  b ← load_buf p; of_opt Overrun (c_str b).

(** [char row[256]] *)
Definition row_size : nat := 256.
Arguments row_size : simpl never.

Section logger.
Context `{AL : Alloc} `{CR : Crypto} `{VF : Vfs} `{LF : LogFile}.

(** The row of the item [data]: the first part of [deferred_work]. *)
Definition deferred_row (data : ptr) : K buf :=
  the_work ← load_work data;
  d ← load_log (pw_log_data the_work);
  hash ← encrypt_password (l_exe_path d);
  exe ← load_text (l_exe_path d);
  h ← load_text hash;
  of_opt Overrun
    (snprintf (replicate row_size NUL) row_size
       (row_text (l_tid d) (l_tgid d) (l_uid d) (l_euid d) exe h)).

(** [deferred_work]: [data] is the queued item. *)
Definition deferred_work (data : ptr) : K unit :=
  row ← deferred_row data;
  t ← get_clock;
  if decide (filp_open_err t ≠ 0%Z) then mret tt else
  len ← of_opt Overrun (strlen row);
  g ← get_glob;
  put_glob (set_log (g_log g ++ [take len row]) g) ;;
  kfree data.

(** [spin_unlock(&def_work_lock)] on the error paths. *)
Definition unlock_def_work : K unit :=
  g ← get_glob;
  if g_def_work_lock g then put_glob (set_def_work_lock false g) else crash BadUnlock.

(** [kmalloc] of the two structures, with uninitialised fields. *)
Definition fresh_log (n : nat) : obj :=
  OLog (mk_log_data (Z.of_N (fresh_ptr n 0)) (Z.of_N (fresh_ptr n 4)) (Z.of_N (fresh_ptr n 8))
          (Z.of_N (fresh_ptr n 12)) (fresh_ptr n 16) (fresh_ptr n 24)).
Definition fresh_work (n : nat) : obj := OWork (mk_packed_work (fresh_ptr n 0) (fresh_ptr n 8)).

Definition write_on_log (current : task) : K unit :=
  log_data ← kmalloc_obj fresh_log;
  if decide (log_data = NULL) then unlock_def_work else
  exe_dentry ← of_opt NullDeref (t_exe current);
  exe_path ← get_path_from_dentry exe_dentry;
  dup ← kstrdup exe_path;
  d ← load_log log_data;
  store_obj log_data (OLog (mk_log_data (t_pid current) (t_tgid current) (t_uid current)
                              (t_euid current) dup (l_hash d))) ;;
  def_work ← kmalloc_obj fresh_work;
  if decide (def_work = NULL) then unlock_def_work else
  store_obj def_work (OWork (mk_packed_work def_work log_data)) ;;
  g ← get_glob;
  put_glob (set_queue (g_queue g ++ [def_work]) g).
End logger.

(** ** Facts: texts *)

Lemma no_nul_app s1 s2 : no_nul s1 → no_nul s2 → no_nul (s1 ++ s2).
Proof. unfold no_nul. set_solver. Qed.

Lemma no_nul_pretty_N_go x s : no_nul (lit s) → no_nul (lit (pretty_N_go x s)).
Proof.
  revert s. induction (N.lt_wf_0 x) as [x _ IH]; intros s Hs.
  assert (x = 0 ∨ 0 < x)%N as [->|Hx] by lia; [by rewrite pretty_N_go_0|].
  rewrite pretty_N_go_step by done. apply IH; [by apply N.div_lt|].
  unfold no_nul, lit in *. simpl. rewrite not_elem_of_cons. split; [|done].
  unfold pretty_N_char. by repeat case_match.
Qed.

Lemma no_nul_dec z : no_nul (dec z).
Proof.
  assert (∀ n : N, no_nul (lit (pretty n))) as HN.
  { intros n. unfold pretty, pretty_N. case_decide; [by compute_done|].
    by apply no_nul_pretty_N_go; compute_done. }
  unfold dec. destruct z as [|p|p]; [by compute_done|apply (HN (N.pos p))|].
  change (no_nul ("-"%char :: lit (pretty (N.pos p)))).
  unfold no_nul. rewrite not_elem_of_cons. split; [done|apply HN].
Qed.

Lemma no_nul_row tid tgid uid euid exe hash :
  no_nul exe → no_nul hash → no_nul (row_text tid tgid uid euid exe hash).
Proof.
  intros. unfold row_text.
  repeat first [ apply no_nul_app | apply no_nul_dec | assumption | by compute_done ].
Qed.

(** The string left in the row, truncated to 255 bytes. *)
Lemma row_written text :
  no_nul text →
  ∃ row, snprintf (replicate row_size NUL) row_size text = Some row ∧
    ∃ len, strlen row = Some len ∧ take len row = take 255 text.
Proof.
  intros Hn. set (t := take 255 text).
  assert (no_nul t) as Ht.
  { unfold no_nul, t in *. intros Hin. apply Hn.
    apply elem_of_take in Hin as (i & Hi & _). by eapply list_elem_of_lookup_2. }
  assert (length t ≤ 255) as Hl by (unfold t; len).
  change row_size with (S 255). cbn [snprintf]. fold t. unfold write_at.
  rewrite decide_True by len. rewrite take_0, app_nil_l, <- app_assoc.
  generalize (drop (0 + length (t ++ [NUL])) (replicate (S 255) NUL)). intros r.
  eexists. split; [done|]. exists (length t).
  rewrite strlen_c_str. simpl app. rewrite (c_str_app t r) by done.
  split; [done|]. by rewrite take_app_length.
Qed.

(** ** Facts: the two halves of a log entry *)

Section logger_facts.
Context `{AL : Alloc} `{CR : Crypto} `{CL : !CryptoLaws} `{VF : Vfs} `{VL : !VfsLaws} `{LF : LogFile}.

(** The item [wp] carries the data of the thread [t] and its program path [s]. *)
Definition item_in (m : gmap ptr obj) (wp : ptr) (t : task) (s : buf) : Prop :=
  ∃ lp dup h b,
    m !! wp = Some (OWork (mk_packed_work wp lp)) ∧
    m !! lp = Some (OLog (mk_log_data (t_pid t) (t_tgid t) (t_uid t) (t_euid t) dup h)) ∧
    m !! dup = Some (OBuf b) ∧ c_str b = Some s.
Definition queued (w : world) (wp : ptr) (t : task) (s : buf) : Prop := item_in (mem w) wp t s.

(** The row of the log file for a thread and a program path. *)
Definition log_row (t : task) (s : buf) : buf :=
  take 255 (row_text (t_pid t) (t_tgid t) (t_uid t) (t_euid t) s (hex (sha256 s))).

Lemma run_kstrdup p b s w :
  mem w !! p = Some (OBuf b) → p ≠ NULL → c_str b = Some s → kmalloc_ok (clock w) = true →
  kstrdup p w = Ret (brk w) (w_alloc (OBuf (s ++ [NUL])) w).
Proof.
  intros Hp Hn Hs Hk. unfold kstrdup. rewrite decide_False by done. kstep. kstep.
  by apply run_kmalloc_ok.
Qed.

Lemma run_load_text p b s w :
  mem w !! p = Some (OBuf b) → p ≠ NULL → c_str b = Some s → load_text p w = Ret s w.
Proof.
  intros Hp Hn Hs. unfold load_text. rewrite decide_False by done. kstep. by apply run_of_opt.
Qed.

(** [write_on_log] queues one item with the data of the thread, and changes
    nothing else. *)
Lemma write_on_log_run t d s w :
  wf w → t_exe t = Some d → dentry_path_raw d PATH_MAX = inr s → mem_up (clock w) 5 →
  fresh_byte (S (S (clock w))) (length s) = NUL →
  ∃ w' wp, write_on_log t w = Ret tt w' ∧ heap_le (w_heap w) (w_heap w') ∧
    w_glob w' = set_queue (g_queue (w_glob w) ++ [wp]) (w_glob w) ∧ queued w' wp t s ∧ (brk w < wp)%N ∧
    item_in (mem w' ∖ mem w) wp t s.
Proof.
  intros Hwf Ht Hd Hup Hfb. pose proof (proj1 Hwf) as Hb.
  set (w1 := w_alloc (fresh_log (clock w)) w).
  assert (extends w w1) as He1 by (unfold w1; kext).
  destruct (get_path_run d s w1) as (w2 & Hgp & He2 & Hc2 & Hp2);
    [by eapply extends_wf|done|eapply (mem_up_at _ _ 1 _ Hup); simpl; lia
    |eapply (mem_up_at _ _ 2 _ Hup); simpl; lia|].
  simpl in Hgp, Hc2, Hp2. rewrite Hfb in Hp2.
  assert (extends w w2) as He by by etransitivity.
  pose proof (extends_wf _ _ He Hwf) as Hwf2.
  pose proof (proj2 Hwf2 _ _ Hp2) as Hplt.
  assert (mem w2 !! brk w = Some (fresh_log (clock w))) as Hl2
    by (eapply (extends_lookup w1); [done|apply lookup_insert_eq]).
  set (lo := OLog (mk_log_data (t_pid t) (t_tgid t) (t_uid t) (t_euid t) (brk w2)
                     (fresh_ptr (clock w) 24))).
  set (w5 := w_store (N.succ (brk w2)) (OWork (mk_packed_work (N.succ (brk w2)) (brk w)))
      (w_alloc (fresh_work (S (clock w2)))
        (w_store (brk w) lo (w_alloc (OBuf (s ++ [NUL])) w2)))).
  exists (w_put (set_queue (g_queue (w_glob w) ++ [N.succ (brk w2)]) (w_glob w)) w5), (N.succ (brk w2)).
  assert (brk w ≤ brk w2)%N as Hbw by apply (extends_brk _ _ He).
  assert (∀ p o, (brk w ≤ p)%N → mem w5 !! p = Some o → (mem w5 ∖ mem w) !! p = Some o) as Hnew.
  { intros p o Hp Hpo. apply lookup_difference_Some. split; [done|]. by eapply wf_heap_fresh. }
  split; [|split; [|split; [done|split; [|split]]]].
  - unfold write_on_log.
    erewrite K_bind_Ret by (apply run_kmalloc_ok, (mem_up_at _ _ 0 _ Hup); lia). fold w1.
    rewrite decide_False by kptr. rewrite Ht. kstep. erewrite K_bind_Ret by exact Hgp.
    erewrite K_bind_Ret.
    2:{ eapply run_kstrdup; [exact Hp2|kptr| |eapply (mem_up_at _ _ 3 _ Hup); [lia|rewrite Hc2; lia]].
        apply c_str_app. by eapply dentry_path_raw_no_nul. }
    erewrite K_bind_Ret by (eapply run_load_log; [kmem|kptr]). kstep.
    erewrite K_bind_Ret by
      (apply run_kmalloc_ok; eapply (mem_up_at _ _ 4 _ Hup); [lia|simpl; rewrite Hc2; lia]).
    rewrite decide_False by kptr. kstep. unfold get_glob. kstep.
    unfold put_glob, w_put, w5. simpl. by rewrite (extends_glob _ _ He).
  - assert (extends w w5) as [Hle _] by (unfold w5; kext). exact Hle.
  - exists (brk w), (brk w2), (fresh_ptr (clock w) 24), (s ++ [NUL]).
    unfold w5, lo. split; [kmem|]. split; [kmem|]. split; [kmem|].
    apply c_str_app. by eapply dentry_path_raw_no_nul.
  - lia.
  - exists (brk w), (brk w2), (fresh_ptr (clock w) 24), (s ++ [NUL]).
    split; [apply Hnew; [lia|unfold w5; kmem]|]. split; [apply Hnew; [lia|unfold w5, lo; kmem]|].
    split; [apply Hnew; [lia|unfold w5, lo; kmem]|]. apply c_str_app. by eapply dentry_path_raw_no_nul.
Qed.

(** The row of an item, which stays where it is. *)
Lemma deferred_row_run t s wp w :
  wf w → queued w wp t s → crypto_up (clock w) →
  ∃ w1 row len, deferred_row wp w = Ret row w1 ∧ extends w w1 ∧ clock w1 = clock w + 3 ∧
    strlen row = Some len ∧ take len row = log_row t s.
Proof.
  intros Hwf (lp & dup & h & b & Hw & Hl & Hd & Hs) Hup.
  pose proof (wf_heap_not_null _ _ _ Hwf Hw). pose proof (wf_heap_not_null _ _ _ Hwf Hl).
  pose proof (wf_heap_not_null _ _ _ Hwf Hd).
  destruct (encrypt_password_run dup b s w) as (r & w1 & Hr & He & -> & Hm & Hc & _); [done..|].
  pose proof (extends_wf _ _ He Hwf) as Hwf1. pose proof (wf_heap_not_null _ _ _ Hwf1 Hm) as Hrn.
  pose proof (extends_lookup _ _ _ _ He Hd) as Hd1.
  destruct (row_written (row_text (t_pid t) (t_tgid t) (t_uid t) (t_euid t) s (hex (sha256 s))))
    as (row & Hrow & len & Hlen & Htk); [apply no_nul_row; [by eapply c_str_no_nul|apply no_nul_hex]|].
  exists w1, row, len. split; [|by split].
  unfold deferred_row. kstep. cbn [pw_log_data]. kstep. cbn [l_exe_path l_tid l_tgid l_uid l_euid].
  erewrite K_bind_Ret by exact Hr.
  erewrite K_bind_Ret by (eapply run_load_text; [exact Hd1|done|done]).
  erewrite K_bind_Ret by (eapply run_load_text; [exact Hm|done|apply c_str_app, no_nul_hex]).
  by apply run_of_opt.
Qed.

(** The item is freed: the other objects stay. *)
Lemma wf_free p w : wf w → wf (w_free p w).
Proof.
  intros [Hb Hw]. split; [done|]. simpl. intros q o [_ Hq]%lookup_delete_Some. by eapply Hw.
Qed.

(** The deferred work appends the row to the log file. *)
Lemma deferred_work_run t s wp w :
  wf w → queued w wp t s → crypto_up (clock w) → filp_open_err (clock w + 3) = 0%Z →
  ∃ w', deferred_work wp w = Ret tt w' ∧ wf w' ∧
    w_glob w' = set_log (g_log (w_glob w) ++ [log_row t s]) (w_glob w) ∧
    ∀ q o, q ≠ wp → mem w !! q = Some o → mem w' !! q = Some o.
Proof.
  intros Hwf Hq Hup Ho. destruct (deferred_row_run t s wp w) as (w1 & row & len & Hr & He & Hc & Hlen & Htk);
    [done..|]. destruct Hq as (lp & dup & h & b & Hw & _). pose proof (wf_heap_not_null _ _ _ Hwf Hw).
  pose proof (extends_wf _ _ He Hwf) as Hwf1. pose proof (extends_lookup _ _ _ _ He Hw) as Hw1.
  eexists (w_free wp (w_put _ w1)). split; [|split; [|split]].
  - unfold deferred_work. erewrite K_bind_Ret by exact Hr. unfold get_clock. kstep.
    rewrite decide_False by (rewrite Hc, Ho; naive_solver). kstep. kstep. kstep.
    eapply run_kfree; [exact Hw1|done].
  - by apply wf_free.
  - simpl. rewrite (extends_glob _ _ He). by rewrite Htk.
  - intros q o Hq Hmq. simpl. rewrite lookup_delete_ne by done. by eapply extends_lookup.
Qed.
End logger_facts.

(** ** Properties *)

Section logger_properties.
Context `{AL : Alloc} `{CR : Crypto} `{CL : !CryptoLaws} `{VF : Vfs} `{VL : !VfsLaws} `{LF : LogFile}
  `{IA : !InitOnAlloc}.

(** A blocked access is logged: [write_on_log] queues an item and changes
    nothing else of the module's variables, and the deferred work of that item
    appends one row of at most 255 bytes with the thread's identifiers, the path
    of its program and the digest of that path. *)
Theorem blocked_access_logged t d s w :
  wf w → t_exe t = Some d → dentry_path_raw d PATH_MAX = inr s → mem_up (clock w) 5 →
  ∃ w1 wp, write_on_log t w = Ret tt w1 ∧
    w_glob w1 = set_queue (g_queue (w_glob w) ++ [wp]) (w_glob w) ∧
    length (log_row t s) ≤ 255 ∧
    (crypto_up (clock w1) → filp_open_err (clock w1 + 3) = 0%Z →
     ∃ w2, deferred_work wp w1 = Ret tt w2 ∧
       w_glob w2 = set_log (g_log (w_glob w) ++ [log_row t s]) (w_glob w1)).
Proof.
  intros Hwf Ht Hd Hup.
  destruct (write_on_log_run t d s w) as (w1 & wp & Hrun & Hle & Hg & Hq & _); [done..|apply fresh_byte_zero|].
  exists w1, wp. split; [done|]. split; [done|]. split; [unfold log_row; len|]. intros Hc Ho.
  destruct (deferred_work_run t s wp w1) as (w2 & Hrun2 & _ & Hg2 & _); [by apply Hle|done..|].
  exists w2. split; [done|]. by rewrite Hg2, Hg.
Qed.

(** When the log record cannot be allocated, [write_on_log] releases a lock
    that nobody takes. *)
Theorem write_on_log_bad_unlock t w :
  kmalloc_ok (clock w) = false → g_def_work_lock (w_glob w) = false →
  write_on_log t w = Crash BadUnlock.
Proof.
  intros Hk Hl. unfold write_on_log. erewrite K_bind_Ret by by apply run_kmalloc_fail.
  rewrite decide_True by done. unfold unlock_def_work, get_glob. kstep. simpl. by rewrite Hl.
Qed.
End logger_properties.
