(* ===== verification/Kprobes.v ===== *)
(** * The probes (reference-monitor/kprobes/kprobes.c)

    The entry handlers, the return handler, and the registration, enabling and
    disabling of the kretprobes.  The kprobes API of the kernel is a parameter
    ([KprobeAPI]) with its documented behaviour as laws. *)

From stdpp Require Import functions.
From S2P Require Import Prelude CString Kernel Utils Blacklist Logger.

Definition NUM_KRETPROBES : nat := 10.
Definition sizeof_probe_data : Z := 8.

(** ** Arguments of the probed functions *)

(** [struct file] *)
Record file `{VF : Vfs} := mk_file { f_dentry : dentry; f_flags : Z }.

(** What an argument register points to. *)
Inductive karg `{VF : Vfs} := KFile (f : file) | KDentry (d : dentry) | KOther.

(** The argument registers of [struct pt_regs]. *)
Record pt_regs `{VF : Vfs} := mk_regs { r_di : karg; r_si : karg; r_dx : karg; r_cx : karg }.

Definition O_WRONLY : Z := 1.
Definition O_RDWR : Z := 2.
Definition O_CREAT : Z := 64.
Definition O_TRUNC : Z := 512.
Definition O_APPEND : Z := 1024.

Definition has_flag (flags bit : Z) : bool := negb (Z.land flags bit =? 0)%Z.

(** The condition of [open_entry_handler]. *)
Definition opens_for_write (flags : Z) : bool :=
  has_flag flags O_WRONLY || has_flag flags O_RDWR || has_flag flags O_CREAT ||
  has_flag flags O_APPEND || has_flag flags O_TRUNC.

Section handlers.
Context `{AL : Alloc} `{CR : Crypto} `{VF : Vfs} `{LF : LogFile}.

(** The casts of the registers. *)
Definition as_file (a : karg) : K file :=
  match a with KFile f => mret f | _ => crash WildAccess end.
Definition as_dentry (a : karg) : K dentry :=
  match a with KDentry d => mret d | _ => crash WildAccess end.

(** [sprintf(error_message, "%s: [ERROR] <what> %s blocked\n", MODNAME, full_path)]
    into the 256 bytes of [error_message] (whose old content is overwritten), the
    copy kept in the probe data, and the result 0. *)
Definition error_text (what path : buf) : buf :=
  MODNAME ++ lit ": [ERROR] " ++ what ++ lit " " ++ path ++ lit " blocked" ++ [ascii_of_nat 10].

Definition deny (what : buf) (full_path : ptr) : K (Z * option ptr) :=
  s ← load_text full_path;
  error_message ← of_opt Overrun (sprintf_at (replicate 256 NUL) 0 (error_text what s));
  text ← of_opt Overrun (c_str error_message);
  m ← kmalloc_obj (λ _, OBuf (text ++ [NUL]));
  mret (0%Z, Some m).

(** An entry handler returns 0, with the message in the probe data, to have the
    return handler called, and 1 otherwise. *)
Definition open_entry_handler (regs : pt_regs) : K (Z * option ptr) :=
  f ← as_file (r_di regs);
  let dentry := f_dentry f in
  if opens_for_write (f_flags f) then
    full_path ← get_path_from_dentry dentry;
    b ← is_blacklisted full_path;
    if decide (b = 1%Z) then deny (lit "vfs open on file") full_path
    else mret (1%Z, None)
  else mret (1%Z, None).

Definition inode_link_entry_handler (regs : pt_regs) : K (Z * option ptr) :=
  old_dentry ← as_dentry (r_di regs);
  dentry ← as_dentry (r_dx regs);
  full_old_path ← get_path_from_dentry old_dentry;
  full_path ← get_path_from_dentry dentry;
  b ← is_blacklisted full_old_path;
  if decide (b = 1%Z) then deny (lit "Link on dir") full_old_path else
  b ← is_blacklisted full_path;
  if decide (b = 1%Z) then deny (lit "Link on dir") full_path else
  mret (1%Z, None).

Definition inode_symlink_entry_handler (regs : pt_regs) : K (Z * option ptr) :=
  dentry ← as_dentry (r_si regs);
  full_path ← get_path_from_dentry dentry;
  b ← is_blacklisted full_path;
  if decide (b = 1%Z) then deny (lit "Unlink on dir") full_path else
  mret (1%Z, None).

Definition inode_unlink_entry_handler (regs : pt_regs) : K (Z * option ptr) :=
  dentry ← as_dentry (r_si regs);
  full_path ← get_path_from_dentry dentry;
  b ← is_blacklisted full_path;
  if decide (b = 1%Z) then deny (lit "Unlink on dir") full_path else
  mret (1%Z, None).

Definition inode_create_entry_handler (regs : pt_regs) : K (Z * option ptr) :=
  dentry ← as_dentry (r_si regs);
  full_path ← get_path_from_dentry dentry;
  b ← is_blacklisted full_path;
  if decide (b = 1%Z) then deny (lit "Create on file") full_path else
  mret (1%Z, None).

Definition inode_mkdir_entry_handler (regs : pt_regs) : K (Z * option ptr) :=
  dentry ← as_dentry (r_si regs);
  let parent_dentry := d_parent dentry in
  full_path ← get_path_from_dentry dentry;
  b ← is_blacklisted full_path;
  if decide (b = 1%Z) then deny (lit "Mkdir on file") full_path else
  mret (1%Z, None).

Definition inode_rename_entry_handler (regs : pt_regs) : K (Z * option ptr) :=
  old_dentry ← as_dentry (r_si regs);
  dentry ← as_dentry (r_cx regs);
  full_old_path ← get_path_from_dentry old_dentry;
  full_path ← get_path_from_dentry dentry;
  b ← is_blacklisted full_old_path;
  if decide (b = 1%Z) then deny (lit "Rename on dir") full_old_path else
  b ← is_blacklisted full_path;
  if decide (b = 1%Z) then deny (lit "Link on dir") full_path else
  mret (1%Z, None).

Definition inode_rmdir_entry_handler (regs : pt_regs) : K (Z * option ptr) :=
  dentry ← as_dentry (r_si regs);
  let parent_dentry := d_parent dentry in
  full_path ← get_path_from_dentry dentry;
  b ← is_blacklisted full_path;
  if decide (b = 1%Z) then deny (lit "Rmdir on file") full_path else
  parent_path ← get_path_from_dentry parent_dentry;
  b ← is_blacklisted parent_path;
  if decide (b = 1%Z) then deny (lit "Rmdir on file") full_path else
  mret (1%Z, None).

Definition vfs_write_entry_handler (regs : pt_regs) : K (Z * option ptr) :=
  f ← as_file (r_di regs);
  let dentry := f_dentry f in
  full_path ← get_path_from_dentry dentry;
  b ← is_blacklisted full_path;
  if decide (b = 1%Z) then deny (lit "Write on file") full_path else
  mret (1%Z, None).

Definition vfs_lseek_entry_handler (regs : pt_regs) : K (Z * option ptr) :=
  f ← as_file (r_di regs);
  let dentry := f_dentry f in
  full_path ← get_path_from_dentry dentry;
  b ← is_blacklisted full_path;
  if decide (b = 1%Z) then deny (lit "Lseek on file") full_path else
  mret (1%Z, None).

(** The handler a kretprobe structure points to. *)
Definition run_entry (h : entry_handler_id) : pt_regs → K (Z * option ptr) :=
  match h with
  | open_entry => open_entry_handler
  | inode_link_entry => inode_link_entry_handler
  | inode_symlink_entry => inode_symlink_entry_handler
  | inode_unlink_entry => inode_unlink_entry_handler
  | inode_create_entry => inode_create_entry_handler
  | inode_mkdir_entry => inode_mkdir_entry_handler
  | inode_rename_entry => inode_rename_entry_handler
  | inode_rmdir_entry => inode_rmdir_entry_handler
  | vfs_write_entry => vfs_write_entry_handler
  | vfs_lseek_entry => vfs_lseek_entry_handler
  end.

(** [ret_handler]: the value it leaves in [regs->ax]. *)
Definition ret_handler (current : task) (error_message : ptr) : K Z :=
  (if decide (error_message = NULL) then mret tt else k_print error_message) ;;
  let ax := (- EACCES)%Z in
  write_on_log current ;;
  kfree error_message ;;
  mret ax.
End handlers.

(** ** The kprobes API of the kernel *)

Class KprobeAPI := {
  enable_kretprobe : kretprobe → Z * kretprobe;
  disable_kretprobe : kretprobe → Z * kretprobe;
  register_kretprobes : list kretprobe → Z * list kretprobe;
  unregister_kretprobes : list kretprobe → list kretprobe;
}.

Definition kp_set_flags (z : Z) (k : kretprobe) : kretprobe :=
  mk_kretprobe (kp_symbol k) z (kp_handler k) (kp_entry k) (kp_maxactive k) (kp_data_size k)
    (kp_registered k).
Definition kp_set_registered (b : bool) (k : kretprobe) : kretprobe :=
  mk_kretprobe (kp_symbol k) (kp_flags k) (kp_handler k) (kp_entry k) (kp_maxactive k)
    (kp_data_size k) b.

Definition kp_enabled (k : kretprobe) : bool :=
  kp_registered k && (Z.land (kp_flags k) KPROBE_FLAG_DISABLED =? 0)%Z.

(** Documentation/trace/kprobes: a registered probe can be disabled and enabled;
    [register_kretprobes] registers all the probes of the array or none, and
    honours the initial disabled flag. *)
Class KprobeLaws `{KA : KprobeAPI} : Prop := {
  enable_registered k : kp_registered k = true →
    enable_kretprobe k = (0%Z, kp_set_flags (Z.ldiff (kp_flags k) KPROBE_FLAG_DISABLED) k);
  disable_registered k : kp_registered k = true →
    disable_kretprobe k = (0%Z, kp_set_flags (Z.lor (kp_flags k) KPROBE_FLAG_DISABLED) k);
  register_all l l' : register_kretprobes l = (0%Z, l') → l' = kp_set_registered true <$> l;
  unregister_all l : unregister_kretprobes l = kp_set_registered false <$> l;
}.

Section probes.
Context `{AL : Alloc} `{KA : KprobeAPI}.

Definition get_krp (p : probe_id) : K kretprobe := g ← get_glob; mret (g_krp g p).
Definition put_krp (p : probe_id) (k : kretprobe) : K unit :=
  g ← get_glob; put_glob (set_krp (<[p:=k]> (g_krp g)) g).

Definition set_kretprobe (p : probe_id) (symbol_name : string) (entry : entry_handler_id) : K unit :=
  k ← get_krp p;
  put_krp p (mk_kretprobe (Some symbol_name) KPROBE_FLAG_DISABLED true (Some entry) (-1)
               sizeof_probe_data (kp_registered k)).

(** The loops over [kprobe_array], from index [i] on, [n] elements left. *)
Fixpoint for_probes (f : kretprobe → Z * kretprobe) (i n : nat) : K unit :=
  match n with
  | O => mret tt
  | S n' =>
      g ← get_glob;
      l ← load_probes (g_kprobe_array g);
      p ← of_opt Overrun (l !! i);
      k ← get_krp p;
      put_krp p (f k).2 ;;
      for_probes f (S i) n'
  end.

Definition enable_kprobes : K unit := for_probes enable_kretprobe 0 NUM_KRETPROBES.
Definition disable_kprobes : K unit := for_probes disable_kretprobe 0 NUM_KRETPROBES.

(** The addresses stored in [kprobe_array]. *)
Definition kprobe_list : list probe_id :=
  [file_open; file_delete; file_create; file_mkdir; file_rename; file_rmdir; file_link;
   file_symlink; file_write; file_lseek].

Fixpoint put_all (ps : list probe_id) (ks : list kretprobe) : K unit :=
  match ps, ks with
  | p :: ps', k :: ks' => put_krp p k ;; put_all ps' ks'
  | _, _ => mret tt
  end.

(** [kretprobe_init] from the allocation of the array on. *)
Definition kretprobe_register : K Z :=
  kprobe_array ← kmalloc_obj (λ _, OProbes []);
  g ← get_glob;
  put_glob (set_kprobe_array kprobe_array g) ;;
  if decide (kprobe_array = NULL) then mret (- ENOMEM)%Z else
  store_obj kprobe_array (OProbes kprobe_list) ;;
  g ← get_glob;
  let '(ret, ks) := register_kretprobes (g_krp g <$> kprobe_list) in
  put_all kprobe_list ks ;;
  if decide (ret ≠ 0%Z) then mret ret else mret 0%Z.

Definition kretprobe_init : K Z :=
  set_kretprobe file_open "security_file_open" open_entry ;;
  set_kretprobe file_delete "security_inode_unlink" inode_unlink_entry ;;
  set_kretprobe file_link "security_inode_link" inode_link_entry ;;
  set_kretprobe file_symlink "security_inode_symlink" inode_symlink_entry ;;
  set_kretprobe file_create "security_inode_create" inode_create_entry ;;
  set_kretprobe file_mkdir "security_inode_mkdir" inode_mkdir_entry ;;
  set_kretprobe file_rename "security_inode_rename" inode_rename_entry ;;
  set_kretprobe file_rmdir "security_inode_rmdir" inode_rmdir_entry ;;
  set_kretprobe file_write "vfs_write" vfs_write_entry ;;
  set_kretprobe file_lseek "vfs_llseek" vfs_lseek_entry ;;
  kretprobe_register.

Definition kretprobe_clean : K unit :=
  g ← get_glob;
  l ← load_probes (g_kprobe_array g);
  put_all l (unregister_kretprobes (g_krp g <$> l)) ;;
  kfree (g_kprobe_array g).
End probes.

(** ** The verdict of an entry handler *)

Section verdicts.
Context `{AL : Alloc} `{CR : Crypto} `{VF : Vfs} `{LF : LogFile}.

(** The dentries an entry handler has to check, from the registers of the call. *)
Definition targets (h : entry_handler_id) (regs : pt_regs) : option (list dentry) :=
  match h, r_di regs, r_si regs, r_dx regs, r_cx regs with
  | open_entry, (KFile f), _, _, _ =>
      Some (if opens_for_write (f_flags f) then [f_dentry f] else [])
  | inode_link_entry, (KDentry old), _, (KDentry new), _ => Some [old; new]
  | inode_rename_entry, _, (KDentry old), _, (KDentry new) => Some [old; new]
  | inode_rmdir_entry, _, (KDentry d), _, _ => Some [d; d_parent d]
  | (inode_symlink_entry | inode_unlink_entry | inode_create_entry | inode_mkdir_entry),
    _, (KDentry d), _, _ => Some [d]
  | (vfs_write_entry | vfs_lseek_entry), (KFile f), _, _, _ => Some [f_dentry f]
  | _, _, _, _, _ => None
  end.

(** The paths of the dentries, each short enough for the 256 bytes of the message. *)
Definition short_path (d : dentry) (s : buf) : Prop :=
  dentry_path_raw d PATH_MAX = inr s ∧ length s ≤ 196.

(** The call has to be denied: some target is protected. *)
Definition must_deny (st : Z) (a : blacklist) (paths : list buf) : Prop :=
  Exists (protected st a) paths.

(** The message kept in the probe data. *)
Definition message (w : world) (m : ptr) : Prop :=
  m ≠ NULL ∧ ∃ text, no_nul text ∧ mem w !! m = Some (OBuf (text ++ [NUL])).

(** What a handler that has to deny exactly when [P] answers. *)
Definition answers (P : Prop) (w : world) (o : outcome (Z * option ptr)) : Prop :=
  ∃ r w', o = Ret r w' ∧ extends w w' ∧ clock w' ≤ clock w + 5 ∧
    ((P ∧ ∃ m, r = (0%Z, Some m) ∧ message w' m) ∨ (¬ P ∧ r = (1%Z, None))).

Lemma answers_iff P Q w o : (P ↔ Q) → answers P w o → answers Q w o.
Proof. intros HPQ (r & w' & Ho & He & Hc & HP). exists r, w'. intuition naive_solver. Qed.

Lemma extends_clock w w' : extends w w' → clock w ≤ clock w'.
Proof. by intros [(_ & _ & ? & _) _]. Qed.

Lemma no_nul_error_text what s : no_nul what → no_nul s → no_nul (error_text what s).
Proof.
  intros. unfold error_text, MODNAME.
  repeat first [ apply no_nul_app | assumption | by compute_done ].
Qed.

Lemma length_error_text what s : length (error_text what s) = length what + length s + 43.
Proof.
  unfold error_text. rewrite !length_app. change (length MODNAME) with 23.
  change (length (lit ": [ERROR] ")) with 10. change (length (lit " ")) with 1.
  change (length (lit " blocked")) with 8. change (length [ascii_of_nat 10]) with 1. lia.
Qed.

Lemma sprintf_at_0 b text :
  length text < length b → sprintf_at b 0 text = Some (text ++ NUL :: drop (S (length text)) b).
Proof.
  intros Hl. unfold sprintf_at, write_at. rewrite length_app. simpl length.
  rewrite decide_True by lia. rewrite take_0, app_nil_l, <- app_assoc. simpl.
  by rewrite Nat.add_1_r.
Qed.

(** The denial allocates the message and nothing else. *)
Lemma deny_alloc what p b s w :
  mem w !! p = Some (OBuf b) → p ≠ NULL → c_str b = Some s → no_nul what →
  length what + length s ≤ 212 → kmalloc_ok (clock w) = true →
  no_nul (error_text what s) ∧
  deny what p w = Ret (0%Z, Some (brk w)) (w_alloc (OBuf (error_text what s ++ [NUL])) w).
Proof.
  intros Hp Hn Hs Hw Hl Hk. pose proof (c_str_no_nul _ _ Hs) as Hs'.
  assert (no_nul (error_text what s)) as Ht by by apply no_nul_error_text. split; [done|].
  unfold deny. erewrite K_bind_Ret by (by eapply run_load_text).
  erewrite K_bind_Ret by
    (apply run_of_opt, sprintf_at_0; rewrite length_error_text, length_replicate; lia).
  erewrite K_bind_Ret by (apply run_of_opt, c_str_app; done).
  by erewrite K_bind_Ret by (by apply run_kmalloc_ok).
Qed.

Lemma deny_run what p b s w :
  mem w !! p = Some (OBuf b) → p ≠ NULL → c_str b = Some s → no_nul what →
  length what + length s ≤ 212 → wf w → kmalloc_ok (clock w) = true →
  ∃ w', deny what p w = Ret (0%Z, Some (brk w)) w' ∧ extends w w' ∧ clock w' = S (clock w) ∧
    message w' (brk w).
Proof.
  intros Hp Hn Hs Hw Hl Hwf Hk. destruct (deny_alloc what p b s w) as [Ht Hr]; [done..|].
  pose proof (proj1 Hwf) as Hb. eexists. split; [exact Hr|]. split; [by apply extends_alloc|]. split; [done|].
  split; [kptr|]. exists (error_text what s). split; [done|]. apply lookup_insert_eq.
Qed.

(** The path does not fit in the message: the handler writes past it. *)
Lemma deny_overrun what p b s w :
  mem w !! p = Some (OBuf b) → p ≠ NULL → c_str b = Some s → 212 < length what + length s →
  deny what p w = Crash Overrun.
Proof.
  intros Hp Hn Hs Hl. unfold deny. erewrite K_bind_Ret by (by eapply run_load_text).
  apply K_bind_Crash. unfold sprintf_at, write_at. rewrite length_app, length_error_text.
  rewrite decide_False; [done|]. rewrite length_replicate. simpl. lia.
Qed.

Context `{VL : !VfsLaws} `{IA : !InitOnAlloc}.

(** The path computed for a dentry, and its test. *)
Definition checked (w : world) (a : blacklist) (p : ptr) (s : buf) : Prop :=
  p ≠ NULL ∧ (∃ b, mem w !! p = Some (OBuf b) ∧ c_str b = Some s) ∧
  is_blacklisted p w = Ret (if decide (protected (rf_state (rf w)) a s) then 1 else 0)%Z w.

Lemma checked_extends w w' a p s : bl_rep w a → extends w w' → checked w a p s → checked w' a p s.
Proof.
  intros Hrep He (Hn & (b & Hb & Hs) & _).
  assert (mem w' !! p = Some (OBuf b)) as Hb' by by eapply extends_lookup.
  split; [done|]. split; [by exists b|].
  eapply is_blacklisted_run; [by eapply bl_rep_extends|done|done].
Qed.

Lemma path_run d s a w :
  bl_rep w a → short_path d s → mem_up (clock w) 2 →
  ∃ p w', get_path_from_dentry d w = Ret p w' ∧ extends w w' ∧ clock w' = clock w + 2 ∧
    bl_rep w' a ∧ checked w' a p s.
Proof.
  intros Hrep [Hd Hl] Hup.
  destruct (get_path_run d s w) as (w' & Hrun & He & Hc & Hp);
    [by apply Hrep|done|apply (mem_up_at _ _ 0 _ Hup); lia|apply (mem_up_at _ _ 1 _ Hup); lia|].
  assert (bl_rep w' a) as Hrep' by by eapply bl_rep_extends.
  rewrite fresh_byte_zero in Hp.
  exists (brk w + 1)%N, w'. split; [done|]. split; [done|]. split; [done|]. split; [done|].
  assert (c_str (s ++ [NUL; NUL]) = Some s)
    by by apply c_str_app; eapply dentry_path_raw_no_nul.
  split; [unfold NULL; lia|]. split; [by eexists|]. by eapply is_blacklisted_run.
Qed.

(** One check: deny with the path [q] when [p] is protected, go on with [k]
    otherwise. *)
Lemma check_step w0 w a p s q t what (k : K (Z * option ptr)) P :
  bl_rep w a → extends w0 w → checked w a p s → checked w a q t → no_nul what →
  length what ≤ 16 → length t ≤ 196 → clock w ≤ clock w0 + 4 → kmalloc_ok (clock w) = true →
  (protected (rf_state (rf w)) a s → P) →
  (¬ protected (rf_state (rf w)) a s → answers P w0 (k w)) →
  answers P w0 ((b ← is_blacklisted p; if decide (b = 1%Z) then deny what q else k) w).
Proof.
  intros Hrep He (_ & _ & Hp) (Hq & (b & Hb & Ht) & _) Hwt Hlw Hlt Hc Hk HP Hno.
  erewrite K_bind_Ret by exact Hp.
  destruct (decide (protected _ a s)) as [Hs|Hs]; [|by apply Hno].
  rewrite decide_True by done.
  destruct (deny_run what q b t w) as (w' & Hd & He' & Hc' & Hm); [done..|lia|by apply Hrep|done|].
  exists (0%Z, Some (brk w)), w'. split; [done|]. split; [by etransitivity|]. split; [lia|].
  left. split; [by apply HP|]. by exists (brk w).
Qed.

Lemma answers_pass (P : Prop) w0 w :
  extends w0 w → clock w ≤ clock w0 + 5 → ¬ P → answers P w0 (Ret (1%Z, None) w).
Proof. intros He Hc HP. exists (1%Z, None), w. split_and!; [done..|]. by right. Qed.

(** A handler that checks one dentry. *)
Lemma one_target what d s a w :
  bl_rep w a → short_path d s → mem_up (clock w) 3 → no_nul what → length what ≤ 16 →
  answers (must_deny (rf_state (rf w)) a [s]) w
    ((full_path ← get_path_from_dentry d;
      b ← is_blacklisted full_path;
      if decide (b = 1%Z) then deny what full_path else mret (1%Z, None)) w).
Proof.
  intros Hrep Hd Hup Hw Hl. unfold must_deny.
  destruct (path_run d s a w Hrep Hd) as (p & w1 & Hp & He & Hc & Hrep1 & Hck);
    [eapply mem_up_sub; [exact Hup|lia..]|].
  rewrite <- (extends_glob _ _ He). erewrite K_bind_Ret by exact Hp.
  eapply check_step; [done|done|exact Hck|exact Hck|done|done|apply Hd|lia| | |].
  - apply (mem_up_at _ _ 2 _ Hup); lia.
  - intros Hs. by constructor.
  - intros Hs. apply answers_pass; [done|lia|]. rewrite Exists_cons, Exists_nil. tauto.
Qed.

(** A handler that checks two dentries, both computed first. *)
Lemma two_targets what1 what2 d1 s1 d2 s2 a w :
  bl_rep w a → short_path d1 s1 → short_path d2 s2 → mem_up (clock w) 5 →
  no_nul what1 → length what1 ≤ 16 → no_nul what2 → length what2 ≤ 16 →
  answers (must_deny (rf_state (rf w)) a [s1; s2]) w
    ((full_old_path ← get_path_from_dentry d1;
      full_path ← get_path_from_dentry d2;
      b ← is_blacklisted full_old_path;
      if decide (b = 1%Z) then deny what1 full_old_path else
      b ← is_blacklisted full_path;
      if decide (b = 1%Z) then deny what2 full_path else mret (1%Z, None)) w).
Proof.
  intros Hrep Hd1 Hd2 Hup Hw1 Hl1 Hw2 Hl2. unfold must_deny.
  destruct (path_run d1 s1 a w Hrep Hd1) as (p & w1 & Hp & He1 & Hc1 & Hrep1 & Hck1);
    [eapply mem_up_sub; [exact Hup|lia..]|].
  destruct (path_run d2 s2 a w1 Hrep1 Hd2) as (q & w2 & Hq & He2 & Hc2 & Hrep2 & Hck2);
    [eapply mem_up_sub; [exact Hup|lia..]|].
  assert (extends w w2) as He by by etransitivity.
  apply (checked_extends _ w2) in Hck1; [|done..].
  assert (kmalloc_ok (clock w2) = true) as Hk by (apply (mem_up_at _ _ 4 _ Hup); lia).
  rewrite <- (extends_glob _ _ He). erewrite K_bind_Ret by exact Hp. erewrite K_bind_Ret by exact Hq.
  eapply check_step; [done|done|exact Hck1|exact Hck1|done|done|apply Hd1|lia|done| |].
  { intros Hs. by constructor. }
  intros Hs1.
  eapply check_step; [done|done|exact Hck2|exact Hck2|done|done|apply Hd2|lia|done| |].
  { intros Hs. by right; constructor. }
  intros Hs2. apply answers_pass; [done|lia|]. rewrite !Exists_cons, Exists_nil. tauto.
Qed.

(** The handler of [rmdir], which computes the parent's path only when the
    directory itself is not protected. *)
Lemma rmdir_targets what d1 s1 d2 s2 a w :
  bl_rep w a → short_path d1 s1 → short_path d2 s2 → mem_up (clock w) 5 →
  no_nul what → length what ≤ 16 →
  answers (must_deny (rf_state (rf w)) a [s1; s2]) w
    ((full_path ← get_path_from_dentry d1;
      b ← is_blacklisted full_path;
      if decide (b = 1%Z) then deny what full_path else
      parent_path ← get_path_from_dentry d2;
      b ← is_blacklisted parent_path;
      if decide (b = 1%Z) then deny what full_path else mret (1%Z, None)) w).
Proof.
  intros Hrep Hd1 Hd2 Hup Hw Hl. unfold must_deny.
  destruct (path_run d1 s1 a w Hrep Hd1) as (p & w1 & Hp & He1 & Hc1 & Hrep1 & Hck1);
    [eapply mem_up_sub; [exact Hup|lia..]|].
  rewrite <- (extends_glob _ _ He1). erewrite K_bind_Ret by exact Hp.
  eapply check_step; [done|done|exact Hck1|exact Hck1|done|done|apply Hd1|lia| | |].
  { apply (mem_up_at _ _ 2 _ Hup); lia. }
  { intros Hs. by constructor. }
  intros Hs1.
  destruct (path_run d2 s2 a w1 Hrep1 Hd2) as (q & w2 & Hq & He2 & Hc2 & Hrep2 & Hck2);
    [eapply mem_up_sub; [exact Hup|lia..]|].
  assert (extends w w2) as He by by etransitivity.
  apply (checked_extends _ w2) in Hck1; [|done..].
  rewrite <- (extends_glob _ _ He2). erewrite K_bind_Ret by exact Hq.
  eapply check_step; [done|done|exact Hck2|exact Hck1|done|done|apply Hd1|lia| | |].
  { apply (mem_up_at _ _ 4 _ Hup); lia. }
  { intros Hs. by right; constructor. }
  intros Hs2. apply answers_pass; [done|lia|]. rewrite !Exists_cons, Exists_nil.
  rewrite (extends_glob _ _ He2) in *. tauto.
Qed.

(** Every entry handler denies exactly the calls with a protected target. *)
Lemma entry_verdict h regs ds paths a w :
  bl_rep w a → targets h regs = Some ds → Forall2 short_path ds paths → mem_up (clock w) 5 →
  answers (must_deny (rf_state (rf w)) a paths) w (run_entry h regs w).
Proof.
  intros Hrep Ht Hds Hup. assert (mem_up (clock w) 3) as Hup3 by (eapply mem_up_sub; [exact Hup|lia..]).
  destruct regs as [di si dx cx].
  destruct h, di, si, dx, cx; simplify_eq/=; decompose_Forall_hyps;
    try (apply one_target; [done|done|done|by compute_done|by simpl; lia]);
    try (apply two_targets; [done|done|done|done|by compute_done|by simpl; lia|by compute_done|by simpl; lia]);
    try (apply rmdir_targets; [done|done|done|done|by compute_done|by simpl; lia]);
    unfold open_entry_handler; cbn [r_di as_file]; kstep;
    destruct (opens_for_write _); decompose_Forall_hyps;
    try (apply one_target; [done|done|done|by compute_done|by simpl; lia]);
    (apply answers_pass; [done|lia|by inversion 1]).
Qed.

(** *** The return handler *)

Lemma ret_handler_run t d s m w :
  wf w → message w m → t_exe t = Some d → dentry_path_raw d PATH_MAX = inr s →
  mem_up (clock w) 5 →
  ∃ w' wp, ret_handler t m w = Ret (- EACCES)%Z w' ∧
    w_glob w' = set_queue (g_queue (w_glob w) ++ [wp]) (w_glob w) ∧
    ∃ w1, heap_le (w_heap w) (w_heap w1) ∧ w_heap w' = w_heap (w_free m w1) ∧ queued w1 wp t s.
Proof.
  intros Hwf (Hm & text & Htext & Hmem) Ht Hd Hup. unfold ret_handler.
  rewrite decide_False by done.
  erewrite K_bind_Ret by (eapply run_k_print; [done|done|by apply c_str_app]).
  destruct (write_on_log_run t d s w) as (w1 & wp & Hlog & Hle & Hg & Hq & _);
    [done..|apply fresh_byte_zero|].
  cbv zeta. erewrite K_bind_Ret by exact Hlog.
  erewrite K_bind_Ret by (eapply run_kfree; [by eapply lookup_weaken; [|apply Hle]|done]).
  eexists _, wp. split; [done|]. split; [done|]. by exists w1.
Qed.
End verdicts.

(** *** Framing *)

Section handlers_frame.
Context `{AL : Alloc} `{CR : Crypto} `{VF : Vfs} `{LF : LogFile}.
Context (w0 : world) (Hwf : wf w0) (Hl : rf_lock (rf w0) = false).

Definition new_message (r : Z * option ptr) : Prop := ∀ m, r.2 = Some m → new_ptr w0 m.

Lemma new_message_none z : new_message (z, None).
Proof. by intros m [=]. Qed.

Lemma keeps_load_text p : keeps w0 (load_text p) (λ _, True).
Proof. unfold load_text. kkeeps. Qed.

Hint Resolve keeps_load_text new_message_none : monitor.

Lemma keeps_deny what p : keeps w0 (deny what p) new_message.
Proof. unfold deny. kkeeps. by intros m [= <-]. Qed.

Lemma keeps_as_file x : keeps w0 (as_file x) (λ _, True).
Proof. unfold as_file. kkeeps. Qed.

Lemma keeps_as_dentry x : keeps w0 (as_dentry x) (λ _, True).
Proof. unfold as_dentry. kkeeps. Qed.

Hint Resolve keeps_deny keeps_as_file keeps_as_dentry : monitor.

(** Whatever its arguments and the allocator, an entry handler changes nothing
    the module had. *)
Lemma keeps_run_entry h regs : keeps w0 (run_entry h regs) new_message.
Proof.
  destruct h; cbn [run_entry];
    unfold open_entry_handler, inode_link_entry_handler, inode_symlink_entry_handler,
      inode_unlink_entry_handler, inode_create_entry_handler, inode_mkdir_entry_handler,
      inode_rename_entry_handler, inode_rmdir_entry_handler, vfs_write_entry_handler,
      vfs_lseek_entry_handler; cbv zeta; kkeeps.
Qed.
End handlers_frame.

#[export] Hint Resolve keeps_load_text keeps_run_entry : monitor.

(** ** Enabling, disabling and registration *)

(** The function each probe is on, and its entry handler. *)
Definition symbol_of (p : probe_id) : string :=
  match p with
  | file_open => "security_file_open"
  | file_delete => "security_inode_unlink"
  | file_create => "security_inode_create"
  | file_mkdir => "security_inode_mkdir"
  | file_rename => "security_inode_rename"
  | file_rmdir => "security_inode_rmdir"
  | file_link => "security_inode_link"
  | file_symlink => "security_inode_symlink"
  | file_write => "vfs_write"
  | file_lseek => "vfs_llseek"
  end.

Definition entry_of (p : probe_id) : entry_handler_id :=
  match p with
  | file_open => open_entry
  | file_delete => inode_unlink_entry
  | file_create => inode_create_entry
  | file_mkdir => inode_mkdir_entry
  | file_rename => inode_rename_entry
  | file_rmdir => inode_rmdir_entry
  | file_link => inode_link_entry
  | file_symlink => inode_symlink_entry
  | file_write => vfs_write_entry
  | file_lseek => vfs_lseek_entry
  end.

(** The structure of a probe is set up, and registered or not. *)
Record probe_set (registered : bool) (p : probe_id) (k : kretprobe) : Prop := {
  ps_symbol : kp_symbol k = Some (symbol_of p);
  ps_entry : kp_entry k = Some (entry_of p);
  ps_handler : kp_handler k = true;
  ps_registered : kp_registered k = registered;
}.

Definition w_krp (k : probe_id → kretprobe) (w : world) : world :=
  w_put (set_krp k (w_glob w)) w.

(** The ten probes are registered, the array holds them, and they are enabled
    exactly when [on]. *)
Record probes_on (on : bool) (w : world) : Prop := {
  po_array : mem w !! g_kprobe_array (w_glob w) = Some (OProbes kprobe_list);
  po_set p : probe_set true p (g_krp (w_glob w) p);
  po_enabled p : kp_enabled (g_krp (w_glob w) p) = on;
}.

Lemma kprobe_list_all p : p ∈ kprobe_list.
Proof. destruct p; by compute_done. Qed.

Lemma kprobe_list_NoDup : NoDup kprobe_list.
Proof. by compute_done. Qed.

(** Both loops, and the bulk registration, update each structure once. *)
Definition updates (ps : list probe_id) (f : kretprobe → kretprobe)
    (k k' : probe_id → kretprobe) : Prop :=
  ∀ p, k' p = if decide (p ∈ ps) then f (k p) else k p.

Lemma updates_cons p ps f k k' :
  p ∉ ps → updates ps f (<[p:=f (k p)]> k) k' → updates (p :: ps) f k k'.
Proof.
  intros Hp Hu q. rewrite (Hu q). destruct (decide (q = p)) as [->|Hne].
  - rewrite decide_False by done. rewrite decide_True by set_solver. apply fn_lookup_insert.
  - rewrite fn_lookup_insert_ne by done.
    destruct (decide (q ∈ ps)); [rewrite decide_True by set_solver|rewrite decide_False by set_solver]; done.
Qed.

Lemma w_krp_krp k k' w : w_krp k' (w_krp k w) = w_krp k' w.
Proof. reflexivity. Qed.

Lemma w_krp_id w : w_krp (g_krp (w_glob w)) w = w.
Proof. by destruct w as [? []]. Qed.

Lemma for_probes_run f i l w :
  mem w !! g_kprobe_array (w_glob w) = Some (OProbes l) → g_kprobe_array (w_glob w) ≠ NULL →
  NoDup l → i ≤ length l →
  ∃ k', for_probes f i (length l - i) w = Ret tt (w_krp k' w) ∧
    updates (drop i l) (λ k, (f k).2) (g_krp (w_glob w)) k'.
Proof.
  intros Hl Hn Hnd. remember (length l - i) as n eqn:En.
  revert i w Hl Hn En. induction n as [|n IH]; intros i w Hl Hn En Hi.
  - exists (g_krp (w_glob w)). rewrite w_krp_id. split; [done|].
    rewrite drop_ge by lia. by intros p.
  - destruct (lookup_lt_is_Some_2 l i) as [p Hp]; [lia|].
    set (w1 := w_krp (<[p:=(f (g_krp (w_glob w) p)).2]> (g_krp (w_glob w))) w).
    destruct (IH (S i) w1) as (k' & Hk & Hu); [done|done|lia|lia|].
    exists k'. split.
    + cbn [for_probes]. unfold get_glob. kstep. kstep.
      erewrite K_bind_Ret by (by apply run_of_opt). unfold get_krp, get_glob. kstep.
      unfold put_krp, get_glob. erewrite K_bind_Ret by reflexivity. exact Hk.
    + rewrite (drop_S _ _ _ Hp). apply updates_cons; [|done].
      pose proof (take_drop_middle l i p Hp) as Hmid. rewrite <- Hmid in Hnd.
      apply NoDup_app in Hnd as (_ & _ & Hnd). by apply NoDup_cons in Hnd as [? _].
Qed.

Section probe_facts.
Context `{AL : Alloc} `{KA : KprobeAPI} `{KL : !KprobeLaws}.

Lemma for_probes_all f on w :
  wf w → probes_on on w →
  ∃ k', for_probes f 0 NUM_KRETPROBES w = Ret tt (w_krp k' w) ∧
    ∀ p, k' p = (f (g_krp (w_glob w) p)).2.
Proof.
  intros Hwf Hon. destruct (for_probes_run f 0 kprobe_list w) as (k' & Hk & Hu).
  - apply Hon.
  - eapply wf_heap_not_null; [done|apply Hon].
  - apply kprobe_list_NoDup.
  - lia.
  - exists k'. split; [exact Hk|]. intros p. rewrite (Hu p), drop_0.
    by rewrite decide_True by apply kprobe_list_all.
Qed.

Lemma kp_enabled_set (z : Z) k :
  kp_registered k = true →
  kp_enabled (kp_set_flags z k) = (Z.land z KPROBE_FLAG_DISABLED =? 0)%Z.
Proof. intros Hk. unfold kp_enabled, kp_set_flags. simpl. by rewrite Hk. Qed.

Lemma enabled_flags z : (Z.land (Z.ldiff z KPROBE_FLAG_DISABLED) KPROBE_FLAG_DISABLED =? 0)%Z = true.
Proof.
  apply Z.eqb_eq. apply Z.bits_inj'. intros n Hn.
  rewrite Z.land_spec, Z.ldiff_spec, Z.bits_0 by done. by destruct (Z.testbit z n), (Z.testbit _ n).
Qed.

Lemma disabled_flags z : (Z.land (Z.lor z KPROBE_FLAG_DISABLED) KPROBE_FLAG_DISABLED =? 0)%Z = false.
Proof.
  apply Z.eqb_neq. intros Heq%(f_equal (λ z, Z.testbit z 1)).
  rewrite Z.land_spec, Z.lor_spec, Z.bits_0 in Heq. change (Z.testbit KPROBE_FLAG_DISABLED 1) with true in Heq.
  by destruct (Z.testbit z 1).
Qed.

Lemma probes_on_krp on on' k' f w :
  probes_on on w → (∀ p, k' p = f (g_krp (w_glob w) p)) →
  (∀ k, kp_registered k = true → ∃ z, f k = kp_set_flags z k ∧
     (Z.land z KPROBE_FLAG_DISABLED =? 0)%Z = on') →
  probes_on on' (w_krp k' w).
Proof.
  intros Hon Hk Hf. destruct Hon as [Ha Hs He].
  split; [done|..]; intros p; simpl; rewrite Hk;
    destruct (Hf (g_krp (w_glob w) p)) as (z & -> & Hz); try apply Hs.
  - destruct (Hs p). by split.
  - rewrite kp_enabled_set; [done|apply Hs].
Qed.

Lemma enable_kprobes_run on w :
  wf w → probes_on on w →
  ∃ k', enable_kprobes w = Ret tt (w_krp k' w) ∧ probes_on true (w_krp k' w).
Proof.
  intros Hwf Hon. destruct (for_probes_all enable_kretprobe on w) as (k' & Hrun & Hk); [done..|].
  exists k'. split; [exact Hrun|].
  apply (probes_on_krp on _ _ (λ k, (enable_kretprobe k).2)); [done|exact Hk|]. intros k Hreg. simpl.
  rewrite enable_registered by done. eexists. split; [done|]. apply enabled_flags.
Qed.

Lemma disable_kprobes_run on w :
  wf w → probes_on on w →
  ∃ k', disable_kprobes w = Ret tt (w_krp k' w) ∧ probes_on false (w_krp k' w).
Proof.
  intros Hwf Hon. destruct (for_probes_all disable_kretprobe on w) as (k' & Hrun & Hk); [done..|].
  exists k'. split; [exact Hrun|].
  apply (probes_on_krp on _ _ (λ k, (disable_kretprobe k).2)); [done|exact Hk|]. intros k Hreg. simpl.
  rewrite disable_registered by done. eexists. split; [done|]. apply disabled_flags.
Qed.

(** *** Registration *)

Lemma put_all_run ps f g w :
  NoDup ps → (∀ p, p ∈ ps → g p = g_krp (w_glob w) p) →
  ∃ k', put_all ps (f <$> (g <$> ps)) w = Ret tt (w_krp k' w) ∧
    updates ps f (g_krp (w_glob w)) k'.
Proof.
  intros Hnd. revert w. induction Hnd as [|p ps Hp Hnd IH]; intros w Hg.
  - exists (g_krp (w_glob w)). rewrite w_krp_id. split; [done|]. by intros p.
  - set (w1 := w_krp (<[p:=f (g_krp (w_glob w) p)]> (g_krp (w_glob w))) w).
    destruct (IH w1) as (k' & Hk & Hu).
    { intros q Hq. simpl. rewrite fn_lookup_insert_ne by (intros ->; done). apply Hg. set_solver. }
    exists k'. split; [|by apply updates_cons].
    cbn [put_all fmap list_fmap]. unfold put_krp, get_glob. rewrite (Hg p) by set_solver.
    erewrite K_bind_Ret by reflexivity. exact Hk.
Qed.

Lemma put_all_total ps ks w : ∃ k', put_all ps ks w = Ret tt (w_krp k' w).
Proof.
  revert ks w. induction ps as [|p ps IH]; intros [|k ks] w;
    try (exists (g_krp (w_glob w)); by rewrite w_krp_id).
  destruct (IH ks (w_krp (<[p:=k]> (g_krp (w_glob w))) w)) as [k' Hk'].
  exists k'. exact Hk'.
Qed.

(** The structures after the calls of [set_kretprobe] for the probes [ps]. *)
Definition probe_static (p : probe_id) (registered : bool) : kretprobe :=
  mk_kretprobe (Some (symbol_of p)) KPROBE_FLAG_DISABLED true (Some (entry_of p)) (-1)
    sizeof_probe_data registered.

Definition configured (ps : list probe_id) (k0 k : probe_id → kretprobe) : Prop :=
  ∀ p, p ∈ ps → k p = probe_static p (kp_registered (k0 p)).

Lemma run_set_kretprobe ps p s e k0 k w :
  s = symbol_of p → e = entry_of p → (∀ q, kp_registered (k q) = kp_registered (k0 q)) →
  configured ps k0 k →
  ∃ k', set_kretprobe p s e (w_krp k w) = Ret tt (w_krp k' w) ∧
    (∀ q, kp_registered (k' q) = kp_registered (k0 q)) ∧ configured (p :: ps) k0 k'.
Proof.
  intros -> -> Hr Hc. eexists (<[p:=_]> k). split; [reflexivity|]. split.
  - intros q. destruct (decide (q = p)) as [->|Hne]; [rewrite fn_lookup_insert|rewrite fn_lookup_insert_ne by done]; apply Hr.
  - intros q Hq. destruct (decide (q = p)) as [->|Hne].
    + rewrite fn_lookup_insert. unfold probe_static. simpl. by rewrite Hr.
    + rewrite fn_lookup_insert_ne by done. apply Hc. set_solver.
Qed.

Lemma kretprobe_init_set w :
  ∃ k, kretprobe_init w = kretprobe_register (w_krp k w) ∧
    ∀ p, k p = probe_static p (kp_registered (g_krp (w_glob w) p)).
Proof.
  assert (kretprobe_init w = kretprobe_init (w_krp (g_krp (w_glob w)) w)) as -> by by rewrite w_krp_id.
  assert (configured [] (g_krp (w_glob w)) (g_krp (w_glob w))) as Hc by (intros p Hp; set_solver).
  assert (∀ q, kp_registered (g_krp (w_glob w) q) = kp_registered (g_krp (w_glob w) q)) as Hr by done.
  revert Hr Hc. generalize (g_krp (w_glob w)) at 1 4 5. intros k Hr Hc. unfold kretprobe_init.
  repeat match goal with |- ∃ _, mbind _ (set_kretprobe ?p ?s ?e) (w_krp ?k ?w) = _ ∧ _ =>
    let k' := fresh "k" in let Hk := fresh "Hk" in
    destruct (run_set_kretprobe _ p s e _ k w eq_refl eq_refl Hr Hc) as (k' & Hk & Hr' & Hc');
    erewrite K_bind_Ret by exact Hk; clear k Hk Hr Hc; rename k' into k, Hr' into Hr, Hc' into Hc
  end.
  exists k. split; [done|]. intros p. apply Hc. destruct p; by compute_done.
Qed.

(** [kretprobe_init] always returns; on success the ten probes are registered
    and disabled. *)
Lemma kretprobe_init_run w :
  wf w →
  ∃ z w', kretprobe_init w = Ret z w' ∧ heap_le (w_heap w) (w_heap w') ∧
    (z = 0%Z → probes_on false w') ∧
    (∃ k a, w_glob w' = set_krp k (set_kprobe_array a (w_glob w))) ∧
    (kmalloc_ok (clock w) = false → z = (- ENOMEM)%Z) ∧
    (kmalloc_ok (clock w) = true → (∀ l, (register_kretprobes l).1 = 0%Z) → z = 0%Z).
Proof.
  intros Hwf. destruct (kretprobe_init_set w) as (k & -> & Hk). unfold kretprobe_register.
  set (w0 := w_krp k w). assert (wf w0) as Hwf0 by exact Hwf.
  destruct (kmalloc_ok (clock w)) eqn:Hok.
  2:{ erewrite K_bind_Ret by (by apply run_kmalloc_fail). unfold get_glob. kstep.
      unfold put_glob. kstep. rewrite decide_True by done. do 2 eexists. split; [done|].
      split; [apply (extends_tick w0)|]. split; [done|]. split; [|done]. by do 2 eexists. }
  erewrite K_bind_Ret by (by apply run_kmalloc_ok). unfold get_glob. kstep. unfold put_glob. kstep.
  assert (brk w0 ≠ NULL) as Hn by (pose proof (proj1 Hwf0); kptr).
  rewrite decide_False by done. unfold store_obj. kstep. kstep.
  match goal with |- context [(let '(_, _) := _ in _) ?w] => set (w1 := w) end.
  assert (heap_le (w_heap w) (w_heap w1)) as Hle.
  { apply (extends_store w0 (w_alloc (OProbes []) w0) (brk w0) (OProbes kprobe_list) (OProbes []));
      [by apply extends_alloc|done|done|apply lookup_insert_eq]. }
  destruct (register_kretprobes _) as [ret ks] eqn:Hreg.
  destruct (decide (ret = 0%Z)) as [->|Hret].
  - apply register_all in Hreg as ->.
    destruct (put_all_run kprobe_list (kp_set_registered true) k w1) as (k' & Hrun & Hu);
      [apply kprobe_list_NoDup|done|].
    erewrite K_bind_Ret by exact Hrun. rewrite decide_False by naive_solver.
    do 2 eexists. split; [done|]. split; [exact Hle|]. split; [intros _|split; [by do 2 eexists|done]].
    assert (∀ p, k' p = probe_static p true) as Hk'.
    { intros p. rewrite (Hu p), decide_True by apply kprobe_list_all. simpl. by rewrite Hk. }
    split; [apply lookup_insert_eq|by intros p; simpl; rewrite Hk'..].
  - destruct (put_all_total kprobe_list ks w1) as [k' Hrun].
    erewrite K_bind_Ret by exact Hrun. rewrite decide_True by done.
    do 2 eexists. split; [done|]. split; [exact Hle|]. split; [done|]. split; [by do 2 eexists|].
    split; [done|]. intros _ Hall. destruct Hret. pose proof (f_equal fst Hreg) as Hf. simpl in Hf.
    rewrite <- Hf. apply Hall.
Qed.

Lemma kretprobe_clean_run on w :
  wf w → probes_on on w →
  ∃ k, kretprobe_clean w = Ret tt (w_free (g_kprobe_array (w_glob w)) (w_krp k w)) ∧
    ∀ p, kp_registered (k p) = false.
Proof.
  intros Hwf [Ha Hs _]. assert (g_kprobe_array (w_glob w) ≠ NULL) as Hn by by eapply wf_heap_not_null.
  destruct (put_all_run kprobe_list (kp_set_registered false) (g_krp (w_glob w)) w) as (k & Hrun & Hu);
    [apply kprobe_list_NoDup|done|].
  exists k. split.
  - unfold kretprobe_clean, get_glob. kstep. kstep. rewrite unregister_all.
    erewrite K_bind_Ret by exact Hrun. by eapply run_kfree.
  - intros p. rewrite (Hu p), decide_True by apply kprobe_list_all. done.
Qed.

(** The array was never allocated: both loops crash the kernel. *)
Lemma for_probes_null f w :
  g_kprobe_array (w_glob w) = NULL → for_probes f 0 NUM_KRETPROBES w = Crash NullDeref.
Proof.
  intros Hn. unfold NUM_KRETPROBES. cbn [for_probes]. unfold get_glob. kstep. rewrite Hn. done.
Qed.
End probe_facts.

(** ** Properties *)

Section kprobes_properties.
Context `{AL : Alloc} `{CR : Crypto} `{VF : Vfs} `{VL : !VfsLaws} `{LF : LogFile}.

(** Each of the ten entry handlers asks for the return handler (0, with a
    message in the probe data) exactly when one of the paths its call concerns is
    protected, and lets the call pass (1) otherwise; it changes nothing the
    module had. *)
Theorem entry_handlers_decide `{IA : !InitOnAlloc} h regs ds paths a w :
  bl_rep w a → targets h regs = Some ds → Forall2 short_path ds paths → mem_up (clock w) 5 →
  ∃ z m w', run_entry h regs w = Ret (z, m) w' ∧ extends w w' ∧
    (z = 0%Z ↔ must_deny (rf_state (rf w)) a paths) ∧ (z = 0%Z ∨ z = 1%Z) ∧
    match m with Some p => z = 0%Z ∧ message w' p | None => z = 1%Z end.
Proof.
  intros Hrep Ht Hp Hup.
  destruct (entry_verdict h regs ds paths a w) as (r & w' & Hr & He & _ & Hans); [done..|].
  destruct Hans as [(HP & m & -> & Hm)|[HP ->]].
  - exists 0%Z, (Some m), w'. naive_solver.
  - exists 1%Z, None, w'. naive_solver.
Qed.

(** A protected path of more than 196 bytes overruns the 256 bytes of the
    message: [security_file_open] on such a file for writing writes past its
    stack buffer. *)
Theorem open_entry_overrun `{IA : !InitOnAlloc} f s a w r2 r3 r4 :
  bl_rep w a → opens_for_write (f_flags f) = true → dentry_path_raw (f_dentry f) PATH_MAX = inr s →
  196 < length s → protected (rf_state (rf w)) a s → mem_up (clock w) 2 →
  open_entry_handler (mk_regs _ (KFile f) r2 r3 r4) w = Crash Overrun.
Proof.
  intros Hrep Hf Hd Hl Hs Hup. unfold open_entry_handler. cbn [r_di as_file]. kstep. rewrite Hf.
  destruct (get_path_run (f_dentry f) s w) as (w' & Hrun & He & _ & Hm);
    [apply Hrep|done|apply (mem_up_at _ _ 0 _ Hup); lia|apply (mem_up_at _ _ 1 _ Hup); lia|].
  erewrite K_bind_Ret by exact Hrun. rewrite fresh_byte_zero in Hm.
  assert (c_str (s ++ [NUL; NUL]) = Some s) as Hcs by by apply c_str_app; eapply dentry_path_raw_no_nul.
  erewrite K_bind_Ret by (eapply is_blacklisted_run; [by eapply bl_rep_extends|exact Hm|exact Hcs]).
  rewrite (extends_glob _ _ He). rewrite decide_True by (by rewrite decide_True).
  eapply deny_overrun; [exact Hm|unfold NULL; lia|exact Hcs|].
  change (length (lit "vfs open on file")) with 16. lia.
Qed.

(** [ret_handler] returns -EACCES and queues one log entry for the thread. *)
Theorem ret_handler_denies `{IA : !InitOnAlloc} t d s m w :
  wf w → message w m → t_exe t = Some d → dentry_path_raw d PATH_MAX = inr s →
  mem_up (clock w) 5 →
  ∃ w' wp, ret_handler t m w = Ret (- EACCES)%Z w' ∧ mem w' !! m = None ∧
    w_glob w' = set_queue (g_queue (w_glob w) ++ [wp]) (w_glob w).
Proof.
  intros. destruct (ret_handler_run t d s m w) as (w' & wp & Hr & Hg & w1 & _ & Hh & _); [done..|].
  exists w', wp. split; [done|]. split; [|done]. rewrite Hh. apply lookup_delete_eq.
Qed.
End kprobes_properties.

Section registration_properties.
Context `{AL : Alloc} `{KA : KprobeAPI} `{KL : !KprobeLaws}.

(** [kretprobe_init] returns whatever the allocator and the registration
    answer; when it returns 0 the ten probes are on their functions with their
    entry handlers, registered and disabled, and the array holds them. *)
Theorem kretprobe_init_registers w :
  wf w →
  ∃ z w', kretprobe_init w = Ret z w' ∧ (z = 0%Z → probes_on false w') ∧
    (kmalloc_ok (clock w) = false → z = (- ENOMEM)%Z) ∧
    (kmalloc_ok (clock w) = true → (∀ l, (register_kretprobes l).1 = 0%Z) → z = 0%Z).
Proof.
  intros Hwf. destruct (kretprobe_init_run w Hwf) as (z & w' & Hr & _ & Hon & _ & Hn & Hz).
  exists z, w'. split; [exact Hr|]. split; [exact Hon|]. split; [exact Hn|exact Hz].
Qed.

(** Once the probes are registered, [enable_kprobes] and [disable_kprobes]
    reach all ten of them and change nothing else. *)
Theorem kprobes_toggle on w :
  wf w → probes_on on w →
  (∃ k, enable_kprobes w = Ret tt (w_krp k w) ∧ probes_on true (w_krp k w)) ∧
  (∃ k, disable_kprobes w = Ret tt (w_krp k w) ∧ probes_on false (w_krp k w)).
Proof.
  intros. split; [by eapply enable_kprobes_run|by eapply disable_kprobes_run].
Qed.

(** [kretprobe_clean] unregisters the ten probes and frees the array. *)
Theorem kretprobe_clean_unregisters on w :
  wf w → probes_on on w →
  ∃ w', kretprobe_clean w = Ret tt w' ∧ mem w' !! g_kprobe_array (w_glob w) = None ∧
    ∀ p, kp_registered (g_krp (w_glob w') p) = false.
Proof.
  intros Hwf Hon. destruct (kretprobe_clean_run on w Hwf Hon) as (k & Hr & Hk).
  eexists. split; [exact Hr|]. split; [apply lookup_delete_eq|exact Hk].
Qed.

(** When the array was not allocated, [enable_kprobes] and [disable_kprobes]
    dereference NULL: the test of [enable_kprobes] only prints an error. *)
Theorem kprobes_null_array w :
  g_kprobe_array (w_glob w) = NULL →
  enable_kprobes w = Crash NullDeref ∧ disable_kprobes w = Crash NullDeref.
Proof. intros. by split; apply for_probes_null. Qed.
End registration_properties.
