(* ===== verification/Scth.v ===== *)
(** * The system call table (reference-monitor/syscall-mount/scth.c)

    Discovery of the free entries of the system call table and the write
    protection around its update.  The table is a sequence of words at an
    address; a store to it while CR0.WP is set faults. *)

From S2P Require Import Prelude CString Kernel.

Definition MAX_ACQUIRES : Z := 10.
Definition X86_CR0_WP : Z := 0x10000.
Definition TABLE_SIZE : nat := 256.
Arguments TABLE_SIZE : simpl never.

(** ** Accesses *)

Definition get_sys : K sys_table := g ← get_glob; mret (g_sys g).
Definition put_sys (s : sys_table) : K unit := g ← get_glob; put_glob (set_sys s g).

Definition st_with_entries (l : list Z) (s : sys_table) : sys_table :=
  mk_sys_table (st_address s) l (st_new s) (st_restore s) (st_ni_syscall s) (st_cr0 s)
    (st_saved_cr0 s) (st_codes s).
Definition st_with_cr0 (z : Z) (s : sys_table) : sys_table :=
  mk_sys_table (st_address s) (st_entries s) (st_new s) (st_restore s) (st_ni_syscall s) z
    (st_saved_cr0 s) (st_codes s).
Definition st_with_saved_cr0 (z : Z) (s : sys_table) : sys_table :=
  mk_sys_table (st_address s) (st_entries s) (st_new s) (st_restore s) (st_ni_syscall s)
    (st_cr0 s) z (st_codes s).
Definition st_with_new (l : list Z) (s : sys_table) : sys_table :=
  mk_sys_table (st_address s) (st_entries s) l (st_restore s) (st_ni_syscall s) (st_cr0 s)
    (st_saved_cr0 s) (st_codes s).
Definition st_with_restore (l : list Z) (ni : Z) (s : sys_table) : sys_table :=
  mk_sys_table (st_address s) (st_entries s) (st_new s) l ni (st_cr0 s) (st_saved_cr0 s)
    (st_codes s).
Definition st_with_codes (l : list Z) (s : sys_table) : sys_table :=
  mk_sys_table (st_address s) (st_entries s) (st_new s) (st_restore s) (st_ni_syscall s)
    (st_cr0 s) (st_saved_cr0 s) l.

(** [p[i]] for [p = (unsigned long * )sys_call_table] *)
Definition read_entry (i : nat) : K Z :=
  s ← get_sys;
  if decide (st_address s = 0%Z) then crash NullDeref else of_opt Overrun (st_entries s !! i).

(** [p[slot] = v] *)
Definition write_entry (slot v : Z) : K unit :=
  s ← get_sys;
  if decide (st_address s = 0%Z) then crash NullDeref else
  if decide (0 ≤ slot < Z.of_nat (length (st_entries s)))%Z then
    if Z.testbit (st_cr0 s) 16 then crash WriteProtect else
    put_sys (st_with_entries (<[Z.to_nat slot := v]> (st_entries s)) s)
  else crash Overrun.

(** ** Write protection *)

Definition write_cr0_forced (val : Z) : K unit := s ← get_sys; put_sys (st_with_cr0 val s).

Definition protect_memory : K unit := s ← get_sys; write_cr0_forced (st_saved_cr0 s).

Definition unprotect_memory : K unit :=
  s ← get_sys;
  put_sys (st_with_saved_cr0 (st_cr0 s) s) ;;
  s ← get_sys;
  write_cr0_forced (Z.land (st_saved_cr0 s) (Z.lnot X86_CR0_WP)).

(** ** get_entries *)

(** The loop on [z]: the first entry from [z] on, [n] entries left, with the
    value of entry [i]. *)
Fixpoint same_entry (i z n : nat) : K (option nat) :=
  match n with
  | O => mret None
  | S n' =>
      a ← read_entry i;
      b ← read_entry z;
      if decide (a = b) then mret (Some z) else same_entry i (S z) n'
  end.

(** The loop on [i]: the first pair of entries with the same value. *)
Fixpoint first_pair (i n : nat) : K (option (nat * nat)) :=
  match n with
  | O => mret None
  | S n' =>
      r ← same_entry i (S i) (TABLE_SIZE - S i);
      match r with
      | Some z => mret (Some (i, z))
      | None => first_pair (S i) n'
      end
  end.

(** The loop on [k].  [acquired] is [restore[0..j]], so that [ret] is its length
    and [j < num_acquires - 1] says that it is shorter than [num_acquires]. *)
Fixpoint acquire_more (i k n : nat) (num : Z) (acquired : list nat) : K (list nat) :=
  match n with
  | O => mret acquired
  | S n' =>
      if decide (Z.of_nat (length acquired) < num)%Z then
        a ← read_entry i;
        b ← read_entry k;
        acquire_more i (S k) n' num (if decide (a = b) then acquired ++ [k] else acquired)
      else mret acquired
  end.

Definition acquire_one (num : Z) (i : nat) (acquired : list nat) : list nat :=
  if decide (Z.of_nat (length acquired) < num)%Z then acquired ++ [i] else acquired.

(** [None] is the result -1; [Some (restore, addr)] the entries copied to
    [entry_ids] and the address stored in [*sys_ni_sys_call], with the number of
    entries as the result. *)
Definition get_entries (num_acquires : Z) : K (option (list nat * Z)) :=
  if decide (num_acquires < 1)%Z then mret None else
  if decide (MAX_ACQUIRES < num_acquires)%Z then mret None else
  r ← first_pair 0 TABLE_SIZE;
  match r with
  | None => mret None
  | Some (i, z) =>
      addr ← read_entry i;
      let acquired := acquire_one num_acquires i [] in
      let acquired := acquire_one num_acquires z acquired in
      acquired ← acquire_more i (S z) (TABLE_SIZE - S z) num_acquires acquired;
      if decide (Z.of_nat (length acquired) = num_acquires) then mret (Some (acquired, addr))
      else mret None
  end.

(** ** What get_entries finds *)

(** The entries of the table with value [v], in order. *)
Definition slots (words : list Z) (v : Z) : list nat :=
  filter (λ k, words !! k = Some v) (seq 0 TABLE_SIZE).

(** [v] is the first value the table holds twice. *)
Definition first_repeated (words : list Z) (v : Z) : Prop :=
  ∃ i z, i < z < TABLE_SIZE ∧ words !! i = Some v ∧ words !! z = Some v ∧
    ∀ i' z' u, i' < i → i' < z' < TABLE_SIZE → words !! i' = Some u → words !! z' ≠ Some u.

Definition no_repetition (words : list Z) : Prop :=
  ∀ i z u, i < z < TABLE_SIZE → words !! i = Some u → words !! z ≠ Some u.

(** The table is mapped. *)
Definition table (words : list Z) (w : world) : Prop :=
  st_address (g_sys (w_glob w)) ≠ 0%Z ∧ st_entries (g_sys (w_glob w)) = words ∧
  TABLE_SIZE ≤ length words.

Section discovery.
Context (words : list Z) (w : world) (Ht : table words w).

Lemma run_read_entry i v : words !! i = Some v → read_entry i w = Ret v w.
Proof.
  destruct Ht as (Ha & <- & Hl). intros Hv. unfold read_entry, get_sys, get_glob.
  erewrite K_bind_Ret by reflexivity. rewrite decide_False by done. by apply run_of_opt.
Qed.

Lemma entry_at i : i < TABLE_SIZE → ∃ v, words !! i = Some v.
Proof. destruct Ht as (_ & _ & Hl). intros Hi. apply lookup_lt_is_Some_2. lia. Qed.

Lemma same_entry_run i v z n :
  words !! i = Some v → z + n ≤ TABLE_SIZE →
  (∃ z', same_entry i z n w = Ret (Some z') w ∧ z ≤ z' < z + n ∧ words !! z' = Some v ∧
     ∀ y, z ≤ y < z' → words !! y ≠ Some v) ∨
  (same_entry i z n w = Ret None w ∧ ∀ y, z ≤ y < z + n → words !! y ≠ Some v).
Proof.
  intros Hi. revert z. induction n as [|n IH]; intros z Hz.
  { right. split; [done|]. lia. }
  destruct (entry_at z) as [u Hu]; [lia|]. cbn [same_entry].
  erewrite K_bind_Ret by (by apply run_read_entry).
  erewrite K_bind_Ret by (by apply run_read_entry).
  destruct (decide (v = u)) as [->|Hne].
  { left. exists z. split; [done|]. split; [lia|]. split; [done|]. lia. }
  assert (words !! z ≠ Some v) as Hzv by congruence.
  destruct (IH (S z)) as [(z' & Hr & Hz' & Hv & Hy)|[Hr Hy]]; [lia|..].
  - left. exists z'. split; [done|]. split; [lia|]. split; [done|].
    intros y Hyz. destruct (decide (y = z)) as [->|]; [done|]. apply Hy. lia.
  - right. split; [done|]. intros y Hyz.
    destruct (decide (y = z)) as [->|]; [done|]. apply Hy. lia.
Qed.

Lemma first_pair_run i n :
  i + n ≤ TABLE_SIZE →
  (∃ i' z v, first_pair i n w = Ret (Some (i', z)) w ∧ i ≤ i' ∧ i' < z < TABLE_SIZE ∧
     words !! i' = Some v ∧ words !! z = Some v ∧ (∀ y, i' < y < z → words !! y ≠ Some v) ∧
     ∀ x y u, i ≤ x < i' → x < y < TABLE_SIZE → words !! x = Some u → words !! y ≠ Some u) ∨
  (first_pair i n w = Ret None w ∧
     ∀ x y u, i ≤ x < i + n → x < y < TABLE_SIZE → words !! x = Some u → words !! y ≠ Some u).
Proof.
  revert i. induction n as [|n IH]; intros i Hi.
  { right. split; [done|]. lia. }
  destruct (entry_at i) as [v Hv]; [lia|]. cbn [first_pair].
  destruct (same_entry_run i v (S i) (TABLE_SIZE - S i)) as [(z & Hr & Hz & Hzv & Hy)|[Hr Hy]];
    [done|lia|..]; erewrite K_bind_Ret by exact Hr.
  { left. exists i, z, v. split; [done|]. split; [lia|]. split; [lia|]. split; [done|].
    split; [done|]. split; [intros y Hyz; apply Hy; lia|]. lia. }
  assert (∀ x y u, x = i → x < y < TABLE_SIZE → words !! x = Some u → words !! y ≠ Some u) as Hi0.
  { intros x y u -> Hxy Hu. assert (u = v) as -> by congruence. apply Hy. lia. }
  destruct (IH (S i)) as [(i' & z & u & Hp & Hi' & Hz & Hu & Hzu & Hb & Hx)|[Hp Hx]]; [lia|..].
  - left. exists i', z, u. split; [done|]. split; [lia|]. split; [lia|]. split; [done|].
    split; [done|]. split; [done|]. intros x y u' Hxi.
    destruct (decide (x = i)) as [->|]; [by apply Hi0|]. apply Hx. lia.
  - right. split; [done|]. intros x y u' Hxi.
    destruct (decide (x = i)) as [->|]; [by apply Hi0|]. apply Hx. lia.
Qed.

Lemma acquire_more_run i v k n num acquired :
  words !! i = Some v → k + n ≤ TABLE_SIZE → (0 ≤ num)%Z →
  acquire_more i k n num acquired w =
  Ret (acquired ++ take (Z.to_nat num - length acquired)
                     (filter (λ y, words !! y = Some v) (seq k n))) w.
Proof.
  intros Hi Hk Hnum. revert k acquired Hk. induction n as [|n IH]; intros k acquired Hk.
  { cbn [seq acquire_more]. by rewrite filter_nil, take_nil, app_nil_r. }
  destruct (entry_at k) as [u Hu]; [lia|]. cbn [acquire_more seq]. case_decide as Hlt.
  - erewrite K_bind_Ret by (by apply run_read_entry).
    erewrite K_bind_Ret by (by apply run_read_entry). rewrite IH by lia.
    destruct (decide (v = u)) as [->|Hne].
    + rewrite filter_cons_True by done. rewrite length_app, <- app_assoc. simpl.
      destruct (Z.to_nat num - length acquired) as [|m] eqn:Em; [lia|].
      by replace (Z.to_nat num - (length acquired + 1)) with m by lia.
    + rewrite filter_cons_False by congruence. done.
  - replace (Z.to_nat num - length acquired) with 0 by lia. by rewrite take_0, app_nil_r.
Qed.
End discovery.

(** The three parts of the search are the entries of the value, in order. *)
Lemma slots_split words i z v :
  i < z < TABLE_SIZE → words !! i = Some v → words !! z = Some v →
  (∀ y, y < i → words !! y ≠ Some v) → (∀ y, i < y < z → words !! y ≠ Some v) →
  slots words v =
  i :: z :: filter (λ k, words !! k = Some v) (seq (S z) (TABLE_SIZE - S z)).
Proof.
  intros Hiz Hi Hz Hlo Hmid. unfold slots.
  replace (seq 0 TABLE_SIZE) with
    (seq 0 i ++ i :: seq (S i) (z - S i) ++ z :: seq (S z) (TABLE_SIZE - S z)).
  2:{ change (z :: seq (S z) (TABLE_SIZE - S z)) with (seq z (S (TABLE_SIZE - S z))).
      replace (seq (S i) (z - S i) ++ seq z (S (TABLE_SIZE - S z))) with (seq (S i) (TABLE_SIZE - S i)).
      2:{ replace (TABLE_SIZE - S i) with ((z - S i) + S (TABLE_SIZE - S z)) by lia.
          rewrite seq_app. by replace (S i + (z - S i)) with z by lia. }
      change (i :: seq (S i) (TABLE_SIZE - S i)) with (seq i (S (TABLE_SIZE - S i))).
      rewrite <- (seq_app i). f_equal. lia. }
  assert (∀ a n, (∀ y, a ≤ y < a + n → words !! y ≠ Some v) →
     filter (λ k, words !! k = Some v) (seq a n) = []) as Hnil.
  { intros a n Hn. apply elem_of_nil_inv. intros y [Hy ?%elem_of_seq]%list_elem_of_filter.
    by apply (Hn y). }
  rewrite filter_app, Hnil, app_nil_l by (intros; apply Hlo; lia).
  rewrite filter_cons_True by done. f_equal.
  rewrite filter_app, Hnil, app_nil_l by (intros; apply Hmid; lia).
  by rewrite filter_cons_True.
Qed.

(** The answer [get_entries] has to give. *)
Inductive entries_spec (words : list Z) (num : Z) : option (list nat * Z) → Prop :=
  | es_found v :
      (1 ≤ num ≤ MAX_ACQUIRES)%Z → first_repeated words v →
      (num ≤ Z.of_nat (length (slots words v)))%Z →
      entries_spec words num (Some (take (Z.to_nat num) (slots words v), v))
  | es_few v :
      first_repeated words v → (Z.of_nat (length (slots words v)) < num)%Z →
      entries_spec words num None
  | es_none : no_repetition words → entries_spec words num None
  | es_range : ¬ (1 ≤ num ≤ MAX_ACQUIRES)%Z → entries_spec words num None.

Lemma acquire_one_take num i acquired l :
  (0 ≤ num)%Z →
  acquire_one num i acquired ++ take (Z.to_nat num - length (acquire_one num i acquired)) l =
  acquired ++ take (Z.to_nat num - length acquired) (i :: l).
Proof.
  intros Hnum. unfold acquire_one. case_decide.
  - rewrite length_app, <- app_assoc. simpl.
    destruct (Z.to_nat num - length acquired) as [|m] eqn:Em; [lia|].
    by replace (Z.to_nat num - (length acquired + 1)) with m by lia.
  - by replace (Z.to_nat num - length acquired) with 0 by lia.
Qed.

Lemma get_entries_run words num w :
  table words w → ∃ r, get_entries num w = Ret r w ∧ entries_spec words num r.
Proof.
  intros Ht. unfold get_entries.
  case_decide; [exists None; split; [done|by apply es_range; lia]|].
  case_decide; [exists None; split; [done|by apply es_range; lia]|].
  destruct (first_pair_run words w Ht 0 TABLE_SIZE) as
    [(i & z & v & Hp & _ & Hz & Hi & Hzv & Hmid & Hlo)|[Hp Hno]]; [lia|..];
    erewrite K_bind_Ret by exact Hp; cbv iota.
  2:{ exists None. split; [done|]. apply es_none. intros x y u Hxy. apply Hno; lia. }
  erewrite K_bind_Ret by (by eapply run_read_entry). cbv zeta.
  erewrite K_bind_Ret by (eapply (acquire_more_run words); [done|exact Hi|lia|lia]).
  rewrite !acquire_one_take by lia. rewrite app_nil_l, Nat.sub_0_r.
  assert (slots words v = i :: z :: filter (λ k, words !! k = Some v) (seq (S z) (TABLE_SIZE - S z)))
    as Hs.
  { apply slots_split; [done..| |done]. intros y Hy Hyv. by eapply (Hlo y i v); [lia|lia|..]. }
  rewrite <- Hs.
  assert (first_repeated words v) as Hrep.
  { exists i, z. split; [done|]. split; [done|]. split; [done|].
    intros x y u Hx Hxy. apply Hlo; lia. }
  rewrite length_take. case_decide as Hd; eexists; (split; [done|]).
  - apply es_found; [lia|done|lia].
  - eapply es_few; [done|lia].
Qed.

(** *** Facts about the slots *)

Lemma slots_NoDup words v : NoDup (slots words v).
Proof. apply NoDup_filter, NoDup_ListNoDup, seq_NoDup. Qed.

Lemma slots_hold words v k : k ∈ slots words v → k < TABLE_SIZE ∧ words !! k = Some v.
Proof. unfold slots. rewrite list_elem_of_filter, elem_of_seq. intros [? ?]. split; [lia|done]. Qed.

Lemma first_repeated_unique words v v' : first_repeated words v → first_repeated words v' → v = v'.
Proof.
  intros (i & z & Hz & Hi & Hv & Hlo) (i' & z' & Hz' & Hi' & Hv' & Hlo').
  destruct (Nat.lt_trichotomy i i') as [Hlt|[->|Hlt]].
  - by destruct (Hlo' i z v).
  - congruence.
  - by destruct (Hlo i' z' v').
Qed.

Lemma first_repeated_repeats words v : first_repeated words v → ¬ no_repetition words.
Proof. intros (i & z & Hz & Hi & Hv & _) Hno. by eapply Hno. Qed.

(** ** Properties *)

Section scth_properties.

(** [get_entries] always returns; it succeeds exactly when the first address
    that the table holds twice is held by at least [num] entries (1 to 10), and
    then gives the first [num] of them, which are distinct, below 256 and hold
    that address, and the address itself; the table is only read. *)
Theorem get_entries_correct words num w :
  table words w →
  ∃ r, get_entries num w = Ret r w ∧
    match r with
    | Some (l, v) =>
        first_repeated words v ∧ l = take (Z.to_nat num) (slots words v) ∧
        Z.of_nat (length l) = num ∧ NoDup l ∧ Forall (λ k, k < TABLE_SIZE ∧ words !! k = Some v) l
    | None =>
        ¬ (1 ≤ num ≤ MAX_ACQUIRES)%Z ∨ no_repetition words ∨
        ∃ v, first_repeated words v ∧ (Z.of_nat (length (slots words v)) < num)%Z
    end.
Proof.
  intros Ht. destruct (get_entries_run words num w Ht) as (r & Hr & Hspec).
  exists r. split; [done|]. destruct Hspec as [v Hn Hv Hl|v Hv Hl|Hno|Hn]; [|by eauto..].
  split; [done|]. split; [done|]. split; [rewrite length_take; lia|]. split.
  - eapply sublist_NoDup; [apply slots_NoDup|apply sublist_take].
  - apply Forall_forall. intros k (i & Hi & _)%elem_of_take.
    by eapply slots_hold, list_elem_of_lookup_2.
Qed.

(** A store to the table faults while CR0.WP is set; between
    [unprotect_memory] and [protect_memory] it succeeds, and CR0 is as before. *)
Theorem write_protection slot v w :
  let s := g_sys (w_glob w) in
  st_address s ≠ 0%Z → (0 ≤ slot < Z.of_nat (length (st_entries s)))%Z →
  (Z.testbit (st_cr0 s) 16 = true → write_entry slot v w = Crash WriteProtect) ∧
  ∃ w', (unprotect_memory ;; write_entry slot v ;; protect_memory) w = Ret tt w' ∧
    st_cr0 (g_sys (w_glob w')) = st_cr0 s ∧
    st_entries (g_sys (w_glob w')) = <[Z.to_nat slot := v]> (st_entries s) ∧
    w_heap w' = w_heap w.
Proof.
  intros s Ha Hslot. assert (∀ z, Z.testbit (Z.land z (Z.lnot X86_CR0_WP)) 16 = false) as Hun.
  { intros z. rewrite Z.land_spec. by rewrite andb_false_r. }
  split.
  - intros Hwp. unfold write_entry, get_sys, get_glob. erewrite K_bind_Ret by reflexivity.
    fold s. rewrite decide_False by done. rewrite decide_True by done. by rewrite Hwp.
  - eexists. split.
    + unfold unprotect_memory, write_cr0_forced, get_sys, put_sys, get_glob, put_glob.
      erewrite K_bind_Ret by reflexivity. unfold write_entry, get_sys, get_glob.
      erewrite K_bind_Ret.
      2:{ erewrite K_bind_Ret by reflexivity. rewrite decide_False by done.
          rewrite decide_True by exact Hslot. cbn [w_glob g_sys set_sys st_cr0 st_with_cr0].
          rewrite Hun. reflexivity. }
      reflexivity.
    + done.
Qed.
End scth_properties.
