(* ===== verification/Monitor.v ===== *)
(** * The reference monitor (reference-monitor/stack_reference_monitor.c)

    The six system calls, the installation of the system calls, and the load
    and unload of the module. *)

From S2P Require Import Prelude CString Kernel Utils Blacklist Logger Kprobes Scth.

(** The system calls of the module, and their addresses in the loaded module. *)
Inductive syscall_id :=
  | switch_rf_state | get_rf_state | add_blacklist | remove_blacklist
  | print_blacklist | get_blacklist_size.

Class Linked := { address_of : syscall_id → Z }.

(** The content of a stack array before it is written. *)
Class Stack := { stack_byte : nat → ascii }.

(** Whether [krealloc] to a smaller size takes the bytes past that size back. *)
Class Slab := { krealloc_shrinks : bool }.

Definition HACKED_ENTRIES : nat := 6.

Section monitor.
Context `{AL : Alloc} `{CR : Crypto} `{KA : KprobeAPI} `{LK : Linked} `{ST : Stack} `{SL : Slab}.

(** ** State names *)

(** The [switch] on the state; [None] in the default case. *)
Definition state_name (state : Z) : option buf :=
  if decide (state = RF_ON) then Some (lit "ON") else
  if decide (state = RF_OFF) then Some (lit "OFF") else
  if decide (state = RF_REC_ON) then Some (lit "REC_ON") else
  if decide (state = RF_REC_OFF) then Some (lit "REC_OFF") else None.

Definition set_state_string (state_string : ptr) (state : Z) : K unit :=
  match state_name state with
  | Some name =>
      b ← load_buf state_string;
      b' ← of_opt Overrun (strcpy b (name ++ [NUL]));
      store_buf state_string b'
  | None => mret tt
  end.

(** [sizeof(char * ) * 16] *)
Definition state_string_size : nat := 8 * 16.

(** ** System calls *)

(** [sys_switch_rf_state] once the checks have passed. *)
Definition switch_apply (state : Z) : K Z :=
  spin_lock ;;
  modify_rf (rf_with_state state) ;;
  spin_unlock ;;
  (if decide (state = 0 ∨ state = 2)%Z then enable_kprobes else disable_kprobes) ;;
  state_string ← kmalloc state_string_size;
  if decide (state_string = NULL) then mret (- ENOMEM)%Z else
  set_state_string state_string state ;;
  k_print state_string ;;
  r ← get_rf;
  mret (rf_state r).

Definition sys_switch_rf_state (state : Z) (password : user_ptr) (euid : Z) : K Z :=
  let ret := rf_state_check state in
  if decide (ret ≠ 0%Z) then mret ret else
  ret ← password_check password;
  if decide (ret ≠ 0%Z) then mret ret else
  let ret := euid_check euid in
  if decide (ret ≠ 0%Z) then mret ret else
  switch_apply state.

Definition sys_get_rf_state : K Z :=
  state_string ← kmalloc state_string_size;
  if decide (state_string = NULL) then mret (- ENOMEM)%Z else
  r ← get_rf;
  set_state_string state_string (rf_state r) ;;
  r ← get_rf;
  mret (rf_state r).

Definition sys_add_to_blacklist (path password : user_ptr) (euid : Z) : K Z :=
  ret ← is_rf_rec;
  if decide (ret ≠ 0%Z) then mret ret else
  ret ← password_check password;
  if decide (ret ≠ 0%Z) then mret ret else
  let ret := euid_check euid in
  if decide (ret ≠ 0%Z) then mret ret else
  ret ← add_to_blacklist path;
  if decide (ret ≠ 0%Z) then mret ret else mret 0%Z.

Definition sys_remove_from_blacklist (path password : user_ptr) (euid : Z) : K Z :=
  ret ← is_rf_rec;
  if decide (ret ≠ 0%Z) then mret ret else
  ret ← password_check password;
  if decide (ret ≠ 0%Z) then mret ret else
  let ret := euid_check euid in
  if decide (ret ≠ 0%Z) then mret ret else
  ret ← remove_from_blacklist path;
  if decide (ret = - EINVAL)%Z then mret 1%Z else mret ret.

Definition sys_get_blacklist_size : K Z := r ← get_rf; mret (rf_blacklist_size r).

(** ** sys_print_blacklist *)

Definition BL_HEADER : buf := lit "Blacklist elements" ++ [ascii_of_nat 10].
Definition BL_EMPTY : buf := lit "Blacklist is empty" ++ [ascii_of_nat 10].
Definition TEMP_SIZE : nat := 256.
Arguments TEMP_SIZE : simpl never.

(** [kmalloc] with a size computed as an [int]: a negative one is refused. *)
Definition kmalloc_int (size : Z) : K ptr :=
  if decide (size < 0)%Z then mret NULL else kmalloc (Z.to_nat size).

Definition krealloc (p : ptr) (n : nat) : K ptr :=
  b ← load_buf p;
  if decide (n ≤ length b) then
    (if krealloc_shrinks then store_buf p (take n b) else mret tt) ;; mret p
  else
    q ← kmalloc n;
    if decide (q = NULL) then mret NULL else
    f ← load_buf q;
    f' ← of_opt Overrun (write_at f 0 b);
    store_buf q f' ;; kfree p ;; mret q.

(** [sprintf(temp_string, "- %s\n", path)] *)
Definition entry_text (path : buf) : buf := lit "- " ++ path ++ [ascii_of_nat 10].

(** [strcat(dest, src)] on a heap buffer, with [src] a terminated string. *)
Definition k_strcat (dest : ptr) (src : buf) : K unit :=
  d ← load_buf dest;
  len ← of_opt Overrun (strlen d);
  d' ← of_opt Overrun (sprintf_at d len src);
  store_buf dest d'.

(** The reallocation and the text of one node: the new buffer, NULL on failure,
    and the new content of [temp_string]. *)
Definition print_entry (n : blacklist_node) (entries : ptr) (temp_string : buf) : K (ptr * buf) :=
  len ← k_strlen entries;
  tlen ← of_opt Overrun (strlen temp_string);
  entries ← krealloc entries (len + tlen);
  if decide (entries = NULL) then mret (NULL, temp_string) else
  p ← load_text (n_path n);
  temp_string ← of_opt Overrun (sprintf_at temp_string 0 (entry_text p));
  s ← of_opt Overrun (c_str temp_string);
  k_strcat entries s ;;
  mret (entries, temp_string).

(** [while (curr->next != NULL) {...}] and the last node; the [printk] of a path
    reads it before the reallocation in the loop, after it for the last node.  The
    loop reads [curr->next] twice: for its test and, when the entry is printed, for
    the next node. *)
Fixpoint print_nodes (fuel : nat) (curr entries : ptr) (temp_string : buf) : K ptr :=
  match fuel with
  | O => crash OutOfFuel
  | S fuel' =>
      n ← load_node curr;
      if decide (n_next n = NULL) then
        r ← print_entry n entries temp_string; mret r.1
      else
        load_text (n_path n) ;;
        r ← print_entry n entries temp_string;
        if decide (r.1 = NULL) then mret NULL else
        n ← load_node curr;
        print_nodes fuel' (n_next n) r.1 r.2
  end.

(** [copy_to_user]: the bytes stored, and the number of bytes that are not. *)
Definition copy_to_user (room : nat) (s : buf) : buf * nat := (take room s, length s - room).

(** [sys_print_blacklist] from the test of the allocation on: the result, and the
    bytes written to the user buffer, of which [room] bytes are writable. *)
Definition print_list (room : nat) (curr blacklist_entries : ptr) : K (Z * buf) :=
  if decide (blacklist_entries = NULL) then mret ((-1)%Z, []) else
  if decide (curr = NULL) then
    (* blacklist_entries is the literal; kfree of it on failure *)
    let '(out, ret) := copy_to_user room BL_EMPTY in
    if decide (ret ≠ 0) then crash WildAccess else mret (0%Z, out)
  else
    b ← load_buf blacklist_entries;
    b' ← of_opt Overrun (sprintf_at b 0 BL_HEADER);
    store_buf blacklist_entries b' ;;
    fuel ← loop_fuel;
    blacklist_entries ← print_nodes fuel curr blacklist_entries (stack_byte <$> seq 0 TEMP_SIZE);
    if decide (blacklist_entries = NULL) then mret ((-1)%Z, []) else
    s ← load_text blacklist_entries;
    let '(out, ret) := copy_to_user room s in
    if decide (ret ≠ 0) then kfree blacklist_entries ;; mret ((- EAGAIN)%Z, out)
    else mret (0%Z, out).

Definition sys_print_blacklist (room : nat) (blacklist_size : Z) : K (Z * buf) :=
  r ← get_rf;
  let curr := rf_blacklist_head r in
  if decide (blacklist_size ≠ rf_blacklist_size r) then mret ((-1)%Z, []) else
  blacklist_entries ← kmalloc_int (int32 (blacklist_size * Z.of_nat PATH_MAX));
  print_list room curr blacklist_entries.

(** ** Load and unload *)

(** The loops that write the acquired entries, from index [i] on, [n] left. *)
Fixpoint write_slots (value : sys_table → nat → option Z) (i n : nat) : K unit :=
  match n with
  | O => mret tt
  | S n' =>
      s ← get_sys;
      slot ← of_opt Overrun (st_restore s !! i);
      v ← of_opt Overrun (value s i);
      write_entry slot v ;;
      write_slots value (S i) n'
  end.

Definition new_sys_calls : list Z :=
  address_of <$> [switch_rf_state; get_rf_state; add_blacklist; remove_blacklist;
                  print_blacklist; get_blacklist_size].

Definition initialize_syscalls : K Z :=
  s ← get_sys;
  put_sys (st_with_new new_sys_calls s) ;;
  r ← get_entries (Z.of_nat HACKED_ENTRIES);
  match r with
  | None => mret (- ERANGE)%Z
  | Some (entries, addr) =>
      s ← get_sys;
      put_sys (st_with_restore (Z.of_nat <$> entries) addr s) ;;
      unprotect_memory ;;
      write_slots (λ s i, st_new s !! i) 0 HACKED_ENTRIES ;;
      protect_memory ;;
      s ← get_sys;
      put_sys (st_with_codes (st_restore s) s) ;;
      mret 0%Z
  end.

Definition init_module : K Z :=
  ret ← initialize_syscalls;
  if decide (ret ≠ 0%Z) then mret ret else
  spin_lock ;;
  modify_rf (rf_with_state 1) ;;
  modify_rf (rf_with_head NULL) ;;
  modify_rf (rf_with_size 0) ;;
  spin_unlock ;;
  g ← get_glob;
  enc_password ← encrypt_password (g_password g);
  modify_rf (rf_with_password enc_password) ;;
  kretprobe_init ;;
  mret 0%Z.

Definition cleanup_module : K unit :=
  unprotect_memory ;;
  write_slots (λ s _, Some (st_ni_syscall s)) 0 HACKED_ENTRIES ;;
  protect_memory ;;
  kretprobe_clean.
End monitor.

(** ** The system call table *)

Section table.
Implicit Types (sl : list nat) (vs l : list Z).

(** The stores [l[sl[i]] = vs[i]], in order. *)
Fixpoint update_slots (sl : list nat) (vs l : list Z) : list Z :=
  match sl, vs with
  | k :: sl', v :: vs' => update_slots sl' vs' (<[k:=v]> l)
  | _, _ => l
  end.

Lemma length_update_slots sl vs l : length (update_slots sl vs l) = length l.
Proof.
  revert vs l. induction sl as [|k sl IH]; intros [|v vs] l; simpl; [done..|].
  by rewrite IH, length_insert.
Qed.

Lemma update_slots_other sl vs l k : k ∉ sl → update_slots sl vs l !! k = l !! k.
Proof.
  revert vs l. induction sl as [|x sl IH]; intros [|v vs] l Hk; simpl; [done..|].
  apply not_elem_of_cons in Hk as [Hx Hk]. rewrite IH by done. by apply list_lookup_insert_ne.
Qed.

Lemma update_slots_slot sl vs l i k v :
  NoDup sl → sl !! i = Some k → vs !! i = Some v → k < length l →
  update_slots sl vs l !! k = Some v.
Proof.
  intros Hnd. revert vs l i. induction Hnd as [|x sl Hx Hnd IH]; intros [|u vs] l i Hi Hv Hl;
    [done..|]. destruct i as [|i]; simplify_eq/=.
  - rewrite update_slots_other by done. by apply list_lookup_insert_eq.
  - eapply IH; [done|done|by rewrite length_insert].
Qed.

(** Writing back a value that all the slots had undoes any update of them. *)
Lemma update_slots_undo sl vs l ni :
  NoDup sl → (∀ k, k ∈ sl → l !! k = Some ni) →
  update_slots sl (replicate (length sl) ni) (update_slots sl vs l) = l.
Proof.
  intros Hnd Hni. apply list_eq. intros k.
  destruct (decide (k ∈ sl)) as [Hk|Hk]; [|by rewrite !update_slots_other].
  rewrite (Hni k Hk). apply list_elem_of_lookup in Hk as [i Hi].
  eapply update_slots_slot; [done|done| |].
  - apply lookup_replicate_2. by eapply lookup_lt_Some.
  - rewrite length_update_slots. eapply lookup_lt_Some, Hni, list_elem_of_lookup_2, Hi.
Qed.

Definition w_sys (s : sys_table) (w : world) : world := w_put (set_sys s (w_glob w)) w.

Lemma write_slots_run value pre sl prev vs s w :
  g_sys (w_glob w) = s → st_address s ≠ 0%Z → Z.testbit (st_cr0 s) 16 = false →
  st_restore s = Z.of_nat <$> pre ++ sl → length prev = length pre → length vs = length sl →
  Forall (λ k, k < length (st_entries s)) sl →
  (∀ l i, i < length (pre ++ sl) → value (st_with_entries l s) i = (prev ++ vs) !! i) →
  write_slots value (length pre) (length sl) w =
  Ret tt (w_sys (st_with_entries (update_slots sl vs (st_entries s)) s) w).
Proof.
  revert pre prev vs s w. induction sl as [|k sl IH];
    intros pre prev [|v vs] s w Hs Ha Hwp Hr Hp Hv Hb Hval;
    try discriminate Hv; subst s; cbn [write_slots length update_slots].
  { by destruct w as [? [???????[]]]. }
  injection Hv as Hv. apply Forall_cons in Hb as [Hk Hb].
  assert (length pre < length (pre ++ k :: sl)) as Hlt by len.
  unfold get_sys, get_glob. kstep. rewrite Hr.
  erewrite K_bind_Ret by (apply run_of_opt; by rewrite list_lookup_fmap, list_lookup_middle).
  erewrite K_bind_Ret.
  2:{ apply run_of_opt. set (s0 := g_sys (w_glob w)) in *.
      transitivity (value (st_with_entries (st_entries s0) s0) (length pre)); [by destruct s0|].
      rewrite Hval by done. by apply list_lookup_middle. }
  set (w1 := w_sys (st_with_entries (<[k:=v]> (st_entries (g_sys (w_glob w)))) (g_sys (w_glob w))) w).
  erewrite (K_bind_Ret _ _ _ tt w1).
  2:{ unfold write_entry, get_sys, get_glob. erewrite K_bind_Ret by reflexivity.
      rewrite decide_False by done. rewrite decide_True by lia. rewrite Hwp, Nat2Z.id. done. }
  replace (S (length pre)) with (length (pre ++ [k])) by len.
  rewrite (IH (pre ++ [k]) (prev ++ [v]) vs (g_sys (w_glob w1)) w1).
  - done.
  - done.
  - done.
  - done.
  - cbn. rewrite Hr, <- app_assoc. done.
  - len.
  - done.
  - simpl. by rewrite length_insert.
  - intros l i Hi. rewrite <- !app_assoc. rewrite <- app_assoc in Hi. apply (Hval l i Hi).
Qed.

Lemma unprotect_run w :
  unprotect_memory w =
  Ret tt (w_sys (st_with_cr0 (Z.land (st_cr0 (g_sys (w_glob w))) (Z.lnot X86_CR0_WP))
                  (st_with_saved_cr0 (st_cr0 (g_sys (w_glob w))) (g_sys (w_glob w)))) w).
Proof. reflexivity. Qed.

Lemma unprotected z : Z.testbit (Z.land z (Z.lnot X86_CR0_WP)) 16 = false.
Proof. rewrite Z.land_spec. by rewrite andb_false_r. Qed.
End table.

(** ** Installation and removal of the system calls *)

Section install.
Context `{AL : Alloc} `{KA : KprobeAPI} `{LK : Linked}.

(** The six entries [sl], which held [ni], lead to the system calls of the module. *)
Record installed (words : list Z) (sl : list nat) (ni : Z) (s : sys_table) : Prop := {
  in_slots : length sl = HACKED_ENTRIES;
  in_nodup : NoDup sl;
  in_free k : k ∈ sl → words !! k = Some ni;
  in_address : st_address s ≠ 0%Z;
  in_restore : st_restore s = Z.of_nat <$> sl;
  in_codes : st_codes s = Z.of_nat <$> sl;
  in_ni : st_ni_syscall s = ni;
  in_entries : st_entries s = update_slots sl new_sys_calls words;
}.

(** The part of the table's state that the search for entries leaves alone. *)
Definition with_new (s : sys_table) : sys_table := st_with_new new_sys_calls s.

Lemma initialize_syscalls_found words v w :
  table words w → first_repeated words v →
  get_entries (Z.of_nat HACKED_ENTRIES) (w_sys (with_new (g_sys (w_glob w))) w) =
  Ret (Some (take HACKED_ENTRIES (slots words v), v)) (w_sys (with_new (g_sys (w_glob w))) w) →
  HACKED_ENTRIES ≤ length (slots words v) →
  ∃ s, initialize_syscalls w = Ret 0%Z (w_sys s w) ∧ st_cr0 s = st_cr0 (g_sys (w_glob w)) ∧
    installed words (take HACKED_ENTRIES (slots words v)) v s.
Proof.
  intros (Ha & Hw & Hl) Hrep Hget Hlen. set (sl := take HACKED_ENTRIES (slots words v)) in *.
  assert (length sl = HACKED_ENTRIES) as Hsl by (unfold sl; rewrite length_take; lia).
  assert (∀ k, k ∈ sl → k < TABLE_SIZE ∧ words !! k = Some v) as Hfree.
  { intros k Hk. apply slots_hold. unfold sl in Hk. apply elem_of_take in Hk as (i & Hi & _).
    by eapply list_elem_of_lookup_2. }
  assert (NoDup sl) as Hnd.
  { eapply sublist_NoDup; [apply slots_NoDup|apply sublist_take]. }
  unfold initialize_syscalls, get_sys, put_sys, get_glob, put_glob. kstep.
  erewrite K_bind_Ret by reflexivity. erewrite K_bind_Ret by exact Hget. cbv iota.
  erewrite K_bind_Ret by reflexivity. erewrite K_bind_Ret by reflexivity.
  erewrite K_bind_Ret by apply unprotect_run.
  erewrite K_bind_Ret.
  2:{ rewrite <- Hsl. eapply (write_slots_run _ [] sl [] new_sys_calls); [reflexivity|exact Ha| | |done| | |].
      - apply unprotected.
      - done.
      - by rewrite Hsl.
      - apply Forall_forall. intros k Hk. cbn. rewrite Hw. apply Hfree in Hk. lia.
      - done. }
  unfold protect_memory, write_cr0_forced, get_sys, put_sys, get_glob, put_glob.
  erewrite K_bind_Ret by reflexivity. erewrite K_bind_Ret by reflexivity.
  erewrite K_bind_Ret by reflexivity. eexists. split; [reflexivity|]. split; [done|].
  split; [done|done|by intros k Hk; apply Hfree|done|done|done|done|]. cbn. by rewrite Hw.
Qed.

Lemma initialize_syscalls_run words w :
  table words w →
  ∃ z s, initialize_syscalls w = Ret z (w_sys s w) ∧ st_cr0 s = st_cr0 (g_sys (w_glob w)) ∧
    ((z = 0%Z ∧ ∃ v, first_repeated words v ∧ installed words (take HACKED_ENTRIES (slots words v)) v s) ∨
     (z = (- ERANGE)%Z ∧ st_entries s = words ∧
      ∀ v, first_repeated words v → length (slots words v) < HACKED_ENTRIES)).
Proof.
  intros Ht. set (w1 := w_sys (with_new (g_sys (w_glob w))) w).
  assert (table words w1) as Ht1 by exact Ht.
  destruct (get_entries_run words (Z.of_nat HACKED_ENTRIES) w1 Ht1) as (r & Hget & Hspec).
  destruct r as [[entries addr]|].
  - inversion Hspec as [v Hn Hrep Hlen Heq| | |]; subst addr entries.
    rewrite Nat2Z.id in Hget. edestruct initialize_syscalls_found as (s & Hs & Hcr & Hin);
      [done|done|exact Hget|lia|].
    exists 0%Z, s. split; [done|]. split; [done|]. left. split; [done|]. by exists v.
  - exists (- ERANGE)%Z, (with_new (g_sys (w_glob w))). split; [|split; [done|]].
    + unfold initialize_syscalls, get_sys, put_sys, get_glob, put_glob. kstep.
      erewrite K_bind_Ret by reflexivity. by erewrite K_bind_Ret by exact Hget.
    + right. split; [done|]. split; [apply Ht|]. intros v Hv.
      inversion Hspec as [|v' Hv' Hlt|Hno|Hr]; subst.
      * rewrite (first_repeated_unique _ _ _ Hv Hv'). lia.
      * by apply first_repeated_repeats in Hv.
      * exfalso. apply Hr. by compute_done.
Qed.

(** The removal writes the address of [sys_ni_syscall] back. *)
Lemma uninstall_run words sl ni s w :
  installed words sl ni s → g_sys (w_glob w) = s → Forall (λ k, k < length words) sl →
  ∃ s', (unprotect_memory ;; write_slots (λ s _, Some (st_ni_syscall s)) 0 HACKED_ENTRIES ;;
         protect_memory) w = Ret tt (w_sys s' w) ∧
    st_entries s' = words ∧ st_cr0 s' = st_cr0 s ∧ st_address s' = st_address s.
Proof.
  intros [Hsl Hnd Hfree Ha Hr Hc Hni He] <- Hb.
  assert (length new_sys_calls = length sl) as Hnew by by rewrite Hsl.
  erewrite K_bind_Ret by apply unprotect_run. erewrite K_bind_Ret.
  2:{ rewrite <- Hsl.
      eapply (write_slots_run _ [] sl [] (replicate (length sl) ni)); [reflexivity|exact Ha| | |done| | |].
      - apply unprotected.
      - exact Hr.
      - by rewrite length_replicate.
      - cbn. by rewrite He, length_update_slots.
      - intros l i Hi. cbn. rewrite Hni. symmetry. by apply lookup_replicate_2. }
  eexists. split; [reflexivity|]. cbn. rewrite He. split; [by apply update_slots_undo|done].
Qed.
End install.

(** ** sys_print_blacklist *)

Lemma sprintf_append b s t :
  c_str b = Some s → no_nul t → length s + length t < length b →
  ∃ b', sprintf_at b (length s) t = Some b' ∧ c_str b' = Some (s ++ t) ∧ length b' = length b.
Proof.
  intros Hb Ht Hl. pose proof (c_str_no_nul _ _ Hb) as Hs. apply c_str_Some in Hb as [_ [rest ->]].
  eexists. split; [|split].
  - unfold sprintf_at, write_at. rewrite decide_True by len. reflexivity.
  - rewrite take_app_length, <- app_assoc, (app_assoc s). apply c_str_app. by apply no_nul_app.
  - len.
Qed.

Section print.
Context `{AL : Alloc} `{ST : Stack} `{SL : Slab} (Hslab : krealloc_shrinks = false).
Context (w0 : world) (Hwf : wf w0).

(** The text of the whole list. *)
Definition blacklist_text (paths : list buf) : buf := BL_HEADER ++ mjoin (entry_text <$> paths).

Lemma no_nul_entry p : no_nul p → no_nul (entry_text p).
Proof. intros. unfold entry_text. repeat apply no_nul_app; [by compute_done|done|by compute_done]. Qed.

Lemma length_entry p : length (entry_text p) = length p + 3.
Proof. unfold entry_text. rewrite !length_app. change (length (lit "- ")) with 2. simpl. lia. Qed.

Lemma krealloc_keep p n b w :
  mem w !! p = Some (OBuf b) → p ≠ NULL → n ≤ length b → krealloc p n w = Ret p w.
Proof.
  intros Hp Hn Hl. unfold krealloc. kstep. rewrite decide_True by done. rewrite Hslab.
  by erewrite K_bind_Ret by reflexivity.
Qed.

(** The output buffer and the temporary string during the loop. *)
Record printing (w : world) (e : ptr) (b s temp : buf) : Prop := {
  pg_extends : extends w0 w;
  pg_new : (brk w0 ≤ e)%N;
  pg_mem : mem w !! e = Some (OBuf b);
  pg_text : c_str b = Some s;
  pg_temp : length temp = TEMP_SIZE ∧ ∃ ts, c_str temp = Some ts;
}.

Lemma print_entry_run n pb p e b s temp w :
  printing w e b s temp → mem w0 !! n_path n = Some (OBuf pb) → n_path n ≠ NULL →
  c_str pb = Some p → length p ≤ 252 → length s + 255 < length b →
  ∃ b' temp', print_entry n e temp w = Ret (e, temp') (w_store e (OBuf b') w) ∧
    printing (w_store e (OBuf b') w) e b' (s ++ entry_text p) temp' ∧ length b' = length b.
Proof.
  intros [He Hnew Hm Hb [Htl [ts Hts]]] Hpb Hnn Hp Hlp Hls.
  assert (e ≠ NULL) as Hen by (pose proof (proj1 Hwf); kptr).
  assert (no_nul (entry_text p)) as Hnt by by apply no_nul_entry; eapply c_str_no_nul.
  destruct (sprintf_append b s (entry_text p)) as (b' & Hb' & Hcs & Hlb);
    [done|done|rewrite length_entry; lia|].
  pose proof (c_str_Some temp ts) as [Hts' _]. destruct (Hts' Hts) as [_ [rest Htemp]].
  assert (length ts < TEMP_SIZE) as Hlts by (rewrite <- Htl, Htemp; len).
  assert (extends w0 (w_store e (OBuf b') w)) as He' by by eapply extends_store.
  exists b', (entry_text p ++ NUL :: drop (S (length (entry_text p))) temp). split; [|split; [|done]].
  - unfold print_entry. erewrite K_bind_Ret by by eapply run_k_strlen.
    erewrite K_bind_Ret by (apply run_of_opt; rewrite strlen_c_str, Hts; done).
    erewrite K_bind_Ret by (eapply krealloc_keep; [done|done|unfold TEMP_SIZE in *; lia]).
    rewrite decide_False by done.
    erewrite K_bind_Ret by (eapply run_load_text; [by eapply extends_lookup|done|done]).
    erewrite K_bind_Ret by
      (apply run_of_opt, sprintf_at_0; rewrite Htl, length_entry; unfold TEMP_SIZE; lia).
    erewrite K_bind_Ret by (apply run_of_opt, c_str_app; done).
    erewrite K_bind_Ret; [reflexivity|]. unfold k_strcat. kstep.
    erewrite K_bind_Ret by (apply run_of_opt; rewrite strlen_c_str, Hb; done).
    erewrite K_bind_Ret by (apply run_of_opt; exact Hb'). by eapply run_store_buf.
  - split; [done|done|apply lookup_insert_eq|done|]. split.
    + rewrite length_app. cbn [length]. rewrite length_drop, Htl, length_entry.
      unfold TEMP_SIZE. lia.
    + eexists. by apply c_str_app.
Qed.

Lemma print_nodes_run fuel curr l e b s temp w :
  printing w e b s temp → chain (mem w0) curr l → l ≠ [] → length l < fuel →
  Forall (λ p, length p ≤ 252) l.*2 → length s + 255 * length l < length b →
  ∃ w' b', print_nodes fuel curr e temp w = Ret e w' ∧ extends w0 w' ∧
    mem w' !! e = Some (OBuf b') ∧ c_str b' = Some (s ++ mjoin (entry_text <$> l.*2)).
Proof.
  revert fuel curr b s temp w. induction l as [|[x p] l IH];
    intros fuel curr b s temp w Hpg Hch Hne Hfuel Hlen Hroom; [done|].
  destruct Hch as (-> & Hx & n & pb & Hn & Hnp & Hpb & Hp & Hch).
  apply Forall_cons in Hlen as [Hlp Hlen]. cbn [snd] in Hlp. destruct fuel as [|fuel]; [simpl in Hfuel; lia|].
  cbn [length] in *. pose proof (pg_extends _ _ _ _ _ Hpg) as He.
  destruct (print_entry_run n pb p e b s temp w) as (b' & temp' & Hrun & Hpg' & Hlb); [done..|lia|].
  pose proof (pg_text _ _ _ _ _ Hpg') as Htext. pose proof (pg_mem _ _ _ _ _ Hpg') as Hm'.
  assert (mem w !! x = Some (ONode n)) as Hnw by by eapply extends_lookup.
  cbn [print_nodes]. erewrite K_bind_Ret by (by eapply run_load_node).
  rewrite !fmap_cons. change (mjoin (entry_text (x, p).2 :: (entry_text <$> l.*2)))
    with (entry_text p ++ mjoin (entry_text <$> l.*2)). rewrite app_assoc.
  destruct (decide (n_next n = NULL)) as [Hnull|Hnull].
  - erewrite K_bind_Ret by exact Hrun.
    assert (l = []) as -> by (by eapply chain_det; [exact Hch|rewrite Hnull]).
    eexists _, b'. split; [done|]. split; [apply Hpg'|]. split; [done|]. by rewrite app_nil_r.
  - erewrite K_bind_Ret by (eapply run_load_text; [by eapply extends_lookup|done|done]).
    erewrite K_bind_Ret by exact Hrun. cbn [fst snd].
    assert (l ≠ []) as Hl by (intros ->; done).
    rewrite decide_False by (pose proof (pg_new _ _ _ _ _ Hpg'); pose proof (proj1 Hwf); kptr).
    erewrite K_bind_Ret by (eapply run_load_node; [eapply extends_lookup; [apply Hpg'|exact Hn]|done]).
    eapply IH; [done|done|done|lia|done|].
    rewrite length_app, length_entry, Hlb. lia.
Qed.
End print.

Section sys_print.
Context `{AL : Alloc} `{ST : Stack} `{SL : Slab} (Hslab : krealloc_shrinks = false).

(** The list is not empty: the user gets its text, or -EAGAIN when the user
    buffer is too small. *)
Lemma sys_print_run room a w :
  bl_rep w a → bl_paths a ≠ [] → Forall (λ p, length p ≤ 252) (bl_paths a) →
  (Z.of_nat (length (bl_paths a)) ≤ bl_size a < 2 ^ 19)%Z → kmalloc_ok (clock w) = true →
  is_Some (c_str (stack_byte <$> seq 0 TEMP_SIZE)) →
  ∃ w', sys_print_blacklist room (bl_size a) w =
    Ret (if decide (length (blacklist_text (bl_paths a)) ≤ room)
         then (0%Z, blacklist_text (bl_paths a))
         else ((- EAGAIN)%Z, take room (blacklist_text (bl_paths a)))) w' ∧ extends w w'.
Proof.
  intros [Hwf Hl (l & Hch & Hlp) Hnd Hlen Hsz] Hne Hshort Hsize Hk Hst.
  set (n := Z.to_nat (bl_size a * Z.of_nat PATH_MAX)).
  assert (Z.of_nat PATH_MAX = 4096%Z) as HP by done.
  assert (length l = length (bl_paths a)) as Hll by (rewrite <- Hlp; len).
  assert (length (bl_paths a) ≠ 0) as Hl0 by (by rewrite length_zero_iff_nil).
  assert (4096 * length l ≤ n) as Hn by lia.
  pose proof (proj1 Hwf) as Hb.
  unfold sys_print_blacklist, get_rf, get_glob. kstep. cbv zeta. rewrite Hsz.
  rewrite decide_False by (intros Hx; by apply Hx).
  set (w1 := w_alloc (OBuf (fresh_bytes (clock w) n)) w).
  erewrite (K_bind_Ret (kmalloc_int _) _ w (brk w) w1).
  2:{ unfold kmalloc_int. rewrite int32_small by lia. rewrite decide_False by lia.
      by apply run_kmalloc_ok. }
  unfold print_list. rewrite decide_False by kptr.
  rewrite decide_False.
  2:{ intros Hnull. rewrite Hnull in Hch. destruct l as [|[x s] l]; [done|].
      by destruct Hch as (Hx & Hxn & _). }
  assert (length BL_HEADER = 19) as Hhl by done.
  kstep. erewrite K_bind_Ret by (apply run_of_opt, sprintf_at_0; rewrite length_fresh_bytes; lia).
  set (b1 := BL_HEADER ++ NUL :: _). kstep. unfold loop_fuel. kstep.
  set (w2 := w_store (brk w) (OBuf b1) w1).
  assert (extends w w2) as He2 by (unfold w2, w1; kext).
  assert (length b1 = n) as Hb1.
  { unfold b1. rewrite length_app. cbn [length]. rewrite length_drop, length_fresh_bytes. lia. }
  destruct (print_nodes_run Hslab w Hwf (S (size (mem w2))) (rf_blacklist_head (rf w)) l (brk w) b1
    BL_HEADER (stack_byte <$> seq 0 TEMP_SIZE) w2) as (w3 & b3 & Hrun & He3 & Hm3 & Hc3).
  { split; [done|done|apply lookup_insert_eq|by apply c_str_app; compute_done|].
    split; [by rewrite length_fmap, length_seq|]. by destruct Hst as [ts ?]; exists ts. }
  { done. }
  { by intros ->. }
  { apply Nat.lt_succ_r. eapply (chain_size _ (rf_blacklist_head (rf w))). eapply seg_mono; [apply He2|done]. }
  { by rewrite Hlp. }
  { rewrite Hb1, Hhl. lia. }
  erewrite K_bind_Ret by exact Hrun. rewrite decide_False by kptr.
  erewrite K_bind_Ret by (eapply run_load_text; [exact Hm3|kptr|exact Hc3]).
  unfold copy_to_user. rewrite Hlp. fold (blacklist_text (bl_paths a)).
  destruct (decide (length (blacklist_text (bl_paths a)) ≤ room)) as [Hr|Hr].
  - rewrite decide_False by lia. rewrite take_ge by done. eexists. split; [done|done].
  - rewrite decide_True by lia. erewrite K_bind_Ret by (eapply run_kfree; [exact Hm3|kptr]).
    eexists. split; [done|]. by apply extends_free.
Qed.
End sys_print.

(** ** Properties *)

Section monitor_properties.
Context `{AL : Alloc} `{KA : KprobeAPI} `{LK : Linked}.

Definition syscall_ids : list syscall_id :=
  [switch_rf_state; get_rf_state; add_blacklist; remove_blacklist; print_blacklist;
   get_blacklist_size].

(** C31. [initialize_syscalls] always returns.  On success the six entries it took,
    distinct and free before, lead to the six system calls in order, their
    numbers are in the code variables, every other entry is as it was, and CR0
    is as before; on failure (-ERANGE) the table is as it was. *)
Theorem initialize_syscalls_correct words w :
  table words w →
  ∃ z s, initialize_syscalls w = Ret z (w_sys s w) ∧ st_cr0 s = st_cr0 (g_sys (w_glob w)) ∧
    ((z = 0%Z ∧ ∃ v, first_repeated words v ∧
       let sl := take HACKED_ENTRIES (slots words v) in
       st_codes s = Z.of_nat <$> sl ∧ NoDup sl ∧
       (∀ i k id, sl !! i = Some k → syscall_ids !! i = Some id →
          words !! k = Some v ∧ st_entries s !! k = Some (address_of id)) ∧
       (∀ k, k ∉ sl → st_entries s !! k = words !! k)) ∨
     (z = (- ERANGE)%Z ∧ st_entries s = words ∧
      ∀ v, first_repeated words v → length (slots words v) < HACKED_ENTRIES)).
Proof.
  intros Ht. destruct (initialize_syscalls_run words w Ht) as (z & s & Hr & Hcr & Hcase).
  exists z, s. split; [done|]. split; [done|].
  destruct Hcase as [(-> & v & Hv & [Hsl Hnd Hfree Ha Hre Hc Hni He])|Hfail]; [left|by right].
  split; [done|]. exists v. split; [done|]. cbv zeta. split; [done|]. split; [done|]. split.
  - intros i k id Hi Hid. assert (words !! k = Some v) as Hk by by eapply Hfree, list_elem_of_lookup_2.
    split; [done|]. rewrite He. eapply update_slots_slot; [done|done| |by eapply lookup_lt_Some].
    unfold new_sys_calls. rewrite list_lookup_fmap.
    change ([switch_rf_state; get_rf_state; add_blacklist; remove_blacklist; print_blacklist;
      get_blacklist_size]) with syscall_ids. by rewrite Hid.
  - intros k Hk. rewrite He. by apply update_slots_other.
Qed.

(** [sys_print_blacklist], called with the current counter on a list that is
    not empty, gives the user the header and one line per path, in the order of
    the list, or -EAGAIN when the user buffer is too small; a call with another
    size is refused. *)
Theorem sys_print_blacklist_text `{ST : Stack} `{SL : Slab} room n a w :
  krealloc_shrinks = false → is_Some (c_str (stack_byte <$> seq 0 TEMP_SIZE)) →
  bl_rep w a → bl_paths a ≠ [] → Forall (λ p, length p ≤ 252) (bl_paths a) →
  (Z.of_nat (length (bl_paths a)) ≤ bl_size a < 2 ^ 19)%Z → kmalloc_ok (clock w) = true →
  if decide (n = bl_size a) then
    ∃ w', extends w w' ∧ sys_print_blacklist room n w =
      Ret (if decide (length (blacklist_text (bl_paths a)) ≤ room)
           then (0%Z, blacklist_text (bl_paths a))
           else ((- EAGAIN)%Z, take room (blacklist_text (bl_paths a)))) w'
  else sys_print_blacklist room n w = Ret ((-1)%Z, []) w.
Proof.
  intros Hsl Hst Hrep Hne Hlen Hsz Hk. case_decide as Hn.
  - subst n. destruct (sys_print_run Hsl room a w) as (w' & Hr & He); [done..|]. by exists w'.
  - unfold sys_print_blacklist, get_rf, get_glob. kstep. cbv zeta.
    by rewrite (rep_size _ _ Hrep), decide_True.
Qed.

(** [sys_add_to_blacklist] and [sys_remove_from_blacklist] outside the
    reconfiguration states return -EPERM and do nothing, whatever the password
    and the privilege of the caller. *)
Theorem edits_need_rec_state `{CR : Crypto} path u euid w :
  rf_state (rf w) = RF_ON ∨ rf_state (rf w) = RF_OFF →
  sys_add_to_blacklist path u euid w = Ret (- EPERM)%Z w ∧
  sys_remove_from_blacklist path u euid w = Ret (- EPERM)%Z w.
Proof.
  intros Hst. unfold RF_ON, RF_OFF in Hst.
  split; unfold sys_add_to_blacklist, sys_remove_from_blacklist;
    erewrite K_bind_Ret by apply run_is_rf_rec;
    by rewrite (decide_True (P := (rf_state (rf w) < 2)%Z)), decide_True by (lia || done).
Qed.

End monitor_properties.
