(* ===== verification/Security.v ===== *)
(** * What the module guarantees

    The invariant of the loaded module, its preservation by every operation
    (system calls, probe handlers, deferred work), who can change the state and
    the blacklist, and what the probes block. *)

From S2P Require Import Prelude CString Kernel Utils Blacklist Logger Kprobes Scth Monitor.

(** ** The invariant *)

(** The monitor holds digest [dg] and represents the blacklist [a]; the probes
    are enabled exactly in the states ON and REC_ON. *)
Record secure (dg : buf) (a : blacklist) (w : world) : Prop := {
  sec_rep : bl_rep w a;
  sec_digest : stored_digest w dg;
  sec_state : (0 ≤ rf_state (rf w) ≤ 3)%Z;
  sec_probes : probes_on (bool_decide (rf_state (rf w) = RF_ON ∨ rf_state (rf w) = RF_REC_ON)) w;
}.

Lemma secure_extends dg a w w' : extends w w' → secure dg a w → secure dg a w'.
Proof.
  intros He [Hr Hd Hs [Ha Hp Hen]]. pose proof (extends_glob _ _ He) as Hg.
  split; rewrite ?Hg; [by eapply bl_rep_extends|by eapply stored_digest_extends|done|].
  split; rewrite ?Hg; [by eapply extends_lookup|done|done].
Qed.

(** The list depends on the monitor structure and on its nodes and paths only. *)
Lemma bl_rep_frame a w w' :
  bl_rep w a → wf w' → rf w' = rf w →
  (∀ q o, mem w !! q = Some o → (∀ k, o ≠ OWork k) → mem w' !! q = Some o) → bl_rep w' a.
Proof.
  intros [? Hl (l & Hc & Hlp) Hnd Hlen Hsz] Hwf Hrf Hm. split; rewrite ?Hrf; [done|done| |done..].
  exists l. split; [|done]. revert Hc. clear -Hm. generalize (rf_blacklist_head (rf w)).
  induction l as [|[x s] l IH]; intros p; simpl; [done|].
  intros (-> & Hx & n & b & Hn & Hnp & Hb & Hs & Hl). split; [done|split; [done|]].
  exists n, b. split; [by apply Hm|]. split; [done|]. split; [by apply Hm|]. split; [done|].
  by apply IH.
Qed.

(** The invariant depends on the monitor structure, the probes and the objects
    they use only. *)
Lemma secure_frame dg a w w' :
  secure dg a w → wf w' → rf w' = rf w → g_krp (w_glob w') = g_krp (w_glob w) →
  g_kprobe_array (w_glob w') = g_kprobe_array (w_glob w) →
  (∀ q o, mem w !! q = Some o → (∀ k, o ≠ OWork k) → mem w' !! q = Some o) →
  secure dg a w'.
Proof.
  intros [Hr [Hdl Hd] Hs [Ha Hp Hen]] Hwf Hrf Hk Harr Hm.
  split; rewrite ?Hrf.
  - by eapply bl_rep_frame.
  - split; [done|]. rewrite Hrf. by apply Hm.
  - done.
  - split; rewrite ?Hk, ?Harr; [by apply Hm|done|done].
Qed.

Lemma probes_on_rf w' on w :
  mem w' = mem w → g_krp (w_glob w') = g_krp (w_glob w) →
  g_kprobe_array (w_glob w') = g_kprobe_array (w_glob w) → probes_on on w → probes_on on w'.
Proof. intros Hm Hk Ha []. by split; rewrite ?Hm, ?Hk, ?Ha. Qed.

Lemma list_frame_probes on w w' : list_frame w w' → probes_on on w → probes_on on w'.
Proof.
  intros [Hm (h & z & Hg)] [Ha Hs He]. split; rewrite Hg; simpl; [|done..]. by apply Hm.
Qed.

(** A change of the list leaves the rest of the invariant in place. *)
Lemma secure_list dg a a' w w' : list_frame w w' → bl_rep w' a' → secure dg a w → secure dg a' w'.
Proof.
  intros Hf Hr [_ [Hdl Hd] Hs Hp]. pose proof Hf as [Hm (h & z & Hg)].
  split; [done| |by rewrite Hg|].
  - split; [done|]. rewrite Hg. simpl. by apply Hm.
  - rewrite Hg. simpl. by eapply list_frame_probes.
Qed.

(** ** Authorisation *)

(** A password, as a system call reads it, hashes to [dg]. *)
Definition knows `{CR : Crypto} (dg : buf) (u : user_ptr) : Prop :=
  ∃ pw, c_str (take PASSW_LEN u) = Some pw ∧ sha256 pw = dg.

Lemma euid_check_0 euid : euid_check euid = 0%Z ↔ euid = 0%Z.
Proof. unfold euid_check. destruct (Z.eqb_spec euid 0); naive_solver. Qed.

Lemma rf_state_check_0 st : rf_state_check st = 0%Z ↔ (0 ≤ st ≤ 3)%Z.
Proof.
  unfold rf_state_check. destruct (Z.ltb_spec st 0), (Z.ltb_spec 3 st); simpl;
    (split; [|lia || done]); try done; lia.
Qed.

Section security.
Context `{AL : Alloc} `{CR : Crypto} `{CL : !CryptoLaws} `{VF : Vfs} `{VL : !VfsLaws} `{LF : LogFile}
  `{KA : KprobeAPI} `{KL : !KprobeLaws} `{LK : Linked} `{ST : Stack} `{SL : Slab} `{IA : !InitOnAlloc}.
Implicit Types (dg : buf) (a : blacklist) (u pw : user_ptr).

(** A system call that checks the password first: either the check fails and
    nothing changes, or the password is right and the rest runs. *)
Lemma after_password dg a u (k : Z → K Z) z w w' :
  secure dg a w → (password_check u ≫= k) w = Ret z w' →
  ∃ c w1, password_check u w = Ret c w1 ∧ extends w w1 ∧ secure dg a w1 ∧ k c w1 = Ret z w' ∧
    (c = 0%Z → knows dg u).
Proof.
  intros Hsec Hrun. unfold mbind, K_bind in Hrun.
  destruct (password_check u w) as [c w1|] eqn:Hpc; [|done].
  destruct (keeps_password_check w (rep_wf _ _ (sec_rep _ _ _ Hsec)) u w c w1) as [He _]; [done..|].
  exists c, w1. split; [done|]. split; [done|]. split; [by eapply secure_extends|]. split; [done|].
  intros ->. eapply password_check_sound; [apply Hsec|apply Hsec|done].
Qed.

(** *** sys_switch_rf_state *)

Lemma bl_rep_state st a w : bl_rep w a → bl_rep (w_rf (rf_with_state st (rf w)) w) a.
Proof. intros []. by split. Qed.

(** The name of the state fits in its buffer. *)
Lemma set_state_string_run st p n w :
  (0 ≤ st ≤ 3)%Z → mem w !! p = Some (OBuf (fresh_bytes n state_string_size)) → p ≠ NULL →
  ∃ b s, set_state_string p st w = Ret tt (w_store p (OBuf b) w) ∧ c_str b = Some s.
Proof.
  intros Hst Hp Hn. unfold set_state_string.
  assert (∃ name, state_name st = Some name ∧ no_nul name ∧ length name < state_string_size)
    as (name & -> & Hnn & Hlen).
  { assert (st = 0 ∨ st = 1 ∨ st = 2 ∨ st = 3)%Z as [->|[->|[->| ->]]] by lia;
      eexists; (split; [reflexivity|]); (split; [by compute_done|by vm_compute; lia]). }
  kstep. erewrite K_bind_Ret by
    (apply run_of_opt, strcpy_spec; [by apply c_str_app|by rewrite length_fresh_bytes]).
  do 2 eexists. split; [by eapply run_store_buf|]. by apply c_str_app.
Qed.

Lemma state_string_keeps w0 p st : wf w0 → new_ptr w0 p → keeps w0 (set_state_string p st) (λ _, True).
Proof. intros Hwf Hp. unfold set_state_string. kkeeps. Qed.

(** The part after the checks always returns and sets the state. *)
Lemma switch_apply_run st dg a w :
  secure dg a w → (0 ≤ st ≤ 3)%Z →
  ∃ w', switch_apply st w = Ret (if kmalloc_ok (clock w) then st else (- ENOMEM)%Z) w' ∧
    secure dg a w' ∧ rf_state (rf w') = st ∧ g_sys (w_glob w') = g_sys (w_glob w).
Proof.
  intros [Hrep [Hdl Hd] Hs Hp] Hst.
  set (w2 := w_rf (rf_with_state st (rf w)) w).
  assert (bl_rep w2 a) as Hrep2 by by apply bl_rep_state.
  apply (probes_on_rf w2) in Hp; [|done..].
  pose proof (rep_lock _ _ Hrep) as Hlock.
  assert (∃ k, (if decide (st = 0 ∨ st = 2)%Z then enable_kprobes else disable_kprobes) w2 =
            Ret tt (w_krp k w2) ∧
            probes_on (bool_decide (st = RF_ON ∨ st = RF_REC_ON)) (w_krp k w2)) as (k & Hk & Hon).
  { assert (wf w2) by apply Hrep2. unfold RF_ON, RF_REC_ON.
    destruct (decide (st = 0 ∨ st = 2)%Z) as [H02|H02].
    - rewrite bool_decide_eq_true_2 by done. eapply enable_kprobes_run; [done|exact Hp].
    - rewrite bool_decide_eq_false_2 by done. eapply disable_kprobes_run; [done|exact Hp]. }
  set (w3 := w_krp k w2) in *.
  assert (secure dg a w3) as Hsec3.
  { split; [destruct Hrep2; by split|by split|exact Hst|exact Hon]. }
  assert (wf w3) as Hwf3 by apply Hsec3. pose proof (proj1 Hwf3) as Hb.
  unfold switch_apply.
  erewrite K_bind_Ret by (by apply run_spin_lock). kstep.
  erewrite K_bind_Ret by (by apply run_spin_unlock).
  match goal with |- context [mbind _ _ ?w0] => replace w0 with w2
    by (unfold w2, w_rf, w_put; simpl; by destruct (rf w) as [???[]?]) end.
  erewrite K_bind_Ret by exact Hk. fold w3.
  destruct (kmalloc_ok (clock w)) eqn:Hok.
  - erewrite K_bind_Ret by (apply run_kmalloc_ok, Hok). rewrite decide_False by kptr.
    destruct (set_state_string_run st (brk w3) (clock w3)
      (w_alloc (OBuf (fresh_bytes (clock w3) state_string_size)) w3))
      as (b & s & Hset & Hbs); [exact Hst|apply lookup_insert_eq|kptr|].
    erewrite K_bind_Ret by exact Hset.
    erewrite K_bind_Ret by (eapply run_k_print; [kmem|kptr|exact Hbs]).
    eexists. split; [reflexivity|]. split; [|by split].
    eapply secure_extends; [|exact Hsec3]. kext.
  - erewrite K_bind_Ret by (apply run_kmalloc_fail, Hok). rewrite decide_True by done.
    eexists. split; [reflexivity|]. split; [|by split].
    eapply secure_extends; [|exact Hsec3]. kext.
Qed.

(** Whatever the arguments and whichever allocations fail: either nothing but new objects, or
    an authorised change of the state. *)
Lemma switch_step st u euid dg a z w w' :
  secure dg a w → sys_switch_rf_state st u euid w = Ret z w' →
  secure dg a w' ∧ g_sys (w_glob w') = g_sys (w_glob w) ∧
  (extends w w' ∨
   (knows dg u ∧ euid = 0%Z ∧ (0 ≤ st ≤ 3)%Z ∧ rf_state (rf w') = st ∧ (z = st ∨ z = (- ENOMEM)%Z))).
Proof.
  intros Hsec. unfold sys_switch_rf_state. cbv zeta.
  destruct (decide (rf_state_check st ≠ 0%Z)) as [Hst|Hst]; [by intros [= <- <-]; split; [|split; [|left]]|].
  intros Hrun. destruct (after_password dg a u _ z w w' Hsec Hrun) as (c & w1 & Hpc & He & Hsec1 & Hk & Hkn).
  revert Hk. destruct (decide (c ≠ 0%Z)) as [Hc|Hc]; [by intros [= <- <-]; split; [|split; [by rewrite ?(extends_glob _ _ He)|left]]|].
  case_decide as Heu; [by intros [= <- <-]; split; [|split; [by rewrite ?(extends_glob _ _ He)|left]]|]. intros Hk.
  apply dec_stable, rf_state_check_0 in Hst. apply dec_stable in Hc. rewrite euid_check_0 in Heu.
  destruct (switch_apply_run st dg a w1 Hsec1 Hst) as (w2 & Happ & Hsec2 & Hst2 & Hsys2).
  rewrite Happ in Hk. injection Hk as <- <-. split; [done|].
  split; [by rewrite Hsys2, (extends_glob _ _ He)|]. right.
  split; [by apply Hkn|]. split; [done|]. split; [done|]. split; [done|].
  destruct (kmalloc_ok _); auto.
Qed.

(** *** sys_add_to_blacklist and sys_remove_from_blacklist *)

(** The caller may change the blacklist. *)
Definition may_edit (dg : buf) (u : user_ptr) (euid : Z) (w : world) : Prop :=
  knows dg u ∧ euid = 0%Z ∧ (rf_state (rf w) = RF_REC_ON ∨ rf_state (rf w) = RF_REC_OFF).

(** The checks the two system calls share. *)
Lemma edit_checks dg a u euid (m : K Z) z w w' :
  secure dg a w →
  (ret ← is_rf_rec;
   if decide (ret ≠ 0%Z) then mret ret else
   ret ← password_check u;
   if decide (ret ≠ 0%Z) then mret ret else
   (let ret := euid_check euid in
    if decide (ret ≠ 0%Z) then mret ret else m)) w = Ret z w' →
  extends w w' ∨
  (may_edit dg u euid w ∧ ∃ w1, extends w w1 ∧ secure dg a w1 ∧ m w1 = Ret z w').
Proof.
  intros Hsec. erewrite K_bind_Ret by apply run_is_rf_rec.
  destruct (decide (rf_state (rf w) < 2)%Z) as [Hst|Hst].
  { rewrite decide_True by done. intros [= <- <-]. by left. }
  rewrite decide_False by naive_solver. intros Hrun.
  destruct (after_password dg a u _ z w w' Hsec Hrun) as (c & w1 & Hpc & He & Hsec1 & Hk & Hkn).
  revert Hk. destruct (decide (c ≠ 0%Z)) as [Hc|Hc]; [by intros [= <- <-]; left|]. cbv zeta.
  destruct (decide (euid_check euid ≠ 0%Z)) as [Heu|Heu]; [by intros [= <- <-]; left|]. intros Hk.
  apply dec_stable in Hc. apply dec_stable in Heu. rewrite euid_check_0 in Heu.
  right. split; [|by exists w1]. split; [by apply Hkn|]. split; [done|].
  pose proof (sec_state _ _ _ Hsec). unfold RF_REC_ON, RF_REC_OFF. lia.
Qed.

Lemma list_frame_state w w' : list_frame w w' → rf_state (rf w') = rf_state (rf w).
Proof. intros [_ (h & z & ->)]. done. Qed.

Lemma add_step path u euid dg a z w w' :
  secure dg a w → sys_add_to_blacklist path u euid w = Ret z w' →
  ∃ a', secure dg a' w' ∧ list_frame w w' ∧
    (a' = a ∨ (may_edit dg u euid w ∧ z = 0%Z ∧
               ∃ k, user_path path = Some k ∧ (k ∉ bl_paths a) ∧ a' = bl_snoc k a)).
Proof.
  intros Hsec Hrun. apply (edit_checks dg a) in Hrun as [He|(Hmay & w1 & He & Hsec1 & Hm)]; [| |done].
  { exists a. split; [by eapply secure_extends|]. split; [by apply extends_list_frame|by left]. }
  apply bind_Ret_inv in Hm as (c & w2 & Hadd & Hret).
  pose proof (add_refines path a w1 (sec_rep _ _ _ Hsec1)) as Href.
  assert (z = c ∧ w2 = w') as [-> ->].
  { revert Hret. destruct (decide (c ≠ 0%Z)) as [|Hc]; [by intros [= <- <-]|].
    apply dec_stable in Hc as ->. by intros [= <- <-]. }
  destruct (spec_add (clock w1) path a) as [f|[c' a']] eqn:Hspec; [by rewrite Href in Hadd|].
  destruct Href as (w3 & Hadd' & Hlf & Hrep). rewrite Hadd' in Hadd. injection Hadd as -> ->.
  assert (list_frame w w') as Hlf' by (eapply list_frame_trans; [by apply extends_list_frame|done]).
  exists a'. split; [by eapply (secure_list dg a)|]. split; [done|].
  unfold spec_add in Hspec. repeat case_match; simplify_eq; try (by left).
  right. split; [done|]. split; [done|]. eauto.
Qed.

Lemma remove_step path u euid dg a z w w' :
  secure dg a w → sys_remove_from_blacklist path u euid w = Ret z w' →
  ∃ a', secure dg a' w' ∧ list_frame w w' ∧
    (a' = a ∨ (may_edit dg u euid w ∧ z = 0%Z ∧
               ∃ k, user_path path = Some k ∧ k ∈ bl_paths a ∧ a' = bl_remove k a)).
Proof.
  intros Hsec Hrun. apply (edit_checks dg a) in Hrun as [He|(Hmay & w1 & He & Hsec1 & Hm)]; [| |done].
  { exists a. split; [by eapply secure_extends|]. split; [by apply extends_list_frame|by left]. }
  apply bind_Ret_inv in Hm as (c & w2 & Hrem & Hret).
  pose proof (remove_refines path a w1 (sec_rep _ _ _ Hsec1)) as Href.
  assert (w2 = w' ∧ (c = 0%Z → z = 0%Z)) as [-> Hz].
  { revert Hret. destruct (decide (c = - EINVAL)%Z) as [->|Hc]; by intros [= <- <-]. }
  destruct (spec_remove (clock w1) path a) as [f|[c' a']] eqn:Hspec; [by rewrite Href in Hrem|].
  destruct Href as (w3 & Hrem' & Hlf & Hrep). rewrite Hrem' in Hrem. injection Hrem as -> ->.
  assert (list_frame w w') as Hlf' by (eapply list_frame_trans; [by apply extends_list_frame|done]).
  exists a'. split; [by eapply (secure_list dg a)|]. split; [done|].
  unfold spec_remove in Hspec. repeat case_match; simplify_eq; try (by left).
  right. split; [done|]. split; [by apply Hz|]. eauto.
Qed.

(** *** The calls that change nothing the module had *)

Section frame.
Context (w0 : world) (Hwf : wf w0).

Lemma keeps_set_state_string p st : new_ptr w0 p → keeps w0 (set_state_string p st) (λ _, True).
Proof. intros Hp. unfold set_state_string. kkeeps. Qed.

Lemma keeps_loop_fuel : keeps w0 loop_fuel (λ _, True).
Proof. by intros w a w' He [= <- <-]. Qed.

Lemma keeps_kmalloc_int z : keeps w0 (kmalloc_int z) (new_ptr w0).
Proof. unfold kmalloc_int. kkeeps. Qed.

Lemma keeps_krealloc p n : new_ptr w0 p → keeps w0 (krealloc p n) (new_ptr w0).
Proof. intros Hp. unfold krealloc. kkeeps. Qed.

Lemma keeps_k_strcat p s : new_ptr w0 p → keeps w0 (k_strcat p s) (λ _, True).
Proof. intros Hp. unfold k_strcat. kkeeps. Qed.

Hint Resolve keeps_set_state_string keeps_loop_fuel keeps_kmalloc_int keeps_krealloc keeps_k_strcat
  : monitor.

Lemma keeps_print_entry n p t :
  new_ptr w0 p → keeps w0 (print_entry n p t) (λ r, new_ptr w0 r.1).
Proof. intros Hp. unfold print_entry. kkeeps. Qed.

Hint Resolve keeps_print_entry : monitor.

Lemma keeps_print_nodes fuel curr p t :
  new_ptr w0 p → keeps w0 (print_nodes fuel curr p t) (new_ptr w0).
Proof.
  revert curr p t. induction fuel as [|fuel IH]; intros curr p t Hp; cbn [print_nodes]; [kkeeps|].
  eapply keeps_bind; [kkeeps|]. intros n _. case_decide.
  - eapply keeps_bind; [by apply keeps_print_entry|]. intros [e t'] He. by apply keeps_ret.
  - eapply (keeps_bind _ _ _ (λ _, True)); [kkeeps|]. intros _ _.
    eapply keeps_bind; [by apply keeps_print_entry|]. intros [e t'] He. cbn [fst snd] in *. kkeeps.
Qed.

Hint Resolve keeps_print_nodes : monitor.

Lemma keeps_sys_print room n : keeps w0 (sys_print_blacklist room n) (λ _, True).
Proof. unfold sys_print_blacklist, print_list, copy_to_user. cbv zeta iota. kkeeps. Qed.

Lemma keeps_sys_get_rf_state : keeps w0 sys_get_rf_state (λ _, True).
Proof. unfold sys_get_rf_state. kkeeps. Qed.
End frame.

(** *** Log entries *)

(** The world gains objects and log entries. *)
Definition frames (w w' : world) : Prop :=
  heap_le (w_heap w) (w_heap w') ∧ rf w' = rf w ∧ g_krp (w_glob w') = g_krp (w_glob w) ∧
  g_kprobe_array (w_glob w') = g_kprobe_array (w_glob w) ∧ g_sys (w_glob w') = g_sys (w_glob w).

Lemma secure_frames dg a w w' : frames w w' → secure dg a w → secure dg a w'.
Proof.
  intros ((Hsub & _ & _ & Hwf) & Hrf & Hk & Ha & _) Hsec.
  eapply secure_frame; [done|by apply Hwf, Hsec|done..|]. intros q o Hq _. by eapply lookup_weaken.
Qed.

Lemma extends_frames w w' : extends w w' → frames w w'.
Proof. intros [Hh Hg]. unfold frames. by rewrite Hg. Qed.

Lemma unlock_def_work_frames w0 w x w' :
  extends w0 w → unlock_def_work w = Ret x w' → frames w0 w'.
Proof.
  intros [Hh Hg]. unfold unlock_def_work, get_glob. kstep. destruct (g_def_work_lock _); [|done].
  intros [= <- <-]. unfold frames. simpl. by rewrite Hg.
Qed.

Lemma load_log_inv p d w w' :
  load_log p w = Ret d w' → w' = w ∧ p ≠ NULL ∧ mem w !! p = Some (OLog d).
Proof.
  unfold load_log, lookup_obj, mbind, K_bind. case_decide; [done|].
  destruct (mem w !! p) as [[]|] eqn:Hp; try done. by intros [= <- <-].
Qed.

Lemma load_work_inv p d w w' :
  load_work p w = Ret d w' → w' = w ∧ p ≠ NULL ∧ mem w !! p = Some (OWork d).
Proof.
  unfold load_work, lookup_obj, mbind, K_bind. case_decide; [done|].
  destruct (mem w !! p) as [[]|] eqn:Hp; try done. by intros [= <- <-].
Qed.

Lemma write_on_log_frames t w0 w x w' :
  wf w0 → extends w0 w → write_on_log t w = Ret x w' → frames w0 w'.
Proof.
  intros Hwf He. unfold write_on_log. intros H.
  apply bind_Ret_inv in H as (ld & w1 & Hr & H).
  destruct (keeps_kmalloc_obj w0 Hwf _ _ _ _ He Hr) as [He1 Hld]. clear Hr.
  destruct (decide (ld = NULL)) as [|Hldn]; [by eapply unlock_def_work_frames|].
  apply bind_Ret_inv in H as (d & w2 & Hr & H).
  destruct (keeps_of_opt w0 _ _ _ _ _ He1 Hr) as [He2 _]. clear Hr.
  apply bind_Ret_inv in H as (ep & w3 & Hr & H).
  destruct (keeps_get_path_from_dentry w0 Hwf _ _ _ _ He2 Hr) as [He3 _]. clear Hr.
  apply bind_Ret_inv in H as (dup & w4 & Hr & H).
  destruct (keeps_kstrdup w0 Hwf _ _ _ _ He3 Hr) as [He4 _]. clear Hr.
  apply bind_Ret_inv in H as (ld' & w5 & (-> & _ & Hm)%load_log_inv & H).
  apply bind_Ret_inv in H as ([] & w6 & [= <-] & H).
  destruct Hld as [|Hld]; [done|].
  match type of H with mbind _ _ ?wx = _ => set (w7 := wx) in H end.
  assert (extends w0 w7) as He7 by (unfold w7; by eapply (extends_store _ w4)).
  destruct (kmalloc_ok (clock w7)) eqn:Hok.
  - revert H. erewrite K_bind_Ret by by apply run_kmalloc_ok.
    pose proof (extends_wf _ _ He7 Hwf) as Hwf7. pose proof (proj1 Hwf7).
    rewrite decide_False by kptr. unfold store_obj, get_glob, put_glob. kstep. kstep. intros [= <- <-].
    assert (extends w0 (w_store (brk w7) (OWork (mk_packed_work (brk w7) ld))
                          (w_alloc (fresh_work (clock w7)) w7))) as [Hh Hg].
    { eapply extends_store; [by apply extends_alloc_r|done|by apply extends_brk|apply lookup_insert_eq]. }
    split; [exact Hh|]. simpl. by rewrite (extends_glob _ _ He4).
  - revert H. erewrite K_bind_Ret by by apply run_kmalloc_fail. rewrite decide_True by done.
    apply unlock_def_work_frames. by apply extends_tick_r.
Qed.

Lemma reads_load_text p : reads (load_text p).
Proof.
  unfold load_text. case_decide; [apply reads_ret|].
  apply reads_bind; [apply reads_load_buf|]. intros. apply reads_of_opt.
Qed.

Hint Resolve reads_load_text : monitor.

Lemma ret_handler_secure dg a t m z w0 w w' :
  secure dg a w0 → extends w0 w → new_ptr w0 m → ret_handler t m w = Ret z w' →
  secure dg a w' ∧ rf w' = rf w0 ∧ g_sys (w_glob w') = g_sys (w_glob w0).
Proof.
  intros Hsec He Hm H. assert (wf w0) as Hwf by apply Hsec. unfold ret_handler in H.
  apply bind_Ret_inv in H as ([] & w1 & Hr & H).
  assert (w1 = w) as ->.
  { destruct (decide (m = NULL)); [by injection Hr|]. by apply reads_k_print in Hr. }
  clear Hr. cbv zeta in H. apply bind_Ret_inv in H as ([] & w2 & Hr & H).
  apply (write_on_log_frames _ w0) in Hr as Hf; [|done..].
  apply bind_Ret_inv in H as ([] & w3 & Hfree & [= <- <-]).
  pose proof (secure_frames _ _ _ _ Hf Hsec) as Hsec2.
  destruct (decide (m = NULL)) as [->|Hn]; [unfold kfree in Hfree; simplify_eq/=; by split; [|split; apply Hf]|].
  unfold kfree in Hfree. rewrite decide_False in Hfree by done.
  destruct (mem w2 !! m) as [o|] eqn:Hmo; [|done]. injection Hfree as <-.
  destruct Hm as [|Hm]; [done|]. destruct Hf as ((Hsub & Hb & Hc & Hw) & Hrf & Hk & Ha & Hsys). split; [|by split].
  eapply (secure_frame dg a w0); [done| |done..|].
  - destruct (Hw Hwf) as [Hb2 Hw2]. split; [done|]. simpl. intros q oq [_ Hq]%lookup_delete_Some.
    by eapply Hw2.
  - intros q oq Hq _. simpl. rewrite lookup_delete_ne.
    + by eapply lookup_weaken.
    + intros ->. apply (proj2 Hwf) in Hq. lia.
Qed.

Lemma deferred_work_secure dg a p w w' :
  secure dg a w → deferred_work p w = Ret tt w' →
  secure dg a w' ∧ rf w' = rf w ∧ g_sys (w_glob w') = g_sys (w_glob w).
Proof.
  intros Hsec H. assert (wf w) as Hwf by apply Hsec. unfold deferred_work in H.
  apply bind_Ret_inv in H as (row & w1 & Hrow & H). unfold deferred_row in Hrow.
  apply bind_Ret_inv in Hrow as (k & w2 & (-> & Hn & Hp)%load_work_inv & Hrow).
  apply bind_Ret_inv in Hrow as (d & w2 & (-> & _)%load_log_inv & Hrow).
  apply bind_Ret_inv in Hrow as (hash & w2 & Hr & Hrow). kread Hrow. kread Hrow.
  apply reads_of_opt in Hrow as ->.
  destruct (keeps_encrypt_password w Hwf _ _ _ _ (reflexivity w) Hr) as [He _].
  apply bind_Ret_inv in H as (n & w3 & [= <- <-] & H).
  pose proof (secure_extends _ _ _ _ He Hsec) as Hsec1.
  pose proof (extends_glob _ _ He) as Hg.
  destruct (decide _); [injection H as <-; by rewrite Hg|]. kread H.
  apply bind_Ret_inv in H as (g & w3 & [= <- <-] & H).
  apply bind_Ret_inv in H as ([] & w3 & [= <-] & H).
  assert (mem w2 !! p = Some (OWork k)) as Hp1 by by eapply extends_lookup.
  revert H. erewrite run_kfree; [|exact Hp1|done]. intros [= <-]. split; [|by cbn; rewrite Hg].
  eapply (secure_frame dg a w2); [done|apply (wf_free p w2), Hsec1|done..|].
  intros q o Hq Ho. simpl. rewrite lookup_delete_ne; [done|]. intros <-.
  rewrite Hp1 in Hq. injection Hq as <-. by eapply Ho.
Qed.

(** ** Runs of the loaded module *)

(** One operation: a system call, a probed call that passes or is denied, a
    deferred log entry. *)
Inductive step : world → world → Prop :=
  | step_switch st u euid z w w' : sys_switch_rf_state st u euid w = Ret z w' → step w w'
  | step_get_state z w w' : sys_get_rf_state w = Ret z w' → step w w'
  | step_add path u euid z w w' : sys_add_to_blacklist path u euid w = Ret z w' → step w w'
  | step_remove path u euid z w w' :
      sys_remove_from_blacklist path u euid w = Ret z w' → step w w'
  | step_size z w w' : sys_get_blacklist_size w = Ret z w' → step w w'
  | step_print room n r w w' : sys_print_blacklist room n w = Ret r w' → step w w'
  | step_passed h regs z w w' : run_entry h regs w = Ret (z, None) w' → step w w'
  | step_denied h regs z m t ax w w1 w' :
      run_entry h regs w = Ret (z, Some m) w1 → ret_handler t m w1 = Ret ax w' → step w w'
  | step_work p q w w' :
      g_queue (w_glob w) = p :: q →
      deferred_work p (w_put (set_queue q (w_glob w)) w) = Ret tt w' → step w w'.

Lemma secure_queue dg a q w : secure dg a w → secure dg a (w_put (set_queue q (w_glob w)) w).
Proof. intros Hsec. eapply secure_frame; [done|apply Hsec|done..]. Qed.

Lemma list_frame_sys w w' : list_frame w w' → g_sys (w_glob w') = g_sys (w_glob w).
Proof. intros [_ (h & z & ->)]. done. Qed.

(** What one operation can do to the state and the blacklist, and for whom. *)
Inductive change (dg : buf) (a : blacklist) (w w' : world) : blacklist → Prop :=
  | ch_none : rf_state (rf w') = rf_state (rf w) → change dg a w w' a
  | ch_switch st u euid z :
      sys_switch_rf_state st u euid w = Ret z w' → knows dg u → euid = 0%Z → (0 ≤ st ≤ 3)%Z →
      rf_state (rf w') = st → change dg a w w' a
  | ch_add path u euid k :
      sys_add_to_blacklist path u euid w = Ret 0%Z w' → may_edit dg u euid w →
      user_path path = Some k → k ∉ bl_paths a → rf_state (rf w') = rf_state (rf w) →
      change dg a w w' (bl_snoc k a)
  | ch_remove path u euid k :
      sys_remove_from_blacklist path u euid w = Ret 0%Z w' → may_edit dg u euid w →
      user_path path = Some k → k ∈ bl_paths a → rf_state (rf w') = rf_state (rf w) →
      change dg a w w' (bl_remove k a).

Lemma keeps_secure {A} (m : K A) Q x dg a w w' :
  secure dg a w → keeps w m Q → m w = Ret x w' →
  ∃ a', secure dg a' w' ∧ change dg a w w' a' ∧ g_sys (w_glob w') = g_sys (w_glob w).
Proof.
  intros Hsec Hm Hr. destruct (Hm _ _ _ (reflexivity w) Hr) as [He _].
  pose proof (extends_glob _ _ He) as Hg. exists a. split; [by eapply secure_extends|].
  rewrite Hg. split; [|done]. apply ch_none. by rewrite Hg.
Qed.

Lemma step_secure dg a w w' :
  secure dg a w → step w w' →
  ∃ a', secure dg a' w' ∧ change dg a w w' a' ∧ g_sys (w_glob w') = g_sys (w_glob w).
Proof.
  intros Hsec Hstep. assert (wf w) as Hwf by apply Hsec.
  assert (rf_lock (rf w) = false) as Hlock by apply Hsec.
  destruct Hstep as [st u euid z w w' Hr|z w w' Hr|path u euid z w w' Hr|path u euid z w w' Hr
    |z w w' Hr|room n r w w' Hr|h regs z w w' Hr|h regs z m t ax w w1 w' Hr Hret|p q w w' Hq Hr].
  - destruct (switch_step _ _ _ _ _ _ _ _ Hsec Hr) as (Hs & Hg & Hch). exists a. split; [done|].
    split; [|done]. destruct Hch as [He|(Hk & He & Hst & Hrf & _)].
    + apply ch_none. by rewrite (extends_glob _ _ He).
    + by eapply ch_switch.
  - by eapply keeps_secure; [|apply keeps_sys_get_rf_state|].
  - destruct (add_step _ _ _ _ _ _ _ _ Hsec Hr) as (a' & Hs & Hlf & Hch). exists a'.
    split; [done|]. split; [|by apply list_frame_sys]. apply list_frame_state in Hlf as Hst.
    destruct Hch as [->|(Hm & -> & k & Hk & Hin & ->)]; [by apply ch_none|by eapply ch_add].
  - destruct (remove_step _ _ _ _ _ _ _ _ Hsec Hr) as (a' & Hs & Hlf & Hch). exists a'.
    split; [done|]. split; [|by apply list_frame_sys]. apply list_frame_state in Hlf as Hst.
    destruct Hch as [->|(Hm & -> & k & Hk & Hin & ->)]; [by apply ch_none|by eapply ch_remove].
  - injection Hr as _ <-. exists a. by split; [|split; [constructor|]].
  - by eapply keeps_secure; [|by apply keeps_sys_print|].
  - by eapply keeps_secure; [|by apply keeps_run_entry|].
  - destruct (keeps_run_entry w Hwf Hlock h regs _ _ _ (reflexivity w) Hr) as [He Hm].
    destruct (ret_handler_secure dg a t m ax w w1 w') as (Hs & Hrf & Hg); [done|done|by apply Hm|done|].
    exists a. split; [done|]. split; [|done]. apply ch_none. by rewrite Hrf.
  - destruct (deferred_work_secure dg a p (w_put (set_queue q (w_glob w)) w) w') as (Hs & Hrf & Hg);
      [by apply secure_queue|done|].
    exists a. split; [done|]. split; [|done]. apply ch_none. by rewrite Hrf.
Qed.

(** *** The counter of the blacklist *)

(** The counter exceeds the number of paths by [r], up to overflow; both
    together are at most [n]. *)
Definition counted (n : nat) (a : blacklist) : Prop :=
  ∃ r, bl_size a = int32 (Z.of_nat (length (bl_paths a) + r)) ∧ length (bl_paths a) + r ≤ n.

Lemma counted_change dg n a a' w w' :
  NoDup (bl_paths a) → counted n a → change dg a w w' a' → counted (S n) a'.
Proof.
  intros Hnd (r & Hs & Hle) Hch.
  destruct Hch as [_|st u euid z _ _ _ _ _|path u euid k _ _ _ Hk _|path u euid k _ _ _ Hk _].
  - exists r. split; [done|lia].
  - exists r. split; [done|lia].
  - exists r. simpl. rewrite length_app, Hs, int32_add. simpl. split; [f_equal; lia|lia].
  - apply list_elem_of_split in Hk as (l1 & l2 & Hl). rewrite Hl in Hnd.
    apply NoDup_app in Hnd as (Hnd1 & Hd & [Hk2 Hnd2]%NoDup_cons).
    assert (k ∉ l1) as Hk1 by (intros Hin; apply (Hd k Hin); set_solver).
    unfold counted, bl_remove. simpl. rewrite Hl, filter_ne_middle by done.
    rewrite Hl, length_app in Hs, Hle. simpl in Hs, Hle. rewrite length_app.
    destruct l1 as [|x l1]; cbn [length app] in *.
    + cbn [head]; rewrite decide_True by done. exists r. rewrite Hs. unfold Z.sub. rewrite int32_add.
      simpl. split; [f_equal; lia|lia].
    + cbn [head]; rewrite decide_False by (intros [= ->]; apply Hk1; set_solver).
      exists (S r). rewrite Hs. split; [f_equal; lia|lia].
Qed.

(** The invariant along a run of [n] operations. *)
Lemma run_secure n dg a w w' :
  secure dg a w → counted 0 a → nsteps step n w w' →
  ∃ a', secure dg a' w' ∧ counted n a' ∧ g_sys (w_glob w') = g_sys (w_glob w).
Proof.
  intros Hsec Hcnt Hrun. enough (∀ m, counted m a → ∃ a', secure dg a' w' ∧
    counted (m + n) a' ∧ g_sys (w_glob w') = g_sys (w_glob w))
    as He by by apply (He 0).
  clear Hcnt. revert a Hsec. induction Hrun as [w|n w w1 w' Hstep Hrun IH]; intros a Hsec m Hm.
  - exists a. by rewrite Nat.add_0_r.
  - destruct (step_secure _ _ _ _ Hsec Hstep) as (a1 & Hsec1 & Hch & Hg1).
    destruct (IH a1 Hsec1 (S m)) as (a' & Hs & Hc & Hg).
    { eapply counted_change; [apply Hsec|done|done]. }
    exists a'. split; [done|]. rewrite Nat.add_succ_r. split; [done|congruence].
Qed.

(** Below the overflow, the counter is never smaller than the list. *)
Lemma counted_size n a :
  counted n a → (Z.of_nat n < 2 ^ 31)%Z → (Z.of_nat (length (bl_paths a)) ≤ bl_size a)%Z.
Proof. intros (r & -> & Hle) Hn. rewrite int32_small; lia. Qed.

(** *** Authorised edits, with memory and crypto available *)

Lemma edits_run path u k pw dg a w :
  (∀ n, kmalloc_ok n = true) → crypto_up (S (clock w)) → secure dg a w →
  rf_state (rf w) = RF_REC_ON ∨ rf_state (rf w) = RF_REC_OFF →
  PASSW_LEN ≤ length u → c_str (take PASSW_LEN u) = Some pw → sha256 pw = dg →
  user_path path = Some k →
  (∃ w', sys_add_to_blacklist path u 0 w =
     Ret (if decide (k ∈ bl_paths a) then - EEXIST else 0)%Z w' ∧
     secure dg (if decide (k ∈ bl_paths a) then a else bl_snoc k a) w') ∧
  (∃ w', sys_remove_from_blacklist path u 0 w =
     Ret (if decide (k ∈ bl_paths a) then 0 else 1)%Z w' ∧
     secure dg (if decide (k ∈ bl_paths a) then bl_remove k a else a) w').
Proof.
  intros Hall Hcu Hsec Hst Hlen Hpw Hdg Hk. unfold RF_REC_ON, RF_REC_OFF in Hst.
  destruct (password_check_run u pw dg w) as (w1 & Hpc & He & Hc1); [apply Hsec|apply Hsec|done..|].
  rewrite decide_True in Hpc by done.
  assert (secure dg a w1) as Hsec1 by by eapply secure_extends.
  pose proof (add_refines path a w1 (sec_rep _ _ _ Hsec1)) as Hadd.
  pose proof (remove_refines path a w1 (sec_rep _ _ _ Hsec1)) as Hrem.
  unfold spec_add in Hadd. unfold spec_remove in Hrem. rewrite !Hall, Hk in Hadd.
  rewrite Hall, Hk in Hrem. cbn [negb] in Hadd, Hrem.
  split; unfold sys_add_to_blacklist, sys_remove_from_blacklist;
    erewrite K_bind_Ret by apply run_is_rf_rec;
    rewrite (decide_False (P := (rf_state (rf w) < 2)%Z)) by lia;
    rewrite decide_False by naive_solver; erewrite K_bind_Ret by exact Hpc;
    rewrite decide_False by naive_solver; cbv zeta; rewrite decide_False by naive_solver.
  - destruct (decide (k ∈ bl_paths a)); destruct Hadd as (w2 & Hr & Hf & Hrep);
      erewrite K_bind_Ret by exact Hr; exists w2; (split; [done|by eapply secure_list]).
  - destruct (decide (k ∈ bl_paths a)); destruct Hrem as (w2 & Hr & Hf & Hrep);
      erewrite K_bind_Ret by exact Hr; exists w2; (split; [done|by eapply secure_list]).
Qed.

(** ** Load and unload *)

Definition bl_empty : blacklist := mk_blacklist [] 0.

Lemma counted_empty : counted 0 bl_empty.
Proof. by exists 0. Qed.

(** The module before it is loaded: the lock is free, the password parameter is
    a terminated string. *)
Record unloaded (pw : buf) (w : world) : Prop := {
  un_wf : wf w;
  un_lock : rf_lock (rf w) = false;
  un_password : ∃ b, mem w !! g_password (w_glob w) = Some (OBuf b) ∧ c_str b = Some pw;
}.

(** The middle of [init_module]: the monitor structure and the password. *)
Definition w_init (s : sys_table) (w : world) : world :=
  w_rf (mk_rf 1 (rf_password (rf w)) NULL false 0) (w_sys s w).

Lemma bl_rep_init s w : wf w → bl_rep (w_init s w) bl_empty.
Proof. intros Hwf. split; [done|done| |constructor|constructor|done]. by exists []. Qed.

Lemma init_module_start s w :
  initialize_syscalls w = Ret 0%Z (w_sys s w) → rf_lock (rf w) = false →
  init_module w =
  (enc_password ← encrypt_password (g_password (w_glob w));
   modify_rf (rf_with_password enc_password) ;; kretprobe_init ;; mret 0%Z) (w_init s w).
Proof.
  intros Hinit Hl. unfold init_module. erewrite K_bind_Ret by exact Hinit.
  rewrite decide_False by naive_solver. erewrite K_bind_Ret by by apply run_spin_lock.
  kstep. kstep. kstep. by erewrite K_bind_Ret by by apply run_spin_unlock.
Qed.

(** Loading with memory, crypto and kprobes available. *)
Lemma init_module_run words v pw w :
  unloaded pw w → table words w → first_repeated words v → HACKED_ENTRIES ≤ length (slots words v) →
  crypto_up (clock w) → kmalloc_ok (clock w + 3) = true →
  (∀ l, (register_kretprobes l).1 = 0%Z) →
  ∃ w', init_module w = Ret 0%Z w' ∧ secure (sha256 pw) bl_empty w' ∧
    rf_state (rf w') = RF_OFF ∧ st_cr0 (g_sys (w_glob w')) = st_cr0 (g_sys (w_glob w)) ∧
    installed words (take HACKED_ENTRIES (slots words v)) v (g_sys (w_glob w')).
Proof.
  intros [Hwf Hl (b & Hb & Hpw)] Ht Hv Hlen Hcu Hk Hreg.
  destruct (initialize_syscalls_run words w Ht) as (z & s & Hinit & Hcr & [(-> & v' & Hv' & Hin)|(-> & _ & Hfew)]);
    [|specialize (Hfew v Hv); lia].
  rewrite (first_repeated_unique _ _ _ Hv' Hv) in Hin.
  rewrite (init_module_start s) by done. set (w1 := w_init s w).
  destruct (encrypt_password_run (g_password (w_glob w)) b pw w1) as (r & w2 & Henc & He & Hr & Hm & Hc & _);
    [exact Hwf|exact Hb|done|exact Hcu|].
  erewrite K_bind_Ret by exact Henc. kstep.
  set (w3 := w_rf (rf_with_password r (rf w2)) w2). change (w_put _ w2) with w3.
  assert (wf w2) as Hwf2 by by eapply extends_wf.
  destruct (kretprobe_init_run w3) as (z & w4 & Hki & Hle & Hon & (k & arr & Hg) & _ & Hz); [exact Hwf2|].
  assert (z = 0%Z) as ->.
  { apply Hz; [|done]. change (clock w3) with (clock w2). by rewrite Hc. }
  change (kretprobe_init _) with (kretprobe_init w3).
  erewrite K_bind_Ret by exact Hki. exists w4. split; [done|].
  pose proof (extends_glob _ _ He) as Hg2. destruct (Hon eq_refl) as [Ha Hs Hen].
  assert (rf w4 = rf_with_password r (rf w1)) as Hrf by by rewrite Hg; simpl; rewrite Hg2.
  assert (wf w4) as Hwf4 by by apply Hle.
  assert (g_sys (w_glob w4) = s) as ->.
  { rewrite Hg. change (g_sys (w_glob w2) = s). rewrite Hg2. reflexivity. }
  split; [|split; [rewrite Hrf; reflexivity|split; [exact Hcr|exact Hin]]].
  split.
  - split; [exact Hwf4|rewrite Hrf; reflexivity| |constructor|constructor|rewrite Hrf; reflexivity].
    exists []. rewrite Hrf. split; reflexivity.
  - split; [apply length_sha256|]. rewrite Hrf. simpl. eapply lookup_weaken; [|apply Hle]. exact Hm.
  - rewrite Hrf. simpl. lia.
  - rewrite Hrf. by split.
Qed.

(** Unloading gives the table back. *)
Lemma cleanup_module_run words sl ni dg a w :
  secure dg a w → installed words sl ni (g_sys (w_glob w)) → Forall (λ k, k < length words) sl →
  ∃ w', cleanup_module w = Ret tt w' ∧ st_entries (g_sys (w_glob w')) = words ∧
    st_cr0 (g_sys (w_glob w')) = st_cr0 (g_sys (w_glob w)) ∧
    ∀ p, kp_registered (g_krp (w_glob w') p) = false.
Proof.
  intros Hsec Hin Hb.
  destruct (uninstall_run words sl ni _ w Hin eq_refl Hb) as (s & Hrun & He & Hcr & _).
  apply bind_Ret_inv in Hrun as ([] & w1 & H1 & Hrun).
  apply bind_Ret_inv in Hrun as ([] & w2 & H2 & H3).
  destruct (kretprobe_clean_run (bool_decide (rf_state (rf w) = RF_ON ∨ rf_state (rf w) = RF_REC_ON))
    (w_sys s w)) as (k & Hk & Hreg).
  { apply Hsec. }
  { eapply probes_on_rf; [..|apply Hsec]; done. }
  eexists. split; [|split; [|split]].
  - unfold cleanup_module. erewrite K_bind_Ret by exact H1. erewrite K_bind_Ret by exact H2.
    erewrite K_bind_Ret by exact H3. exact Hk.
  - exact He.
  - exact Hcr.
  - exact Hreg.
Qed.

Lemma installed_bound words v w :
  table words w → Forall (λ k, k < length words) (take HACKED_ENTRIES (slots words v)).
Proof.
  intros (_ & _ & Hl). apply Forall_forall. intros k (i & Hi & _)%elem_of_take.
  apply list_elem_of_lookup_2, slots_hold in Hi. lia.
Qed.
(** The result of [sys_switch_rf_state] with memory and the crypto API available. *)
Lemma switch_run st u pw euid dg a w :
  secure dg a w → mem_up (clock w) 5 → crypto_up (S (clock w)) →
  PASSW_LEN ≤ length u → c_str (take PASSW_LEN u) = Some pw →
  ∃ z w', sys_switch_rf_state st u euid w = Ret z w' ∧ secure dg a w' ∧
    (z, rf_state (rf w')) =
    if decide (0 ≤ st ≤ 3)%Z then
      if decide (sha256 pw = dg) then
        if decide (euid = 0%Z) then (st, st)
        else ((- EPERM)%Z, rf_state (rf w))
      else ((- EACCES)%Z, rf_state (rf w))
    else ((- EINVAL)%Z, rf_state (rf w)).
Proof.
  intros Hsec Hup Hcu Hlen Hpw. unfold sys_switch_rf_state. cbv zeta.
  destruct (decide (0 ≤ st ≤ 3)%Z) as [Hst|Hst].
  2:{ rewrite decide_True by (by rewrite rf_state_check_0). exists (- EINVAL)%Z, w.
      split; [|done]. unfold rf_state_check.
      by destruct (Z.ltb_spec st 0), (Z.ltb_spec 3 st); try lia. }
  rewrite decide_False by (intros Hn; by apply Hn, rf_state_check_0).
  destruct (password_check_run u pw dg w) as (w1 & Hpc & He & Hc1);
    [apply Hsec|apply Hsec|apply (mem_up_at _ _ 0 _ Hup); lia|done..|].
  assert (secure dg a w1) as Hsec1 by by eapply secure_extends.
  pose proof (extends_glob _ _ He) as Hg. erewrite K_bind_Ret by exact Hpc.
  destruct (decide (sha256 pw = dg)); [rewrite decide_False by naive_solver|].
  2:{ eexists _, w1. split; [done|]. by rewrite Hg. }
  destruct (decide (euid = 0%Z)) as [He0|He0].
  - rewrite decide_False by (intros Hn; by apply Hn, euid_check_0).
    destruct (switch_apply_run st dg a w1) as (w2 & Happ & Hs2 & Hrf & _); [done..|].
    rewrite (mem_up_at _ _ 4 _ Hup) in Happ by lia.
    exists st, w2. split; [done|]. split; [done|]. by rewrite Hrf.
  - rewrite decide_True by (by rewrite euid_check_0). exists (- EPERM)%Z, w1. split.
    + unfold euid_check. by destruct (Z.eqb_spec euid 0).
    + split; [done|]. by rewrite Hg.
Qed.
End security.

(** ** Properties *)

Section security_properties.
Context `{AL : Alloc} `{CR : Crypto} `{CL : !CryptoLaws} `{VF : Vfs} `{VL : !VfsLaws} `{LF : LogFile}
  `{KA : KprobeAPI} `{KL : !KprobeLaws} `{LK : Linked} `{ST : Stack} `{SL : Slab} `{IA : !InitOnAlloc}.

(** C20. Loading the module with memory, crypto and kprobes available returns 0
    and leaves it in a secure state: OFF, an empty blacklist, the digest of the
    password parameter stored, the ten probes registered and disabled, the system
    calls installed, CR0 as before. *)
Theorem init_module_secures words v pw w :
  unloaded pw w → table words w → first_repeated words v → HACKED_ENTRIES ≤ length (slots words v) →
  crypto_up (clock w) → kmalloc_ok (clock w + 3) = true →
  (∀ l, (register_kretprobes l).1 = 0%Z) →
  ∃ w', init_module w = Ret 0%Z w' ∧ secure (sha256 pw) bl_empty w' ∧
    rf_state (rf w') = RF_OFF ∧ st_cr0 (g_sys (w_glob w')) = st_cr0 (g_sys (w_glob w)) ∧
    installed words (take HACKED_ENTRIES (slots words v)) v (g_sys (w_glob w')).
Proof. apply init_module_run. Qed.

(** C1. The invariant of the loaded module holds after any sequence of system
    calls, probed calls and deferred log entries that return, whatever their arguments
    and whichever allocations and digests fail, on a kernel that zeroes the memory it
    allocates ([InitOnAlloc]): the state is one of the four, the list in
    memory is an acyclic list of distinct terminated paths, the lock is free, the
    stored digest is the one of the password given at load, and the ten probes
    are registered and enabled exactly in the states ON and REC_ON. *)
Theorem runs_stay_secure n dg a w w' :
  secure dg a w → nsteps step n w w' → ∃ a', secure dg a' w'.
Proof.
  intros Hsec Hrun. revert a Hsec. induction Hrun as [w|n w w1 w' Hstep Hrun IH]; intros a Hsec.
  - by exists a.
  - destruct (step_secure _ _ _ _ Hsec Hstep) as (a1 & Hsec1 & _). by eapply IH.
Qed.

(** C4. The state of the monitor changes only in [sys_switch_rf_state] called by
    root with the right password, and to the state asked for. *)
Theorem state_change_authorised dg a w w' :
  secure dg a w → step w w' → rf_state (rf w') ≠ rf_state (rf w) →
  ∃ st u z, sys_switch_rf_state st u 0 w = Ret z w' ∧ knows dg u ∧ (0 ≤ st ≤ 3)%Z ∧
    rf_state (rf w') = st.
Proof.
  intros Hsec Hstep Hne. destruct (step_secure _ _ _ _ Hsec Hstep) as (a' & _ & Hch & _).
  destruct Hch; try done. subst. eauto 10.
Qed.

(** C5. The sequence of protected paths changes only in [sys_add_to_blacklist] and
    [sys_remove_from_blacklist] called by root with the right password in a
    reconfiguration state, by the path asked for. *)
Theorem blacklist_change_authorised dg a a' w w' :
  secure dg a w → secure dg a' w' → step w w' → bl_paths a' ≠ bl_paths a →
  ∃ path u k, may_edit dg u 0 w ∧ user_path path = Some k ∧
    ((sys_add_to_blacklist path u 0 w = Ret 0%Z w' ∧ bl_paths a' = bl_paths a ++ [k]) ∨
     (sys_remove_from_blacklist path u 0 w = Ret 0%Z w' ∧
      bl_paths a' = filter (.≠ k) (bl_paths a))).
Proof.
  intros Hsec Hsec' Hstep Hne. destruct (step_secure _ _ _ _ Hsec Hstep) as (a1 & Hsec1 & Hch & _).
  assert (bl_paths a1 = bl_paths a') as Heq.
  { destruct (rep_chain _ _ (sec_rep _ _ _ Hsec1)) as (l1 & Hc1 & <-).
    destruct (rep_chain _ _ (sec_rep _ _ _ Hsec')) as (l2 & Hc2 & <-).
    by rewrite (chain_det _ _ _ _ Hc1 Hc2). }
  rewrite <- Heq in Hne |- *.
  destruct Hch as [|st u euid z|path u euid k Hr Hm Hk|path u euid k Hr Hm Hk]; [done|done|..];
    pose proof Hm as (_ & -> & _); exists path, u, k; eauto.
Qed.

(** C40. In a run of fewer than 2^31 operations the counter is never smaller than
    the number of paths, so the test [blacklist_size == 0] of [is_blacklisted]
    never skips a list with a path in it. *)
Theorem counter_covers_list n dg w w' :
  secure dg bl_empty w → nsteps step n w w' → (Z.of_nat n < 2 ^ 31)%Z →
  ∃ a', secure dg a' w' ∧ rf_blacklist_size (rf w') = bl_size a' ∧
    (Z.of_nat (length (bl_paths a')) ≤ bl_size a')%Z ∧ (bl_size a' = 0%Z → bl_paths a' = []).
Proof.
  intros Hsec Hrun Hn.
  destruct (run_secure n dg bl_empty w w' Hsec counted_empty Hrun) as (a' & Hsec' & Hc & _).
  pose proof (counted_size _ _ Hc Hn) as Hsz.
  exists a'. split; [done|]. split; [apply Hsec'|]. split; [done|]. intros H0.
  apply length_zero_iff_nil. lia.
Qed.

(** C21. After loading, any run and unloading, the system call table and CR0 are
    as they were before the module was loaded, and no probe is registered. *)
Theorem unload_restores_table n words v pw w :
  unloaded pw w → table words w → first_repeated words v → HACKED_ENTRIES ≤ length (slots words v) →
  crypto_up (clock w) → kmalloc_ok (clock w + 3) = true →
  (∀ l, (register_kretprobes l).1 = 0%Z) →
  ∃ w1, init_module w = Ret 0%Z w1 ∧
    ∀ w2, nsteps step n w1 w2 →
    ∃ w3, cleanup_module w2 = Ret tt w3 ∧ st_entries (g_sys (w_glob w3)) = words ∧
      st_cr0 (g_sys (w_glob w3)) = st_cr0 (g_sys (w_glob w)) ∧
      ∀ p, kp_registered (g_krp (w_glob w3) p) = false.
Proof.
  intros Hun Ht Hv Hlen Hcu Hk Hreg.
  destruct (init_module_run words v pw w) as (w1 & Hinit & Hsec & _ & Hcr & Hin); [done..|].
  exists w1. split; [done|]. intros w2 Hrun.
  destruct (run_secure n _ bl_empty w1 w2 Hsec counted_empty Hrun) as (a & Hsec2 & _ & Hsys).
  rewrite <- Hsys in Hin, Hcr.
  destruct (cleanup_module_run words _ v _ a w2 Hsec2 Hin) as (w3 & Hcl & He & Hcr3 & Hp);
    [by eapply installed_bound|].
  exists w3. split; [done|]. split; [done|]. split; [by rewrite Hcr3|done].
Qed.

(** C18. [sys_switch_rf_state] with memory and the crypto API available: the checks
    are made in the order state, password, privilege, with -EINVAL, -EACCES and
    -EPERM and no change of state; when they pass the state asked for is set and
    returned. *)
Theorem sys_switch_rf_state_result st u pw euid dg a w :
  secure dg a w → mem_up (clock w) 5 → crypto_up (S (clock w)) →
  PASSW_LEN ≤ length u → c_str (take PASSW_LEN u) = Some pw →
  ∃ z w', sys_switch_rf_state st u euid w = Ret z w' ∧ secure dg a w' ∧
    (z, rf_state (rf w')) =
    if decide (0 ≤ st ≤ 3)%Z then
      if decide (sha256 pw = dg) then
        if decide (euid = 0%Z) then (st, st)
        else ((- EPERM)%Z, rf_state (rf w))
      else ((- EACCES)%Z, rf_state (rf w))
    else ((- EINVAL)%Z, rf_state (rf w)).
Proof. apply switch_run. Qed.

(** When the memory for the name of the state is missing,
    [sys_switch_rf_state] returns -ENOMEM although the state has changed. *)
Theorem switch_enomem_after_change st u pw dg a w :
  secure dg a w → mem_up (clock w) 4 → crypto_up (S (clock w)) → kmalloc_ok (clock w + 4) = false →
  PASSW_LEN ≤ length u → c_str (take PASSW_LEN u) = Some pw → sha256 pw = dg → (0 ≤ st ≤ 3)%Z →
  ∃ w', sys_switch_rf_state st u 0 w = Ret (- ENOMEM)%Z w' ∧ rf_state (rf w') = st.
Proof.
  intros Hsec Hup Hcu Hno Hlen Hpw Hdg Hst. unfold sys_switch_rf_state. cbv zeta.
  rewrite decide_False by (intros Hn; by apply Hn, rf_state_check_0).
  destruct (password_check_run u pw dg w) as (w1 & Hpc & He & Hc1);
    [apply Hsec|apply Hsec|apply (mem_up_at _ _ 0 _ Hup); lia|done..|].
  erewrite K_bind_Ret by exact Hpc. rewrite (decide_True (P := sha256 pw = dg)) by done.
  rewrite decide_False by naive_solver. rewrite decide_False by (intros Hn; by apply Hn).
  destruct (switch_apply_run st dg a w1) as (w2 & Happ & _ & Hrf & _); [by eapply secure_extends|done|].
  rewrite Hc1, Hno in Happ. by exists w2.
Qed.

(** C19. For root with the right password in a reconfiguration state, with memory
    and the crypto API available: [sys_add_to_blacklist] returns 0 and appends a
    new path, or -EEXIST for a path of the list; [sys_remove_from_blacklist]
    returns 0 and removes a path of the list, or 1 for another path. *)
Theorem edits_result path u k pw dg a w :
  (∀ n, kmalloc_ok n = true) → crypto_up (S (clock w)) → secure dg a w →
  rf_state (rf w) = RF_REC_ON ∨ rf_state (rf w) = RF_REC_OFF →
  PASSW_LEN ≤ length u → c_str (take PASSW_LEN u) = Some pw → sha256 pw = dg →
  user_path path = Some k →
  (∃ w', sys_add_to_blacklist path u 0 w =
     Ret (if decide (k ∈ bl_paths a) then - EEXIST else 0)%Z w' ∧
     secure dg (if decide (k ∈ bl_paths a) then a else bl_snoc k a) w') ∧
  (∃ w', sys_remove_from_blacklist path u 0 w =
     Ret (if decide (k ∈ bl_paths a) then 0 else 1)%Z w' ∧
     secure dg (if decide (k ∈ bl_paths a) then bl_remove k a else a) w').
Proof. apply edits_run. Qed.

(** When the crypto API fails while the module is loaded, [init_module] still
    returns 0 with no password stored; a password check then compares with NULL
    and crashes the kernel. *)
Theorem init_without_crypto s pw w :
  unloaded pw w → initialize_syscalls w = Ret 0%Z (w_sys s w) →
  crypto_alloc_shash_ok (clock w) = false →
  ∃ w', init_module w = Ret 0%Z w' ∧ rf_password (rf w') = NULL ∧
    ∀ u pw', kmalloc_ok (clock w') = true → crypto_up (S (clock w')) → PASSW_LEN ≤ length u →
      c_str (take PASSW_LEN u) = Some pw' → password_check u w' = Crash NullDeref.
Proof.
  intros [Hwf Hl _] Hinit Hc. rewrite (init_module_start s) by done.
  erewrite (K_bind_Ret _ _ (w_init s w) NULL (w_init s w)).
  2:{ unfold encrypt_password, get_clock. kstep. change (clock (w_init s w)) with (clock w). by rewrite Hc. }
  kstep.
  match goal with |- context [mbind _ kretprobe_init ?wx] => set (w1 := wx) end.
  destruct (kretprobe_init_run w1) as (z & w4 & Hki & Hle & _ & (k & arr & Hg) & _); [exact Hwf|].
  erewrite K_bind_Ret by exact Hki. exists w4. split; [done|].
  assert (rf_password (rf w4) = NULL) as Hp by by rewrite Hg. split; [done|].
  intros u pw' Hk Hup Hlen Hpw. eapply password_check_null; [by apply Hle|done..].
Qed.
End security_properties.
