(* ===== verification/Mediation.v ===== *)
(** * Mediation: what the probed functions return

    The dispatch of kretprobes is kernel code and a parameter
    ([Kretprobes]); its documented behaviour ([KretprobeLaws]) and the facts of
    the other files give the result of a call of a probed function. *)

From S2P Require Import Prelude CString Kernel Utils Blacklist Logger Kprobes Scth Monitor Security.

(** [probed_call k regs t f]: a call, by the thread [t] with the arguments
    [regs], of the function [f] on which the probe [k] is placed. *)
Class Kretprobes `{AL : Alloc} `{VF : Vfs} := {
  probed_call : kretprobe → pt_regs → task → K Z → K Z;
}.

(** Documentation/trace/kprobes: the entry handler of an enabled probe runs
    first; when it returns 0 and an instance is free, the return handler runs
    after the function and can replace its result; otherwise it does not run.
    The function itself runs in every case.  Here one call is made at a time, and
    then an instance is free (a registered probe has at least one); ProbeThreads
    counts the instances of calls that run at the same time. *)
Class KretprobeLaws `{AL : Alloc} `{CR : Crypto} `{VF : Vfs} `{KR : !Kretprobes} : Prop := {
  probed_off k regs t f w : kp_enabled k = false → probed_call k regs t f w = f w;
  probed_pass k h regs t f z r w w1 :
    kp_enabled k = true → kp_entry k = Some h → run_entry h regs w = Ret (z, r) w1 → z ≠ 0%Z →
    probed_call k regs t f w = f w1;
  probed_hit k h regs t f m w w1 :
    kp_enabled k = true → kp_handler k = true → kp_entry k = Some h →
    run_entry h regs w = Ret (0%Z, Some m) w1 →
    probed_call k regs t f w = (f ;; ret_handler t m) w1;
}.

(** The abstract policy: in the states ON and REC_ON, a path is blocked when an
    entry of the blacklist matches it. *)
Definition blocks (st : Z) (bl : list buf) (paths : list buf) : Prop :=
  (st = RF_ON ∨ st = RF_REC_ON) ∧ Exists (λ p, Exists (λ e, matches e p) bl) paths.

Lemma blocks_must_deny n st a paths :
  counted n a → (Z.of_nat n < 2 ^ 31)%Z → (0 ≤ st ≤ 3)%Z →
  must_deny st a paths ↔ blocks st (bl_paths a) paths.
Proof.
  intros Hc Hn Hst. unfold must_deny, blocks, protected, RF_ON, RF_REC_ON, RF_OFF, RF_REC_OFF.
  rewrite !Exists_exists. split.
  - intros (p & Hp & _ & H1 & H3 & He). split; [lia|]. eauto.
  - intros [Hs (p & Hp & He)]. exists p. split; [done|]. split; [|split; [lia|split; [lia|done]]].
    pose proof (counted_size _ _ Hc Hn) as Hsz. apply Exists_exists in He as (e & He & _).
    destruct (bl_paths a); [by apply not_elem_of_nil in He|]. simpl in Hsz. lia.
Qed.

Section mediation.
Context `{AL : Alloc} `{CR : Crypto} `{VF : Vfs} `{VL : !VfsLaws} `{KR : !Kretprobes}
  `{KRL : !KretprobeLaws} `{IA : !InitOnAlloc}.

(** A call of the function probed by [p]: the module is loaded and has made
    fewer than 2^31 operations, the paths of the targets fit in the message, and
    the function keeps the module's objects and leaves memory for a log entry. *)
Record call (dg : buf) (a : blacklist) (n : nat) (p : probe_id) (regs : pt_regs) (t : task)
    (f : K Z) (paths : list buf) (exe : buf) (w : world) : Prop := {
  call_secure : secure dg a w;
  call_counted : counted n a;
  call_ops : (Z.of_nat n < 2 ^ 31)%Z;
  call_targets : ∃ ds, targets (entry_of p) regs = Some ds ∧ Forall2 short_path ds paths;
  call_exe : ∃ d, t_exe t = Some d ∧ dentry_path_raw d PATH_MAX = inr exe;
  call_mem : mem_up (clock w) 5;
  call_fun w1 : extends w w1 → ∃ v w2, f w1 = Ret v w2 ∧ extends w1 w2 ∧ mem_up (clock w2) 5;
}.

Lemma blocked_call_run dg a n p regs t f paths exe w :
  call dg a n p regs t f paths exe w → blocks (rf_state (rf w)) (bl_paths a) paths →
  ∃ w1 v w2 w' wp, extends w w1 ∧ f w1 = Ret v w2 ∧
    probed_call (g_krp (w_glob w) p) regs t f w = Ret (- EACCES)%Z w' ∧
    g_queue (w_glob w') = g_queue (w_glob w) ++ [wp].
Proof.
  intros [Hsec Hcnt Hn (ds & Hds & Hpaths) (d & Hd & Hexe) Hmem Hf] Hbl.
  destruct (sec_probes _ _ _ Hsec) as [_ Hset Hen].
  destruct (entry_verdict (entry_of p) regs ds paths a w) as (r & w1 & Hr & He & Hc & Hans);
    [apply Hsec|done..|].
  rewrite (blocks_must_deny n) in Hans by (first [done | apply Hsec]).
  destruct Hans as [(_ & m & -> & Hm)|[Hno _]]; [|done].
  destruct (Hf w1 He) as (v & w2 & Hv & He2 & Hup).
  destruct (ret_handler_run t d exe m w2) as (w' & wp & Hret & Hg & _).
  { eapply extends_wf; [exact He2|]. eapply extends_wf; [exact He|]. apply Hsec. }
  { destruct Hm as (Hmn & text & Ht & Hmm). split; [done|]. exists text. split; [done|].
    by eapply extends_lookup. }
  { done. } { done. } { done. }
  exists w1, v, w2, w', wp. split; [done|]. split; [done|]. split.
  - erewrite (probed_hit _ (entry_of p)); [|..|exact Hr].
    + by erewrite K_bind_Ret by exact Hv.
    + rewrite Hen. apply bool_decide_eq_true_2, Hbl.
    + apply Hset.
    + apply Hset.
  - rewrite Hg. simpl. by rewrite (extends_glob _ _ He2), (extends_glob _ _ He).
Qed.

(** C2. In the states ON and REC_ON, a call of any of the ten probed functions
    that concerns a path of the blacklist returns -EACCES and queues a log entry.
    The probed function itself has run: for [vfs_write] and [vfs_llseek], which do
    the work and do not only check, the effect is not undone. *)
Theorem blocked_call_returns_eacces dg a n p regs t f paths exe w :
  call dg a n p regs t f paths exe w → blocks (rf_state (rf w)) (bl_paths a) paths →
  ∃ w1 v w2 w' wp, extends w w1 ∧ f w1 = Ret v w2 ∧
    probed_call (g_krp (w_glob w) p) regs t f w = Ret (- EACCES)%Z w' ∧
    g_queue (w_glob w') = g_queue (w_glob w) ++ [wp].
Proof. apply blocked_call_run. Qed.

(** C3. A call that concerns no path of the blacklist, or any call in the states
    OFF and REC_OFF, returns what the probed function returns. *)
Theorem other_calls_pass dg a n p regs t f paths exe w :
  call dg a n p regs t f paths exe w → ¬ blocks (rf_state (rf w)) (bl_paths a) paths →
  ∃ w1, extends w w1 ∧ probed_call (g_krp (w_glob w) p) regs t f w = f w1.
Proof.
  intros [Hsec Hcnt Hn (ds & Hds & Hpaths) (d & Hd & Hexe) Hmem Hf] Hbl.
  destruct (sec_probes _ _ _ Hsec) as [_ Hset Hen].
  destruct (decide (rf_state (rf w) = RF_ON ∨ rf_state (rf w) = RF_REC_ON)) as [Hon|Hoff].
  - destruct (entry_verdict (entry_of p) regs ds paths a w) as (r & w1 & Hr & He & Hc & Hans);
      [apply Hsec|done..|].
    rewrite (blocks_must_deny n) in Hans by (first [done | apply Hsec]).
    destruct Hans as [[? _]|[_ ->]]; [done|].
    exists w1. split; [done|]. eapply probed_pass; [|apply Hset|exact Hr|done].
    rewrite Hen. by apply bool_decide_eq_true_2.
  - exists w. split; [done|]. apply probed_off. rewrite Hen. by apply bool_decide_eq_false_2.
Qed.
End mediation.
