(* ===== verification/Concurrency.v ===== *)
(** * System calls as threads

    A system call is not one step: between two accesses to the data of the module
    another processor can run.  Here a call is a thread, a tree of atomic parts;
    each access to the monitor structure, to the list and to the probes is a part
    of its own, and a part that touches only objects the thread has allocated and
    the digest, which nothing changes, is one part.  Alone a thread does what the
    call does; two threads together can do what no sequence of calls does. *)

From S2P Require Import Prelude CString Kernel Utils Blacklist Logger Kprobes Scth Monitor Security.

(** ** Threads *)

(** A thread returns, or runs an atomic part and goes on with its result. *)
Inductive thread (A : Type) : Type :=
  | Done (a : A)
  | Atomic {B : Type} (m : K B) (k : B → thread A).
Arguments Done {_} _.
Arguments Atomic {_ _} _ _.

Fixpoint thread_bind {A B} (t : thread A) (f : A → thread B) : thread B :=
  match t with
  | Done a => f a
  | Atomic m k => Atomic m (λ b, thread_bind (k b) f)
  end.

#[export] Instance thread_ret : MRet thread := λ A, Done.
#[export] Instance thread_mbind : MBind thread := λ A B f t, thread_bind t f.

(** One atomic part. *)
Definition part {A} (m : K A) : thread A := Atomic m Done.

(** The thread when nothing else runs. *)
Fixpoint alone {A} (t : thread A) : K A :=
  match t with
  | Done a => mret a
  | Atomic m k => m ≫= λ b, alone (k b)
  end.

(** Two programs that do the same in every world. *)
Definition same {A} (m m' : K A) : Prop := ∀ w, m w = m' w.
Infix "≈" := same (at level 70).

#[export] Instance same_equiv {A} : Equivalence (@same A).
Proof.
  split; [by intros m w|by intros m m' H w|]. intros m1 m2 m3 H1 H2 w. by rewrite (H1 w).
Qed.

#[export] Instance same_bind {A B} :
  Proper (pointwise_relation A same ==> same ==> same) (mbind (M := K) (A := A) (B := B)).
Proof.
  intros k k' Hk m m' Hm w. unfold mbind, K_bind. rewrite (Hm w). destruct (m' w); [apply Hk|done].
Qed.

Lemma bind_assoc {A B C} (m : K A) (f : A → K B) (g : B → K C) :
  (m ≫= f) ≫= g ≈ m ≫= λ a, f a ≫= g.
Proof. intros w. unfold mbind, K_bind. by destruct (m w). Qed.

Lemma alone_bind {A B} (t : thread A) (f : A → thread B) :
  alone (t ≫= f) ≈ alone t ≫= λ a, alone (f a).
Proof.
  induction t as [a|C m k IH]; [done|]. change (alone (Atomic m k ≫= f)) with (m ≫= λ b, alone (k b ≫= f)).
  cbn [alone]. rewrite bind_assoc. apply same_bind; [|done]. intros b. apply IH.
Qed.

Lemma alone_part {A} (m : K A) : alone (part m) ≈ m.
Proof. intros w. cbn [alone part]. unfold mbind, K_bind. by destruct (m w). Qed.

(** Follows a thread and its program part by part. *)
Ltac in_step :=
  repeat match goal with
  | |- alone (Done ?a) ≈ _ => change (alone (Done a)) with (mret (M := K) a)
  | |- alone (mret ?a) ≈ _ => change (alone (mret a)) with (mret (M := K) a)
  | |- alone (part _) ≈ _ => rewrite alone_part
  | |- alone (_ ≫= _) ≈ _ => rewrite alone_bind
  | |- (_ ≫= _) ≈ (_ ≫= _) => apply same_bind; [intros ?|]
  | |- alone (if decide ?P then _ else _) ≈ (if decide ?P then _ else _) => destruct (decide P)
  | |- alone (match ?o with Some _ => _ | None => _ end) ≈ _ => destruct o
  | |- alone (let '(_, _) := ?r in _) ≈ _ => destruct r
  | |- ?m ≈ ?m => reflexivity
  | _ => progress (auto with threads)
  end.
Create HintDb threads.

Section calls.
Context `{AL : Alloc} `{CR : Crypto} `{KA : KprobeAPI}.

(** ** sys_switch_rf_state and sys_get_rf_state *)

(** One probe after the other. *)
Fixpoint for_probes_thread (f : kretprobe → Z * kretprobe) (i n : nat) : thread unit :=
  match n with
  | O => mret tt
  | S n' =>
      g ← part get_glob;
      l ← part (load_probes (g_kprobe_array g));
      p ← part (of_opt Overrun (l !! i));
      k ← part (get_krp p);
      part (put_krp p (f k).2) ;;
      for_probes_thread f (S i) n'
  end.

(** The state, under the lock; the probes and the answer, outside of it. *)
Definition set_state_thread (state : Z) : thread unit :=
  part spin_lock ;; part (modify_rf (rf_with_state state)) ;; part spin_unlock.

Definition set_probes_thread (state : Z) : thread unit :=
  if decide (state = 0 ∨ state = 2)%Z then for_probes_thread enable_kretprobe 0 NUM_KRETPROBES
  else for_probes_thread disable_kretprobe 0 NUM_KRETPROBES.

Definition report_thread (state : Z) : thread Z :=
  state_string ← part (kmalloc state_string_size);
  if decide (state_string = NULL) then mret (- ENOMEM)%Z else
  part (set_state_string state_string state) ;;
  part (k_print state_string) ;;
  r ← part get_rf;
  mret (rf_state r).

Definition switch_thread (state : Z) (password : user_ptr) (euid : Z) : thread Z :=
  let ret := rf_state_check state in
  if decide (ret ≠ 0%Z) then mret ret else
  ret ← part (password_check password);
  if decide (ret ≠ 0%Z) then mret ret else
  let ret := euid_check euid in
  if decide (ret ≠ 0%Z) then mret ret else
  set_state_thread state ;;
  set_probes_thread state ;;
  report_thread state.

Definition get_state_thread : thread Z :=
  state_string ← part (kmalloc state_string_size);
  if decide (state_string = NULL) then mret (- ENOMEM)%Z else
  r ← part get_rf;
  part (set_state_string state_string (rf_state r)) ;;
  r ← part get_rf;
  mret (rf_state r).

(** ** sys_add_to_blacklist *)

Fixpoint find_last_thread (fuel : nat) (curr kernel_rel_path : ptr) : thread (option ptr) :=
  match fuel with
  | O => part (crash OutOfFuel)
  | S fuel' =>
      n ← part (load_node curr);
      if decide (n_next n = NULL) then mret (Some curr) else
      c ← part (k_strcmp (n_path n) kernel_rel_path);
      if decide (c = 0%Z) then mret None else
      find_last_thread fuel' (n_next n) kernel_rel_path
  end.

Definition add_exists_thread (kernel_rel_path : ptr) : thread Z :=
  part spin_unlock ;; part (kfree kernel_rel_path) ;; mret (- EEXIST)%Z.

Definition add_linked_thread (kernel_rel_path : ptr) : thread Z :=
  part (modify_rf (λ r, rf_with_size (int32 (rf_blacklist_size r + 1)) r)) ;;
  part spin_unlock ;; part (k_print kernel_rel_path) ;; part (kfree kernel_rel_path) ;; mret 0%Z.

Definition add_insert_thread (new kernel_rel_path : ptr) : thread Z :=
  part spin_lock ;;
  r ← part get_rf;
  let curr := rf_blacklist_head r in
  if decide (curr = NULL) then
    part (modify_rf (rf_with_head new)) ;; add_linked_thread kernel_rel_path
  else
    n ← part (load_node curr);
    if decide (n_next n = NULL) then
      c ← part (k_strcmp (n_path n) kernel_rel_path);
      if decide (c = 0%Z) then add_exists_thread kernel_rel_path else
      part (store_node curr (mk_node (n_path n) new)) ;;
      add_linked_thread kernel_rel_path
    else
      fuel ← part loop_fuel;
      last ← find_last_thread fuel curr kernel_rel_path;
      match last with
      | None => add_exists_thread kernel_rel_path
      | Some curr =>
          n ← part (load_node curr);
          c ← part (k_strcmp (n_path n) kernel_rel_path);
          if decide (c = 0%Z) then add_exists_thread kernel_rel_path else
          part (store_node curr (mk_node (n_path n) new)) ;;
          add_linked_thread kernel_rel_path
      end.

Definition add_to_blacklist_thread (path : user_ptr) : thread Z :=
  kernel_rel_path ← part (kmalloc PATH_MAX);
  if decide (kernel_rel_path = NULL) then mret (- ENOMEM)%Z else
  ret ← part (copy_from_user kernel_rel_path path PATH_MAX);
  if decide (ret = -1)%Z then part (kfree kernel_rel_path) ;; mret (- EAGAIN)%Z else
  new ← part kmalloc_node;
  if decide (new = NULL) then mret (- ENOMEM)%Z else
  new_path ← part (kmalloc PATH_MAX);
  n ← part (load_node new);
  part (store_node new (mk_node new_path (n_next n))) ;;
  part (k_strcpy new_path kernel_rel_path) ;;
  add_insert_thread new kernel_rel_path.

(** The checks of the two edits, one after the other. *)
Definition edit_thread (password : user_ptr) (euid : Z) (edit : thread Z) : thread Z :=
  ret ← part is_rf_rec;
  if decide (ret ≠ 0%Z) then mret ret else
  ret ← part (password_check password);
  if decide (ret ≠ 0%Z) then mret ret else
  let ret := euid_check euid in
  if decide (ret ≠ 0%Z) then mret ret else
  edit.

Definition add_thread (path password : user_ptr) (euid : Z) : thread Z :=
  edit_thread password euid
    (ret ← add_to_blacklist_thread path; if decide (ret ≠ 0%Z) then mret ret else mret 0%Z).

(** ** sys_remove_from_blacklist *)

Fixpoint find_node_thread (fuel : nat) (prev : option ptr) (curr kernel_path : ptr)
  : thread (option ptr * ptr) :=
  match fuel with
  | O => part (crash OutOfFuel)
  | S fuel' =>
      if decide (curr = NULL) then mret (prev, curr) else
      n ← part (load_node curr);
      c ← part (k_strcmp (n_path n) kernel_path);
      if decide (c = 0%Z) then mret (prev, curr) else
      find_node_thread fuel' (Some curr) (n_next n) kernel_path
  end.

Definition remove_not_found_thread (kernel_path : ptr) : thread Z :=
  part spin_unlock ;; part (k_print kernel_path) ;; mret (- EINVAL)%Z.
Definition remove_found_thread (kernel_path : ptr) : thread Z :=
  part spin_unlock ;; part (k_print kernel_path) ;; mret 0%Z.

Definition remove_unlink_thread (kernel_path : ptr) : thread Z :=
  part spin_lock ;;
  r ← part get_rf;
  let curr := rf_blacklist_head r in
  if decide (curr = NULL) then remove_not_found_thread kernel_path else
  n ← part (load_node curr);
  c ← part (k_strcmp (n_path n) kernel_path);
  if decide (c = 0%Z) then
    part (modify_rf (rf_with_head (n_next n))) ;;
    part (modify_rf (λ r, rf_with_size (int32 (rf_blacklist_size r - 1)) r)) ;;
    remove_found_thread kernel_path
  else
    fuel ← part loop_fuel;
    pc ← find_node_thread fuel None curr kernel_path;
    let '(prev, curr) := pc in
    if decide (curr = NULL) then remove_not_found_thread kernel_path else
    p ← part (of_opt UninitRead prev);
    n ← part (load_node curr);
    m ← part (load_node p);
    part (store_node p (mk_node (n_path m) (n_next n))) ;;
    remove_found_thread kernel_path.

Definition remove_from_blacklist_thread (path : user_ptr) : thread Z :=
  kernel_path ← part (kmalloc PATH_MAX);
  if decide (kernel_path = NULL) then mret (- ENOMEM)%Z else
  ret ← part (copy_from_user kernel_path path PATH_MAX);
  if decide (ret = -1)%Z then part (kfree kernel_path) ;; mret (- EAGAIN)%Z else
  remove_unlink_thread kernel_path.

Definition remove_thread (path password : user_ptr) (euid : Z) : thread Z :=
  edit_thread password euid
    (ret ← remove_from_blacklist_thread path; if decide (ret = - EINVAL)%Z then mret 1%Z else mret ret).

(** ** is_blacklisted, in the handlers of the probes *)

Fixpoint match_walk_thread (fuel : nat) (curr path : ptr) : thread Z :=
  match fuel with
  | O => part (crash OutOfFuel)
  | S fuel' =>
      if decide (curr = NULL) then part spin_unlock ;; mret 0%Z else
      n ← part (load_node curr);
      len ← part (k_strlen (n_path n));
      c ← part (k_strncmp path (n_path n) len);
      if decide (c = 0%Z) then part spin_unlock ;; mret 1%Z else
      b ← part (load_buf (n_path n));
      ch ← part (of_opt Overrun (last_char b len));
      if decide (ch = slash) then
        c ← part (k_strncmp path (n_path n) (len - 1));
        if decide (c = 0%Z) then part spin_unlock ;; mret 1%Z else
        match_walk_thread fuel' (n_next n) path
      else match_walk_thread fuel' (n_next n) path
  end.

(** The size, the state (twice, for the two comparisons) and the head are read one
    after the other, before the lock is taken. *)
Definition is_blacklisted_thread (path : ptr) : thread Z :=
  r ← part get_rf;
  if decide (rf_blacklist_size r = 0%Z) then mret 0%Z else
  r ← part get_rf;
  if decide (rf_state r = 1%Z) then mret 0%Z else
  r ← part get_rf;
  if decide (rf_state r = 3%Z) then mret 0%Z else
  r ← part get_rf;
  let curr := rf_blacklist_head r in
  part spin_lock ;;
  fuel ← part loop_fuel;
  match_walk_thread fuel curr path.
End calls.

(** ** A thread alone does what the call does *)

Section alone_calls.
Context `{AL : Alloc} `{CR : Crypto} `{KA : KprobeAPI}.

Lemma alone_for_probes f i n : alone (for_probes_thread f i n) ≈ for_probes f i n.
Proof. revert i. induction n as [|n IH]; intros i; cbn [for_probes_thread for_probes]; in_step. Qed.

Lemma alone_find_last fuel curr p : alone (find_last_thread fuel curr p) ≈ find_last fuel curr p.
Proof. revert curr. induction fuel as [|fuel IH]; intros curr; cbn [find_last_thread find_last]; in_step. Qed.

Lemma alone_find_node fuel prev curr p :
  alone (find_node_thread fuel prev curr p) ≈ find_node fuel prev curr p.
Proof.
  revert prev curr. induction fuel as [|fuel IH]; intros prev curr; cbn [find_node_thread find_node]; in_step.
Qed.

Lemma alone_match_walk fuel curr p : alone (match_walk_thread fuel curr p) ≈ match_walk fuel curr p.
Proof. revert curr. induction fuel as [|fuel IH]; intros curr; cbn [match_walk_thread match_walk]; in_step. Qed.

Lemma alone_set_probes st :
  alone (set_probes_thread st) ≈ if decide (st = 0 ∨ st = 2)%Z then enable_kprobes else disable_kprobes.
Proof. unfold set_probes_thread, enable_kprobes, disable_kprobes. case_decide; apply alone_for_probes. Qed.

Lemma alone_add_linked p : alone (add_linked_thread p) ≈ add_linked p.
Proof. unfold add_linked_thread, add_linked. in_step. Qed.
Lemma alone_add_exists p : alone (add_exists_thread p) ≈ add_exists p.
Proof. unfold add_exists_thread, add_exists. in_step. Qed.
#[local] Hint Resolve alone_find_last alone_find_node alone_match_walk alone_add_linked alone_add_exists : threads.

Lemma alone_add_insert new p : alone (add_insert_thread new p) ≈ add_insert new p.
Proof. unfold add_insert_thread, add_insert. cbv zeta. in_step. Qed.
#[local] Hint Resolve alone_add_insert : threads.

Lemma alone_add_to_blacklist path : alone (add_to_blacklist_thread path) ≈ add_to_blacklist path.
Proof. unfold add_to_blacklist_thread, add_to_blacklist. in_step. Qed.
#[local] Hint Resolve alone_add_to_blacklist : threads.

Lemma alone_remove_unlink p : alone (remove_unlink_thread p) ≈ remove_unlink p.
Proof.
  unfold remove_unlink_thread, remove_unlink, remove_found_thread, remove_found, remove_not_found_thread,
    remove_not_found. cbv zeta. in_step.
Qed.
#[local] Hint Resolve alone_remove_unlink : threads.

Lemma alone_remove_from_blacklist path :
  alone (remove_from_blacklist_thread path) ≈ remove_from_blacklist path.
Proof. unfold remove_from_blacklist_thread, remove_from_blacklist. in_step. Qed.
#[local] Hint Resolve alone_remove_from_blacklist : threads.

Lemma alone_add path u euid : alone (add_thread path u euid) ≈ sys_add_to_blacklist path u euid.
Proof. unfold add_thread, edit_thread, sys_add_to_blacklist. cbv zeta. in_step. Qed.
Lemma alone_remove path u euid : alone (remove_thread path u euid) ≈ sys_remove_from_blacklist path u euid.
Proof. unfold remove_thread, edit_thread, sys_remove_from_blacklist. cbv zeta. in_step. Qed.
Lemma alone_get_state : alone get_state_thread ≈ sys_get_rf_state.
Proof. unfold get_state_thread, sys_get_rf_state. in_step. Qed.

Lemma alone_set_state st :
  alone (set_state_thread st) ≈ (spin_lock ;; modify_rf (rf_with_state st) ;; spin_unlock).
Proof. unfold set_state_thread. in_step. Qed.
Lemma alone_report st : alone (report_thread st) ≈
  (state_string ← kmalloc state_string_size;
   if decide (state_string = NULL) then mret (- ENOMEM)%Z else
   set_state_string state_string st ;; k_print state_string ;; r ← get_rf; mret (rf_state r)).
Proof. unfold report_thread. in_step. Qed.

(** The part of a switch after the checks. *)
Lemma alone_switch_apply st :
  alone (set_state_thread st ;; set_probes_thread st ;; report_thread st) ≈ switch_apply st.
Proof.
  rewrite alone_bind, alone_set_state, bind_assoc. unfold switch_apply. apply same_bind; [intros _|done].
  rewrite bind_assoc. apply same_bind; [intros _|done]. apply same_bind; [intros _|done].
  rewrite alone_bind, alone_set_probes. apply same_bind; [intros _|done]. apply alone_report.
Qed.
#[local] Hint Resolve alone_switch_apply : threads.

Lemma alone_switch st u euid : alone (switch_thread st u euid) ≈ sys_switch_rf_state st u euid.
Proof.
  unfold switch_thread, sys_switch_rf_state. cbv zeta. destruct (decide _); [done|].
  rewrite alone_bind, alone_part. apply same_bind; [intros c|done]. do 2 (destruct (decide _); [done|]).
  apply alone_switch_apply.
Qed.

(** A read of the monitor structure. *)
Lemma alone_read {A} (f : reference_monitor → thread A) w :
  alone (r ← part get_rf; f r) w = alone (f (rf w)) w.
Proof. reflexivity. Qed.

Lemma alone_is_blacklisted p : alone (is_blacklisted_thread p) ≈ is_blacklisted p.
Proof.
  intros w. unfold is_blacklisted. change (get_rf w) with (Ret (rf w) w).
  erewrite K_bind_Ret by reflexivity. unfold is_blacklisted_thread. cbv zeta.
  rewrite alone_read. destruct (decide (rf_blacklist_size (rf w) = 0%Z)); [done|]. rewrite alone_read.
  destruct (decide (rf_state (rf w) = 1%Z)) as [H1|H1]; [by rewrite decide_True by (by left)|]. rewrite alone_read.
  destruct (decide (rf_state (rf w) = 3%Z)) as [H3|H3]; [by rewrite decide_True by (by right)|].
  rewrite decide_False by (by intros [|]). rewrite alone_read.
  assert (∀ h, alone (part spin_lock ;; fuel ← part loop_fuel; match_walk_thread fuel h p) ≈
    (spin_lock ;; fuel ← loop_fuel; match_walk fuel h p)) as Hw; [|apply Hw].
  intros h. in_step.
Qed.
End alone_calls.

(** ** Processors *)

(** The threads that are running, and the world they share. *)
Definition pool : Type := list (thread Z) * world.

(** One of them runs its next part.  A part that would wait for the lock is not
    enabled while the lock is held. *)
Inductive pool_step : pool → pool → Prop :=
  | pool_part i {B} (m : K B) k b ts w w' :
      ts !! i = Some (Atomic m k) → m w = Ret b w' → pool_step (ts, w) (<[i := k b]> ts, w').

(** A thread runs its next part; [goal x] are the threads with [x] at its place. *)
Lemma pool_next i {B} (m : K B) f b ts w w1 x w' :
  ts !! i = Some (Atomic m f) → m w = Ret b w1 →
  (∀ ts', ts' !! i = Some (f b) → rtc pool_step (ts', w1) (<[i := x]> ts', w')) →
  rtc pool_step (ts, w) (<[i := x]> ts, w').
Proof.
  intros Hi Hm Hrest. eapply rtc_l; [exact (pool_part i m _ b ts w w1 Hi Hm)|].
  rewrite <- (list_insert_insert_eq ts i x (f b)).
  apply Hrest, list_lookup_insert_eq. by eapply lookup_lt_Some.
Qed.

(** A thread that runs some parts, or all, while the others wait. *)
Lemma pool_run {A} i (t : thread A) (k : A → thread Z) a ts w w' :
  ts !! i = Some (t ≫= k) → alone t w = Ret a w' → rtc pool_step (ts, w) (<[i := k a]> ts, w').
Proof.
  revert ts w. induction t as [b|B m f IH]; intros ts w Hi Hr.
  - injection Hr as <- <-. by rewrite list_insert_id.
  - cbn [alone] in Hr. apply bind_Ret_inv in Hr as (b & w1 & Hm & Hr).
    eapply pool_next; [exact Hi|exact Hm|]. intros ts' Hi'. by apply (IH b).
Qed.

Lemma pool_finish i (t : thread Z) a ts w w' :
  ts !! i = Some t → alone t w = Ret a w' → rtc pool_step (ts, w) (<[i := Done a]> ts, w').
Proof.
  revert ts w. induction t as [b|B m f IH]; intros ts w Hi Hr.
  - injection Hr as <- <-. by rewrite list_insert_id.
  - cbn [alone] in Hr. apply bind_Ret_inv in Hr as (b & w1 & Hm & Hr).
    eapply pool_next; [exact Hi|exact Hm|]. intros ts' Hi'. by apply (IH b).
Qed.

(** The next part of a thread crashes the kernel; waiting for the lock is no crash. *)
Definition faults {A} (t : thread A) (w : world) : Prop :=
  match t with
  | Done _ => False
  | Atomic m _ => ∃ f, m w = Crash f ∧ f ≠ Deadlock
  end.

(** The first of two threads runs its next part. *)
Lemma pool_first {B} (m : K B) f b t w w1 c :
  m w = Ret b w1 → rtc pool_step ([f b; t], w1) c → rtc pool_step ([Atomic m f; t], w) c.
Proof. intros Hm Hc. eapply rtc_l; [|exact Hc]. by eapply (pool_part 0 m f b [Atomic m f; t]). Qed.

(** ** Races *)

Section races.
Context `{AL : Alloc} `{CR : Crypto} `{CL : !CryptoLaws} `{VF : Vfs} `{VL : !VfsLaws} `{LF : LogFile}
  `{KA : KprobeAPI} `{KL : !KprobeLaws} `{LK : Linked} `{ST : Stack} `{SL : Slab} `{IA : !InitOnAlloc}.
Context (Hmem : ∀ n, kmalloc_ok n = true) (Hcrypto : ∀ n, crypto_up n).
Context (dg : buf) (u : user_ptr) (pw : buf).
Context (Hlen : PASSW_LEN ≤ length u) (Hpw : c_str (take PASSW_LEN u) = Some pw) (Hdg : sha256 pw = dg).
Implicit Types (a : blacklist) (on : bool).

(** The invariant without the link between the state and the probes. *)
Record steady (a : blacklist) (on : bool) (w : world) : Prop := {
  st_rep : bl_rep w a;
  st_digest : stored_digest w dg;
  st_probes : probes_on on w;
}.

Lemma steady_extends a on w w' : extends w w' → steady a on w → steady a on w'.
Proof.
  intros He [Hr Hd [Ha Hp Hen]]. pose proof (extends_glob _ _ He) as Hg.
  split; [by eapply bl_rep_extends|by eapply stored_digest_extends|].
  split; rewrite ?Hg; [by eapply extends_lookup|done|done].
Qed.

Lemma secure_steady a w :
  secure dg a w → steady a (bool_decide (rf_state (rf w) = RF_ON ∨ rf_state (rf w) = RF_REC_ON)) w.
Proof. by intros []. Qed.

(** The parts of a switch by root with the right password. *)
Lemma password_part a on w : steady a on w → ∃ w', alone (part (password_check u)) w = Ret 0%Z w' ∧
  steady a on w' ∧ rf_state (rf w') = rf_state (rf w).
Proof.
  intros Hs. destruct (password_check_run u pw dg w) as (w' & Hr & He & _); [apply Hs|apply Hs|done..|].
  rewrite decide_True in Hr by done. exists w'. split; [by rewrite alone_part|].
  split; [by eapply steady_extends|]. by rewrite (extends_glob _ _ He).
Qed.

Lemma set_state_part st a on w : steady a on w → ∃ w', alone (set_state_thread st) w = Ret tt w' ∧
  steady a on w' ∧ rf_state (rf w') = st.
Proof.
  intros [Hr [Hdl Hd] Hp]. pose proof (rep_lock _ _ Hr) as Hl. eexists (w_rf (rf_with_state st (rf w)) w).
  split; [|split; [split; [by apply bl_rep_state|by split|by apply (probes_on_rf _ on w)]|done]].
  rewrite (alone_set_state st w). erewrite K_bind_Ret by (by apply run_spin_lock). kstep.
  erewrite run_spin_unlock by done. unfold w_rf, w_put. simpl. by destruct (rf w) as [???[]?].
Qed.

Lemma set_probes_part st a on w : steady a on w → ∃ w', alone (set_probes_thread st) w = Ret tt w' ∧
  steady a (bool_decide (st = RF_ON ∨ st = RF_REC_ON)) w' ∧ rf_state (rf w') = rf_state (rf w).
Proof.
  intros [Hr [Hdl Hd] Hp]. assert (wf w) as Hwf by apply Hr.
  assert (∃ k, (if decide (st = 0 ∨ st = 2)%Z then enable_kprobes else disable_kprobes) w =
            Ret tt (w_krp k w) ∧
            probes_on (bool_decide (st = RF_ON ∨ st = RF_REC_ON)) (w_krp k w)) as (k & Hk & Hon).
  { unfold RF_ON, RF_REC_ON. destruct (decide (st = 0 ∨ st = 2)%Z) as [H02|H02].
    - rewrite bool_decide_eq_true_2 by done. by eapply enable_kprobes_run.
    - rewrite bool_decide_eq_false_2 by done. by eapply disable_kprobes_run. }
  exists (w_krp k w). split; [by rewrite (alone_set_probes st w)|]. split; [|done].
  split; [destruct Hr; by split|by split|done].
Qed.

Lemma report_part st a on w : steady a on w → (0 ≤ st ≤ 3)%Z → ∃ w',
  alone (report_thread st) w = Ret (rf_state (rf w)) w' ∧ steady a on w' ∧ rf_state (rf w') = rf_state (rf w).
Proof.
  intros Hs Hst. assert (wf w) as Hwf by apply Hs. pose proof (proj1 Hwf) as Hb.
  destruct (set_state_string_run st (brk w) (clock w)
    (w_alloc (OBuf (fresh_bytes (clock w) state_string_size)) w)) as (b & s & Hset & Hbs);
    [done|apply lookup_insert_eq|kptr|].
  eexists. split.
  - rewrite (alone_report st w). erewrite K_bind_Ret by (apply run_kmalloc_ok, Hmem).
    rewrite decide_False by kptr. erewrite K_bind_Ret by exact Hset.
    erewrite K_bind_Ret by (eapply run_k_print; [kmem|kptr|exact Hbs]). reflexivity.
  - split; [|done]. eapply steady_extends; [|exact Hs]. kext.
Qed.

(** What a thread does after the checks. *)
Definition switch_rest (st : Z) : thread Z := set_state_thread st ;; set_probes_thread st ;; report_thread st.

Lemma switch_thread_start st : (0 ≤ st ≤ 3)%Z →
  switch_thread st u 0 =
  (ret ← part (password_check u); if decide (ret ≠ 0%Z) then mret ret else switch_rest st).
Proof.
  intros Hst. unfold switch_thread. cbv zeta.
  by rewrite decide_False by (intros Hn; by apply Hn, rf_state_check_0).
Qed.

Lemma switch_steady st a on w : steady a on w → (0 ≤ st ≤ 3)%Z → ∃ w',
  alone (switch_thread st u 0) w = Ret st w' ∧
  steady a (bool_decide (st = RF_ON ∨ st = RF_REC_ON)) w' ∧ rf_state (rf w') = st.
Proof.
  intros Hs Hst. destruct (password_part a on w Hs) as (w1 & H1 & Hs1 & _).
  destruct (set_state_part st a on w1 Hs1) as (w2 & H2 & Hs2 & Hst2).
  destruct (set_probes_part st a on w2 Hs2) as (w3 & H3 & Hs3 & Hst3).
  destruct (report_part st a _ w3 Hs3 Hst) as (w4 & H4 & Hs4 & Hst4).
  exists w4. split; [|split; [done|congruence]]. rewrite switch_thread_start by done.
  rewrite (alone_bind _ _ w). erewrite K_bind_Ret by exact H1. cbv beta. rewrite decide_False by naive_solver.
  unfold switch_rest. rewrite (alone_bind _ _ w1). erewrite K_bind_Ret by exact H2.
  rewrite (alone_bind _ _ w2). erewrite K_bind_Ret by exact H3. rewrite H4. congruence.
Qed.

Lemma switch_race_run a w : secure dg a w → ∃ w',
  rtc pool_step ([switch_thread RF_ON u 0; switch_thread RF_OFF u 0], w) ([Done RF_ON; Done RF_ON], w') ∧
  rf_state (rf w') = RF_ON ∧ ∀ p, kp_enabled (g_krp (w_glob w') p) = false.
Proof.
  intros Hsec. apply secure_steady in Hsec as Hs. set (on := bool_decide _) in Hs.
  destruct (password_part a on w Hs) as (w1 & H1 & Hs1 & _).
  destruct (set_state_part RF_OFF a on w1 Hs1) as (w2 & H2 & Hs2 & _).
  destruct (switch_steady RF_ON a on w2 Hs2) as (w3 & H3 & Hs3 & Hst3); [unfold RF_ON; lia|].
  destruct (set_probes_part RF_OFF a _ w3 Hs3) as (w4 & H4 & Hs4 & Hst4).
  destruct (report_part RF_OFF a _ w4 Hs4) as (w5 & H5 & Hs5 & Hst5); [unfold RF_OFF; lia|].
  exists w5. split; [|split; [congruence|apply Hs5]].
  rewrite (switch_thread_start RF_OFF) by (unfold RF_OFF; lia).
  etransitivity; [by eapply (pool_run 1 (part (password_check u)))|].
  change (<[1 := _]> _) with [switch_thread RF_ON u 0; switch_rest RF_OFF].
  etransitivity; [by eapply (pool_run 1 (set_state_thread RF_OFF))|]. cbn [insert list_insert].
  etransitivity; [by eapply (pool_finish 0)|]. cbn [insert list_insert].
  etransitivity; [by eapply (pool_run 1 (set_probes_thread RF_OFF))|]. cbn [insert list_insert].
  etransitivity; [by eapply (pool_finish 1)|]. cbn [insert list_insert].
  by rewrite Hst4, Hst3.
Qed.

(** A removal that has passed the test of the state. *)
Definition remove_rest (path : user_ptr) : thread Z :=
  ret ← part (password_check u);
  if decide (ret ≠ 0%Z) then mret ret else
  (ret ← remove_from_blacklist_thread path; if decide (ret = - EINVAL)%Z then mret 1%Z else mret ret).

Lemma remove_rest_run path k a w :
  secure dg a w → user_path path = Some k → k ∈ bl_paths a →
  ∃ w', alone (remove_rest path) w = Ret 0%Z w' ∧ secure dg (bl_remove k a) w' ∧
    rf_state (rf w') = rf_state (rf w).
Proof.
  intros Hsec Hk Hin. destruct (password_check_run u pw dg w) as (w1 & H1 & He & _);
    [apply Hsec|apply Hsec|done..|]. rewrite decide_True in H1 by done.
  assert (secure dg a w1) as Hsec1 by by eapply secure_extends.
  pose proof (remove_refines path a w1 (sec_rep _ _ _ Hsec1)) as Hrem.
  unfold spec_remove in Hrem. rewrite Hmem, Hk in Hrem. cbn [negb] in Hrem. rewrite decide_True in Hrem by done.
  destruct Hrem as (w2 & H2 & Hf & Hrep). exists w2.
  split; [|split; [by eapply secure_list|by rewrite (list_frame_state _ _ Hf), (extends_glob _ _ He)]].
  unfold remove_rest. rewrite (alone_bind _ _ w). erewrite K_bind_Ret by (by rewrite (alone_part _ w)).
  cbv beta. rewrite decide_False by naive_solver. rewrite (alone_bind _ _ w1).
  erewrite K_bind_Ret by (by rewrite (alone_remove_from_blacklist path w1)). done.
Qed.

Lemma edit_race_run path k a w :
  secure dg a w → (2 ≤ rf_state (rf w))%Z → user_path path = Some k → k ∈ bl_paths a → ∃ ts w1 w2,
  rtc pool_step ([remove_thread path u 0; switch_thread RF_ON u 0], w) (ts, w1) ∧
  secure dg a w1 ∧ rf_state (rf w1) = RF_ON ∧
  rtc pool_step (ts, w1) ([Done 0%Z; Done RF_ON], w2) ∧
  secure dg (bl_remove k a) w2 ∧ rf_state (rf w2) = RF_ON.
Proof.
  intros Hsec Hst Hk Hin.
  destruct (switch_run RF_ON u pw 0 dg a w) as (z & w1 & H1 & Hsec1 & Hz);
    [done|by intros ??; apply Hmem|apply Hcrypto|done..|].
  rewrite !decide_True in Hz by (done || unfold RF_ON; lia). injection Hz as -> Hst1.
  destruct (remove_rest_run path k a w1 Hsec1 Hk Hin) as (w2 & H2 & Hsec2 & Hst2).
  exists [remove_rest path; Done RF_ON], w1, w2. split.
  2:{ split; [done|]. split; [done|]. split; [|split; [done|congruence]].
      exact (pool_finish 0 (remove_rest path) 0%Z [remove_rest path; Done RF_ON] w1 w2 eq_refl H2). }
  etransitivity.
  { eapply (pool_run 0 (part is_rf_rec)); [reflexivity|]. rewrite (alone_part _ w).
    rewrite run_is_rf_rec, decide_False by lia. reflexivity. }
  change (<[0 := _]> _) with [remove_rest path; switch_thread RF_ON u 0].
  apply (pool_finish 1 (switch_thread RF_ON u 0) RF_ON [remove_rest path; switch_thread RF_ON u 0]);
    [done|]. by rewrite (alone_switch _ _ _ w).
Qed.
End races.

(** ** Properties *)

Section concurrency_properties.
Context `{AL : Alloc} `{CR : Crypto} `{CL : !CryptoLaws} `{VF : Vfs} `{VL : !VfsLaws} `{LF : LogFile}
  `{KA : KprobeAPI} `{KL : !KprobeLaws} `{LK : Linked} `{ST : Stack} `{SL : Slab} `{IA : !InitOnAlloc}.

(** C22. The state is set under the lock and the probes outside of it: two switches
    by root, to ON and to OFF, can interleave so that both return, the monitor says
    ON and all ten probes are disabled, which no sequence of calls can do. *)
Theorem switch_race dg u pw a w :
  (∀ n, kmalloc_ok n = true) → (∀ n, crypto_up n) → PASSW_LEN ≤ length u →
  c_str (take PASSW_LEN u) = Some pw → sha256 pw = dg → secure dg a w →
  ∃ w', rtc pool_step ([switch_thread RF_ON u 0; switch_thread RF_OFF u 0], w)
      ([Done RF_ON; Done RF_ON], w') ∧
    rf_state (rf w') = RF_ON ∧ (∀ p, kp_enabled (g_krp (w_glob w') p) = false) ∧
    ¬ ∃ a', secure dg a' w'.
Proof.
  intros Hmem Hc Hlen Hpw Hdg Hsec.
  destruct (switch_race_run Hmem Hc dg u pw Hlen Hpw Hdg a w Hsec) as (w' & Hr & Hst & Hoff).
  exists w'. split; [done|]. split; [done|]. split; [done|]. intros [a' Hsec'].
  pose proof (po_enabled _ _ (sec_probes _ _ _ Hsec') file_open) as Hon.
  rewrite Hst, Hoff in Hon. by rewrite bool_decide_eq_true_2 in Hon by (by left).
Qed.

(** C23. The test that the monitor is in a reconfiguration state is made before the
    edit and without the lock: a removal and a switch to ON can interleave so that
    the path is removed when the monitor is already ON. *)
Theorem edit_race dg u pw path k a w :
  (∀ n, kmalloc_ok n = true) → (∀ n, crypto_up n) → PASSW_LEN ≤ length u →
  c_str (take PASSW_LEN u) = Some pw → sha256 pw = dg → secure dg a w →
  (2 ≤ rf_state (rf w))%Z → user_path path = Some k → k ∈ bl_paths a →
  ∃ ts w1 w2,
    rtc pool_step ([remove_thread path u 0; switch_thread RF_ON u 0], w) (ts, w1) ∧
    secure dg a w1 ∧ rf_state (rf w1) = RF_ON ∧
    rtc pool_step (ts, w1) ([Done 0%Z; Done RF_ON], w2) ∧
    secure dg (bl_remove k a) w2 ∧ rf_state (rf w2) = RF_ON.
Proof. intros Hmem Hc Hlen Hpw Hdg. by apply (edit_race_run Hmem Hc dg u pw). Qed.
End concurrency_properties.
