(* ===== verification/ProbeThreads.v ===== *)
(** * Probed calls and the listing as threads

    The rest of the module that runs at the same time as the system calls of
    Concurrency: the ten entry handlers, the return handler and a whole call of a
    probed function, and the two system calls that only read,
    [sys_print_blacklist] and [sys_get_blacklist_size].  A handler is cut around its
    tests of a path; the copy of a path, the message and the log item are made of
    objects that the thread allocates. *)

From S2P Require Import Prelude CString Kernel Utils Blacklist Logger Kprobes Scth Monitor Security Mediation.
From S2P Require Import Concurrency.

(** ** The entry handlers *)

Section handlers.
Context `{AL : Alloc} `{VF : Vfs}.

(** The test of a path and the denial. *)
Definition check_thread (what : buf) (full_path : ptr) (k : thread (Z * option ptr)) : thread (Z * option ptr) :=
  b ← is_blacklisted_thread full_path;
  if decide (b = 1%Z) then part (deny what full_path) else k.

Definition pass_thread : thread (Z * option ptr) := mret (1%Z, None).

Definition open_entry_thread (regs : pt_regs) : thread (Z * option ptr) :=
  f ← part (as_file (r_di regs));
  if opens_for_write (f_flags f) then
    full_path ← part (get_path_from_dentry (f_dentry f));
    check_thread (lit "vfs open on file") full_path pass_thread
  else pass_thread.

(** The handlers of the operations with two paths. *)
Definition inode_link_entry_thread (regs : pt_regs) : thread (Z * option ptr) :=
  old_dentry ← part (as_dentry (r_di regs));
  dentry ← part (as_dentry (r_dx regs));
  full_old_path ← part (get_path_from_dentry old_dentry);
  full_path ← part (get_path_from_dentry dentry);
  check_thread (lit "Link on dir") full_old_path (check_thread (lit "Link on dir") full_path pass_thread).

Definition inode_rename_entry_thread (regs : pt_regs) : thread (Z * option ptr) :=
  old_dentry ← part (as_dentry (r_si regs));
  dentry ← part (as_dentry (r_cx regs));
  full_old_path ← part (get_path_from_dentry old_dentry);
  full_path ← part (get_path_from_dentry dentry);
  check_thread (lit "Rename on dir") full_old_path (check_thread (lit "Link on dir") full_path pass_thread).

Definition inode_rmdir_entry_thread (regs : pt_regs) : thread (Z * option ptr) :=
  dentry ← part (as_dentry (r_si regs));
  full_path ← part (get_path_from_dentry dentry);
  b ← is_blacklisted_thread full_path;
  if decide (b = 1%Z) then part (deny (lit "Rmdir on file") full_path) else
  parent_path ← part (get_path_from_dentry (d_parent dentry));
  b ← is_blacklisted_thread parent_path;
  if decide (b = 1%Z) then part (deny (lit "Rmdir on file") full_path) else
  pass_thread.

(** The handlers of the operations with one dentry. *)
Definition inode_symlink_entry_thread (regs : pt_regs) : thread (Z * option ptr) :=
  dentry ← part (as_dentry (r_si regs));
  full_path ← part (get_path_from_dentry dentry);
  check_thread (lit "Unlink on dir") full_path pass_thread.

Definition inode_unlink_entry_thread (regs : pt_regs) : thread (Z * option ptr) :=
  dentry ← part (as_dentry (r_si regs));
  full_path ← part (get_path_from_dentry dentry);
  check_thread (lit "Unlink on dir") full_path pass_thread.

Definition inode_create_entry_thread (regs : pt_regs) : thread (Z * option ptr) :=
  dentry ← part (as_dentry (r_si regs));
  full_path ← part (get_path_from_dentry dentry);
  check_thread (lit "Create on file") full_path pass_thread.

Definition inode_mkdir_entry_thread (regs : pt_regs) : thread (Z * option ptr) :=
  dentry ← part (as_dentry (r_si regs));
  full_path ← part (get_path_from_dentry dentry);
  check_thread (lit "Mkdir on file") full_path pass_thread.

(** The handlers of the operations on an open file. *)
Definition vfs_write_entry_thread (regs : pt_regs) : thread (Z * option ptr) :=
  f ← part (as_file (r_di regs));
  full_path ← part (get_path_from_dentry (f_dentry f));
  check_thread (lit "Write on file") full_path pass_thread.

Definition vfs_lseek_entry_thread (regs : pt_regs) : thread (Z * option ptr) :=
  f ← part (as_file (r_di regs));
  full_path ← part (get_path_from_dentry (f_dentry f));
  check_thread (lit "Lseek on file") full_path pass_thread.

Definition run_entry_thread (h : entry_handler_id) : pt_regs → thread (Z * option ptr) :=
  match h with
  | open_entry => open_entry_thread
  | inode_link_entry => inode_link_entry_thread
  | inode_symlink_entry => inode_symlink_entry_thread
  | inode_unlink_entry => inode_unlink_entry_thread
  | inode_create_entry => inode_create_entry_thread
  | inode_mkdir_entry => inode_mkdir_entry_thread
  | inode_rename_entry => inode_rename_entry_thread
  | inode_rmdir_entry => inode_rmdir_entry_thread
  | vfs_write_entry => vfs_write_entry_thread
  | vfs_lseek_entry => vfs_lseek_entry_thread
  end.

(** ** The return handler *)

(** [write_on_log] fills objects of its own and then queues the item. *)
Definition ret_handler_thread (current : task) (error_message : ptr) : thread Z :=
  part (if decide (error_message = NULL) then mret tt else k_print error_message) ;;
  part (write_on_log current) ;;
  part (kfree error_message) ;;
  mret (- EACCES)%Z.

(** ** A call of a probed function *)

(** The dispatch of kretprobes is kernel code: [probed_thread p k regs t f] is the
    call, by the thread [t] with the arguments [regs], of the function [f] on which
    the probe [p] is placed, [k] being its structure.  [instances p] is how many calls
    of the function the probe can follow at the same time: [maxactive], or for a
    [maxactive] that is not positive, as here, a number that depends on that of the
    processors. *)
Class KretprobeThreads := {
  instances : probe_id → nat;
  probed_thread : probe_id → kretprobe → pt_regs → task → thread Z → thread Z;
}.

(** One of the [n] instances of the probe is taken, if there is a free one, and given
    back. *)
Definition take_instance (n : nat) (p : probe_id) : K bool :=
  g ← get_glob;
  if decide (g_active g p < n) then
    put_glob (set_active (<[p := S (g_active g p)]> (g_active g)) g) ;; mret true
  else mret false.
Definition give_instance (p : probe_id) : K unit :=
  g ← get_glob; put_glob (set_active (<[p := pred (g_active g p)]> (g_active g)) g).

(** Documentation/trace/kprobes: a call of the function takes a free instance of the
    enabled probe; with none free the call is missed and only the function runs.
    The entry handler runs before the function; when it returns 0, the return handler
    runs after the function and gives the result, otherwise it does not run; then the
    instance is free again. *)
Class KretprobeThreadLaws `{KT : KretprobeThreads} : Prop := {
  thread_off p k regs t f : kp_enabled k = false → probed_thread p k regs t f = f;
  thread_on p k h regs t f : kp_enabled k = true → kp_entry k = Some h →
    ∃ g, probed_thread p k regs t f =
        (b ← part (take_instance (instances p) p); if b : bool then run_entry_thread h regs ≫= g else f) ∧
      (∀ z r, z ≠ 0%Z → g (z, r) = (part (give_instance p) ;; f)) ∧
      (kp_handler k = true → ∀ m,
         g (0%Z, Some m) = (f ;; z ← ret_handler_thread t m; part (give_instance p) ;; mret z));
}.

(** The call finds the probe as it is at that time. *)
Definition call_thread `{KT : KretprobeThreads} (p : probe_id) (regs : pt_regs) (t : task) (f : thread Z)
  : thread Z :=
  k ← part (get_krp p); probed_thread p k regs t f.
End handlers.

(** ** sys_print_blacklist and sys_get_blacklist_size *)

Section listing.
Context `{AL : Alloc} `{ST : Stack} `{SL : Slab}.

(** The walk of the list takes no lock. *)
Fixpoint print_nodes_thread (fuel : nat) (curr entries : ptr) (temp_string : buf) : thread ptr :=
  match fuel with
  | O => part (crash OutOfFuel)
  | S fuel' =>
      n ← part (load_node curr);
      if decide (n_next n = NULL) then
        r ← part (print_entry n entries temp_string); mret r.1
      else
        part (load_text (n_path n)) ;;
        r ← part (print_entry n entries temp_string);
        if decide (r.1 = NULL) then mret NULL else
        n ← part (load_node curr);
        print_nodes_thread fuel' (n_next n) r.1 r.2
  end.

Definition print_list_thread (room : nat) (curr blacklist_entries : ptr) : thread (Z * buf) :=
  if decide (blacklist_entries = NULL) then mret ((-1)%Z, []) else
  if decide (curr = NULL) then
    let '(out, ret) := copy_to_user room BL_EMPTY in
    if decide (ret ≠ 0) then part (crash WildAccess) else mret (0%Z, out)
  else
    b ← part (load_buf blacklist_entries);
    b' ← part (of_opt Overrun (sprintf_at b 0 BL_HEADER));
    part (store_buf blacklist_entries b') ;;
    fuel ← part loop_fuel;
    blacklist_entries ← print_nodes_thread fuel curr blacklist_entries (stack_byte <$> seq 0 TEMP_SIZE);
    if decide (blacklist_entries = NULL) then mret ((-1)%Z, []) else
    s ← part (load_text blacklist_entries);
    let '(out, ret) := copy_to_user room s in
    if decide (ret ≠ 0) then part (kfree blacklist_entries) ;; mret ((- EAGAIN)%Z, out)
    else mret (0%Z, out).

(** The head, then the counter. *)
Definition print_thread (room : nat) (blacklist_size : Z) : thread (Z * buf) :=
  r ← part get_rf;
  let curr := rf_blacklist_head r in
  r ← part get_rf;
  if decide (blacklist_size ≠ rf_blacklist_size r) then mret ((-1)%Z, []) else
  blacklist_entries ← part (kmalloc_int (int32 (blacklist_size * Z.of_nat PATH_MAX)));
  print_list_thread room curr blacklist_entries.

Definition size_thread : thread Z := r ← part get_rf; mret (rf_blacklist_size r).
End listing.

(** ** Alone *)

Section alone_probes.
Context `{AL : Alloc} `{VF : Vfs} `{ST : Stack} `{SL : Slab}.
#[local] Hint Resolve alone_is_blacklisted : threads.

Lemma alone_entry h regs : alone (run_entry_thread h regs) ≈ run_entry h regs.
Proof.
  destruct h; cbn [run_entry_thread run_entry];
    unfold open_entry_thread, inode_link_entry_thread, inode_symlink_entry_thread, inode_unlink_entry_thread,
      inode_create_entry_thread, inode_mkdir_entry_thread, inode_rename_entry_thread, inode_rmdir_entry_thread,
      vfs_write_entry_thread, vfs_lseek_entry_thread, check_thread, pass_thread,
      open_entry_handler, inode_link_entry_handler, inode_symlink_entry_handler, inode_unlink_entry_handler,
      inode_create_entry_handler, inode_mkdir_entry_handler, inode_rename_entry_handler,
      inode_rmdir_entry_handler, vfs_write_entry_handler, vfs_lseek_entry_handler; cbv zeta;
    in_step; destruct (opens_for_write _); in_step.
Qed.

Lemma alone_ret_handler t m : alone (ret_handler_thread t m) ≈ ret_handler t m.
Proof. unfold ret_handler_thread, ret_handler. cbv zeta. in_step. Qed.

Lemma alone_print_nodes fuel curr p t : alone (print_nodes_thread fuel curr p t) ≈ print_nodes fuel curr p t.
Proof. revert curr p t. induction fuel as [|fuel IH]; intros curr p t; cbn [print_nodes_thread print_nodes]; in_step. Qed.
#[local] Hint Resolve alone_print_nodes : threads.

Lemma alone_print_list room curr p : alone (print_list_thread room curr p) ≈ print_list room curr p.
Proof. unfold print_list_thread, print_list. in_step. Qed.

Lemma alone_print room n : alone (print_thread room n) ≈ sys_print_blacklist room n.
Proof.
  intros w. unfold sys_print_blacklist. change (get_rf w) with (Ret (rf w) w).
  erewrite K_bind_Ret by reflexivity. unfold print_thread. cbv zeta. rewrite !alone_read.
  destruct (decide _) as [|Hn]; [done|].
  apply (same_bind (A := ptr) (B := Z * buf)); [intros e; apply alone_print_list|done].
Qed.

Lemma alone_size : alone size_thread ≈ sys_get_blacklist_size.
Proof. unfold size_thread, sys_get_blacklist_size. in_step. Qed.

End alone_probes.

(** ** The race of the listing with a removal *)

Section print_race.
Context `{AL : Alloc} `{CR : Crypto} `{CL : !CryptoLaws} `{VF : Vfs} `{VL : !VfsLaws} `{LF : LogFile}
  `{KA : KprobeAPI} `{KL : !KprobeLaws} `{LK : Linked} `{ST : Stack} `{SL : Slab} `{IA : !InitOnAlloc}.
Context (Hmem : ∀ n, kmalloc_ok n = true) (Hcrypto : ∀ n, crypto_up n).

(** The removal of the second of two paths cuts the first node off. *)
Lemma remove_second_run path k1 k2 u pw dg a w x y :
  secure dg a w → (2 ≤ rf_state (rf w))%Z →
  PASSW_LEN ≤ length u → c_str (take PASSW_LEN u) = Some pw → sha256 pw = dg → user_path path = Some k2 →
  bl_paths a = [k1; k2] → chain (mem w) (rf_blacklist_head (rf w)) [(x, k1); (y, k2)] →
  ∃ w' p, alone (remove_thread path u 0) w = Ret 0%Z w' ∧ mem w' !! x = Some (ONode (mk_node p NULL)).
Proof.
  intros Hsec Hst Hlen Hpw Hdg Hk Hp Hc.
  destruct (password_check_run u pw dg w) as (w1 & H1 & He & _); [apply Hsec|apply Hsec|done..|].
  rewrite decide_True in H1 by done.
  assert (wf w1) as Hwf1 by (eapply extends_wf; [exact He|apply Hsec]). pose proof (proj1 Hwf1) as Hb1.
  pose proof (w_user_extends path w1 Hwf1) as Heu.
  assert (extends w (w_user path w1)) as Hew by by etransitivity.
  assert (k2 ≠ k1) as Hne.
  { pose proof (rep_nodup _ _ (sec_rep _ _ _ Hsec)) as Hnd. rewrite Hp in Hnd. intros ->.
    apply NoDup_cons in Hnd as [Hn _]. set_solver. }
  destruct (remove_unlink_inner (brk w1) (user_buf path) k2 [] x k1 y [] (w_user path w1))
    as (n & ny & Hn & Hny & Hrun).
  { rewrite (extends_glob _ _ Hew). apply Hsec. }
  { rewrite (extends_glob _ _ Hew). eapply seg_mono; [apply Hew|exact Hc]. }
  { apply lookup_insert_eq. }
  { kptr. }
  { done. }
  { by apply not_elem_of_nil. }
  { done. }
  assert (n_next ny = NULL) as Hnull.
  { eapply (seg_mono _ (mem (w_user path w1))) in Hc; [|apply Hew].
    destruct Hc as (_ & _ & n' & b & Hn' & _ & _ & _ & Hc). destruct Hc as (Hy & _ & ny' & b' & Hny' & _ & _ & _ & Hc).
    simpl in Hc. congruence. }
  rewrite Hnull in Hrun. exists (w_store x (ONode (mk_node (n_path n) NULL)) (w_user path w1)), (n_path n).
  split; [|apply lookup_insert_eq].
  rewrite (alone_remove _ _ _ w). unfold sys_remove_from_blacklist.
  erewrite K_bind_Ret by apply run_is_rf_rec. rewrite (decide_False (P := (rf_state (rf w) < 2)%Z)) by lia.
  rewrite decide_False by (intros Hx; by apply Hx). erewrite K_bind_Ret by exact H1.
  rewrite decide_False by (intros Hx; by apply Hx). cbv zeta. rewrite decide_False by (intros Hx; by apply Hx).
  erewrite (K_bind_Ret _ _ _ 0%Z); [reflexivity|]. unfold remove_from_blacklist.
  erewrite K_bind_Ret by (apply run_kmalloc_ok, Hmem). rewrite decide_False by kptr.
  erewrite K_bind_Ret by (by apply run_user_copy). rewrite decide_False by lia. exact Hrun.
Qed.

(** The listing after its first entry, that of the node [x]. *)
Definition print_rest (room fuel : nat) (x e : ptr) (temp : buf) : thread Z :=
  r ← (n ← part (load_node x);
       e ← print_nodes_thread fuel (n_next n) e temp;
       if decide (e = NULL) then mret ((-1)%Z, []) else
       s ← part (load_text e);
       let '(out, ret) := copy_to_user room s in
       if decide (ret ≠ 0) then part (kfree e) ;; mret ((- EAGAIN)%Z, out) else mret (0%Z, out));
  mret r.1.

Lemma print_first_run room k1 k2 a w x y t :
  bl_rep w a → krealloc_shrinks = false → is_Some (c_str (stack_byte <$> seq 0 TEMP_SIZE)) →
  length k1 ≤ 252 → (2 ≤ bl_size a < 2 ^ 19)%Z →
  chain (mem w) (rf_blacklist_head (rf w)) [(x, k1); (y, k2)] →
  ∃ w' fuel e temp, extends w w' ∧
    rtc pool_step ([r ← print_thread room (bl_size a); mret r.1; t], w)
      ([print_rest room (S fuel) x e temp; t], w').
Proof.
  intros Hrep Hslab Hst Hk1 Hsz Hc. pose proof (rep_wf _ _ Hrep) as Hwf. pose proof (proj1 Hwf) as Hb.
  pose proof (rep_size _ _ Hrep) as Hsize.
  destruct Hc as (Hx & Hxn & n & pb & Hn & Hnp & Hpb & Hps & (Hy & Hyn & _)).
  assert (Z.of_nat PATH_MAX = 4096%Z) as HP by done.
  set (sz := Z.to_nat (bl_size a * Z.of_nat PATH_MAX)). set (fb := fresh_bytes (clock w) sz).
  assert (4096 * 2 ≤ sz) as Hszl by lia. assert (length fb = sz) as Hfl by apply length_fresh_bytes.
  set (w1 := w_alloc (OBuf fb) w).
  assert (mem w1 !! brk w = Some (OBuf fb)) as Hm1 by apply lookup_insert_eq. assert (brk w ≠ NULL) as Hbn by kptr.
  assert (length BL_HEADER = 19) as Hhl by done.
  set (b1 := BL_HEADER ++ NUL :: drop (S (length BL_HEADER)) fb). set (w2 := w_store (brk w) (OBuf b1) w1).
  assert (extends w w2) as He2 by (unfold w2, w1; kext).
  pose proof (extends_lookup _ _ _ _ He2 Hn) as Hn2. pose proof (extends_lookup _ _ _ _ He2 Hpb) as Hpb2.
  assert (∃ f, size (mem w2) = S f) as [f Hf].
  { destruct (size (mem w2)) eqn:Hs; [|eauto]. apply map_size_empty_inv in Hs. by rewrite Hs, lookup_empty in Hn2. }
  destruct (print_entry_run Hslab w Hwf n pb k1 (brk w) b1 BL_HEADER (stack_byte <$> seq 0 TEMP_SIZE) w2)
    as (b' & temp' & Hrun & Hpg & _); [|done|done|done|done| |].
  { split; [done|done|apply lookup_insert_eq|by apply c_str_app; compute_done|].
    split; [by rewrite length_fmap, length_seq|]. by destruct Hst as [ts ?]; exists ts. }
  { unfold b1. rewrite length_app. cbn [length]. rewrite length_drop, Hfl. lia. }
  eexists _, f, (brk w), temp'. split; [exact (pg_extends _ _ _ _ _ _ Hpg)|].
  apply (pool_first get_rf _ (rf w) _ w w); [done|]. apply (pool_first get_rf _ (rf w) _ w w); [done|].
  rewrite decide_False by (intros Hn'; by apply Hn').
  apply (pool_first (kmalloc_int _) _ (brk w) _ w w1).
  { unfold kmalloc_int. rewrite int32_small by lia. rewrite decide_False by lia. by apply run_kmalloc_ok. }
  unfold print_list_thread. rewrite decide_False by done. rewrite Hx, decide_False by done.
  apply (pool_first (load_buf (brk w)) _ fb _ w1 w1); [by apply run_load_buf|].
  apply (pool_first (of_opt _ _) _ b1 _ w1 w1); [by apply run_of_opt, sprintf_at_0; lia|].
  apply (pool_first (store_buf (brk w) b1) _ tt _ w1 w2); [by eapply run_store_buf|].
  apply (pool_first loop_fuel _ (S (size (mem w2))) _ w2 w2); [done|]. rewrite Hf.
  apply (pool_first (load_node x) _ n _ w2 w2); [by apply run_load_node|]. rewrite Hy, decide_False by done.
  apply (pool_first (load_text (n_path n)) _ k1 _ w2 w2); [by eapply run_load_text|].
  eapply pool_first; [exact Hrun|]. cbn [fst snd]. rewrite decide_False by done. reflexivity.
Qed.

(** The listing of two paths and the removal of the second. *)
Lemma print_race_run room path k1 k2 u pw dg a w :
  secure dg a w → (2 ≤ rf_state (rf w))%Z →
  PASSW_LEN ≤ length u → c_str (take PASSW_LEN u) = Some pw → sha256 pw = dg → user_path path = Some k2 →
  bl_paths a = [k1; k2] → length k1 ≤ 252 → (2 ≤ bl_size a < 2 ^ 19)%Z →
  krealloc_shrinks = false → is_Some (c_str (stack_byte <$> seq 0 TEMP_SIZE)) →
  ∃ t w', rtc pool_step ([r ← print_thread room (bl_size a); mret r.1; remove_thread path u 0], w)
      ([t; Done 0%Z], w') ∧ faults t w'.
Proof.
  intros Hsec Hst Hlen Hpw Hdg Hk Hp Hk1 Hsz Hslab Hstack. pose proof (sec_rep _ _ _ Hsec) as Hrep.
  destruct (rep_chain _ _ Hrep) as (l & Hc & Hl). rewrite Hp in Hl.
  destruct l as [|[x k1'] [|[y k2'] [|]]]; [done|done| |done]. injection Hl as -> ->.
  destruct (print_first_run room k1 k2 a w x y (remove_thread path u 0)) as (w2 & fuel & e & temp & He & Hr1); [done..|].
  pose proof (extends_glob _ _ He) as Hg. pose proof Hc as (_ & Hxn & _).
  destruct (remove_second_run path k1 k2 u pw dg a w2 x y) as (w3 & p & Hr2 & Hx3);
    [by eapply secure_extends|by rewrite Hg|done..| |].
  { rewrite Hg. eapply seg_mono; [apply He|exact Hc]. }
  eexists _, w3. split.
  - etransitivity; [exact Hr1|]. etransitivity; [by eapply (pool_finish 1)|]. cbn [insert list_insert].
    apply (pool_first (load_node x) _ (mk_node p NULL) _ w3 w3); [by apply run_load_node|]. reflexivity.
  - exists NullDeref. split; [done|done].
Qed.
End print_race.

(** ** Properties *)

Section probe_thread_properties.
Context `{AL : Alloc} `{CR : Crypto} `{CL : !CryptoLaws} `{VF : Vfs} `{VL : !VfsLaws} `{LF : LogFile}
  `{KA : KprobeAPI} `{KL : !KprobeLaws} `{LK : Linked} `{ST : Stack} `{SL : Slab} `{IA : !InitOnAlloc}.

(** C24. [sys_print_blacklist] walks the list without the lock and reads the link of a
    node twice: when the second of two paths is removed between the two reads, the
    listing goes on from NULL and its next step dereferences it. *)
Theorem print_race room path k1 k2 u pw dg a w :
  (∀ n, kmalloc_ok n = true) → (∀ n, crypto_up n) → secure dg a w → (2 ≤ rf_state (rf w))%Z →
  PASSW_LEN ≤ length u → c_str (take PASSW_LEN u) = Some pw → sha256 pw = dg → user_path path = Some k2 →
  bl_paths a = [k1; k2] → length k1 ≤ 252 → (2 ≤ bl_size a < 2 ^ 19)%Z →
  krealloc_shrinks = false → is_Some (c_str (stack_byte <$> seq 0 TEMP_SIZE)) →
  ∃ t w', rtc pool_step ([r ← print_thread room (bl_size a); mret r.1; remove_thread path u 0], w)
      ([t; Done 0%Z], w') ∧ faults t w'.
Proof. intros Hmem Hcrypto. by apply print_race_run. Qed.

(** The threads are the system calls and the handlers of the probes cut into
    atomic parts: run alone, each does in every world what the sequential definition
    does. *)
Theorem threads_alone_are_calls :
  (∀ st u euid, alone (switch_thread st u euid) ≈ sys_switch_rf_state st u euid) ∧
  alone get_state_thread ≈ sys_get_rf_state ∧
  (∀ path u euid, alone (add_thread path u euid) ≈ sys_add_to_blacklist path u euid) ∧
  (∀ path u euid, alone (remove_thread path u euid) ≈ sys_remove_from_blacklist path u euid) ∧
  (∀ room n, alone (print_thread room n) ≈ sys_print_blacklist room n) ∧
  alone size_thread ≈ sys_get_blacklist_size ∧
  (∀ h regs, alone (run_entry_thread h regs) ≈ run_entry h regs) ∧
  (∀ t m, alone (ret_handler_thread t m) ≈ ret_handler t m).
Proof.
  split; [apply alone_switch|]. split; [apply alone_get_state|]. split; [apply alone_add|].
  split; [apply alone_remove|]. split; [apply alone_print|]. split; [apply alone_size|].
  split; [apply alone_entry|apply alone_ret_handler].
Qed.
End probe_thread_properties.
