(* ===== verification/NodeGraph.v ===== *)
(** * The nodes of the blacklist that were ever linked

    Removal unlinks a node and never frees it, so a processor that read a pointer
    before can still walk from it.  Here is the graph of all nodes that were ever
    linked: the list is a walk in it, and every walk ends. *)

From S2P Require Import Prelude CString Kernel Blacklist.

(** ** The nodes that were ever linked *)

(** The address and the text of the path of a node, and the next node. *)
Record gnode := mk_gnode { gn_path : ptr; gn_text : buf; gn_next : ptr }.
Definition gn_link (nx : ptr) (g : gnode) : gnode := mk_gnode (gn_path g) (gn_text g) nx.
Definition gn_node (g : gnode) : blacklist_node := mk_node (gn_path g) (gn_next g).

(** The walk from [p] meets the nodes [l] and ends. *)
Fixpoint walk (G : gmap ptr gnode) (p : ptr) (l : list (ptr * buf)) : Prop :=
  match l with
  | [] => p = NULL
  | (x, s) :: l' => p = x ∧ ∃ g, G !! x = Some g ∧ gn_text g = s ∧ walk G (gn_next g) l'
  end.

(** The list from [h] on: distinct texts, all of them [may], and every text that
    [must] be there.  A walk from any node of [H], the nodes that were ever first,
    ends and meets the texts that must be there. *)
Record graph (may must : buf → Prop) (G : gmap ptr gnode) (H : gset ptr) (h : ptr)
    (l : list (ptr * buf)) : Prop := {
  gr_walk : walk G h l;
  gr_texts : NoDup l.*2;
  gr_may e : e ∈ l.*2 → may e;
  gr_must e : must e → e ∈ l.*2;
  gr_heads p : p ∈ H → ∃ k, walk G p k ∧ ∀ e, must e → e ∈ k.*2;
  gr_null : G !! NULL = None;
}.

Section graphs.
Implicit Types (G : gmap ptr gnode) (p q h : ptr) (l k : list (ptr * buf)).

Lemma walk_det G p l k : walk G p l → walk G p k → G !! NULL = None → l = k.
Proof.
  intros Hl Hk Hn. revert p k Hl Hk. induction l as [|[x s] l IH]; intros p [|[y t] k]; simpl.
  - done.
  - intros -> (<- & g & Hg & _). congruence.
  - intros (-> & g & Hg & _) ->. congruence.
  - intros (-> & g & Hg & <- & Hl) (<- & g' & Hg' & <- & Hk). rewrite Hg in Hg'. injection Hg' as <-.
    by rewrite (IH _ _ Hl Hk).
Qed.

Lemma walk_app G p l q s k : walk G p (l ++ (q, s) :: k) → walk G q ((q, s) :: k).
Proof. revert p. induction l as [|[x t] l IH]; intros p; [by intros (-> & H)|]. intros (_ & g & _ & _ & H). by eapply IH. Qed.

Lemma walk_lookup G p l x s : walk G p l → (x, s) ∈ l → ∃ g, G !! x = Some g ∧ gn_text g = s.
Proof.
  revert p. induction l as [|[y t] l IH]; intros p; [by intros _ ?%not_elem_of_nil|].
  intros (_ & g & Hg & Ht & Hl). rewrite elem_of_cons. intros [[= -> ->]|Hin]; eauto.
Qed.

Lemma walk_null G l : G !! NULL = None → walk G NULL l → l = [].
Proof. intros Hn Hl. by apply (walk_det G NULL l []). Qed.

(** A walk never meets a node twice. *)
Lemma walk_NoDup G p l : G !! NULL = None → walk G p l → NoDup l.*1.
Proof.
  intros Hn. revert p. induction l as [|[x s] l IH]; intros p Hw; [constructor|].
  pose proof Hw as (-> & g & Hg & Hs & Hl). constructor; [|by eapply IH].
  intros ([y t] & Hy & Hin)%list_elem_of_fmap. simpl in Hy. subst y.
  apply list_elem_of_split in Hin as (l1 & l2 & ->).
  pose proof (walk_app _ _ _ _ _ _ Hl) as Hw'. pose proof (walk_det _ _ _ _ Hw Hw' Hn) as He.
  apply (f_equal length) in He. simpl in He. rewrite length_app in He. simpl in He. lia.
Qed.

Lemma walk_dom G p l : walk G p l → l.*1 ⊆ elements (dom G).
Proof.
  revert p. induction l as [|[x s] l IH]; intros p; [set_solver|]. intros (_ & g & Hg & _ & Hl).
  apply IH in Hl. apply elem_of_dom_2 in Hg. set_solver.
Qed.

Lemma walk_length G p l : G !! NULL = None → walk G p l → length l ≤ size G.
Proof.
  intros Hn Hw. rewrite <- (length_fmap fst), <- size_dom.
  apply submseteq_length, NoDup_submseteq; [by eapply walk_NoDup|by apply (walk_dom G p)].
Qed.

(** What does not meet [q] does not see a change of [q]. *)
Lemma walk_insert_ne G p l q g : walk G p l → q ∉ l.*1 → walk (<[q := g]> G) p l.
Proof.
  revert p. induction l as [|[x s] l IH]; intros p; [done|]. simpl. rewrite not_elem_of_cons.
  intros (-> & g' & Hg' & Hs & Hl) [Hq Hnot]. split; [done|]. exists g'.
  rewrite lookup_insert_ne by done. auto.
Qed.

(** A new link from [q] to a place from which the walk ends without [q]: walks that
    meet [q] take it. *)
Lemma walk_link G p l1 l2 q s g nx k :
  G !! NULL = None → walk G p (l1 ++ (q, s) :: l2) → G !! q = Some g → walk G nx k → q ∉ k.*1 →
  walk (<[q := gn_link nx g]> G) p (l1 ++ (q, s) :: k).
Proof.
  intros Hn Hw Hq Hk Hnot. pose proof (walk_NoDup _ _ _ Hn Hw) as Hnd.
  revert p Hw Hnd. induction l1 as [|[x t] l1 IH]; intros p Hw Hnd; simpl in *.
  - destruct Hw as (-> & g' & Hg' & Hs & _). rewrite Hq in Hg'. injection Hg' as <-.
    split; [done|]. exists (gn_link nx g). rewrite lookup_insert_eq. split; [done|]. split; [done|].
    by apply walk_insert_ne.
  - destruct Hw as (-> & g' & Hg' & Ht & Hw). apply NoDup_cons in Hnd as [Hx Hnd].
    split; [done|]. exists g'. rewrite lookup_insert_ne.
    + split; [done|]. split; [done|]. by apply IH.
    + intros ->. apply Hx. rewrite fmap_app. set_solver.
Qed.

(** The walks from the nodes of [H] go on to meet the texts that must be there. *)
Lemma heads_link (must : buf → Prop) G (H : gset ptr) q g nx k :
  G !! NULL = None → G !! q = Some g → walk G nx k → q ∉ k.*1 →
  (∀ l2 e, walk G (gn_next g) l2 → must e → e ∈ l2.*2 → e ∈ k.*2) →
  (∀ p, p ∈ H → ∃ l, walk G p l ∧ ∀ e, must e → e ∈ l.*2) →
  ∀ p, p ∈ H → ∃ l, walk (<[q := gn_link nx g]> G) p l ∧ ∀ e : buf, must e → e ∈ l.*2.
Proof.
  intros Hn Hq Hk Hnot Hkeep Hall p Hp. destruct (Hall p Hp) as (l & Hl & Hm).
  destruct (decide (q ∈ l.*1)) as [Hin|Hin]; [|exists l; split; [by apply walk_insert_ne|done]].
  apply list_elem_of_fmap in Hin as ([q' s] & Hq' & Hin). simpl in Hq'. subst q'.
  apply list_elem_of_split in Hin as (l1 & l2 & ->). exists (l1 ++ (q, s) :: k).
  split; [by eapply walk_link|]. intros e He. specialize (Hm e He).
  pose proof (walk_app _ _ _ _ _ _ Hl) as (_ & g' & Hg' & _ & Hl2). rewrite Hq in Hg'. injection Hg' as <-.
  rewrite fmap_app in Hm |- *. simpl in Hm |- *. apply elem_of_app. apply elem_of_app in Hm as [Hm|Hm]; [by left|].
  right. apply elem_of_cons. apply elem_of_cons in Hm as [->|Hm]; [by left|]. right. by eapply Hkeep.
Qed.

Context (may must : buf → Prop).
#[local] Abbreviation graph := (graph may must).

(** A node that is not linked from anywhere. *)
Lemma graph_new G H h l new g :
  graph G H h l → new ≠ NULL → G !! new = None → graph (<[new := g]> G) H h l.
Proof.
  intros [Hw Ht Hy Hu He Hn] Hnew Hfresh.
  assert (∀ p k, walk G p k → walk (<[new := g]> G) p k) as Hkeep.
  { intros p k Hk. apply walk_insert_ne; [done|]. intros Hin%(walk_dom _ _ _ Hk).
    apply elem_of_elements in Hin. by apply not_elem_of_dom in Hfresh. }
  split; [by apply Hkeep|done|done|done| |by rewrite lookup_insert_ne].
  intros p Hp. destruct (He p Hp) as (k & Hk & Hm). eauto.
Qed.

(** The first node of the list is now one of [H]. *)
Lemma graph_head G H h l : graph G H h l → graph G ({[h]} ∪ H) h l.
Proof.
  intros [Hw Ht Hy Hu He Hn]. split; try done. intros p [->%elem_of_singleton|Hp]%elem_of_union; [eauto|auto].
Qed.

(** The list is empty: [new] becomes its head. *)
Lemma graph_first G H new g :
  graph G H NULL [] → G !! new = Some g → gn_next g = NULL → may (gn_text g) →
  graph G ({[new]} ∪ H) new [(new, gn_text g)].
Proof.
  intros [Hw Ht Hy Hu He Hn] Hg Hnx Hmay. apply graph_head.
  split; [|apply NoDup_singleton| |by intros e ?%Hu%not_elem_of_nil|done|done].
  - split; [done|]. exists g. by rewrite Hnx.
  - intros e. simpl. rewrite list_elem_of_singleton. by intros ->.
Qed.

(** [new] goes after the last node [q]. *)
Lemma graph_append G H h l q s g new gnew :
  graph G H h (l ++ [(q, s)]) → G !! q = Some g → G !! new = Some gnew → gn_next gnew = NULL →
  new ∉ (l ++ [(q, s)]).*1 → gn_text gnew ∉ (l ++ [(q, s)]).*2 → may (gn_text gnew) →
  graph (<[q := gn_link new g]> G) H h ((l ++ [(q, s)]) ++ [(new, gn_text gnew)]).
Proof.
  intros [Hw Ht Hy Hu He Hn] Hq Hnew Hnx Hfresh Htext Hmay.
  assert (walk G new [(new, gn_text gnew)]) as Hwn by (split; [done|]; exists gnew; by rewrite Hnx).
  assert (q ∉ [(new, gn_text gnew)].*1) as Hqn.
  { simpl. rewrite list_elem_of_singleton. intros ->. apply Hfresh. rewrite fmap_app. set_solver. }
  pose proof (walk_app _ _ _ _ _ _ Hw) as (_ & g' & Hg' & _ & Hend). rewrite Hq in Hg'. injection Hg' as <-.
  simpl in Hend. split.
  - rewrite <- app_assoc. simpl. by eapply walk_link.
  - rewrite fmap_app. apply NoDup_app. split; [done|]. split; [|apply NoDup_singleton].
    intros x Hx. simpl. rewrite list_elem_of_singleton. by intros ->.
  - intros e. rewrite fmap_app, elem_of_app. intros [He'|He']; [auto|].
    simpl in He'. apply list_elem_of_singleton in He' as ->. done.
  - intros e Hm. rewrite fmap_app, elem_of_app. auto.
  - eapply heads_link; [done..| |done]. intros l2 e Hl2 _. rewrite Hend in Hl2.
    rewrite (walk_det G NULL l2 [] Hl2 eq_refl Hn). by intros ?%not_elem_of_nil.
  - rewrite lookup_insert_ne; [done|]. congruence.
Qed.

(** The first node leaves the list. *)
Lemma graph_tail G H x s l g :
  graph G H x ((x, s) :: l) → G !! x = Some g → ¬ must s → graph G ({[gn_next g]} ∪ H) (gn_next g) l.
Proof.
  intros [(_ & g' & Hg' & _ & Hw) Ht Hy Hu He Hn] Hg Hs. rewrite Hg in Hg'. injection Hg' as <-.
  apply graph_head. split; [done|by apply NoDup_cons in Ht as [_ ?]| | |done|done].
  - intros e Hin. apply Hy. by right.
  - intros e Hm. pose proof (Hu e Hm) as Hin. apply elem_of_cons in Hin as [->|Hin]; [done|done].
Qed.

(** The node [x] after [q] leaves the list. *)
Lemma graph_unlink G H h l1 q s x t l2 gq gx :
  graph G H h (l1 ++ (q, s) :: (x, t) :: l2) → G !! q = Some gq → G !! x = Some gx → ¬ must t →
  graph (<[q := gn_link (gn_next gx) gq]> G) H h (l1 ++ (q, s) :: l2).
Proof.
  intros [Hw Ht Hy Hu He Hn] Hq Hx Hmt. pose proof (walk_NoDup _ _ _ Hn Hw) as Hnd.
  pose proof (walk_app _ _ _ _ _ _ Hw) as (_ & g & Hg & _ & Hwx). rewrite Hq in Hg. injection Hg as <-.
  pose proof Hwx as (_ & g' & Hg' & _ & Hw2). rewrite Hx in Hg'. injection Hg' as <-.
  assert (q ∉ l2.*1) as Hq2.
  { rewrite fmap_app in Hnd. apply NoDup_app in Hnd as (_ & _ & Hnd). simpl in Hnd.
    apply NoDup_cons in Hnd as [Hnot _]. set_solver. }
  split.
  - by eapply walk_link.
  - rewrite fmap_app in Ht |- *. apply NoDup_app in Ht as (H1 & H2 & H3). simpl in H2, H3 |- *.
    apply NoDup_cons in H3 as [H4 H5]. apply NoDup_cons in H5 as [H6 H7].
    apply NoDup_app. split; [done|]. split; [set_solver|]. constructor; [set_solver|done].
  - intros e Hin. apply Hy. rewrite fmap_app in Hin |- *. set_solver.
  - intros e Hm. pose proof (Hu e Hm) as Hin. rewrite fmap_app in Hin |- *. simpl in Hin |- *. set_solver.
  - eapply heads_link; [done..| |done]. intros k e Hk Hm.
    rewrite (walk_det _ _ _ _ Hk Hwx Hn). simpl. rewrite elem_of_cons. intros [->|Hin]; done.
  - rewrite lookup_insert_ne; [done|]. congruence.
Qed.
End graphs.

(** ** The graph in the heap *)

(** The heap has the nodes of the graph and their paths. *)
Definition graph_in (m : gmap ptr obj) (G : gmap ptr gnode) : Prop :=
  ∀ p g, G !! p = Some g → m !! p = Some (ONode (gn_node g)) ∧
    ∃ b, m !! gn_path g = Some (OBuf b) ∧ c_str b = Some (gn_text g) ∧ length (gn_text g) < PATH_MAX.

Lemma walk_chain w G p l :
  wf w → graph_in (mem w) G → walk G p l →
  chain (mem w) p l ∧ Forall (λ s, length s < PATH_MAX) l.*2.
Proof.
  intros Hwf Hin. revert p. induction l as [|[x s] l IH]; intros p; simpl; [done|].
  intros (-> & g & Hg & <- & Hl). destruct (Hin x g Hg) as (Hx & b & Hb & Hs & Hlen).
  destruct (IH _ Hl) as [Hc Hf]. split; [|by constructor]. split; [done|].
  split; [by eapply wf_heap_not_null|]. exists (gn_node g), b. split; [done|].
  split; [by eapply (wf_heap_not_null _ (gn_path g))|]. done.
Qed.

Lemma chain_walk m p l :
  chain m p l → Forall (λ s, length s < PATH_MAX) l.*2 →
  ∃ G, graph_in m G ∧ walk G p l ∧ dom G ⊆ list_to_set l.*1.
Proof.
  revert p. induction l as [|[x s] l IH]; intros p Hc Hlen.
  { exists ∅. split; [intros ?? H; by rewrite lookup_empty in H|]. simpl in Hc. set_solver. }
  pose proof (chain_NoDup _ _ _ Hc) as Hnd. apply NoDup_cons in Hnd as [Hx _].
  destruct Hc as (-> & Hxn & n & b & Hn & Hnp & Hb & Hs & Hl). apply Forall_cons in Hlen as [Hls Hlen].
  destruct (IH _ Hl Hlen) as (G & Hin & Hw & Hd). exists (<[x := mk_gnode (n_path n) s (n_next n)]> G). split.
  - intros q g. rewrite lookup_insert_Some. intros [[<- <-]|[_ Hq]]; [|by apply Hin].
    split; [by destruct n|]. by exists b.
  - simpl. split; [|set_solver]. split; [done|]. eexists. rewrite lookup_insert_eq. split; [done|].
    split; [done|]. by apply walk_insert_ne.
Qed.

(** A processor that finds the lock held waits. *)
Lemma spin_lock_waits w : rf_lock (rf w) = true → spin_lock w = Crash Deadlock.
Proof. intros Hl. unfold spin_lock. kstep. by rewrite Hl. Qed.

Lemma graph_in_size m G : graph_in m G → size G ≤ size m.
Proof.
  intros Hin. rewrite <- !size_dom. apply subseteq_size. intros p [g Hg]%elem_of_dom.
  apply elem_of_dom. destruct (Hin p g Hg) as [Hp _]. eauto.
Qed.
