(* ===== verification/MonitorLogic.v ===== *)
(** * A separation logic for the threads

    Weakest preconditions for the threads of Concurrency, in the base logic of Iris.
    The heap is a ghost map: an object that a thread allocates is its own, the nodes
    that were ever linked belong to the lock, and the paths of these nodes, the
    digest and the array of probes are read only.  Each system call, and the test of
    a path by a probe, has a rule. *)

From stdpp Require Import finite gmultiset.
From iris.algebra Require Import auth numbers gmultiset.
From iris.proofmode Require Import proofmode.
From iris.base_logic.lib Require Import own ghost_map ghost_var.
From S2P Require Import Prelude CString Kernel Utils Blacklist Logger Kprobes Scth Monitor Security Concurrency.
From S2P Require Import NodeGraph.

#[export] Program Instance probe_id_finite : Finite probe_id := {|
  enum := [file_open; file_delete; file_create; file_mkdir; file_rename;
           file_rmdir; file_link; file_symlink; file_write; file_lseek] |}.
Next Obligation. by compute_done. Qed.
Next Obligation. intros []; by compute_done. Qed.

(** ** Ghost state *)

Class monitorG (Σ : gFunctors) := MonitorG {
  monitorG_heap :: ghost_mapG Σ ptr obj;
  monitorG_heads :: ghost_mapG Σ ptr unit;
  monitorG_list :: ghost_varG Σ (ptr * Z);
  monitorG_credits :: inG Σ (authR natUR);
  monitorG_calls :: inG Σ (authR (gmultisetUR probe_id));
}.

Definition monitorΣ : gFunctors :=
  #[ghost_mapΣ ptr obj; ghost_mapΣ ptr unit; ghost_varΣ (ptr * Z); GFunctor (authR natUR);
    GFunctor (authR (gmultisetUR probe_id))].

#[export] Instance subG_monitorΣ {Σ} : subG monitorΣ Σ → monitorG Σ.
Proof. solve_inG. Qed.

(** The names of the heap, of the nodes that were ever first, of the head and the
    counter, of the additions that are still to come, of the queued log items, and of
    the probed calls that are still to come. *)
Record names := mk_names {
  γ_heap : gname; γ_heads : gname; γ_list : gname; γ_credits : gname; γ_queue : gname; γ_calls : gname }.

(** What the threads agree on: the stored digest, the states they switch to, the
    paths that may and that must be in the list, whether the counter is to be kept
    positive, the log items that were queued before, and how many calls of each probed
    function there are. *)
Record terms := mk_terms {
  tm_digest : buf;
  tm_state : Z → Prop;
  tm_may : buf → Prop;
  tm_must : buf → Prop;
  tm_counted : Prop;
  tm_queue : list ptr;
  tm_calls : probe_id → nat;
}.

(** The monitor blocks in every state that it can be in. *)
Definition tm_blocking (T : terms) : Prop := ∀ st, tm_state T st → st = RF_ON ∨ st = RF_REC_ON.

Record terms_ok (T : terms) : Prop := {
  to_digest : length (tm_digest T) = 32;
  to_state st : tm_state T st → (0 ≤ st ≤ 3)%Z;
  to_counted : tm_counted T → ∃ e, tm_must T e;
}.

Section logic.
Context `{!monitorG Σ} (γ : names) (T : terms) (HT : terms_ok T).
Implicit Types (p q h : ptr) (o : obj) (G : gmap ptr gnode) (H : gset ptr) (l : list (ptr * buf)) (z : Z).

(** An object of a thread, and an object that nothing changes. *)
#[local] Notation "p ↦ o" := (p ↪[γ_heap γ] o)%I (at level 20).
#[local] Notation "p ↦□ o" := (p ↪[γ_heap γ]□ o)%I (at level 20).
#[local] Notation "p ↦{ dq } o" := (p ↪[γ_heap γ]{dq} o)%I (at level 20).
#[local] Abbreviation graph := (graph (tm_may T) (tm_must T)).

(** [p] was the head once. *)
Definition was_head p : iProp Σ := p ↪[γ_heads γ]□ tt.

(** The path of a node, and the node. *)
Definition node_path (g : gnode) : iProp Σ :=
  ∃ b, gn_path g ↦□ OBuf b ∗ ⌜c_str b = Some (gn_text g) ∧ length (gn_text g) < PATH_MAX⌝.
Definition node p (g : gnode) : iProp Σ := p ↦ ONode (gn_node g) ∗ node_path g.

Definition nodes G H : iProp Σ :=
  ghost_map_auth (γ_heads γ) 1 (gset_to_gmap tt H) ∗ ([∗ set] p ∈ H, was_head p) ∗ [∗ map] p ↦ g ∈ G, node p g.

(** Half of the head and of the counter, and the right to one addition. *)
Definition held h z : iProp Σ := ghost_var (γ_list γ) (1/2) (h, z).
Definition credit : iProp Σ := own (γ_credits γ) (◯ 1).

(** What the lock protects. *)
Definition locked : iProp Σ :=
  ∃ h z G H l, held h z ∗ nodes G H ∗ ⌜graph G H h l ∧ (tm_counted T → length l ≤ z)%Z⌝.

(** The counter does not overflow. *)
Definition counter z : iProp Σ :=
  ∃ n : nat, own (γ_credits γ) (● n) ∗ ⌜tm_counted T → (1 ≤ z ∧ z + n < 2 ^ 31)%Z⌝.

(** The right to one call of the function that [pr] is placed on: the instances in use
    and those that calls can still take are no more than the calls. *)
Definition ticket (pr : probe_id) : iProp Σ := own (γ_calls γ) (◯ {[+ pr +]}).
Definition calls (n : probe_id → nat) : iProp Σ :=
  ∃ X : gmultiset probe_id, own (γ_calls γ) (● X) ∗ ⌜∀ pr, n pr + multiplicity pr X ≤ tm_calls T pr⌝.

(** A log item, which nothing changes as long as it is in the queue. *)
Definition item p : iProp Σ :=
  ∃ lp d b s, p ↦□ OWork (mk_packed_work p lp) ∗ lp ↦□ OLog d ∗ l_exe_path d ↦□ OBuf b ∗ ⌜c_str b = Some s⌝.

(** The log item [p] was queued; the queue only grows. *)
Definition was_queued p : iProp Σ := p ↪[γ_queue γ]□ tt.
Definition queue (q : list ptr) : iProp Σ :=
  ∃ q1 : list ptr, ghost_map_auth (γ_queue γ) 1 (gset_to_gmap tt (list_to_set q1 : gset ptr)) ∗
    ([∗ list] p ∈ q1, was_queued p ∗ item p) ∗ ⌜q = tm_queue T ++ q1 ∧ NoDup q1⌝.

(** A probe is registered, and enabled if the monitor blocks all the time. *)
Definition probe_ok (pr : probe_id) (k : kretprobe) : Prop :=
  probe_set true pr k ∧ (tm_blocking T → kp_enabled k = true).

(** The variables of the module. *)
Definition globals_ok (g : globals) : iProp Σ :=
  ⌜tm_state T (rf_state (g_rf g)) ∧ ∀ pr : probe_id, probe_ok pr (g_krp g pr)⌝ ∗
  held (rf_blacklist_head (g_rf g)) (rf_blacklist_size (g_rf g)) ∗
  ((counter (rf_blacklist_size (g_rf g)) ∗ calls (g_active g)) ∗ queue (g_queue g)) ∗
  was_head (rf_blacklist_head (g_rf g)) ∗
  rf_password (g_rf g) ↦□ OBuf (hex (tm_digest T) ++ [NUL]) ∗
  g_kprobe_array g ↦□ OProbes kprobe_list ∗
  (if rf_lock (g_rf g) then True else locked)%I.

Definition world_ok (w : world) : iProp Σ :=
  ⌜wf w⌝ ∗ ghost_map_auth (γ_heap γ) 1 (mem w) ∗ globals_ok (w_glob w).

(** ** Weakest preconditions *)

(** A part leaves the lock and whether its thread holds it as they are, or takes the
    lock, or releases it. *)
Definition lock_moves (lk hl lk' hl' : bool) : Prop :=
  (lk' = lk ∧ hl' = hl) ∨ (lk = hl ∧ lk' = negb lk ∧ hl' = negb hl).

(** The thread [t], which holds the lock or not, can run its next part in any world
    that is [world_ok], and leaves such a world; or it waits for a lock that is held,
    by another thread.  It never faults. *)
Fixpoint twp {A} (hl : bool) (t : thread A) (Φ : bool → A → iProp Σ) : iProp Σ :=
  match t with
  | Done a => |==> Φ hl a
  | Atomic m k => ∀ w, world_ok w ==∗
      match m w with
      | Ret b w' => world_ok w' ∗ ∃ hl', ⌜lock_moves (rf_lock (rf w)) hl (rf_lock (rf w')) hl'⌝ ∗ twp hl' (k b) Φ
      | Crash f => ⌜f = Deadlock ∧ hl = false ∧ rf_lock (rf w) = true⌝
      end
  end.

Lemma twp_bupd {A} hl (t : thread A) Φ : (|==> twp hl t Φ) ⊢ twp hl t Φ.
Proof.
  destruct t as [a|B m k]; simpl; iIntros "H"; [by iMod "H"|].
  iIntros (w) "Hw". iMod "H". by iApply "H".
Qed.

Lemma twp_ret {A} hl (a : A) Φ : Φ hl a ⊢ twp hl (mret a) Φ.
Proof. iIntros "H". by iModIntro. Qed.

Lemma twp_bind {A B} hl (t : thread A) (f : A → thread B) Φ :
  twp hl t (λ hl' a, twp hl' (f a) Φ) ⊢ twp hl (t ≫= f) Φ.
Proof.
  revert hl. induction t as [a|C m k IH]; intros hl; [apply twp_bupd|].
  simpl. iIntros "H" (w) "Hw". iMod ("H" with "Hw") as "H". iModIntro.
  destruct (m w) as [b w'|e]; [|done]. iDestruct "H" as "($ & %hl' & Hl & H)". iExists hl'. iFrame "Hl".
  by iApply IH.
Qed.

Lemma twp_mono {A} hl (t : thread A) Φ Ψ :
  (∀ hl a, Φ hl a -∗ Ψ hl a) -∗ twp hl t Φ -∗ twp hl t Ψ.
Proof.
  iIntros "HΨ H". iInduction t as [a|C m k] "IH" forall (hl); simpl; [iMod "H"; by iApply "HΨ"|].
  iIntros (w) "Hw". iMod ("H" with "Hw") as "H". iModIntro. destruct (m w) as [b w'|e]; [|done].
  iDestruct "H" as "($ & %hl' & Hl & H)". iExists hl'. iFrame "Hl". by iApply ("IH" with "HΨ").
Qed.

(** A part that does not take or release the lock, and does not wait. *)
Lemma twp_part {A} {hl} (m : K A) Φ :
  (∀ w, world_ok w ==∗
     match m w with
     | Ret b w' => world_ok w' ∗ ⌜rf_lock (rf w') = rf_lock (rf w)⌝ ∗ Φ hl b
     | Crash f => False
     end) ⊢
  twp hl (part m) Φ.
Proof.
  simpl. iIntros "H" (w) "Hw". iMod ("H" with "Hw") as "H". iModIntro.
  destruct (m w) as [b w'|f]; [|done]. iDestruct "H" as "($ & %Hl & H)".
  iExists hl. iSplit; [by iPureIntro; left|]. by iModIntro.
Qed.

(** ** Rules: memory *)

Lemma heap_lookup w p dq o :
  world_ok w -∗ p ↪[γ_heap γ]{dq} o -∗ ⌜mem w !! p = Some o ∧ p ≠ NULL⌝.
Proof.
  iIntros "(%Hwf & Hm & _) Hp". iDestruct (ghost_map_lookup with "Hm Hp") as %Hp.
  iPureIntro. split; [done|]. by eapply wf_heap_not_null.
Qed.

(** A part that changes nothing, given what it reads. *)
Lemma twp_read {A} {hl} (m : K A) (P : iProp Σ) (Q : A → Prop) Φ :
  (∀ w, world_ok w -∗ P -∗ ⌜∃ a, m w = Ret a w ∧ Q a⌝) →
  P -∗ (∀ a, ⌜Q a⌝ -∗ P -∗ Φ hl a) -∗ twp hl (part m) Φ.
Proof.
  intros Hm. iIntros "HP HΦ". iApply twp_part. iIntros (w) "Hw".
  iDestruct (Hm with "Hw HP") as %(a & Hr & HQ). rw Hr. iModIntro. iFrame "Hw".
  iSplit; [done|]. iApply ("HΦ" with "[//] HP").
Qed.

Lemma heap_store w p o o' :
  world_ok w -∗ p ↦ o ==∗ world_ok (w_store p o' w) ∗ p ↦ o'.
Proof.
  iIntros "(%Hwf & Hm & Hg) Hp". iDestruct (ghost_map_lookup with "Hm Hp") as %Hp.
  iMod (ghost_map_update o' with "Hm Hp") as "[Hm Hp]". iModIntro. iFrame. iPureIntro.
  destruct Hwf as [Hb Hwf]. split; [done|]. intros q o1. cbn. rw lookup_insert_Some.
  intros [[<- _]|[_ Hq]]; by eapply Hwf.
Qed.

Lemma heap_alloc w o : world_ok w ==∗ world_ok (w_alloc o w) ∗ brk w ↦ o ∗ ⌜brk w ≠ NULL⌝.
Proof.
  iIntros "(%Hwf & Hm & Hg)". pose proof (wf_heap_fresh _ (brk w) Hwf (N.le_refl _)) as Hn.
  iMod (ghost_map_insert (brk w) o with "Hm") as "[Hm Hp]"; [done|]. iModIntro. iFrame. iPureIntro.
  split; [by apply (extends_wf w), Hwf; apply extends_alloc|]. destruct Hwf as [Hb _]. unfold NULL. lia.
Qed.

Lemma heap_free w p o : world_ok w -∗ p ↦ o ==∗ world_ok (w_free p w).
Proof.
  iIntros "(%Hwf & Hm & Hg) Hp". iMod (ghost_map_delete with "Hm Hp") as "Hm". iModIntro. iFrame.
  iPureIntro. destruct Hwf as [Hb Hwf]. split; [done|]. intros q o1. cbn. rw lookup_delete_Some.
  intros [_ Hq]. by eapply Hwf.
Qed.

(** Objects that a part adds and that nothing changes later. *)
Lemma heap_extend w w' :
  extends w w' → world_ok w ==∗ world_ok w' ∗ [∗ map] p ↦ o ∈ (mem w' ∖ mem w), p ↦□ o.
Proof.
  iIntros (He) "(%Hwf & Hm & Hg)".
  iMod (ghost_map_insert_persist_big (mem w' ∖ mem w) with "Hm") as "[Hm Hnew]".
  { by apply map_disjoint_difference_l1. }
  iModIntro. iFrame "Hnew". unfold world_ok. rw (extends_glob _ _ He). iFrame "Hg".
  iSplit; [iPureIntro; by eapply extends_wf|].
  rw map_union_comm; [|by apply map_disjoint_difference_l1].
  rw map_difference_union; [done|apply He].
Qed.

(** *** Parts on the objects of a thread *)

Lemma twp_kmalloc {hl} `{AL : Alloc} mk Φ :
  (∀ n, kmalloc_ok n = true) →
  (∀ p n, ⌜p ≠ NULL⌝ -∗ p ↦ mk n -∗ Φ hl p) -∗ twp hl (part (kmalloc_obj mk)) Φ.
Proof.
  iIntros (Hk) "HΦ". iApply twp_part. iIntros (w) "Hw". rw run_kmalloc_ok; [|apply Hk].
  iMod (heap_alloc with "Hw") as "($ & Hp & %Hn)". iModIntro. iSplit; [done|]. iApply ("HΦ" with "[//] Hp").
Qed.

Lemma twp_kfree {hl} p o Φ : p ↦ o -∗ Φ hl tt -∗ twp hl (part (kfree p)) Φ.
Proof.
  iIntros "Hp HΦ". iApply twp_part. iIntros (w) "Hw". iDestruct (heap_lookup with "Hw Hp") as %[Hp Hn].
  rw (run_kfree p o w Hp Hn). iMod (heap_free with "Hw Hp") as "$". by iFrame "HΦ".
Qed.

Lemma twp_copy_from_user {hl} p b u n Φ :
  n = length b → p ↦ OBuf b -∗
  (p ↦ OBuf (take n u ++ replicate (n - length u) NUL) -∗ Φ hl (Z.of_nat (n - length u))) -∗
  twp hl (part (copy_from_user p u n)) Φ.
Proof.
  iIntros (Hb) "Hp HΦ". iApply twp_part. iIntros (w) "Hw". iDestruct (heap_lookup with "Hw Hp") as %[Hp Hn].
  rw (run_copy_from_user p u n b w Hp Hn Hb). iMod (heap_store with "Hw Hp") as "[$ Hp]".
  iModIntro. iSplit; [done|]. by iApply "HΦ".
Qed.

Lemma twp_load_node {hl} p dq n Φ :
  p ↪[γ_heap γ]{dq} ONode n -∗ (p ↪[γ_heap γ]{dq} ONode n -∗ Φ hl n) -∗ twp hl (part (load_node p)) Φ.
Proof.
  iIntros "Hp HΦ". iApply (twp_read _ _ (λ a, a = n) with "Hp").
  - iIntros (w) "Hw Hp". iDestruct (heap_lookup with "Hw Hp") as %[Hp Hn]. iPureIntro.
    exists n. split; [by apply run_load_node|done].
  - by iIntros (a ->).
Qed.

Lemma twp_store_node {hl} p n n' Φ :
  p ↦ ONode n -∗ (p ↦ ONode n' -∗ Φ hl tt) -∗ twp hl (part (store_node p n')) Φ.
Proof.
  iIntros "Hp HΦ". iApply twp_part. iIntros (w) "Hw". iDestruct (heap_lookup with "Hw Hp") as %[Hp Hn].
  rw (run_store_node p n n' w Hp Hn). iMod (heap_store with "Hw Hp") as "[$ Hp]".
  iModIntro. iSplit; [done|]. by iApply "HΦ".
Qed.

Lemma twp_k_strcpy {hl} p q b1 b2 t Φ :
  c_str b2 = Some t → length t < length b1 →
  p ↦ OBuf b1 -∗ q ↦ OBuf b2 -∗
  (p ↦ OBuf (t ++ NUL :: drop (S (length t)) b1) -∗ q ↦ OBuf b2 -∗ Φ hl tt) -∗
  twp hl (part (k_strcpy p q)) Φ.
Proof.
  iIntros (Ht Hl) "Hp Hq HΦ". iApply twp_part. iIntros (w) "Hw".
  iDestruct (heap_lookup with "Hw Hp") as %[Hp Hpn]. iDestruct (heap_lookup with "Hw Hq") as %[Hq Hqn].
  rw (run_k_strcpy p q b1 b2 t w); [|done..]. iMod (heap_store with "Hw Hp") as "[$ Hp]".
  iModIntro. iSplit; [done|]. iApply ("HΦ" with "Hp Hq").
Qed.

Lemma twp_k_print {hl} p b t Φ :
  c_str b = Some t → p ↦ OBuf b -∗ (p ↦ OBuf b -∗ Φ hl tt) -∗ twp hl (part (k_print p)) Φ.
Proof.
  iIntros (Ht) "Hp HΦ". iApply (twp_read _ _ (λ _, True) with "Hp").
  - iIntros (w) "Hw Hp". iDestruct (heap_lookup with "Hw Hp") as %[Hp Hn]. iPureIntro.
    exists tt. split; [by eapply run_k_print|done].
  - by iIntros ([] _).
Qed.

Lemma twp_of_opt {A} {hl} f (x : A) Φ : Φ hl x -∗ twp hl (part (of_opt f (Some x))) Φ.
Proof. iIntros "HΦ". iApply twp_part. iIntros (w) "Hw". iModIntro. by iFrame. Qed.

(** *** Parts on the variables of the module *)

(** Half of the head is in the hands of the holder of the lock only. *)
Lemma holder_locked g h z :
  globals_ok g -∗ held h z -∗
  ⌜rf_lock (g_rf g) = true ∧ rf_blacklist_head (g_rf g) = h ∧ rf_blacklist_size (g_rf g) = z⌝.
Proof.
  iIntros "(_ & Hs & _ & _ & _ & _ & Hl) Hh". iDestruct (ghost_var_agree with "Hs Hh") as %[= He Hz].
  destruct (rf_lock (g_rf g)); [done|]. iDestruct "Hl" as (h' z' G H l) "(Hh' & _)".
  iCombine "Hs Hh" as "H1". iDestruct (ghost_var_valid_2 with "H1 Hh'") as %[Hv _]. done.
Qed.

Lemma twp_get_rf {hl} Φ :
  (∀ r, ⌜tm_state T (rf_state r) ∧ (tm_counted T → (1 ≤ rf_blacklist_size r)%Z)⌝ -∗
     was_head (rf_blacklist_head r) -∗ Φ hl r) -∗
  twp hl (part get_rf) Φ.
Proof.
  iIntros "HΦ". iApply twp_part. iIntros (w) "Hw". change (get_rf w) with (Ret (rf w) w).
  iDestruct "Hw" as "(Hwf & Hm & (%Hp & Hs & Hc & #Hh & Hrest))".
  iAssert (⌜tm_counted T → (1 ≤ rf_blacklist_size (rf w))%Z⌝)%I as %Hsz.
  { iDestruct "Hc" as "[[(%n & _ & %Hc) _] _]". iPureIntro. intros HT'. apply Hc in HT'. lia. }
  iModIntro. iSplitR "HΦ"; [by iFrame "∗ #"|]. iSplit; [done|]. iApply ("HΦ" with "[] Hh"). iPureIntro.
  split; [apply Hp|done].
Qed.

Lemma twp_get_rf_locked {hl} h z Φ :
  held h z -∗ (∀ r, ⌜rf_blacklist_head r = h⌝ -∗ held h z -∗ Φ hl r) -∗ twp hl (part get_rf) Φ.
Proof.
  iIntros "Hh HΦ". iApply twp_part. iIntros (w) "(Hwf & Hm & Hg)".
  change (get_rf w) with (Ret (rf w) w). iDestruct (holder_locked with "Hg Hh") as %(_ & He & _).
  iModIntro. iFrame "Hwf Hm Hg". iSplit; [done|]. by iApply ("HΦ" with "[//]").
Qed.

Lemma twp_set_state {hl} st Φ : tm_state T st → Φ hl tt -∗ twp hl (part (modify_rf (rf_with_state st))) Φ.
Proof.
  iIntros (Hst) "HΦ". iApply twp_part. iIntros (w) "(Hwf & Hm & ([%Hs %Hkp] & Hrest))". iModIntro.
  iFrame "HΦ". unfold world_ok, globals_ok. simpl. iFrame. done.
Qed.

(** A new head, and the counter one more or one less. *)
Lemma twp_set_head {hl} h z p Φ :
  held h z -∗ was_head p -∗ (held p z -∗ Φ hl tt) -∗ twp hl (part (modify_rf (rf_with_head p))) Φ.
Proof.
  iIntros "Hh #Hp HΦ". iApply twp_part. iIntros (w) "(Hwf & Hm & Hg)".
  iDestruct (holder_locked with "Hg Hh") as %(Hl & He & Hz).
  iDestruct "Hg" as "(%Hst & Hs & Hc & _ & #Hd & #Ha & _)".
  iMod (ghost_var_update_halves (p, z) with "Hs Hh") as "[Hs Hh]". iModIntro.
  iSplitR "HΦ Hh"; [|iSplit; [done|]; by iApply "HΦ"]. unfold world_ok, globals_ok. simpl. rw Hl Hz. iFrame "∗ #". done.
Qed.

Lemma twp_set_size {hl} h z f P Φ :
  held h z -∗ (counter z ==∗ counter (f z) ∗ ⌜P⌝) -∗ (⌜P⌝ -∗ held h (f z) -∗ Φ hl tt) -∗
  twp hl (part (modify_rf (λ r, rf_with_size (f (rf_blacklist_size r)) r))) Φ.
Proof.
  iIntros "Hh Hf HΦ". iApply twp_part. iIntros (w) "(Hwf & Hm & Hg)".
  iDestruct (holder_locked with "Hg Hh") as %(Hl & He & Hz).
  iDestruct "Hg" as "(%Hst & Hs & [[Hc Hcl] Hq] & #Hp & #Hd & #Ha & _)". rw Hz.
  iMod ("Hf" with "Hc") as "[Hc %HP]". iMod (ghost_var_update_halves (h, f z) with "Hs Hh") as "[Hs Hh]". iModIntro.
  iSplitR "HΦ Hh"; [|iSplit; [done|]; by iApply ("HΦ" with "[//] Hh")]. unfold world_ok, globals_ok. simpl. rw Hl Hz -He. iFrame "∗ #". done.
Qed.

Lemma twp_spin_lock Φ : (locked -∗ Φ true tt) -∗ twp false (part spin_lock) Φ.
Proof.
  iIntros "HΦ" (w) "(Hwf & Hm & Hg)".
  destruct (rf_lock (rf w)) eqn:Hl; [by rw spin_lock_waits|].
  rw run_spin_lock; [|done]. iDestruct "Hg" as "(%Hst & Hs & Hc & #Hh & #Hd & #Ha & HL)". rw Hl.
  iModIntro. iSplitR "HΦ HL"; [|iExists true; iSplit; [by iPureIntro; right|by iApply "HΦ"]].
  unfold world_ok, globals_ok. simpl. iFrame "∗ #". done.
Qed.

Lemma twp_spin_unlock h z G H l Φ :
  graph G H h l → (tm_counted T → length l ≤ z)%Z →
  held h z -∗ nodes G H -∗ Φ false tt -∗ twp true (part spin_unlock) Φ.
Proof.
  iIntros (Hgr Hlen) "Hh HG HΦ". iIntros (w) "(Hwf & Hm & Hg)".
  iDestruct (holder_locked with "Hg Hh") as %(Hl & He & Hz).
  rw run_spin_unlock; [|done]. iDestruct "Hg" as "(%Hst & Hs & Hc & #Hp & #Hd & #Ha & _)". iModIntro.
  iSplitR "HΦ"; [|iExists false; iSplit; [by iPureIntro; rw Hl; right|by iModIntro]].
  unfold world_ok, globals_ok. simpl. iFrame "Hwf Hm Hs Hc Hp Hd Ha". iSplit; [done|].
  iExists h, z, G, H, l. iFrame. done.
Qed.

(** The counter one more, at the cost of a credit, or one less. *)
Lemma twp_inc_size {hl} h z Φ :
  held h z -∗ credit -∗
  (∀ z', ⌜tm_counted T → z' = (z + 1)%Z⌝ -∗ held h z' -∗ Φ hl tt) -∗
  twp hl (part (modify_rf (λ r, rf_with_size (int32 (rf_blacklist_size r + 1)) r))) Φ.
Proof.
  iIntros "Hh Hcr HΦ".
  iApply (twp_set_size _ _ (λ z, int32 (z + 1)) (tm_counted T → int32 (z + 1) = z + 1)%Z with "Hh [Hcr]").
  - iIntros "(%n & Hn & %Hc)". iCombine "Hn Hcr" gives %[Hle%nat_included _]%auth_both_valid_discrete.
    iMod (own_update_2 with "Hn Hcr") as "Hn".
    { apply (auth_update_dealloc n 1 (n - 1)), nat_local_update. change (n + 0 = n - 1 + 1). lia. }
    assert (tm_counted T → int32 (z + 1) = z + 1)%Z as Hz.
    { intros HC. apply Hc in HC. apply int32_small. lia. }
    iModIntro. iSplit; [|done]. iExists (n - 1). iFrame. iPureIntro. intros HC. rw Hz //. apply Hc in HC. lia.
  - iIntros (Hz) "Hh". by iApply ("HΦ" with "[] Hh").
Qed.

Lemma twp_dec_size {hl} h z Φ :
  (tm_counted T → 2 ≤ z)%Z →
  held h z -∗ (∀ z', ⌜tm_counted T → z' = (z - 1)%Z⌝ -∗ held h z' -∗ Φ hl tt) -∗
  twp hl (part (modify_rf (λ r, rf_with_size (int32 (rf_blacklist_size r - 1)) r))) Φ.
Proof.
  iIntros (Hz) "Hh HΦ".
  iApply (twp_set_size _ _ (λ z, int32 (z - 1)) (tm_counted T → int32 (z - 1) = z - 1)%Z with "Hh").
  - iIntros "(%n & Hn & %Hc)".
    assert (tm_counted T → int32 (z - 1) = z - 1)%Z as Hz1.
    { intros HC. pose proof (Hc HC). apply int32_small. lia. }
    iModIntro. iSplit; [|done]. iExists n. iFrame. iPureIntro. intros HC.
    rw Hz1 //. pose proof (Hc HC). pose proof (Hz HC). lia.
  - iIntros (Hz1) "Hh". by iApply ("HΦ" with "[] Hh").
Qed.

(** *** Parts on the nodes *)

Lemma nodes_path G H p g : G !! p = Some g → nodes G H -∗ node_path g.
Proof. iIntros (Hg) "(_ & _ & HG)". iDestruct (big_sepM_lookup with "HG") as "[_ $]"; done. Qed.

Lemma twp_load_linked {hl} G H p g Φ :
  G !! p = Some g → nodes G H -∗ (nodes G H -∗ Φ hl (gn_node g)) -∗ twp hl (part (load_node p)) Φ.
Proof.
  iIntros (Hg) "(HH & #Hs & HG) HΦ". iDestruct (big_sepM_lookup_acc with "HG") as "[[Hp Hpath] Hrest]"; [done|].
  iApply (twp_load_node with "Hp"). iIntros "Hp". iApply "HΦ". iFrame "HH Hs". iApply "Hrest". iFrame.
Qed.

Lemma twp_store_linked {hl} G H p g nx Φ :
  G !! p = Some g → nodes G H -∗ (nodes (<[p := gn_link nx g]> G) H -∗ Φ hl tt) -∗
  twp hl (part (store_node p (mk_node (gn_path g) nx))) Φ.
Proof.
  iIntros (Hg) "(HH & #Hs & HG) HΦ". iDestruct (big_sepM_insert_acc with "HG") as "[[Hp Hpath] Hrest]"; [done|].
  iApply (twp_store_node with "Hp"). iIntros "Hp". iApply "HΦ". iFrame "HH Hs". iApply "Hrest". iFrame.
Qed.

(** A node of the thread becomes one of the list's. *)
Lemma nodes_new G H p g :
  nodes G H -∗ p ↦ ONode (gn_node g) -∗ node_path g -∗ nodes (<[p := g]> G) H ∗ ⌜G !! p = None⌝.
Proof.
  iIntros "(HH & #Hs & HG) Hp Hpath". destruct (G !! p) as [g'|] eqn:Hg.
  - iDestruct (big_sepM_lookup with "HG") as "[Hp' _]"; [done|].
    iDestruct (ghost_map_elem_ne with "Hp Hp'") as %Hne. done.
  - iSplit; [|done]. iFrame "HH Hs". iApply big_sepM_insert; [done|]. iFrame.
Qed.

Lemma nodes_head G H p : nodes G H ==∗ nodes G ({[p]} ∪ H) ∗ was_head p.
Proof.
  iIntros "(HH & #Hheads & HG)". iFrame "HG". destruct (decide (p ∈ H)) as [Hp|Hp].
  - replace ({[p]} ∪ H) with H by set_solver. iFrame "HH Hheads". by iApply (big_sepS_elem_of with "Hheads").
  - iMod (ghost_map_insert_persist p tt with "HH") as "[HH #Hp]"; [by apply lookup_gset_to_gmap_None|].
    rw -gset_to_gmap_union_singleton. iFrame "HH Hp". iModIntro. iApply big_sepS_insert; [done|]. by iFrame "#".
Qed.

Lemma nodes_was_head G H p : nodes G H -∗ was_head p -∗ ⌜p ∈ H⌝.
Proof.
  iIntros "[HH _] Hp". iDestruct (ghost_map_lookup with "HH Hp") as %Hl. iPureIntro.
  by apply lookup_gset_to_gmap_Some in Hl as [? _].
Qed.
(** The loops have enough fuel: the nodes are objects of the heap. *)
Lemma nodes_in m G H : ghost_map_auth (γ_heap γ) 1 m -∗ nodes G H -∗ ⌜graph_in m G⌝.
Proof.
  iIntros "Hm (_ & _ & HG)". iIntros (p g Hg).
  iDestruct (big_sepM_lookup with "HG") as "[Hp (%b & Hb & %Hs)]"; [done|].
  iDestruct (ghost_map_lookup with "Hm Hp") as %Hp. iDestruct (ghost_map_lookup with "Hm Hb") as %Hb.
  iPureIntro. split; [done|]. by exists b.
Qed.

Lemma twp_loop_fuel {hl} G H Φ :
  nodes G H -∗ (∀ fuel, ⌜size G < fuel⌝ -∗ nodes G H -∗ Φ hl fuel) -∗ twp hl (part loop_fuel) Φ.
Proof.
  iIntros "HG HΦ". iApply (twp_read _ _ (λ fuel, size G < fuel) with "HG").
  - iIntros (w) "(_ & Hm & _) HG". iDestruct (nodes_in with "Hm HG") as %Hin. iPureIntro.
    exists (S (size (mem w))). split; [done|]. apply graph_in_size in Hin. lia.
  - iIntros (fuel Hf) "HG". by iApply ("HΦ" with "[//] HG").
Qed.

(** *** Parts on strings *)

Lemma twp_k_strcmp {hl} p q dq1 dq2 b1 b2 s1 s2 Φ :
  c_str b1 = Some s1 → c_str b2 = Some s2 →
  p ↦{dq1} OBuf b1 -∗ q ↦{dq2} OBuf b2 -∗
  (∀ c, ⌜c = 0%Z ↔ s1 = s2⌝ -∗ q ↦{dq2} OBuf b2 -∗ Φ hl c) -∗ twp hl (part (k_strcmp p q)) Φ.
Proof.
  iIntros (H1 H2) "Hp Hq HΦ".
  iApply (twp_read _ (p ↦{dq1} OBuf b1 ∗ q ↦{dq2} OBuf b2) (λ c, c = 0%Z ↔ s1 = s2) with "[$Hp $Hq]").
  - iIntros (w) "Hw [Hp Hq]". iDestruct (heap_lookup with "Hw Hp") as %[Hp Hpn].
    iDestruct (heap_lookup with "Hw Hq") as %[Hq Hqn]. iPureIntro. by eapply run_k_strcmp.
  - iIntros (c Hc) "[_ Hq]". by iApply ("HΦ" with "[//]").
Qed.

Lemma twp_k_strlen {hl} p dq b t Φ :
  c_str b = Some t → p ↦{dq} OBuf b -∗ Φ hl (length t) -∗ twp hl (part (k_strlen p)) Φ.
Proof.
  iIntros (Ht) "Hp HΦ". iApply (twp_read _ _ (λ n, n = length t) with "Hp").
  - iIntros (w) "Hw Hp". iDestruct (heap_lookup with "Hw Hp") as %[Hp Hn]. iPureIntro.
    eexists. split; [by eapply run_k_strlen|done].
  - by iIntros (a ->) "_".
Qed.

Lemma twp_load_buf {hl} p dq b Φ : p ↦{dq} OBuf b -∗ Φ hl b -∗ twp hl (part (load_buf p)) Φ.
Proof.
  iIntros "Hp HΦ". iApply (twp_read _ _ (λ n, n = b) with "Hp").
  - iIntros (w) "Hw Hp". iDestruct (heap_lookup with "Hw Hp") as %[Hp Hn]. iPureIntro.
    eexists. split; [by eapply run_load_buf|done].
  - by iIntros (a ->) "_".
Qed.

Lemma twp_k_strncmp {hl} p q b1 b2 s1 s2 n Φ :
  c_str b1 = Some s1 → c_str b2 = Some s2 → n ≤ length s2 →
  p ↦□ OBuf b1 -∗ q ↦□ OBuf b2 -∗ (∀ c, ⌜c = 0%Z ↔ take n s2 `prefix_of` s1⌝ -∗ Φ hl c) -∗
  twp hl (part (k_strncmp p q n)) Φ.
Proof.
  iIntros (H1 H2 Hn) "Hp Hq HΦ".
  iApply (twp_read _ (p ↦□ OBuf b1 ∗ q ↦□ OBuf b2) (λ c, c = 0%Z ↔ take n s2 `prefix_of` s1) with "[$Hp $Hq]").
  - iIntros (w) "Hw [Hp Hq]". iDestruct (heap_lookup with "Hw Hp") as %[Hp Hpn].
    iDestruct (heap_lookup with "Hw Hq") as %[Hq Hqn]. iPureIntro. by eapply run_k_strncmp.
  - iIntros (c Hc) "_". by iApply ("HΦ" with "[//]").
Qed.

(** *** The loops on the list *)

(** The path of a node of the graph, in an assertion. *)
#[local] Ltac path_of g :=
  iDestruct (nodes_path _ _ _ g with "HG") as "#(%bp & #Hb & %Hbp & %Hbl)"; [done|].

Lemma twp_find_last {hl} fuel curr l x s kp kb k G H Φ :
  walk G curr (l ++ [(x, s)]) → G !! NULL = None → c_str kb = Some k → length l < fuel →
  nodes G H -∗ kp ↦ OBuf kb -∗
  (nodes G H -∗ kp ↦ OBuf kb -∗ Φ hl (if decide (k ∈ l.*2) then None else Some x)) -∗
  twp hl (find_last_thread fuel curr kp) Φ.
Proof.
  iIntros (Hw Hn Hk Hf) "HG Hkp HΦ".
  iInduction l as [|[y t] l] "IH" forall (fuel curr Hw Hf); destruct fuel as [|fuel]; simpl in Hf; try lia.
  - destruct Hw as (-> & g & Hg & Hs & Hend). simpl in Hend. cbn [find_last_thread].
    iApply twp_bind. iApply (twp_load_linked with "HG"); [done|]. iIntros "HG". cbn [gn_node n_next n_path].
    rw decide_True //. iApply twp_ret. iApply ("HΦ" with "HG Hkp").
  - destruct Hw as (-> & g & Hg & <- & Hw). cbn [find_last_thread].
    iApply twp_bind. iApply (twp_load_linked with "HG"); [done|]. iIntros "HG". cbn [gn_node n_next n_path].
    rw (decide_False (P := gn_next g = NULL)); last first.
    { intros He. rw He in Hw. destruct l as [|[z u] l]; destruct Hw as (<- & g' & Hg' & _); congruence. }
    path_of g. iApply twp_bind.
    iApply (twp_k_strcmp with "Hb Hkp"); [done..|]. iIntros (c Hc) "Hkp".
    rw fmap_cons. cbn [snd]. destruct (decide (c = 0%Z)) as [H0|H0].
    + rw (decide_True (P := k ∈ gn_text g :: l.*2)); [|apply elem_of_cons; left; symmetry; by apply Hc].
      iApply twp_ret. iApply ("HΦ" with "HG Hkp").
    + iApply ("IH" with "[//] [] HG Hkp"); [iPureIntro; lia|]. iIntros "HG Hkp".
      rw (decide_ext (k ∈ gn_text g :: l.*2) (k ∈ l.*2)); [|rw elem_of_cons; naive_solver].
      iApply ("HΦ" with "HG Hkp").
Qed.

(** The node of the path and the one before, or NULL. *)
Lemma twp_find_node {hl} fuel prev curr l kp kb k G H Φ :
  walk G curr l → G !! NULL = None → c_str kb = Some k → length l < fuel →
  nodes G H -∗ kp ↦ OBuf kb -∗
  (∀ r, ⌜((k ∉ l.*2) ∧ r.2 = NULL) ∨
         ∃ l1 y l2, l = l1 ++ (y, k) :: l2 ∧ (k ∉ l1.*2) ∧
           r = (match last l1 with Some (x, _) => Some x | None => prev end, y)⌝ -∗
     nodes G H -∗ kp ↦ OBuf kb -∗ Φ hl r) -∗
  twp hl (find_node_thread fuel prev curr kp) Φ.
Proof.
  iIntros (Hw Hn Hk Hf) "HG Hkp HΦ".
  iInduction l as [|[y t] l] "IH" forall (fuel prev curr Hw Hf); destruct fuel as [|fuel]; simpl in Hf; try lia.
  - simpl in Hw. subst curr. cbn [find_node_thread]. iApply twp_ret.
    iApply ("HΦ" with "[] HG Hkp"). iPureIntro. left. split; [by apply not_elem_of_nil|done].
  - destruct Hw as (-> & g & Hg & <- & Hw). cbn [find_node_thread]. rw decide_False; [|congruence].
    iApply twp_bind. iApply (twp_load_linked with "HG"); [done|]. iIntros "HG". cbn [gn_node n_next n_path].
    path_of g. iApply twp_bind.
    iApply (twp_k_strcmp with "Hb Hkp"); [done..|]. iIntros (c Hc) "Hkp".
    destruct (decide (c = 0%Z)) as [H0|H0].
    + iApply twp_ret. iApply ("HΦ" with "[] HG Hkp"). iPureIntro. right. apply Hc in H0 as <-.
      exists [], y, l. split; [done|]. split; [by apply not_elem_of_nil|done].
    + iApply ("IH" with "[//] [] HG Hkp"); [iPureIntro; lia|]. iIntros (r Hr) "HG Hkp".
      iApply ("HΦ" with "[] HG Hkp"). iPureIntro.
      destruct Hr as [[Hnot Hr]|(l1 & y' & l2 & -> & Hnot & ->)].
      * left. split; [|done]. simpl. rw not_elem_of_cons. naive_solver.
      * right. exists ((y, gn_text g) :: l1), y', l2. split; [done|]. split; [|rw last_cons; by destruct (last l1) as [[]|]].
        simpl. rw not_elem_of_cons. naive_solver.
Qed.
(** ** The critical sections *)

Lemma twp_add_exists h z G H l kp o Φ :
  graph G H h l → (tm_counted T → length l ≤ z)%Z →
  held h z -∗ nodes G H -∗ kp ↦ o -∗ (∀ r, Φ false r) -∗ twp true (add_exists_thread kp) Φ.
Proof.
  iIntros (Hgr Hlen) "Hh HG Hkp HΦ". iApply twp_bind. iApply (twp_spin_unlock with "Hh HG"); [done..|].
  iApply twp_bind. iApply (twp_kfree with "Hkp"). iApply twp_ret. iApply "HΦ".
Qed.

Lemma twp_add_linked h z G H l kp kb k Φ :
  graph G H h l → (tm_counted T → length l ≤ z + 1)%Z → c_str kb = Some k →
  held h z -∗ nodes G H -∗ credit -∗ kp ↦ OBuf kb -∗ (∀ r, Φ false r) -∗ twp true (add_linked_thread kp) Φ.
Proof.
  iIntros (Hgr Hlen Hk) "Hh HG Hcr Hkp HΦ". iApply twp_bind. iApply (twp_inc_size with "Hh Hcr").
  iIntros (z' Hz) "Hh". iApply twp_bind. iApply (twp_spin_unlock with "Hh HG"); [done|..].
  { intros HC. rw (Hz HC). by apply Hlen. }
  iApply twp_bind. iApply (twp_k_print with "Hkp"); [done|]. iIntros "Hkp".
  iApply twp_bind. iApply (twp_kfree with "Hkp"). iApply twp_ret. iApply "HΦ".
Qed.

(** The new node after the last one. *)
Lemma twp_link h z G H l q s g new np kp kb k Φ :
  let gnew := mk_gnode np k NULL in
  graph G H h (l ++ [(q, s)]) → (tm_counted T → length (l ++ [(q, s)]) ≤ z)%Z →
  G !! q = Some g → c_str kb = Some k → (k ∉ (l ++ [(q, s)]).*2) → tm_may T k → new ≠ NULL →
  held h z -∗ nodes G H -∗ credit -∗ new ↦ ONode (gn_node gnew) -∗ node_path gnew -∗ kp ↦ OBuf kb -∗
  (∀ r, Φ false r) -∗ twp true (part (store_node q (mk_node (gn_path g) new)) ;; add_linked_thread kp) Φ.
Proof.
  iIntros (gnew Hgr Hlen Hq Hk Hnot Hmay Hnn) "Hh HG Hcr Hnew Hpath Hkp HΦ".
  iDestruct (nodes_new _ _ _ gnew with "HG Hnew Hpath") as "[HG %Hfresh]".
  assert (q ≠ new) as Hne by congruence.
  iApply twp_bind. iApply (twp_store_linked with "HG"); [by rw lookup_insert_ne|]. iIntros "HG".
  iApply (twp_add_linked _ _ _ _ ((l ++ [(q, s)]) ++ [(new, k)]) with "Hh HG Hcr Hkp HΦ"); [|rw length_app /=; intros HC; specialize (Hlen HC); lia|done].
  apply (graph_append _ _ _ _ _ _ _ _ _ _ gnew); try done.
  - by apply graph_new.
  - by rw lookup_insert_ne.
  - apply lookup_insert_eq.
  - intros Hin%(walk_dom _ _ _ (gr_walk _ _ _ _ _ _ Hgr))%elem_of_elements%elem_of_dom. by rw Hfresh in Hin; destruct Hin.
Qed.
Lemma twp_add_insert new np nb kp kb k Φ :
  new ≠ NULL → c_str nb = Some k → c_str kb = Some k → length k < PATH_MAX → tm_may T k →
  credit -∗ new ↦ ONode (mk_node np NULL) -∗ np ↦ OBuf nb -∗ kp ↦ OBuf kb -∗ (∀ r, Φ false r) -∗
  twp false (add_insert_thread new kp) Φ.
Proof.
  iIntros (Hnn Hnb Hkb Hk Hmay) "Hcr Hnew Hnp Hkp HΦ". iApply twp_bupd.
  iMod (ghost_map_elem_persist with "Hnp") as "#Hnp". iModIntro.
  set (gnew := mk_gnode np k NULL). iAssert (node_path gnew) as "#Hpath"; [iExists nb; by iFrame "Hnp"|].
  iApply twp_bind. iApply twp_spin_lock. iIntros "(%h & %z & %G & %H & %l & Hh & HG & %Hgr & %Hlen)".
  pose proof (gr_walk _ _ _ _ _ _ Hgr) as Hw. pose proof (gr_null _ _ _ _ _ _ Hgr) as Hnull.
  iApply twp_bind. iApply (twp_get_rf_locked with "Hh"). iIntros (r Hr) "Hh". rw Hr.
  destruct (decide (h = NULL)) as [->|Hhn].
  - apply walk_null in Hw as ->; [|done].
    iDestruct (nodes_new _ _ _ gnew with "HG Hnew Hpath") as "[HG %Hfresh]".
    iApply twp_bupd. iMod (nodes_head _ _ new with "HG") as "[HG #Hnh]". iModIntro.
    iApply twp_bind. iApply (twp_set_head with "Hh Hnh"). iIntros "Hh".
    iApply (twp_add_linked _ _ _ _ [(new, k)] with "Hh HG Hcr Hkp HΦ"); [|intros HC; specialize (Hlen HC); simpl in *; lia|done].
    apply (graph_first _ _ _ _ _ gnew); [by apply graph_new|apply lookup_insert_eq|done..].
  - destruct l as [|[x s] l]; [done|]. pose proof Hw as (<- & g & Hg & Hs & Hl).
    iApply twp_bind. iApply (twp_load_linked with "HG"); [done|]. iIntros "HG". cbn [gn_node n_next n_path].
    destruct (decide (gn_next g = NULL)) as [Hnx|Hnx].
    + rw Hnx in Hl. apply walk_null in Hl as ->; [|done].
      path_of g. iApply twp_bind. iApply (twp_k_strcmp with "Hb Hkp"); [done..|]. iIntros (c Hc) "Hkp".
      destruct (decide (c = 0%Z)) as [H0|H0]; [by iApply (twp_add_exists with "Hh HG Hkp")|].
      iApply (twp_link _ _ _ _ [] with "Hh HG Hcr Hnew Hpath Hkp HΦ"); try done.
      simpl. rw list_elem_of_singleton. naive_solver.
    + destruct (exists_last (l := (h, s) :: l)) as (l0 & [y t] & He); [done|]. rw He in Hw Hgr Hlen.
      iApply twp_bind. iApply (twp_loop_fuel with "HG"). iIntros (fuel Hf) "HG".
      iApply twp_bind. iApply (twp_find_last with "HG Hkp"); [done..| |].
      { apply walk_length in Hw; [|done]. rw length_app /= in Hw. lia. }
      iIntros "HG Hkp". destruct (decide (k ∈ l0.*2)) as [Hin|Hin]; [by iApply (twp_add_exists with "Hh HG Hkp")|].
      destruct (walk_lookup _ _ _ y t Hw) as (gy & Hgy & Ht); [set_solver|].
      iApply twp_bind. iApply (twp_load_linked with "HG"); [done|]. iIntros "HG". cbn [gn_node n_next n_path].
      path_of gy. iApply twp_bind. iApply (twp_k_strcmp with "Hb Hkp"); [done..|]. iIntros (c Hc) "Hkp".
      destruct (decide (c = 0%Z)) as [H0|H0]; [by iApply (twp_add_exists with "Hh HG Hkp")|].
      iApply (twp_link with "Hh HG Hcr Hnew Hpath Hkp HΦ"); try done.
      rw fmap_app not_elem_of_app /= list_elem_of_singleton. naive_solver.
Qed.

(** The two ends of a removal. *)
Lemma twp_remove_end (r : Z) h z G H l kp kb k Φ :
  graph G H h l → (tm_counted T → length l ≤ z)%Z → c_str kb = Some k →
  held h z -∗ nodes G H -∗ kp ↦ OBuf kb -∗ (∀ r, Φ false r) -∗
  twp true (part spin_unlock ;; part (k_print kp) ;; mret r) Φ.
Proof.
  iIntros (Hgr Hlen Hk) "Hh HG Hkp HΦ". iApply twp_bind. iApply (twp_spin_unlock with "Hh HG"); [done..|].
  iApply twp_bind. iApply (twp_k_print with "Hkp"); [done|]. iIntros "_". iApply twp_ret. iApply "HΦ".
Qed.

Lemma twp_remove_unlink kp kb k Φ :
  c_str kb = Some k → ¬ tm_must T k → kp ↦ OBuf kb -∗ (∀ r, Φ false r) -∗ twp false (remove_unlink_thread kp) Φ.
Proof.
  iIntros (Hkb Hmust) "Hkp HΦ".
  iApply twp_bind. iApply twp_spin_lock. iIntros "(%h & %z & %G & %H & %l & Hh & HG & %Hgr & %Hlen)".
  pose proof (gr_walk _ _ _ _ _ _ Hgr) as Hw. pose proof (gr_null _ _ _ _ _ _ Hgr) as Hnull.
  iApply twp_bind. iApply (twp_get_rf_locked with "Hh"). iIntros (r Hr) "Hh". rw Hr.
  destruct (decide (h = NULL)) as [->|Hhn]; [by iApply (twp_remove_end with "Hh HG Hkp")|].
  destruct l as [|[x s] l]; [done|]. pose proof Hw as (<- & g & Hg & Hs & Hl).
  iApply twp_bind. iApply (twp_load_linked with "HG"); [done|]. iIntros "HG". cbn [gn_node n_next n_path].
  path_of g. iApply twp_bind. iApply (twp_k_strcmp with "Hb Hkp"); [done..|]. iIntros (c Hc) "Hkp".
  destruct (decide (c = 0%Z)) as [H0|H0].
  - assert (graph G ({[gn_next g]} ∪ H) (gn_next g) l) as Hgr'.
    { eapply graph_tail; [done..|]. apply Hc in H0. congruence. }
    iApply twp_bupd. iMod (nodes_head _ _ (gn_next g) with "HG") as "[HG #Hnh]". iModIntro.
    iApply twp_bind. iApply (twp_set_head with "Hh Hnh"). iIntros "Hh". iApply twp_bind.
    iApply (twp_dec_size with "Hh").
    { intros HC. destruct (to_counted _ HT HC) as [e He]. apply (gr_must _ _ _ _ _ _ Hgr') in He.
      destruct l; [by apply not_elem_of_nil in He|]. specialize (Hlen HC). simpl in Hlen. lia. }
    iIntros (z' Hz) "Hh". iApply (twp_remove_end with "Hh HG Hkp HΦ"); [done| |done].
    intros HC. rw (Hz HC). specialize (Hlen HC). simpl in Hlen. lia.
  - iApply twp_bind. iApply (twp_loop_fuel with "HG"). iIntros (fuel Hf) "HG".
    iApply twp_bind. iApply (twp_find_node with "HG Hkp"); [done..| |].
    { apply walk_length in Hw; [|done]. simpl in *. lia. }
    iIntros ([prev y] [[_ Hy]|(l1 & y' & l2 & He & Hnot & [= -> ->])]) "HG Hkp".
    { simpl in Hy. rw Hy. by iApply (twp_remove_end with "Hh HG Hkp"). }
    destruct l1 as [|[q t] l1 _] using rev_ind.
    { injection He as _ -> _. exfalso. naive_solver. }
    rw last_snoc. rw He -app_assoc /= in Hw Hgr Hlen.
    destruct (walk_lookup _ _ _ y' k Hw) as (gy & Hgy & Hty); [set_solver|].
    destruct (walk_lookup _ _ _ q t Hw) as (gq & Hgq & Htq); [set_solver|].
    rw decide_False; [|congruence].
    iApply twp_bind. iApply twp_of_opt.
    iApply twp_bind. iApply (twp_load_linked with "HG"); [exact Hgy|]. iIntros "HG".
    iApply twp_bind. iApply (twp_load_linked with "HG"); [exact Hgq|]. iIntros "HG". cbn [gn_node n_next n_path].
    iApply twp_bind. iApply (twp_store_linked with "HG"); [exact Hgq|]. iIntros "HG".
    iApply (twp_remove_end with "Hh HG Hkp HΦ"); [by eapply graph_unlink| |done].
    intros HC. specialize (Hlen HC). rw length_app /= in Hlen. rw length_app /=. lia.
Qed.
(** A probe walks from a node that was first when it looked. *)
Lemma twp_match_walk fuel curr l pp pb t h z G H k Φ :
  walk G curr l → length l < fuel → c_str pb = Some t →
  graph G H h k → (tm_counted T → length k ≤ z)%Z →
  pp ↦□ OBuf pb -∗ held h z -∗ nodes G H -∗
  Φ false (if decide (Exists (λ e, matches e t) l.*2) then 1 else 0)%Z -∗ twp true (match_walk_thread fuel curr pp) Φ.
Proof.
  iIntros (Hw Hf Ht Hgr Hlen) "#Hpp Hh HG HΦ". pose proof (gr_null _ _ _ _ _ _ Hgr) as Hnull.
  iInduction l as [|[y e] l] "IH" forall (fuel curr Hw Hf); destruct fuel as [|fuel]; simpl in Hf; try lia.
  - simpl in Hw. subst curr. cbn [match_walk_thread]. iApply twp_bind.
    iApply (twp_spin_unlock with "Hh HG"); [done..|]. by iApply twp_ret.
  - destruct Hw as (-> & g & Hg & <- & Hw). cbn [match_walk_thread]. rw (decide_False (P := y = NULL)); [|congruence].
    iApply twp_bind. iApply (twp_load_linked with "HG"); [done|]. iIntros "HG". cbn [gn_node n_next n_path].
    path_of g. iApply twp_bind. iApply (twp_k_strlen with "Hb"); [done|].
    iApply twp_bind. iApply (twp_k_strncmp with "Hpp Hb"); [done..|]. iIntros (c Hc). rw take_ge // in Hc.
    rw fmap_cons. cbn [snd]. destruct (decide (c = 0%Z)) as [H0|H0].
    { iApply twp_bind. iApply (twp_spin_unlock with "Hh HG"); [done..|].
      rw (decide_True (P := Exists _ (gn_text g :: l.*2))); [by iApply twp_ret|].
      apply Exists_cons. left. left. by apply Hc. }
    assert (gn_text g ≠ []) as Hne by (intros He; rw He in Hc; apply H0, Hc, prefix_nil).
    iApply twp_bind. iApply (twp_load_buf with "Hb").
    destruct (last (gn_text g)) as [ch|] eqn:Hlast; [|by apply last_None in Hlast].
    rw (last_char_c_str _ _ Hbp Hne) Hlast. iApply twp_bind. iApply twp_of_opt.
    assert (∀ P : Prop, (matches (gn_text g) t ↔ P) → ¬ P →
      (if decide (Exists (λ e, matches e t) (gn_text g :: l.*2)) then 1 else 0)%Z =
      (if decide (Exists (λ e, matches e t) l.*2) then 1 else 0)%Z) as Hskip.
    { intros P HP HnP. apply decide_ext. rw Exists_cons. naive_solver. }
    destruct (decide (ch = slash)) as [->|Hch].
    + iApply twp_bind. iApply (twp_k_strncmp with "Hpp Hb"); [done..|lia|]. iIntros (c2 Hc2).
      destruct (decide (c2 = 0%Z)) as [H2|H2].
      { iApply twp_bind. iApply (twp_spin_unlock with "Hh HG"); [done..|].
        rw (decide_True (P := Exists _ (gn_text g :: l.*2))); [by iApply twp_ret|].
        apply Exists_cons. left. right. split; [done|]. by apply Hc2. }
      rw (Hskip (c2 = 0%Z)); [|unfold matches; naive_solver|done].
      iApply ("IH" with "[//] [] Hh HG HΦ"). iPureIntro. lia.
    + rw (Hskip (c = 0%Z)); [|unfold matches; naive_solver|done].
      iApply ("IH" with "[//] [] Hh HG HΦ"). iPureIntro. lia.
Qed.

(** A probe on a path that a path of the list protects answers 1, when the states
    the monitor can be in are those that block. *)
Lemma twp_is_blacklisted pp pb t (Φ : bool → Z → iProp Σ) :
  c_str pb = Some t → pp ↦□ OBuf pb -∗
  (∀ r, ⌜tm_counted T → tm_blocking T →
         (∃ e, tm_must T e ∧ matches e t) → r = 1%Z⌝ -∗ Φ false r) -∗
  twp false (is_blacklisted_thread pp) Φ.
Proof.
  iIntros (Ht) "#Hpp HΦ". iApply twp_bind. iApply twp_get_rf. iIntros (r [_ Hsz]) "_".
  destruct (decide _) as [H0|_].
  { iApply twp_ret. iApply "HΦ". iPureIntro. intros HC. specialize (Hsz HC). lia. }
  do 2 (iApply twp_bind; iApply twp_get_rf; iIntros (? [Hst _]) "_"; destruct (decide _) as [H0|_];
    [iApply twp_ret; iApply "HΦ"; iPureIntro; intros _ Hon; apply Hon in Hst; unfold RF_ON, RF_REC_ON in Hst; lia|clear Hst]).
  iApply twp_bind. iApply twp_get_rf. iIntros (r3 _) "#Hhead".
  iApply twp_bind. iApply twp_spin_lock. iIntros "(%h & %z & %G & %H & %l & Hh & HG & %Hgr & %Hlen)".
  iDestruct (nodes_was_head with "HG Hhead") as %Hin.
  destruct (gr_heads _ _ _ _ _ _ Hgr _ Hin) as (k & Hk & Hmust).
  iApply twp_bind. iApply (twp_loop_fuel with "HG"). iIntros (fuel Hf) "HG".
  iApply (twp_match_walk with "Hpp Hh HG"); [done| |done..|].
  { apply walk_length in Hk; [lia|]. apply Hgr. }
  iApply "HΦ". iPureIntro. intros _ _ (e & He & Hm). rw decide_True //.
  apply Exists_exists. exists e. split; [|done]. by apply Hmust.
Qed.
(** ** The calls *)

Context `{AL : Alloc} `{CR : Crypto} `{CL : !CryptoLaws} `{KA : KprobeAPI} `{KL : !KprobeLaws} `{IA : !InitOnAlloc}.
Context (Hmem : ∀ n, kmalloc_ok n = true) (Hcrypto : ∀ n, crypto_up n).

(** A part that only adds objects. *)
Lemma twp_extends {A} {hl} (m : K A) Φ :
  (∀ w, wf w → stored_digest w (tm_digest T) → ∃ a w', m w = Ret a w' ∧ extends w w') →
  (∀ a, Φ hl a) -∗ twp hl (part m) Φ.
Proof.
  iIntros (Hm) "HΦ". iApply twp_part. iIntros (w) "Hw".
  iAssert (⌜wf w ∧ stored_digest w (tm_digest T)⌝)%I as %[Hwf Hsd].
  { iDestruct "Hw" as "(%Hwf & Hm & (_ & _ & _ & _ & Hd & _))".
    iDestruct (ghost_map_lookup with "Hm Hd") as %Hd. iPureIntro. split; [done|]. split; [apply HT|done]. }
  destruct (Hm w Hwf Hsd) as (a & w' & Hr & He). rw Hr.
  iMod (heap_extend _ _ He with "Hw") as "[$ _]". iModIntro. iSplit; [by rw (extends_glob _ _ He)|iApply "HΦ"].
Qed.

Lemma twp_password_check {hl} u pw Φ :
  PASSW_LEN ≤ length u → c_str (take PASSW_LEN u) = Some pw →
  (∀ r, Φ hl r) -∗ twp hl (part (password_check u)) Φ.
Proof.
  iIntros (Hlen Hpw) "HΦ". iApply (twp_extends with "HΦ"). intros w Hwf Hsd.
  destruct (password_check_run u pw (tm_digest T) w) as (w' & Hr & He & _); [done..|]. eauto.
Qed.

Lemma twp_is_rf_rec {hl} Φ : (∀ r, Φ hl r) -∗ twp hl (part is_rf_rec) Φ.
Proof. iIntros "HΦ". iApply (twp_extends with "HΦ"). intros w _ _. rw run_is_rf_rec. eexists _, w. done. Qed.

(** *** The probes *)

Lemma twp_get_glob {hl} Φ :
  (∀ g, g_kprobe_array g ↦□ OProbes kprobe_list -∗ Φ hl g) -∗ twp hl (part get_glob) Φ.
Proof.
  iIntros "HΦ". iApply twp_part. iIntros (w) "(Hwf & Hm & (Hp & Hs & Hc & Hh & Hd & #Ha & Hl))".
  iModIntro. iSplitR "HΦ"; [by iFrame "∗ #"|]. iSplit; [done|]. by iApply "HΦ".
Qed.

Lemma twp_load_probes {hl} p ps Φ : p ↦□ OProbes ps -∗ Φ hl ps -∗ twp hl (part (load_probes p)) Φ.
Proof.
  iIntros "Hp HΦ". iApply (twp_read _ _ (λ n, n = ps) with "Hp").
  - iIntros (w) "Hw Hp". iDestruct (heap_lookup with "Hw Hp") as %[Hp Hn]. iPureIntro.
    eexists. split; [by eapply run_load_probes|done].
  - by iIntros (a ->) "_".
Qed.

Lemma twp_get_krp {hl} pr Φ : (∀ k, ⌜probe_ok pr k⌝ -∗ Φ hl k) -∗ twp hl (part (get_krp pr)) Φ.
Proof.
  iIntros "HΦ". iApply twp_part. iIntros (w) "(Hwf & Hm & (%Hp & Hrest))". iModIntro.
  iSplitR "HΦ"; [by iFrame|]. iSplit; [done|]. iApply "HΦ". iPureIntro. apply Hp.
Qed.

Lemma twp_put_krp {hl} pr k Φ : probe_ok pr k → Φ hl tt -∗ twp hl (part (put_krp pr k)) Φ.
Proof.
  iIntros (Hk) "HΦ". iApply twp_part. iIntros (w) "(Hwf & Hm & ([%Hst %Hp] & Hrest))". iModIntro.
  iFrame "HΦ". unfold world_ok, globals_ok. simpl. iFrame. iPureIntro. split; [|done]. split; [done|]. intros pr'.
  by destruct (decide (pr' = pr)) as [->|Hne]; [rw fn_lookup_insert|rw fn_lookup_insert_ne].
Qed.

Lemma twp_for_probes {hl} f i n Φ :
  (∀ pr k, probe_ok pr k → probe_ok pr (f k).2) → i + n ≤ NUM_KRETPROBES →
  Φ hl tt -∗ twp hl (for_probes_thread f i n) Φ.
Proof.
  iIntros (Hf Hin) "HΦ". iInduction n as [|n] "IH" forall (i Hin); cbn [for_probes_thread]; [by iApply twp_ret|].
  iApply twp_bind. iApply twp_get_glob. iIntros (g) "#Ha". iApply twp_bind. iApply (twp_load_probes with "Ha").
  destruct (lookup_lt_is_Some_2 kprobe_list i) as [pr Hpr].
  { change (length kprobe_list) with NUM_KRETPROBES. lia. }
  rw Hpr. iApply twp_bind. iApply twp_of_opt. iApply twp_bind. iApply twp_get_krp. iIntros (k Hk).
  iApply twp_bind. iApply twp_put_krp; [by apply Hf|]. iApply ("IH" with "[] HΦ"). iPureIntro. lia.
Qed.

Lemma twp_set_probes {hl} st Φ : tm_state T st → Φ hl tt -∗ twp hl (set_probes_thread st) Φ.
Proof.
  iIntros (Hst) "HΦ". unfold set_probes_thread. destruct (decide _) as [Hon|Hoff];
    iApply (twp_for_probes with "HΦ"); try done; intros pr k [Hk Hen]; pose proof (ps_registered _ _ _ Hk) as Hreg;
    split; [destruct Hk; rw enable_registered //|intros _; rw enable_registered //
           |destruct Hk; rw disable_registered //|intros Hbl].
  - unfold kp_enabled. simpl. rw Hreg. apply enabled_flags.
  - exfalso. apply Hoff. apply Hbl in Hst. unfold RF_ON, RF_REC_ON in Hst. lia.
Qed.

(** *** The system calls *)

Lemma twp_set_state_string {hl} p n st Φ :
  (0 ≤ st ≤ 3)%Z → p ↦ OBuf (fresh_bytes n state_string_size) -∗
  (∀ b t, ⌜c_str b = Some t⌝ -∗ p ↦ OBuf b -∗ Φ hl tt) -∗ twp hl (part (set_state_string p st)) Φ.
Proof.
  iIntros (Hst) "Hp HΦ". iApply twp_part. iIntros (w) "Hw". iDestruct (heap_lookup with "Hw Hp") as %[Hp Hn].
  destruct (set_state_string_run st p n w Hst Hp Hn) as (b & t & Hr & Ht). rw Hr.
  iMod (heap_store with "Hw Hp") as "[$ Hp]". iModIntro. iSplit; [done|]. iApply ("HΦ" with "[//] Hp").
Qed.

Lemma twp_get_state {hl} Φ : (∀ r, Φ hl r) -∗ twp hl get_state_thread Φ.
Proof.
  iIntros "HΦ". iApply twp_bind. iApply twp_kmalloc; [done|]. iIntros (p n Hn) "Hp". rw decide_False //.
  iApply twp_bind. iApply twp_get_rf. iIntros (r [Hst _]) "_".
  iApply twp_bind. iApply (twp_set_state_string with "Hp"); [by apply HT|]. iIntros (b t _) "_".
  iApply twp_bind. iApply twp_get_rf. iIntros (r' _) "_". by iApply twp_ret.
Qed.

Lemma twp_report {hl} st Φ : (0 ≤ st ≤ 3)%Z → (∀ r, Φ hl r) -∗ twp hl (report_thread st) Φ.
Proof.
  iIntros (Hst) "HΦ". iApply twp_bind. iApply twp_kmalloc; [done|]. iIntros (p n Hn) "Hp". rw decide_False //.
  iApply twp_bind. iApply (twp_set_state_string with "Hp"); [done|]. iIntros (b t Ht) "Hp".
  iApply twp_bind. iApply (twp_k_print with "Hp"); [done|]. iIntros "_".
  iApply twp_bind. iApply twp_get_rf. iIntros (r' _) "_". by iApply twp_ret.
Qed.

Lemma twp_switch st u pw euid Φ :
  PASSW_LEN ≤ length u → c_str (take PASSW_LEN u) = Some pw → ((0 ≤ st ≤ 3)%Z → tm_state T st) →
  (∀ r, Φ false r) -∗ twp false (switch_thread st u euid) Φ.
Proof.
  iIntros (Hlen Hpw Hst) "HΦ". unfold switch_thread. cbv zeta.
  destruct (decide (rf_state_check st ≠ 0%Z)) as [Hc|Hc]; [by iApply twp_ret|].
  assert (0 ≤ st ≤ 3)%Z as Hst3. { apply rf_state_check_0. by destruct (decide (rf_state_check st = 0%Z)). }
  iApply twp_bind. iApply twp_password_check; [done..|]. iIntros (r).
  destruct (decide (r ≠ 0%Z)); [by iApply twp_ret|]. destruct (decide (_ ≠ 0%Z)); [by iApply twp_ret|].
  iApply twp_bind. iApply twp_bind. iApply twp_spin_lock. iIntros "(%h & %z & %G & %H & %l & Hh & HG & %Hgr & %Hz)".
  iApply twp_bind. iApply twp_set_state; [by apply Hst|]. iApply (twp_spin_unlock with "Hh HG"); [done..|].
  iApply twp_bind. iApply twp_set_probes; [by apply Hst|]. by iApply twp_report.
Qed.

(** The checks of an edit, and the edits with a terminated path. *)
Lemma twp_edit u pw euid t :
  PASSW_LEN ≤ length u → c_str (take PASSW_LEN u) = Some pw →
  twp false t (λ hl _, ⌜hl = false⌝) -∗ twp false (edit_thread u euid t) (λ hl _, ⌜hl = false⌝).
Proof.
  iIntros (Hlen Hpw) "Ht". iApply twp_bind. iApply twp_is_rf_rec. iIntros (r).
  destruct (decide (r ≠ 0%Z)); [by iApply twp_ret|].
  iApply twp_bind. iApply twp_password_check; [done..|]. iIntros (r').
  destruct (decide (r' ≠ 0%Z)); [by iApply twp_ret|]. cbv zeta. destruct (decide (_ ≠ 0%Z)); [by iApply twp_ret|done].
Qed.

Lemma twp_add path k u pw euid :
  PASSW_LEN ≤ length u → c_str (take PASSW_LEN u) = Some pw → user_path path = Some k → tm_may T k →
  credit -∗ twp false (add_thread path u euid) (λ hl _, ⌜hl = false⌝).
Proof.
  iIntros (Hlen Hpw Hk Hmay) "Hcr". iApply twp_edit; [done..|]. iApply twp_bind.
  pose proof (user_path_length _ _ Hk) as Hkl.
  iApply twp_bind. iApply twp_kmalloc; [done|]. iIntros (kp n Hkn) "Hkp". rw decide_False //.
  iApply twp_bind. iApply (twp_copy_from_user with "Hkp"); [by rw length_fresh_bytes|]. iIntros "Hkp".
  rw decide_False; [|lia].
  iApply twp_bind. iApply twp_kmalloc; [done|]. iIntros (new n2 Hnn) "Hnew". rw decide_False //.
  iApply twp_bind. iApply twp_kmalloc; [done|]. iIntros (np n3 Hnp) "Hnp".
  iApply twp_bind. iApply (twp_load_node with "Hnew"). iIntros "Hnew". cbn [n_next]. rw !fresh_ptr_null.
  iApply twp_bind. iApply (twp_store_node with "Hnew"). iIntros "Hnew".
  iApply twp_bind. iApply (twp_k_strcpy with "Hnp Hkp"); [done|by rw length_fresh_bytes|]. iIntros "Hnp Hkp".
  iApply (twp_add_insert with "Hcr Hnew Hnp Hkp"); [done| |done..|].
  { apply c_str_app. by apply c_str_Some in Hk as [? _]. }
  iIntros (r). destruct (decide (r ≠ 0%Z)); by iApply twp_ret.
Qed.

Lemma twp_remove path k u pw euid :
  PASSW_LEN ≤ length u → c_str (take PASSW_LEN u) = Some pw → user_path path = Some k → ¬ tm_must T k →
  ⊢ twp false (remove_thread path u euid) (λ hl _, ⌜hl = false⌝).
Proof.
  iIntros (Hlen Hpw Hk Hmust). iApply twp_edit; [done..|]. iApply twp_bind.
  iApply twp_bind. iApply twp_kmalloc; [done|]. iIntros (kp n Hkn) "Hkp". rw decide_False //.
  iApply twp_bind. iApply (twp_copy_from_user with "Hkp"); [by rw length_fresh_bytes|]. iIntros "Hkp".
  rw decide_False; [|lia]. iApply (twp_remove_unlink with "Hkp"); [done..|].
  iIntros (r). destruct (decide (r = _)); by iApply twp_ret.
Qed.
End logic.
