(* ===== verification/ProbeLogic.v ===== *)
(** * Rules for the probes

    The rules of MonitorLogic for the threads of ProbeThreads: the entry handlers,
    whose verdict denies every path that is protected all the time, the return
    handler, which queues a log item, and a whole call of a probed function. *)

From stdpp Require Import gmultiset.
From iris.algebra Require Import auth numbers gmultiset.
From iris.proofmode Require Import proofmode.
From iris.base_logic.lib Require Import own ghost_map ghost_var.
From S2P Require Import Prelude CString Kernel Utils Blacklist Logger Kprobes Scth Monitor Security Concurrency.
From S2P Require Import ProbeThreads NodeGraph MonitorLogic.

(** A call of a probed function by the thread [t]: the paths of its targets fit in
    the message, the program of the thread has the path [exe], and the function keeps
    the objects of the module. *)
Record call_ok `{VF : Vfs} (p : probe_id) (regs : pt_regs) (t : task) (f : K Z) (paths : list buf) (exe : buf)
    : Prop := {
  co_targets : ∃ ds, targets (entry_of p) regs = Some ds ∧ Forall2 short_path ds paths;
  co_exe : ∃ d, t_exe t = Some d ∧ dentry_path_raw d PATH_MAX = inr exe;
  co_fun w : wf w → ∃ v w', f w = Ret v w' ∧ extends w w';
}.

Section probe_logic.
Context `{!monitorG Σ} (γ : names) (T : terms) (HT : terms_ok T).
Context `{AL : Alloc} `{CR : Crypto} `{CL : !CryptoLaws} `{VF : Vfs} `{VL : !VfsLaws} `{KA : KprobeAPI}
  `{KL : !KprobeLaws} `{IA : !InitOnAlloc}.
Context (Hmem : ∀ n, kmalloc_ok n = true).

#[local] Notation "p ↦ o" := (p ↪[γ_heap γ] o)%I (at level 20).
#[local] Notation "p ↦□ o" := (p ↪[γ_heap γ]□ o)%I (at level 20).
#[local] Abbreviation twp := (twp γ T).
#[local] Abbreviation world_ok := (world_ok γ T).

(** *** New objects that nothing changes later *)

(** The world grows, and a log item among the new objects is queued. *)
Lemma heap_queue w w' p :
  heap_le (w_heap w) (w_heap w') → w_glob w' = set_queue (g_queue (w_glob w) ++ [p]) (w_glob w) →
  mem w !! p = None → (([∗ map] q ↦ o ∈ (mem w' ∖ mem w), q ↦□ o) -∗ item γ p) -∗
  world_ok w ==∗ world_ok w' ∗ ([∗ map] q ↦ o ∈ (mem w' ∖ mem w), q ↦□ o) ∗ was_queued γ p.
Proof.
  iIntros (He Hg Hp) "Hi (%Hwf & Hm & Hgl)".
  iDestruct "Hgl" as "(Hg1 & Hg2 & [Hc (%q1 & HQ & #Hits & %Hq & %Hnd)] & Hg3)".
  iAssert (⌜p ∉ q1⌝)%I as %Hnot.
  { iIntros (Hin). iDestruct (big_sepL_elem_of with "Hits") as "[_ (%lp & %d & %b & %s & Hw & _)]"; [exact Hin|].
    iDestruct (ghost_map_lookup with "Hm Hw") as %Hl. by rw Hp in Hl. }
  iMod (ghost_map_insert_persist_big (mem w' ∖ mem w) with "Hm") as "[Hm #Hnew]".
  { by apply map_disjoint_difference_l1. }
  iMod (ghost_map_insert_persist p tt with "HQ") as "[HQ #Hrec]".
  { apply lookup_gset_to_gmap_None. by rw elem_of_list_to_set. }
  iDestruct ("Hi" with "Hnew") as "#Hitem". iModIntro. iFrame "Hnew Hrec".
  unfold MonitorLogic.world_ok, globals_ok. rw Hg. simpl. iFrame "Hg1 Hg2 Hg3 Hc".
  iSplit; [iPureIntro; by apply He|]. iSplitL "Hm".
  - rw map_union_comm; [|by apply map_disjoint_difference_l1]. rw map_difference_union; [done|apply He].
  - iExists (q1 ++ [p]). rw list_to_set_app_L /= right_id_L (comm_L union) gset_to_gmap_union_singleton.
    iFrame "HQ". iSplit; [|iPureIntro; split; [by rw Hq app_assoc|]].
    + iApply big_sepL_app. iFrame "Hits". simpl. by iFrame "Hrec Hitem".
    + apply NoDup_app. split; [done|]. split; [|apply NoDup_singleton]. intros x Hx ->%list_elem_of_singleton. done.
Qed.

Lemma queue_recorded w p :
  world_ok w -∗ was_queued γ p -∗ ⌜∃ q, g_queue (w_glob w) = tm_queue T ++ q ∧ p ∈ q⌝.
Proof using Type.
  iIntros "(_ & _ & (_ & _ & [_ (%q1 & HQ & _ & %Hq & _)] & _)) Hp". iDestruct (ghost_map_lookup with "HQ Hp") as %Hl.
  iPureIntro. exists q1. split; [done|]. by apply lookup_gset_to_gmap_Some in Hl as [Hin%elem_of_list_to_set _].
Qed.

(** What was queued since the start: items with their threads and programs. *)
Lemma queue_items w :
  world_ok w -∗ ⌜∃ q es, g_queue (w_glob w) = tm_queue T ++ q ∧ NoDup q ∧ Forall2 (λ p e, queued w p e.1 e.2) q es⌝.
Proof using Type.
  iIntros "(_ & Hm & (_ & _ & [_ (%q1 & _ & #Hits & %Hq & %Hnd)] & _))". iExists q1.
  iAssert (⌜Forall (λ p, ∃ e, queued w p e.1 e.2) q1⌝)%I as %Hall; [|iPureIntro; by destruct (proj1 (Forall_exists_Forall2_l _ _) Hall) as [es Hes]; exists es].
  rw Forall_forall. iIntros (p Hp). iDestruct (big_sepL_elem_of with "Hits") as "[_ Hi]"; [exact Hp|].
  iDestruct "Hi" as (lp d b s) "(Hwp & Hlp & Hdup & %Hb)".
  iDestruct (ghost_map_lookup with "Hm Hwp") as %?. iDestruct (ghost_map_lookup with "Hm Hlp") as %?.
  iDestruct (ghost_map_lookup with "Hm Hdup") as %?. iPureIntro.
  exists (mk_task _ (l_tid d) (l_tgid d) (l_uid d) (l_euid d) None, s). by exists lp, (l_exe_path d), (l_hash d), b; destruct d.
Qed.

(** *** The parts of a handler *)

Lemma twp_pure {A} {hl} (m : K A) a Φ : (∀ w, m w = Ret a w) → Φ hl a -∗ twp hl (part m) Φ.
Proof. iIntros (Hm) "HΦ". iApply twp_part. iIntros (w) "Hw". rw Hm. iModIntro. by iFrame. Qed.

(** The path of a dentry. *)
Lemma twp_get_path {hl} d s Φ :
  dentry_path_raw d PATH_MAX = inr s →
  (∀ p b, ⌜c_str b = Some s⌝ -∗ p ↦□ OBuf b -∗ Φ hl p) -∗ twp hl (part (get_path_from_dentry d)) Φ.
Proof.
  iIntros (Hd) "HΦ". iApply twp_part. iIntros (w) "Hw".
  iAssert (⌜wf w⌝)%I as %Hwf; [by iDestruct "Hw" as "[$ _]"|].
  destruct (get_path_run d s w) as (w' & Hr & He & _ & Hp); [done|done|apply Hmem..|]. rw Hr. rw fresh_byte_zero in Hp.
  iMod (heap_extend γ T _ _ He with "Hw") as "[$ #Hnew]". iModIntro. iSplit; [by rw (extends_glob _ _ He)|].
  iApply ("HΦ" $! _ (s ++ [NUL; NUL]) with "[] []"); [|iApply (big_sepM_lookup with "Hnew"); apply lookup_difference_Some].
  - iPureIntro. apply c_str_app. by eapply dentry_path_raw_no_nul.
  - split; [done|]. eapply wf_heap_fresh; [exact Hwf|]. lia.
Qed.

(** The paths that are protected all the time. *)
Definition must_block (s : buf) : Prop := tm_counted T ∧ tm_blocking T ∧ ∃ e, tm_must T e ∧ matches e s.

(** The answer of a handler: a message and 0, or 1, and then [P] does not hold. *)
Definition verdict (P : Prop) (r : Z * option ptr) : iProp Σ :=
  (∃ m text, ⌜r = (0%Z, Some m) ∧ m ≠ NULL ∧ no_nul text⌝ ∗ m ↦ OBuf (text ++ [NUL])) ∨ ⌜r = (1%Z, None) ∧ ¬ P⌝.
#[local] Abbreviation answering P := (λ hl r, ⌜hl = false⌝ ∗ verdict P r)%I.

Lemma twp_deny {hl} what p b s P :
  c_str b = Some s → no_nul what → length what + length s ≤ 212 →
  p ↦□ OBuf b -∗ twp hl (part (deny what p)) (λ hl' r, ⌜hl' = hl⌝ ∗ verdict P r).
Proof.
  iIntros (Hs Hw Hl) "#Hp". iApply twp_part. iIntros (w) "Hwd". iDestruct (heap_lookup with "Hwd Hp") as %[Hp Hn].
  destruct (deny_alloc what p b s w) as [Ht Hr]; [done..|apply Hmem|]. rw Hr.
  iMod (heap_alloc with "Hwd") as "($ & Hm & %Hmn)". iModIntro. iSplit; [done|]. iSplit; [done|].
  iLeft. iExists _, _. iFrame "Hm". done.
Qed.

Lemma twp_check what p b s (k : thread (Z * option ptr)) P :
  c_str b = Some s → no_nul what → length what + length s ≤ 212 →
  p ↦□ OBuf b -∗ (⌜¬ must_block s⌝ -∗ twp false k (answering P)) -∗
  twp false (check_thread what p k) (answering P).
Proof.
  iIntros (Hs Hw Hl) "#Hp Hk". iApply twp_bind. iApply (twp_is_blacklisted with "Hp"); [done..|]. iIntros (r Hr).
  destruct (decide (r = 1%Z)) as [H1|H1]; [by iApply (twp_deny with "Hp")|]. iApply "Hk". iPureIntro.
  intros (HC & HB & He). by apply H1, Hr.
Qed.

Lemma twp_pass P : ¬ P → ⊢ twp false pass_thread (answering P).
Proof. iIntros (HP). iApply twp_ret. iSplit; [done|]. by iRight. Qed.

(** *** The entry handlers *)

Lemma twp_one what d s :
  short_path d s → no_nul what → length what ≤ 16 →
  ⊢ twp false (full_path ← part (get_path_from_dentry d); check_thread what full_path pass_thread)
      (answering (Exists must_block [s])).
Proof.
  iIntros ([Hd Hs] Hw Hl). iApply twp_bind. iApply twp_get_path; [done|]. iIntros (p b Hb) "#Hp".
  iApply (twp_check with "Hp"); [done|done|lia|]. iIntros (Hn). iApply twp_pass. by rw Exists_cons Exists_nil; intros [].
Qed.

Lemma twp_two what what' d d' s s' :
  short_path d s → short_path d' s' → no_nul what → no_nul what' → length what ≤ 16 → length what' ≤ 16 →
  ⊢ twp false (full_old_path ← part (get_path_from_dentry d); full_path ← part (get_path_from_dentry d');
       check_thread what full_old_path (check_thread what' full_path pass_thread))
      (answering (Exists must_block [s; s'])).
Proof.
  iIntros ([Hd Hs] [Hd' Hs'] Hw Hw' Hl Hl'). iApply twp_bind. iApply twp_get_path; [done|]. iIntros (p b Hb) "#Hp".
  iApply twp_bind. iApply twp_get_path; [done|]. iIntros (p' b' Hb') "#Hp'".
  iApply (twp_check with "Hp"); [done|done|lia|]. iIntros (Hn). iApply (twp_check with "Hp'"); [done|done|lia|].
  iIntros (Hn'). iApply twp_pass. by rw !Exists_cons Exists_nil; intros [|[]].
Qed.

Lemma twp_rmdir d s s' :
  short_path d s → short_path (d_parent d) s' →
  ⊢ twp false (full_path ← part (get_path_from_dentry d);
       b ← is_blacklisted_thread full_path;
       if decide (b = 1%Z) then part (deny (lit "Rmdir on file") full_path) else
       parent_path ← part (get_path_from_dentry (d_parent d));
       b ← is_blacklisted_thread parent_path;
       if decide (b = 1%Z) then part (deny (lit "Rmdir on file") full_path) else pass_thread)
      (answering (Exists must_block [s; s'])).
Proof.
  iIntros ([Hd Hs] [Hd' Hs']). assert (length (lit "Rmdir on file") = 13) as Hl by done.
  iApply twp_bind. iApply twp_get_path; [done|]. iIntros (p b Hb) "#Hp".
  iApply (twp_check (lit "Rmdir on file") with "Hp"); [done|by compute_done|lia|].
  iIntros (Hn). iApply twp_bind. iApply twp_get_path; [done|]. iIntros (p' b' Hb') "#Hp'".
  iApply twp_bind. iApply (twp_is_blacklisted with "Hp'"); [done..|]. iIntros (r Hr).
  destruct (decide (r = 1%Z)) as [H1|H1].
  - iApply (twp_deny with "Hp"); [done|by compute_done|lia].
  - iApply twp_pass. rw !Exists_cons Exists_nil. intros [|[(HC & HB & He)|[]]]; [done|]. by apply H1, Hr.
Qed.

(** The parts that read a register. *)
Lemma twp_as_file {A} a f (k : file → thread A) Φ : a = KFile f → twp false (k f) Φ -∗ twp false (part (as_file a) ≫= k) Φ.
Proof. iIntros (->) "H". iApply twp_bind. by iApply twp_pure. Qed.
Lemma twp_as_dentry {A} a d (k : dentry → thread A) Φ :
  a = KDentry d → twp false (k d) Φ -∗ twp false (part (as_dentry a) ≫= k) Φ.
Proof. iIntros (->) "H". iApply twp_bind. by iApply twp_pure. Qed.

(** A handler of one dentry, and one of one file. *)
Lemma twp_dentry_entry what a ds paths :
  match a with KDentry d => Some [d] | _ => None end = Some ds → Forall2 short_path ds paths →
  no_nul what → length what ≤ 16 →
  ⊢ twp false (d ← part (as_dentry a); full_path ← part (get_path_from_dentry d);
      check_thread what full_path pass_thread) (answering (Exists must_block paths)).
Proof.
  iIntros (Ht Hp Hw Hl). destruct a as [|d|]; [done| |done]. injection Ht as <-.
  apply Forall2_cons_inv_l in Hp as (s & ss & Hd & ->%Forall2_nil_inv_l & ->).
  iApply (twp_as_dentry _ d); [done|]. by iApply twp_one.
Qed.

Lemma twp_file_entry what a ds paths :
  match a with KFile f => Some [f_dentry f] | _ => None end = Some ds → Forall2 short_path ds paths →
  no_nul what → length what ≤ 16 →
  ⊢ twp false (f ← part (as_file a); full_path ← part (get_path_from_dentry (f_dentry f));
      check_thread what full_path pass_thread) (answering (Exists must_block paths)).
Proof.
  iIntros (Ht Hp Hw Hl). destruct a as [f| |]; [|done|done]. injection Ht as <-.
  apply Forall2_cons_inv_l in Hp as (s & ss & Hd & ->%Forall2_nil_inv_l & ->).
  iApply (twp_as_file _ f); [done|]. by iApply twp_one.
Qed.

(** A handler of two dentries. *)
Lemma twp_dentries_entry what what' a a' ds paths :
  match a with KDentry old => match a' with KDentry new => Some [old; new] | _ => None end | _ => None end = Some ds →
  Forall2 short_path ds paths → no_nul what → no_nul what' → length what ≤ 16 → length what' ≤ 16 →
  ⊢ twp false (old_dentry ← part (as_dentry a); dentry ← part (as_dentry a');
      full_old_path ← part (get_path_from_dentry old_dentry); full_path ← part (get_path_from_dentry dentry);
      check_thread what full_old_path (check_thread what' full_path pass_thread))
      (answering (Exists must_block paths)).
Proof.
  iIntros (Ht Hp Hw Hw' Hl Hl'). destruct a as [|old|]; [done| |done]. destruct a' as [|new|]; [done| |done].
  injection Ht as <-. apply Forall2_cons_inv_l in Hp as (s & ss & Hd & Hp & ->).
  apply Forall2_cons_inv_l in Hp as (s' & ss' & Hd' & ->%Forall2_nil_inv_l & ->).
  iApply (twp_as_dentry _ old); [done|]. iApply (twp_as_dentry _ new); [done|]. by iApply twp_two.
Qed.

Lemma twp_entry h regs ds paths :
  targets h regs = Some ds → Forall2 short_path ds paths →
  ⊢ twp false (run_entry_thread h regs) (answering (Exists must_block paths)).
Proof.
  intros Ht Hp. destruct h; cbn [targets] in Ht; cbn [run_entry_thread].
  - destruct (r_di regs) as [f| |] eqn:Hdi; [|done|done]. injection Ht as <-. unfold open_entry_thread.
    iApply (twp_as_file _ f); [done|]. destruct (opens_for_write (f_flags f)).
    + apply Forall2_cons_inv_l in Hp as (s & ss & Hd & ->%Forall2_nil_inv_l & ->).
      iApply twp_one; [done|by compute_done|by vm_compute; lia].
    + apply Forall2_nil_inv_l in Hp as ->. iApply twp_pass. by inversion 1.
  - eapply twp_dentries_entry; [exact Ht|exact Hp|by compute_done..|by vm_compute; lia|by vm_compute; lia].
  - eapply twp_dentry_entry; [exact Ht|exact Hp|by compute_done|by vm_compute; lia].
  - eapply twp_dentry_entry; [exact Ht|exact Hp|by compute_done|by vm_compute; lia].
  - eapply twp_dentry_entry; [exact Ht|exact Hp|by compute_done|by vm_compute; lia].
  - eapply twp_dentry_entry; [exact Ht|exact Hp|by compute_done|by vm_compute; lia].
  - eapply twp_dentries_entry; [exact Ht|exact Hp|by compute_done..|by vm_compute; lia|by vm_compute; lia].
  - destruct (r_si regs) as [|d|] eqn:Hsi; [done| |done]. injection Ht as <-.
    apply Forall2_cons_inv_l in Hp as (s & ss & Hd & Hp & ->).
    apply Forall2_cons_inv_l in Hp as (s' & ss' & Hd' & ->%Forall2_nil_inv_l & ->).
    unfold inode_rmdir_entry_thread. iApply (twp_as_dentry _ d); [done|]. by iApply twp_rmdir.
  - eapply twp_file_entry; [exact Ht|exact Hp|by compute_done|by vm_compute; lia].
  - eapply twp_file_entry; [exact Ht|exact Hp|by compute_done|by vm_compute; lia].
Qed.

(** *** The return handler *)

(** An item of the thread [t] with the program [exe] was queued. *)
Definition logged (t : task) (exe : buf) : iProp Σ :=
  ∃ wp lp dup h b, was_queued γ wp ∗ wp ↦□ OWork (mk_packed_work wp lp) ∗
    lp ↦□ OLog (mk_log_data (t_pid t) (t_tgid t) (t_uid t) (t_euid t) dup h) ∗ dup ↦□ OBuf b ∗
    ⌜c_str b = Some exe⌝.

Lemma logged_queued w t exe :
  world_ok w -∗ logged t exe -∗
  ⌜∃ q wp, g_queue (w_glob w) = tm_queue T ++ q ∧ wp ∈ q ∧ queued w wp t exe⌝.
Proof.
  iIntros "Hw (%wp & %lp & %dup & %h & %b & #Hq & #Hwp & #Hlp & #Hdup & %Hb)".
  iDestruct (queue_recorded with "Hw Hq") as %(q & Hq & Hin). iDestruct (heap_lookup with "Hw Hwp") as %[Hwp _].
  iDestruct (heap_lookup with "Hw Hlp") as %[Hlp _]. iDestruct (heap_lookup with "Hw Hdup") as %[Hdup _].
  iPureIntro. exists q, wp. split; [done|]. split; [done|]. by exists lp, dup, h, b.
Qed.

Lemma twp_write_on_log {hl} t d exe Φ :
  t_exe t = Some d → dentry_path_raw d PATH_MAX = inr exe →
  (logged t exe -∗ Φ hl tt) -∗ twp hl (part (write_on_log t)) Φ.
Proof.
  iIntros (Ht Hd) "HΦ". iApply twp_part. iIntros (w) "Hw".
  iAssert (⌜wf w⌝)%I as %Hwf; [by iDestruct "Hw" as "[$ _]"|].
  destruct (write_on_log_run t d exe w) as (w' & wp & Hr & Hle & Hg & _ & _ & Hnew);
    [done|done|done|by intros ??; apply Hmem|apply fresh_byte_zero|]. rw Hr.
  destruct Hnew as (lp & dup & h & b & Hwp & Hlp & Hdup & Hb).
  iMod (heap_queue w w' wp Hle Hg with "[] Hw") as "($ & #Hmap & #Hq)".
  { by apply lookup_difference_Some in Hwp as [_ ?]. }
  { iIntros "#Hmap". iExists lp, _, b, exe. iSplit; [by iApply (big_sepM_lookup with "Hmap")|].
    iSplit; [by iApply (big_sepM_lookup with "Hmap")|]. iSplit; [by iApply (big_sepM_lookup with "Hmap")|done]. }
  iModIntro. iSplit; [by rw Hg|]. iApply "HΦ". iExists wp, lp, dup, h, b. iFrame "Hq".
  iSplit; [by iApply (big_sepM_lookup with "Hmap")|]. iSplit; [by iApply (big_sepM_lookup with "Hmap")|].
  iSplit; [by iApply (big_sepM_lookup with "Hmap")|done].
Qed.

Lemma twp_ret_handler {hl} t d exe m text Φ :
  t_exe t = Some d → dentry_path_raw d PATH_MAX = inr exe → m ≠ NULL → no_nul text →
  m ↦ OBuf (text ++ [NUL]) -∗ (logged t exe -∗ Φ hl (- EACCES)%Z) -∗ twp hl (ret_handler_thread t m) Φ.
Proof.
  iIntros (Ht Hd Hmn Hn) "Hm HΦ". iApply twp_bind. rw decide_False; [|done].
  iApply (twp_k_print with "Hm"); [by apply c_str_app|]. iIntros "Hm".
  iApply twp_bind. iApply twp_write_on_log; [done..|]. iIntros "Hlog".
  iApply twp_bind. iApply (twp_kfree with "Hm"). iApply twp_ret. by iApply "HΦ".
Qed.

(** *** The instances of a probe *)

Section instances.
Context `{KT : !KretprobeThreads}.

(** A call with a ticket takes an instance, unless there are more calls than
    instances. *)
Lemma twp_take {hl} p Φ :
  ticket γ p -∗ (∀ b : bool, ⌜b = false → instances p < tm_calls T p⌝ -∗ Φ hl b) -∗
  twp hl (part (take_instance (instances p) p)) Φ.
Proof.
  iIntros "Ht HΦ". iApply twp_part. iIntros (w) "(%Hwf & Hm & (Hp & Hs & [[Hc (%X & HX & %Hle)] Hq] & Hrest))".
  unfold take_instance, get_glob. erewrite K_bind_Ret; [|reflexivity].
  iAssert (⌜p ∈ X⌝)%I as %Hin.
  { iCombine "HX Ht" gives %[Hsub%gmultiset_included _]%auth_both_valid_discrete. iPureIntro. multiset_solver. }
  assert (0 < multiplicity p X) as Hmul by (by apply elem_of_multiplicity).
  destruct (decide _) as [Hlt|Hge].
  - iMod (own_update_2 with "HX Ht") as "HX".
    { apply (auth_update_dealloc X {[+ p +]} (X ∖ {[+ p +]})). apply gmultiset_local_update.
      multiset_solver. }
    unfold put_glob, mbind, K_bind, mret, K_ret. iModIntro. iSplitR "HΦ".
    + iSplit; [done|]. iFrame "Hm". unfold globals_ok. simpl. iFrame "Hp Hs Hc Hq Hrest".
      iExists (X ∖ {[+ p +]}). iFrame "HX". iPureIntro. intros pr. specialize (Hle pr).
      rw multiplicity_difference. destruct (decide (pr = p)) as [->|Hne].
      * rw fn_lookup_insert multiplicity_singleton_eq. lia.
      * rw fn_lookup_insert_ne; [|done]. rw multiplicity_singleton_ne; [|done]. lia.
    + iSplit; [done|]. by iApply "HΦ".
  - iModIntro. iSplitR "HΦ".
    + iSplit; [done|]. iFrame "Hm Hp Hs Hc Hq Hrest". iExists X. by iFrame "HX".
    + iSplit; [done|]. iApply "HΦ". iPureIntro. intros _. specialize (Hle p). lia.
Qed.

Lemma twp_give {hl} p Φ : Φ hl tt -∗ twp hl (part (give_instance p)) Φ.
Proof.
  iIntros "HΦ". iApply twp_part. iIntros (w) "(%Hwf & Hm & (Hp & Hs & [[Hc (%X & HX & %Hle)] Hq] & Hrest))".
  unfold give_instance, get_glob. erewrite K_bind_Ret; [|reflexivity]. iModIntro. iFrame "HΦ". iSplit; [|done].
  iSplit; [done|]. iFrame "Hm". unfold globals_ok. simpl. iFrame "Hp Hs Hc Hq Hrest". iExists X. iFrame "HX".
  iPureIntro. intros pr. specialize (Hle pr). destruct (decide (pr = p)) as [->|Hne].
  - rw fn_lookup_insert. lia.
  - rw fn_lookup_insert_ne; [|done]. lia.
Qed.

(** *** A call *)

(** A call on a path that is protected all the time is denied and logged, when there
    are instances for all the calls of the function. *)
Definition call_answer (p : probe_id) (t : task) (paths : list buf) (exe : buf) (z : Z) : iProp Σ :=
  ⌜¬ (tm_calls T p ≤ instances p ∧ Exists must_block paths)⌝ ∨ (⌜z = (- EACCES)%Z⌝ ∗ logged t exe).

Lemma twp_call `{KTL : !KretprobeThreadLaws} p regs t f paths exe :
  call_ok p regs t f paths exe →
  ticket γ p -∗
  twp false (call_thread p regs t (part f)) (λ hl z, ⌜hl = false⌝ ∗ call_answer p t paths exe z).
Proof.
  iIntros ([(ds & Hds & Hpaths) (d & Hd & Hexe) Hf]) "Ht". iApply twp_bind. iApply twp_get_krp. iIntros (k [Hk Hen]).
  assert (∀ Φ, (∀ v, Φ false v) -∗ twp false (part f) Φ) as Hfun.
  { intros Φ. iIntros "HΦ". iApply (twp_extends with "HΦ"); [done|]. intros w Hwf _. by apply Hf. }
  destruct (kp_enabled k) eqn:Hon.
  2:{ rw thread_off; [|done]. iApply Hfun. iIntros (v). iSplit; [done|]. iLeft. iPureIntro.
      intros [_ (s & _ & _ & HB & _)%Exists_exists]. by specialize (Hen HB). }
  destruct (thread_on p k (entry_of p) regs t (part f)) as (g & -> & Hpass & Hhit); [done|apply Hk|].
  iApply twp_bind. iApply (twp_take with "Ht"). iIntros (b Hb). destruct b.
  2:{ iApply Hfun. iIntros (v). iSplit; [done|]. iLeft. iPureIntro. intros [Hle _]. specialize (Hb eq_refl). lia. }
  iApply twp_bind. iApply twp_mono; [|by iApply twp_entry]. iIntros (hl r) "[-> [H|%H]]".
  - iDestruct "H" as "(%m & %text & (-> & %Hmn & %Ht) & Hm)". rw Hhit; [|apply Hk]. iApply twp_bind.
    iApply Hfun. iIntros (v). iApply twp_bind. iApply (twp_ret_handler with "Hm"); [done..|]. iIntros "Hlog".
    iApply twp_bind. iApply twp_give. iApply twp_ret. iSplit; [done|]. iRight. by iFrame.
  - destruct H as [-> Hn]. rw Hpass; [|done]. iApply twp_bind. iApply twp_give. iApply Hfun. iIntros (v).
    iSplit; [done|]. iLeft. iPureIntro. by intros [_ ?].
Qed.
End instances.

(** The counter. *)
Lemma twp_size {hl} Φ : (∀ r, Φ hl r) -∗ twp hl size_thread Φ.
Proof. iIntros "HΦ". iApply twp_bind. iApply twp_get_rf. iIntros (r _) "_". by iApply twp_ret. Qed.
End probe_logic.
