(* ===== verification/Interleaving.v ===== *)
(** * What holds under every interleaving

    Any number of processors run system calls and calls of probed functions.
    Whatever the order in which their parts run, none of them faults, the module's
    data stays well formed, no path gets lost or invented, and a call that concerns a
    path that stays protected is denied and logged. *)

From stdpp Require Import gmultiset.
From iris.algebra Require Import auth numbers gmultiset.
From iris.proofmode Require Import proofmode.
From iris.base_logic.lib Require Import own ghost_map ghost_var.
From S2P Require Import Prelude CString Kernel Utils Blacklist Logger Kprobes Scth Monitor Security Concurrency.
From S2P Require Import ProbeThreads NodeGraph MonitorLogic ProbeLogic.

(** ** Requests *)

(** What a processor runs: one of five system calls, or a call of the function [f]
    that the probe [p] is placed on. *)
Inductive request `{VF : Vfs} :=
  | RSwitch (st : Z) (password : user_ptr) (euid : Z)
  | RGetState
  | RAdd (path password : user_ptr) (euid : Z)
  | RRemove (path password : user_ptr) (euid : Z)
  | RSize
  | RCall (p : probe_id) (regs : pt_regs) (t : task) (f : K Z).

Definition thread_of `{AL : Alloc} `{CR : Crypto} `{KA : KprobeAPI} `{VF : Vfs} `{KT : !KretprobeThreads}
    (r : request) : thread Z :=
  match r with
  | RSwitch st u euid => switch_thread st u euid
  | RGetState => get_state_thread
  | RAdd path u euid => add_thread path u euid
  | RRemove path u euid => remove_thread path u euid
  | RSize => size_thread
  | RCall p regs t f => call_thread p regs t (part f)
  end.

(** The user memory that a call reads is there and terminated (the password need not
    be the right one); the call of a probed function is in order. *)
Definition password_readable (u : user_ptr) : Prop :=
  PASSW_LEN ≤ length u ∧ is_Some (c_str (take PASSW_LEN u)).
Definition request_ok `{VF : Vfs} (r : request) : Prop :=
  match r with
  | RSwitch _ u _ => password_readable u
  | RGetState | RSize => True
  | RAdd path u _ | RRemove path u _ => password_readable u ∧ is_Some (user_path path)
  | RCall p regs t f => ∃ paths exe, call_ok p regs t f paths exe
  end.

(** The paths that some processor adds or removes, the states one switches to. *)
Definition added `{VF : Vfs} (rs : list request) (k : buf) : Prop :=
  ∃ path u euid, RAdd path u euid ∈ rs ∧ user_path path = Some k.
Definition removed `{VF : Vfs} (rs : list request) (k : buf) : Prop :=
  ∃ path u euid, RRemove path u euid ∈ rs ∧ user_path path = Some k.
Definition switched `{VF : Vfs} (rs : list request) (st : Z) : Prop :=
  (0 ≤ st ≤ 3)%Z ∧ ∃ u euid, RSwitch st u euid ∈ rs.

(** The calls of probed functions: of which ones, and how many of the one that [p] is
    placed on. *)
Definition call_probe `{VF : Vfs} (r : request) : option probe_id :=
  match r with RCall p _ _ _ => Some p | _ => None end.
Definition probed_calls `{VF : Vfs} (rs : list request) (p : probe_id) : nat :=
  multiplicity p (list_to_set_disj (omap call_probe rs)).

(** ** Adequacy *)

Definition pool_terms `{VF : Vfs} (dg : buf) (a : blacklist) (w : world) (rs : list request) (counted : Prop) : terms :=
  mk_terms dg (λ st, st = rf_state (rf w) ∨ switched rs st) (λ k, k ∈ bl_paths a ∨ added rs k)
    (λ k, k ∈ bl_paths a ∧ ¬ removed rs k) counted (g_queue (w_glob w))
    (λ p, g_active (w_glob w) p + probed_calls rs p).

(** Whether a thread has returned. *)
Definition returned {A} (t : thread A) : Prop := ∃ a, t = Done a.

(** One thread holds the lock when it is held, and none otherwise. *)
Definition one_holder (hs : list bool) (lk : bool) : Prop :=
  if lk then ∃ i, hs !! i = Some true ∧ ∀ j, hs !! j = Some true → j = i
  else ∀ i, hs !! i ≠ Some true.

Lemma one_holder_moves hs lk i hl lk' hl' :
  one_holder hs lk → hs !! i = Some hl → lock_moves lk hl lk' hl' → one_holder (<[i := hl']> hs) lk'.
Proof.
  intros Hone Hi [[-> ->]|(-> & -> & ->)]; [by rw list_insert_id|].
  pose proof (lookup_lt_Some _ _ _ Hi) as Hlt. destruct hl; simpl in *.
  - destruct Hone as (j & Hj & Huniq). intros q. destruct (decide (q = i)) as [->|Hne].
    + by rw list_lookup_insert_eq.
    + rw list_lookup_insert_ne; [|done]. intros Hq. apply Hne. by rw (Huniq q Hq) (Huniq i Hi).
  - exists i. split; [by rw list_lookup_insert_eq|]. intros q Hq. destruct (decide (q = i)) as [|Hne]; [done|].
    rw list_lookup_insert_ne in Hq; [|done]. by apply Hone in Hq.
Qed.

Section pools.
Context `{!monitorG Σ} (γ : names) (T : terms) (post : nat → Z → iProp Σ).

(** The world is in order, each thread is, and they agree on who holds the lock. *)
Definition pool_ok (c : pool) : iProp Σ :=
  world_ok γ T c.2 ∗ ∃ hs, ⌜one_holder hs (rf_lock (rf c.2))⌝ ∗
    [∗ list] i ↦ hl;t ∈ hs;c.1, twp γ T hl t (λ hl r, ⌜hl = false⌝ ∗ post i r).

Lemma pool_ok_step c c' : pool_step c c' → pool_ok c ⊢ |==> pool_ok c'.
Proof.
  intros [i B m k b ts w w' Hi Hm]. iIntros "(Hw & %hs & %Hone & Hts)". simpl in *.
  iDestruct (big_sepL2_length with "Hts") as %Hlen.
  destruct (lookup_lt_is_Some_2 hs i) as [hl Hhl]; [rw Hlen; by eapply lookup_lt_Some|].
  iDestruct (big_sepL2_insert_acc with "Hts") as "[Ht Hts]"; [done..|]. simpl.
  iMod ("Ht" with "Hw") as "H". rw Hm. iDestruct "H" as "($ & %hl' & %Hmv & Ht)". iModIntro.
  iExists (<[i := hl']> hs). iSplit; [|by iApply "Hts"]. iPureIntro. by eapply one_holder_moves.
Qed.

Lemma pool_ok_steps c c' : rtc pool_step c c' → pool_ok c ⊢ |==> pool_ok c'.
Proof.
  induction 1 as [c|c1 c2 c3 Hs _ IH]; [by iIntros "$"|].
  rw (pool_ok_step _ _ Hs). iIntros "H". iMod "H". by iApply IH.
Qed.

(** What a pool tells about its world and its threads: whether the thread runs, or
    waits for a lock that another one holds. *)
Lemma pool_ok_thread ts w i t hs :
  ts !! i = Some t →
  world_ok γ T w -∗ ([∗ list] i ↦ hl;t ∈ hs;ts, twp γ T hl t (λ hl r, ⌜hl = false⌝ ∗ post i r)) ==∗
  ⌜∃ hl, hs !! i = Some hl ∧
    match t with
    | Done r => hl = false
    | Atomic m k => (∃ b w', m w = Ret b w') ∨ (m w = Crash Deadlock ∧ hl = false ∧ rf_lock (rf w) = true)
    end⌝.
Proof.
  iIntros (Hi) "Hw Hts". iDestruct (big_sepL2_length with "Hts") as %Hlen.
  destruct (lookup_lt_is_Some_2 hs i) as [hl Hhl]; [rw Hlen; by eapply lookup_lt_Some|].
  iDestruct (big_sepL2_lookup with "Hts") as "Ht"; [done..|].
  destruct t as [r|B m k]; simpl; [iMod "Ht" as "[%Hr _]"; by iExists hl|]. iMod ("Ht" with "Hw") as "H". iModIntro.
  iExists hl. iSplit; [done|]. destruct (m w) as [b w'|f]; [by eauto|]. iDestruct "H" as %(-> & -> & Hl). by eauto.
Qed.

Lemma pool_ok_runs ts w i t : ts !! i = Some t → pool_ok (ts, w) ⊢ |==> ⌜¬ faults t w⌝.
Proof.
  iIntros (Hi) "(Hw & %hs & _ & Hts)". iMod (pool_ok_thread with "Hw Hts") as %(hl & _ & Ht); [done|].
  iPureIntro. destruct t as [r|B m k]; [by intros []|]. intros (f & Hf & Hne).
  destruct Ht as [(b & w' & Hm)|(Hm & _)]; rw Hm in Hf; [done|]. by injection Hf as <-.
Qed.

Lemma pool_ok_done ts w i r : ts !! i = Some (Done r) → pool_ok (ts, w) ⊢ |==> world_ok γ T w ∗ post i r.
Proof.
  iIntros (Hi) "($ & %hs & _ & Hts)". iDestruct (big_sepL2_length with "Hts") as %Hlen.
  destruct (lookup_lt_is_Some_2 hs i) as [hl Hhl]; [rw Hlen; by eapply lookup_lt_Some|].
  iDestruct (big_sepL2_lookup with "Hts") as "Ht"; [done..|]. by iMod "Ht" as "[_ $]".
Qed.

(** Some thread can go on, unless all have returned. *)
Lemma pool_ok_progress ts w :
  pool_ok (ts, w) ⊢ |==> ⌜Forall returned ts ∨ ∃ c, pool_step (ts, w) c⌝.
Proof.
  iIntros "(Hw & %hs & %Hone & Hts)". simpl in *. iDestruct (big_sepL2_length with "Hts") as %Hlen.
  destruct (rf_lock (rf w)) eqn:Hlk.
  - destruct Hone as (i & Hi & _). destruct (lookup_lt_is_Some_2 ts i) as [t Ht].
    { rw -Hlen. by eapply lookup_lt_Some. }
    iMod (pool_ok_thread with "Hw Hts") as %(hl & Hhl & Hrun); [done|]. iPureIntro. rw Hi in Hhl. injection Hhl as <-.
    destruct t as [r|B m k]; [done|]. destruct Hrun as [(b & w' & Hm)|(_ & Hf & _)]; [|done].
    right. eexists. by eapply pool_part.
  - destruct (decide (Forall (λ t, match t with Done _ => true | _ => false end = true) ts)) as [Hall|Hex].
    { iPureIntro. left. eapply Forall_impl; [done|]. intros [r|]; [by exists r|done]. }
    apply not_Forall_Exists, Exists_exists in Hex as (t & Hin & Hnd); [|apply _].
    apply list_elem_of_lookup in Hin as [i Hi]. destruct t as [r|B m k]; [by destruct Hnd|].
    iMod (pool_ok_thread with "Hw Hts") as %(hl & Hhl & Hrun); [done|]. iPureIntro.
    destruct Hrun as [(b & w' & Hm)|(_ & _ & Hf)]; [|congruence]. right. eexists. by eapply pool_part.
Qed.

(** The lock is free when all have returned. *)
Lemma pool_ok_free ts w : Forall returned ts → pool_ok (ts, w) ⊢ |==> ⌜rf_lock (rf w) = false⌝.
Proof.
  iIntros (Hret) "(Hw & %hs & %Hone & Hts)". simpl in *. iDestruct (big_sepL2_length with "Hts") as %Hlen.
  destruct (rf_lock (rf w)) eqn:Hlk; [|done]. destruct Hone as (i & Hi & _).
  destruct (lookup_lt_is_Some_2 ts i) as [t Ht]; [rw -Hlen; by eapply lookup_lt_Some|].
  iMod (pool_ok_thread with "Hw Hts") as %(hl & Hhl & Hrun); [done|]. iPureIntro.
  rw Forall_lookup in Hret. destruct (Hret _ _ Ht) as [z ->]. congruence.
Qed.

Lemma pool_ok_globals ts w : length (tm_digest T) = 32 → pool_ok (ts, w) ⊢
  |==> ⌜tm_state T (rf_state (rf w)) ∧ stored_digest w (tm_digest T) ∧
    (∀ pr, probe_ok T pr (g_krp (w_glob w) pr)) ∧
    mem w !! g_kprobe_array (w_glob w) = Some (OProbes kprobe_list)⌝.
Proof.
  iIntros (Hdg) "[(_ & Hm & ([%Hst %Hp] & _ & _ & _ & Hd & Ha & _)) _]".
  iDestruct (ghost_map_lookup with "Hm Hd") as %Hd. iDestruct (ghost_map_lookup with "Hm Ha") as %Ha. done.
Qed.

Lemma pool_ok_list ts w : pool_ok (ts, w) ⊢
  |==> ⌜rf_lock (rf w) = false → ∃ a, bl_rep w a ∧ (∀ k, k ∈ bl_paths a → tm_may T k) ∧
    (∀ k, tm_must T k → k ∈ bl_paths a)⌝.
Proof.
  iIntros "[Hw _]". simpl. destruct (rf_lock (rf w)) eqn:Hlk; [done|].
  iAssert (⌜wf w⌝)%I as %Hwf; [by iDestruct "Hw" as "($ & _)"|].
  iAssert (∃ h G H l, ⌜graph_in (mem w) G ∧ graph (tm_may T) (tm_must T) G H h l ∧
    h = rf_blacklist_head (rf w)⌝)%I as %(h & G & H & l & Hin & Hgr & ->).
  { iDestruct "Hw" as "(_ & Hm & (Hp & Hs & Hc & Hh & Hd & Ha & Hl))". rw Hlk.
    iDestruct "Hl" as "(%h & %z & %G & %H & %l & Hh' & HG & %Hgr & _)".
    iDestruct (ghost_var_agree with "Hs Hh'") as %[= He _].
    iDestruct (nodes_in with "Hm HG") as %Hin. iPureIntro. exists h, G, H, l. done. }
  iPureIntro. intros _. destruct (walk_chain w G _ l Hwf Hin (gr_walk _ _ _ _ _ _ Hgr)) as [Hc Hlen].
  exists (mk_blacklist l.*2 (rf_blacklist_size (rf w))).
  split; [|split; [apply Hgr|apply Hgr]]. split; [done|done|by exists l|apply Hgr|done|done].
Qed.
End pools.

(** ** The start *)

Section start.
Context `{!monitorG Σ}.

(** The heap: the nodes of the list, and the rest, which nothing changes. *)
Lemma heap_start (m : gmap ptr obj) (G : gmap ptr gnode) :
  graph_in m G → ⊢ |==> ∃ γh, ghost_map_auth γh 1 m ∗
    ([∗ map] p ↦ g ∈ G, p ↪[γh] ONode (gn_node g)) ∗
    □ ∀ p o, ⌜m !! p = Some o ∧ ∀ n, o ≠ ONode n⌝ -∗ p ↪[γh]□ o.
Proof.
  intros Hin. set (N := (λ g, ONode (gn_node g)) <$> G).
  assert (N ⊆ m) as Hsub.
  { apply map_subseteq_spec. intros p o Ho. apply lookup_fmap_Some in Ho as (g & <- & Hg). by apply Hin. }
  iMod (ghost_map_alloc m) as (γh) "[Hm Hall]". iExists γh. iFrame "Hm".
  iAssert ([∗ map] p ↦ o ∈ (N ∪ m ∖ N), p ↪[γh] o)%I with "[Hall]" as "Hall"; [by rw map_difference_union|].
  iDestruct (big_sepM_union with "Hall") as "[HN Hrest]"; [by apply map_disjoint_difference_r1|].
  iDestruct (big_sepM_fmap (λ g, ONode (gn_node g)) (λ p o, p ↪[γh] o)%I G with "HN") as "HN". iFrame "HN".
  iAssert (|==> [∗ map] p ↦ o ∈ (m ∖ N), p ↪[γh]□ o)%I with "[Hrest]" as ">#Hrest".
  { iApply big_sepM_bupd. iApply (big_sepM_impl with "Hrest"). iIntros "!>" (p o Ho) "Hp". iApply (ghost_map_elem_persist with "Hp"). }
  iIntros "!> !>" (p o [Ho Hn]). iApply (big_sepM_lookup with "Hrest"). apply lookup_difference_Some.
  split; [done|]. apply eq_None_not_Some. intros [o' Ho']. pose proof (lookup_weaken _ _ _ _ Ho' Hsub) as He.
  apply lookup_fmap_Some in Ho' as (g & <- & _). rw Ho in He. injection He as ->. by eapply Hn.
Qed.

(** One credit for each request. *)
Lemma credits_start {A} (rs : list A) :
  ⊢ |==> ∃ γc, own γc (● length rs) ∗ [∗ list] _ ∈ rs, own γc (◯ 1).
Proof.
  iMod (own_alloc (● length rs ⋅ ◯ length rs)) as (γc) "[Ha Hf]"; [by apply auth_both_valid_discrete|].
  iExists γc. iFrame "Ha". iModIntro. iInduction rs as [|r rs] "IH"; [done|].
  change (length (r :: rs)) with (1 + length rs). rw -nat_op auth_frag_op own_op.
  iDestruct "Hf" as "[$ Hf]". by iApply "IH".
Qed.

(** One ticket for each call of a probed function. *)
Lemma tickets_start (ps : list probe_id) :
  ⊢ |==> ∃ γc, own γc (● (list_to_set_disj ps : gmultiset probe_id)) ∗ [∗ list] p ∈ ps, own γc (◯ {[+ p +]}).
Proof.
  iMod (own_alloc (● (list_to_set_disj ps : gmultiset probe_id) ⋅ ◯ list_to_set_disj ps)) as (γc) "[Ha Hf]".
  { by apply auth_both_valid_discrete. }
  iExists γc. iFrame "Ha". iModIntro. iInduction ps as [|p ps] "IH"; [done|]. cbn [list_to_set_disj foldr big_opL].
  rw -gmultiset_op auth_frag_op own_op. iDestruct "Hf" as "[$ Hf]". by iApply "IH".
Qed.

Lemma world_start {A} (T : terms) (rs : list A) (ps : list probe_id) a w :
  secure (tm_digest T) a w → tm_state T (rf_state (rf w)) → tm_queue T = g_queue (w_glob w) →
  (∀ p, tm_calls T p = g_active (w_glob w) p + multiplicity p (list_to_set_disj ps)) →
  (∀ k, k ∈ bl_paths a → tm_may T k) → (∀ k, tm_must T k → k ∈ bl_paths a) →
  (tm_counted T → 1 ≤ bl_size a ∧ length (bl_paths a) ≤ bl_size a ∧ bl_size a + length rs < 2 ^ 31)%Z →
  ⊢ |==> ∃ γ, world_ok γ T w ∗ ([∗ list] _ ∈ rs, credit γ) ∗ ([∗ list] p ∈ ps, ticket γ p) ∗
    □ ∀ p o, ⌜mem w !! p = Some o ∧ ∀ n, o ≠ ONode n⌝ -∗ p ↪[γ_heap γ]□ o.
Proof.
  intros [[Hwf Hlk (l & Hc & Hl) Hnd Hlen Hsz] [_ Hdg] _ [Ha Hp Hen]] Hst Hq Hcalls Hmay Hmust Hcount.
  rw -Hl in Hnd Hlen Hmay Hmust Hcount.
  destruct (chain_walk _ _ _ Hc Hlen) as (G & Hin & Hw & Hdom).
  assert (G !! NULL = None) as Hnull.
  { apply eq_None_not_Some. intros [g Hg]. destruct (Hin _ _ Hg) as [Hm _]. by apply wf_heap_not_null in Hm. }
  iMod (heap_start (mem w) G Hin) as (γh) "(Hm & HG & #Hro)".
  iMod (@ghost_map_alloc_empty Σ ptr unit _ _ _) as (γd) "Hd".
  iMod (ghost_map_insert_persist (rf_blacklist_head (rf w)) tt with "Hd") as "[Hd #Hhead]"; [done|].
  iMod (ghost_var_alloc (rf_blacklist_head (rf w), rf_blacklist_size (rf w))) as (γl) "[Hl1 Hl2]".
  iMod (credits_start rs) as (γc) "[Hcr Hcs]". iMod (@ghost_map_alloc_empty Σ ptr unit _ _ _) as (γq) "Hq".
  iMod (tickets_start ps) as (γt) "[Ht Hts]".
  iExists (mk_names γh γd γl γc γq γt). iModIntro. iFrame "Hcs Hts". iSplitL; [|by iFrame "Hro"].
  iSplit; [done|]. iFrame "Hm". unfold globals_ok, counter. cbn [γ_credits]. rw Hlk. iFrame "Hl1 Hhead Hcr".
  iSplit. { iPureIntro. split; [done|]. intros pr. split; [done|]. intros HB. rw Hen. by apply bool_decide_eq_true_2, HB. }
  iSplitL "Hq Ht". { iSplitL "Ht".
    { iSplit; [iPureIntro; rw Hsz; intros HC; specialize (Hcount HC); lia|]. iExists _. iFrame "Ht". iPureIntro.
      intros pr. by rw Hcalls. }
    iExists [].
    cbn [γ_queue list_to_set foldr]. rw gset_to_gmap_empty. iFrame "Hq". iSplit; [done|]. iPureIntro.
    rw app_nil_r. split; [done|constructor]. }
  iSplit; [by iApply "Hro"|]. iSplit; [by iApply "Hro"|].
  iExists _, _, G, {[rf_blacklist_head (rf w)]}, l. iFrame "Hl2". iSplitL.
  - unfold nodes. cbn [γ_heads]. rw gset_to_gmap_singleton. iFrame "Hd".
    rw big_sepS_singleton. iFrame "Hhead". iApply (big_sepM_impl with "HG").
    iIntros "!>" (p g Hg) "Hp". iFrame "Hp". destruct (Hin _ _ Hg) as (_ & b & Hb & Hbt). iExists b.
    iSplit; [by iApply "Hro"|done].
  - iPureIntro. split; [|rw Hsz -(length_fmap snd l); intros HC; apply Hcount in HC; lia].
    split; [done|done|done|done| |done]. intros p ->%elem_of_singleton. by exists l.
Qed.
End start.

(** ** The requests *)

Section requests.
Context `{AL : Alloc} `{CR : Crypto} `{CL : !CryptoLaws} `{VF : Vfs} `{VL : !VfsLaws} `{KA : KprobeAPI}
  `{KL : !KprobeLaws} `{IA : !InitOnAlloc} `{KT : !KretprobeThreads} `{KTL : !KretprobeThreadLaws}.
Context (Hmem : ∀ n, kmalloc_ok n = true) (Hcrypto : ∀ n, crypto_up n).
Context (dg : buf) (a : blacklist) (rs : list request) (w : world) (counted : Prop).
Context (Hsec : secure dg a w) (Hok : Forall request_ok rs).
Context (Hcount : counted →
  (length (bl_paths a) ≤ bl_size a ∧ bl_size a + length rs < 2 ^ 31)%Z ∧ ∃ k, k ∈ bl_paths a ∧ ¬ removed rs k).
#[local] Abbreviation T := (pool_terms dg a w rs counted).

(** A call of a probed function on a protected path is denied and logged. *)
Definition answer `{!monitorG Σ} (γ : names) (r : request) (z : Z) : iProp Σ :=
  match r with
  | RCall p regs t f => ∀ paths exe, ⌜call_ok p regs t f paths exe⌝ -∗ call_answer γ T p t paths exe z
  | _ => True
  end.

Lemma pool_terms_ok : terms_ok T.
Proof.
  split; simpl.
  - apply Hsec.
  - intros st [->|[Hst _]]; [apply Hsec|done].
  - intros HC. destruct (Hcount HC) as [_ Hk]. done.
Qed.

(** Two descriptions of a call agree. *)
Lemma short_paths_det ds paths paths' :
  Forall2 short_path ds paths → Forall2 short_path ds paths' → paths' = paths.
Proof.
  intros Hp. revert paths'. induction Hp as [|d s ds paths [Hd _] _ IH]; intros paths' Hp'.
  - by apply Forall2_nil_inv_l in Hp'.
  - apply Forall2_cons_inv_l in Hp' as (s' & ss & [Hd' _] & Hp' & ->). rw (IH _ Hp'). congruence.
Qed.

Lemma call_ok_det p regs t f paths exe paths' exe' :
  call_ok p regs t f paths exe → call_ok p regs t f paths' exe' → paths' = paths ∧ exe' = exe.
Proof.
  intros [(ds & Hds & Hp) (d & Hd & He) _] [(ds' & Hds' & Hp') (d' & Hd' & He') _].
  rw Hds in Hds'. injection Hds' as <-. rw Hd in Hd'. injection Hd' as <-. rw He in He'. injection He' as <-.
  split; [|done]. by eapply short_paths_det.
Qed.

Lemma twp_request `{!monitorG Σ} γ r :
  r ∈ rs → credit γ -∗ (if call_probe r is Some p then ticket γ p else True) -∗
  twp γ T false (thread_of r) (λ hl z, ⌜hl = false⌝ ∗ answer γ r z).
Proof.
  iIntros (Hr) "Hcr Ht". pose proof pool_terms_ok as HT.
  pose proof (proj1 (Forall_forall _ _) Hok r Hr) as Hrok.
  destruct r as [st u euid| |path u euid|path u euid| |p regs t f]; simpl in Hrok; cbn [thread_of].
  - destruct Hrok as [Hlen [pw Hpw]]. iApply twp_switch; [done..| |by auto]. intros Hst. right.
    split; [done|]. by exists u, euid.
  - iApply twp_get_state; [done..|]. by auto.
  - destruct Hrok as [[Hlen [pw Hpw]] [k Hk]]. iApply (twp_mono _ _ _ _ (λ hl _, ⌜hl = false⌝)%I); [by auto|].
    iApply (twp_add with "Hcr"); [done..|]. right. by exists path, u, euid.
  - destruct Hrok as [[Hlen [pw Hpw]] [k Hk]]. iApply (twp_mono _ _ _ _ (λ hl _, ⌜hl = false⌝)%I); [by auto|].
    iApply twp_remove; [done..|]. intros [_ Hn]. apply Hn. by exists path, u, euid.
  - iApply twp_size. by auto.
  - destruct Hrok as (paths & exe & Hcall). iApply (twp_mono with "[]"); [|by iApply (twp_call with "Ht")].
    iIntros (hl z) "[$ Hz]". iIntros (paths' exe' Hcall').
    by destruct (call_ok_det _ _ _ _ _ _ _ _ Hcall Hcall') as [-> ->].
Qed.

Definition pool_answers `{!monitorG Σ} (γ : names) (i : nat) (z : Z) : iProp Σ :=
  match rs !! i with Some r => answer γ r z | None => True end.

Lemma pool_start `{!monitorG Σ} : ⊢ |==> ∃ γ, pool_ok γ T (pool_answers γ) (thread_of <$> rs, w).
Proof.
  iMod (world_start T rs (omap call_probe rs) a w) as (γ) "(Hw & Hcr & Ht & _)".
  - done.
  - by left.
  - done.
  - done.
  - by left.
  - by intros k [? _].
  - simpl. intros HC. destruct (Hcount HC) as [[H1 H2] (k & Hk & _)].
    split; [|done]. destruct (bl_paths a); [by apply not_elem_of_nil in Hk|]. simpl in H1. lia.
  - iModIntro. iExists γ. iFrame "Hw". iExists (replicate (length rs) false). iSplit.
    { iPureIntro. rw (rep_lock _ _ (sec_rep _ _ _ Hsec)). intros i Hi. by apply lookup_replicate in Hi as [? _]. }
    rw big_sepL2_fmap_r big_sepL2_replicate_l; [|done]. rw big_sepL_omap.
    iCombine "Hcr Ht" as "Hcr". rw -big_sepL_sep. iApply (big_sepL_impl with "Hcr").
    iIntros "!>" (i r Hi) "[Hcr Ht]". unfold pool_answers. rw Hi.
    iApply (twp_request with "Hcr Ht"). by eapply list_elem_of_lookup_2.
Qed.

(** What follows from every reachable pool holds. *)
Lemma pool_sound (φ : Prop) ts w' :
  rtc pool_step (thread_of <$> rs, w) (ts, w') →
  (∀ `{!monitorG Σ} γ, pool_ok γ T (pool_answers γ) (ts, w') ⊢ |==> ⌜φ⌝) → φ.
Proof.
  intros Hsteps Hφ. apply (pure_soundness (PROP := iPropI monitorΣ)). apply uPred.bupd_soundness; [apply _|].
  iMod pool_start as (γ) "H". iMod (pool_ok_steps _ _ _ _ _ Hsteps with "H") as "H". by iApply Hφ.
Qed.
End requests.

(** ** Runs end *)

(** What a thread is after its next part. *)
Definition after {A} (t t' : thread A) : Prop :=
  match t with Done _ => False | Atomic m k => ∃ b, t' = k b end.

Lemma thread_sn {A} (t : thread A) : sn after t.
Proof. induction t as [a|B m k IH]; constructor; [by intros ? []|]. by intros t' [b ->]. Qed.

(** One of the threads runs its next part. *)
Definition one_after (ts ts' : list (thread Z)) : Prop :=
  ∃ i t t', ts !! i = Some t ∧ after t t' ∧ ts' = <[i := t']> ts.

Lemma one_after_sn ts : sn one_after ts.
Proof.
  induction ts as [|t ts IH]; [constructor; intros ? (i & t & t' & Hi & _); by destruct i|].
  pose proof (thread_sn t) as Ht. revert ts IH.
  induction Ht as [t _ IHt]. intros ts Hts. pose proof Hts as Hts'. induction Hts as [ts _ IHts].
  constructor. intros ? ([|i] & u & u' & Hi & Hu & ->); simpl in *.
  - injection Hi as ->. by apply IHt.
  - apply IHts; [by exists i, u, u'|]. apply (Acc_inv Hts'). by exists i, u, u'.
Qed.

Lemma pool_step_after c c' : pool_step c c' → one_after c.1 c'.1.
Proof. intros [i B m k b ts w w' Hi Hm]. exists i, (Atomic m k), (k b). split; [done|]. split; [by exists b|done]. Qed.

(** There is no infinite run. *)
Lemma pool_sn c : sn pool_step c.
Proof.
  destruct c as [ts w]. pose proof (one_after_sn ts) as Hts. revert w. induction Hts as [ts _ IH]. intros w.
  constructor. intros [ts' w'] Hs. apply IH. by apply (pool_step_after (ts, w) (ts', w')).
Qed.

(** ** Properties *)

Section interleaving_properties.
Context `{AL : Alloc} `{CR : Crypto} `{CL : !CryptoLaws} `{VF : Vfs} `{VL : !VfsLaws} `{KA : KprobeAPI}
  `{KL : !KprobeLaws} `{IA : !InitOnAlloc} `{KT : !KretprobeThreads} `{KTL : !KretprobeThreadLaws}.

(** There is a run in which all return. *)
Lemma all_return dg a rs w :
  (∀ n, kmalloc_ok n = true) → (∀ n, crypto_up n) → secure dg a w → Forall request_ok rs →
  ∃ ts w', rtc pool_step (thread_of <$> rs, w) (ts, w') ∧ Forall returned ts ∧ length ts = length rs.
Proof.
  intros Hmem Hc Hsec Hok.
  assert (∀ c, sn pool_step c → rtc pool_step (thread_of <$> rs, w) c →
    ∃ ts w', rtc pool_step (thread_of <$> rs, w) (ts, w') ∧ Forall returned ts) as Hend.
  { induction 1 as [[ts w'] _ IH]. intros Hrun.
    pose proof (pool_sound Hmem Hc dg a rs w False Hsec Hok (λ f, match f with end)
      (Forall returned ts ∨ ∃ c, pool_step (ts, w') c) ts w' Hrun) as Hp.
    destruct Hp as [Hret|[c Hs]]; [intros Σ ? γ; apply pool_ok_progress|by exists ts, w'|].
    apply (IH c Hs). by eapply rtc_r. }
  destruct (Hend _ (pool_sn _) (rtc_refl _ _)) as (ts & w' & Hrun & Hret). exists ts, w'.
  split; [done|]. split; [done|].
  assert (∀ c c', rtc pool_step c c' → length c'.1 = length c.1) as Hlen.
  { induction 1 as [|c1 c2 c3 Hs _ IH]; [done|]. rw IH. destruct Hs. by apply length_insert. }
  apply Hlen in Hrun. simpl in Hrun. by rw length_fmap in Hrun.
Qed.

(** The state, the digest, the probes and the list after any run. *)
Lemma interleaved_monitor dg a rs w ts w' :
  (∀ n, kmalloc_ok n = true) → (∀ n, crypto_up n) → secure dg a w → Forall request_ok rs →
  rtc pool_step (thread_of <$> rs, w) (ts, w') →
  (rf_state (rf w') = rf_state (rf w) ∨ switched rs (rf_state (rf w'))) ∧
  stored_digest w' dg ∧
  (∀ pr, probe_set true pr (g_krp (w_glob w') pr)) ∧
  (rf_lock (rf w') = false → ∃ a', bl_rep w' a' ∧
     (∀ k, k ∈ bl_paths a' → k ∈ bl_paths a ∨ added rs k) ∧
     (∀ k, k ∈ bl_paths a → ¬ removed rs k → k ∈ bl_paths a')).
Proof.
  intros Hmem Hc Hsec Hok Hrun.
  pose proof (λ φ, pool_sound Hmem Hc dg a rs w False Hsec Hok (λ f, match f with end) φ ts w' Hrun) as Hsound.
  assert (length dg = 32) as Hdg by apply Hsec.
  pose proof (Hsound _ (λ _ _ γ, pool_ok_globals γ
    (pool_terms dg a w rs False) _ ts w' Hdg)) as (Hst & Hd & Hp & _).
  split; [done|]. split; [done|]. split; [intros pr; apply Hp|]. intros Hlk.
  destruct (Hsound _ (λ _ _ γ, pool_ok_list γ _ _ ts w') Hlk) as (a' & Hrep & Hmay & Hmust).
  exists a'. split; [done|]. split; [done|]. intros k Hk Hn. by apply Hmust.
Qed.

(** C6. Any number of processors run switches, reads of the state and of the counter,
    additions, removals and calls of the ten probed functions, from a world in order,
    with memory and hashing available and with terminated arguments.  Whatever the
    interleaving, no processor faults; the state is the first one or one that was
    asked for, the digest is kept, the probes stay registered; and whenever the lock
    is free the list is well formed, without duplicates, has only paths that were
    there or that a processor adds, and every path that was there and that no
    processor removes. *)
Theorem interleaving_safe dg a rs w ts w' :
  (∀ n, kmalloc_ok n = true) → (∀ n, crypto_up n) → secure dg a w → Forall request_ok rs →
  rtc pool_step (thread_of <$> rs, w) (ts, w') →
  Forall (λ t, ¬ faults t w') ts ∧
  (rf_state (rf w') = rf_state (rf w) ∨ switched rs (rf_state (rf w'))) ∧
  stored_digest w' dg ∧
  (∀ pr, probe_set true pr (g_krp (w_glob w') pr)) ∧
  (rf_lock (rf w') = false → ∃ a', bl_rep w' a' ∧
     (∀ k, k ∈ bl_paths a' → k ∈ bl_paths a ∨ added rs k) ∧
     (∀ k, k ∈ bl_paths a → ¬ removed rs k → k ∈ bl_paths a')).
Proof.
  intros Hmem Hc Hsec Hok Hrun. split; [|by eapply (interleaved_monitor dg a rs w ts w')].
  apply Forall_forall. intros t [i Hi]%list_elem_of_lookup.
  apply (pool_sound Hmem Hc dg a rs w False Hsec Hok (λ f, match f with end) _ ts w' Hrun).
  intros Σ ? γ. by eapply pool_ok_runs.
Qed.

(** The way a processor is denied: the call returns -EACCES, and its log item is
    queued after what was in the queue before. *)
Lemma call_denied dg a rs w ts w' i p regs t f paths exe k path z :
  (∀ n, kmalloc_ok n = true) → (∀ n, crypto_up n) → secure dg a w → Forall request_ok rs →
  (length (bl_paths a) ≤ bl_size a ∧ bl_size a + length rs < 2 ^ 31)%Z →
  rf_state (rf w) = RF_ON ∨ rf_state (rf w) = RF_REC_ON →
  (∀ st, switched rs st → st = RF_ON ∨ st = RF_REC_ON) →
  rs !! i = Some (RCall p regs t f) → call_ok p regs t f paths exe →
  g_active (w_glob w) p + probed_calls rs p ≤ instances p →
  k ∈ bl_paths a → ¬ removed rs k → path ∈ paths → matches k path →
  rtc pool_step (thread_of <$> rs, w) (ts, w') → ts !! i = Some (Done z) →
  z = (- EACCES)%Z ∧ ∃ q wp, g_queue (w_glob w') = g_queue (w_glob w) ++ q ∧ wp ∈ q ∧ queued w' wp t exe.
Proof.
  intros Hmem Hc Hsec Hok Hsz Hst Hsw Hi Hcall Hinst Hk Hn Hpath Hm Hrun Hz.
  assert (True → (length (bl_paths a) ≤ bl_size a ∧ bl_size a + length rs < 2 ^ 31)%Z ∧
    ∃ k, k ∈ bl_paths a ∧ ¬ removed rs k) as Hcount by eauto.
  apply (pool_sound Hmem Hc dg a rs w True Hsec Hok Hcount _ ts w' Hrun). intros Σ ? γ.
  iIntros "H". iMod (pool_ok_done with "H") as "[Hw Hans]"; [done|]. iModIntro.
  unfold pool_answers. rw Hi. iDestruct ("Hans" with "[//]") as "[%Hno|[-> Hlog]]".
  - exfalso. apply Hno. split; [done|]. apply Exists_exists. exists path. split; [done|]. split; [done|]. split; [|by exists k].
    intros st [->|Hs]; [done|by apply Hsw].
  - iSplit; [done|]. iApply (logged_queued with "Hw Hlog").
Qed.

(** When all have returned the lock is free. *)
Lemma returned_free dg a rs w ts w' :
  (∀ n, kmalloc_ok n = true) → (∀ n, crypto_up n) → secure dg a w → Forall request_ok rs →
  rtc pool_step (thread_of <$> rs, w) (ts, w') → Forall returned ts → rf_lock (rf w') = false.
Proof.
  intros Hmem Hc Hsec Hok Hrun Hret.
  apply (pool_sound Hmem Hc dg a rs w False Hsec Hok (λ f, match f with end) _ ts w' Hrun).
  intros Σ ? γ. by apply pool_ok_free.
Qed.

(** What the processors queued: log items, each once. *)
Lemma interleaved_items dg a rs w ts w' :
  (∀ n, kmalloc_ok n = true) → (∀ n, crypto_up n) → secure dg a w → Forall request_ok rs →
  rtc pool_step (thread_of <$> rs, w) (ts, w') →
  wf w' ∧ ∃ q es, g_queue (w_glob w') = g_queue (w_glob w) ++ q ∧ NoDup q ∧
    Forall2 (λ p e, queued w' p e.1 e.2) q es.
Proof.
  intros Hmem Hc Hsec Hok Hrun.
  apply (pool_sound Hmem Hc dg a rs w False Hsec Hok (λ f, match f with end) _ ts w' Hrun). intros Σ ? γ.
  iIntros "[Hw _] !>". iSplit; [by iDestruct "Hw" as "[% _]"|]. iApply (queue_items with "Hw").
Qed.

(** C7. A path that is protected and that no processor removes is never missed: as
    long as the monitor is in a state that blocks and no processor switches it to
    another one, a call of any of the ten probed functions that concerns a path below
    it returns -EACCES, and its log item, with the identifiers of the thread and the
    path of its program, is in the queue, whatever additions, removals of other paths
    and calls run at the same time; although the handler reads the head of the list
    before it takes the lock.  The probe has to have an instance for each call of its
    function at the same time (a call without one is missed); and the counter, which a
    removal in the middle does not decrement, has to cover the list and not to
    overflow. *)
Theorem interleaving_protects dg a rs w ts w' i p regs t f paths exe k path z :
  (∀ n, kmalloc_ok n = true) → (∀ n, crypto_up n) → secure dg a w → Forall request_ok rs →
  (length (bl_paths a) ≤ bl_size a ∧ bl_size a + length rs < 2 ^ 31)%Z →
  rf_state (rf w) = RF_ON ∨ rf_state (rf w) = RF_REC_ON →
  (∀ st, switched rs st → st = RF_ON ∨ st = RF_REC_ON) →
  rs !! i = Some (RCall p regs t f) → call_ok p regs t f paths exe →
  g_active (w_glob w) p + probed_calls rs p ≤ instances p →
  k ∈ bl_paths a → ¬ removed rs k → path ∈ paths → matches k path →
  rtc pool_step (thread_of <$> rs, w) (ts, w') → ts !! i = Some (Done z) →
  z = (- EACCES)%Z ∧ ∃ wp, wp ∈ g_queue (w_glob w') ∧ queued w' wp t exe.
Proof.
  intros. edestruct call_denied as (? & q & wp & -> & Hin & Hq); [eassumption..|].
  split; [done|]. exists wp. split; [set_solver|done].
Qed.

(** C8. Every request is answered: there is no infinite run, and a run in which not
    all processors have returned can go on, so the lock is never left held and no
    loop goes on for ever. *)
Theorem interleaving_finishes dg a rs w :
  (∀ n, kmalloc_ok n = true) → (∀ n, crypto_up n) → secure dg a w → Forall request_ok rs →
  sn pool_step (thread_of <$> rs, w) ∧
  ∀ ts w', rtc pool_step (thread_of <$> rs, w) (ts, w') →
    Forall returned ts ∨ ∃ c, pool_step (ts, w') c.
Proof.
  intros Hmem Hc Hsec Hok. split; [apply pool_sn|]. intros ts w' Hrun.
  apply (pool_sound Hmem Hc dg a rs w False Hsec Hok (λ f, match f with end) _ ts w' Hrun).
  intros Σ ? γ. apply pool_ok_progress.
Qed.
End interleaving_properties.
