(* ===== verification/Syscall.v ===== *)
(** * System calls from user space

    A system call of a user program goes through the system call table: the
    number selects an entry, the entry the function that runs.  Once the module
    has installed its functions the six numbers of client.h and user.h lead to
    them. *)

From S2P Require Import Prelude CString Kernel Utils Blacklist Logger Kprobes Scth Monitor Security.

(** ** Numbers (client/client.h and reference-monitor/user/user.h, from 4.17 on) *)

Definition SWITCH_STATE : Z := 134.
Definition GET_RF_STATE : Z := 156.
Definition ADD_TO_BLACKLIST : Z := 174.
Definition REMOVE_FROM_BLACKLIST : Z := 177.
Definition PRINT_BLACKLIST : Z := 178.
Definition GET_BLACKLIST_SIZE : Z := 180.

(** The entries these numbers stand for, in the order of [new_sys_calls]. *)
Definition client_slots : list nat := [134; 156; 174; 177; 178; 180].

(** ** Arguments *)

(** An argument of [syscall]: an integer, the address of bytes to read, or the
    address of a buffer with room for a number of bytes. *)
Inductive arg := AInt (z : Z) | APtr (u : user_ptr) | AOut (room : nat).

(** The [i]-th argument as an [int], a string and an output buffer.  A call with
    arguments of another kind is not considered. *)
Definition arg_int (args : list arg) (i : nat) : option Z :=
  match args !! i with Some (AInt z) => Some (int32 z) | _ => None end.
Definition arg_ptr (args : list arg) (i : nat) : option user_ptr :=
  match args !! i with Some (APtr u) => Some u | _ => None end.
Definition arg_out (args : list arg) (i : nat) : option nat :=
  match args !! i with Some (AOut n) => Some n | _ => None end.

#[export] Instance syscall_id_eq_dec : EqDecision syscall_id.
Proof. solve_decision. Defined.

(** The functions of the module have different addresses. *)
Class LinkedLaws `{LK : Linked} : Prop := { address_of_inj :: Inj (=) (=) address_of }.

(** The functions of the rest of the kernel, by address: the result and the
    bytes stored in the caller's buffer. *)
Class OtherCalls := { other_call : Z → list arg → K (Z * buf) }.

Section dispatch.
Context `{AL : Alloc} `{CR : Crypto} `{KA : KprobeAPI} `{LK : Linked} `{ST : Stack} `{SL : Slab}
  `{OC : OtherCalls}.

(** The system calls of the module, called by a task with effective user [euid]. *)
Definition run_call (id : syscall_id) (args : list arg) (euid : Z) : K (Z * buf) :=
  match id with
  | switch_rf_state =>
      st ← of_opt WildAccess (arg_int args 0);
      u ← of_opt WildAccess (arg_ptr args 1);
      z ← sys_switch_rf_state st u euid; mret (z, [])
  | get_rf_state => z ← sys_get_rf_state; mret (z, [])
  | add_blacklist =>
      path ← of_opt WildAccess (arg_ptr args 0);
      u ← of_opt WildAccess (arg_ptr args 1);
      z ← sys_add_to_blacklist path u euid; mret (z, [])
  | remove_blacklist =>
      path ← of_opt WildAccess (arg_ptr args 0);
      u ← of_opt WildAccess (arg_ptr args 1);
      z ← sys_remove_from_blacklist path u euid; mret (z, [])
  | print_blacklist =>
      room ← of_opt WildAccess (arg_out args 0);
      n ← of_opt WildAccess (arg_int args 1);
      sys_print_blacklist room n
  | get_blacklist_size => z ← sys_get_blacklist_size; mret (z, [])
  end.

(** The system call with number [nr]. *)
Definition dispatch (nr : Z) (args : list arg) (euid : Z) : K (Z * buf) :=
  s ← get_sys;
  if decide (nr < 0)%Z then mret ((- ENOSYS)%Z, []) else
  match st_entries s !! Z.to_nat nr with
  | None => mret ((- ENOSYS)%Z, [])
  | Some v =>
      match list_find (λ id, address_of id = v) syscall_ids with
      | Some (_, id) => run_call id args euid
      | None => other_call v args
      end
  end.

(** A call with two arguments. *)
Lemma decoded_inv {A B C} f (o : option A) (o' : option B) (m : A → B → K C) r w w' :
  (x ← of_opt f o; y ← of_opt f o'; m x y) w = Ret r w' → ∃ x y, m x y w = Ret r w'.
Proof. destruct o as [x|]; [|done]. destruct o' as [y|]; [|done]. by exists x, y. Qed.

(** ** The numbers lead to the functions of the module *)

Lemma dispatch_slot `{LL : !LinkedLaws} words sl ni i k id args euid w :
  installed words sl ni (g_sys (w_glob w)) → Forall (λ j, j < length words) sl →
  sl !! i = Some k → syscall_ids !! i = Some id →
  dispatch (Z.of_nat k) args euid w = run_call id args euid w.
Proof.
  intros Hin Hb Hk Hid. unfold dispatch, get_sys, get_glob. erewrite K_bind_Ret by reflexivity.
  rewrite decide_False by lia. rewrite Nat2Z.id, (in_entries _ _ _ _ Hin).
  assert (update_slots sl new_sys_calls words !! k = Some (address_of id)) as ->.
  { eapply update_slots_slot; [apply Hin|exact Hk| |].
    - change new_sys_calls with (address_of <$> syscall_ids). by rewrite list_lookup_fmap, Hid.
    - rewrite Forall_lookup in Hb. by eapply Hb. }
  assert (list_find (λ id', address_of id' = address_of id) syscall_ids = Some (i, id)) as ->; [|done].
  apply list_find_Some. split; [done|]. split; [done|]. intros j id' Hj Hlt Heq%(inj address_of).
  subst id'. eapply (NoDup_lookup syscall_ids) in Hid; [|by compute_done|exact Hj]. lia.
Qed.
End dispatch.

Section errors.
Context `{AL : Alloc} `{CR : Crypto} `{CL : !CryptoLaws} `{VF : Vfs} `{VL : !VfsLaws} `{LF : LogFile}
  `{KA : KprobeAPI} `{KL : !KprobeLaws} `{LK : Linked} `{ST : Stack} `{SL : Slab} `{IA : !InitOnAlloc}.

Lemma extends_unchanged dg a w w' (P : Prop) :
  secure dg a w → extends w w' →
  secure dg a w' ∧ g_sys (w_glob w') = g_sys (w_glob w) ∧ (rf_state (rf w') = rf_state (rf w) ∨ P).
Proof.
  intros Hsec He. split; [by eapply secure_extends|]. rewrite (extends_glob _ _ He). split; [done|by left].
Qed.

End errors.

(** ** Properties *)

Section syscall_properties.
Context `{AL : Alloc} `{CR : Crypto} `{CL : !CryptoLaws} `{VF : Vfs} `{VL : !VfsLaws} `{LF : LogFile}
  `{KA : KprobeAPI} `{KL : !KprobeLaws} `{LK : Linked} `{ST : Stack} `{SL : Slab} `{IA : !InitOnAlloc}.

(** C13. A call that returns an error has changed neither the state, nor the protected
    paths, nor the probes, nor the system call table, whatever the error, the
    arguments and the caller; except a switch by root with the right password that
    returns -ENOMEM, which may have reached the state asked for.  Memory is zeroed when
    it is allocated. *)
Theorem errors_change_nothing id args euid dg a z out w w' :
  secure dg a w → run_call id args euid w = Ret (z, out) w' → (z < 0)%Z →
  secure dg a w' ∧ g_sys (w_glob w') = g_sys (w_glob w) ∧
  (rf_state (rf w') = rf_state (rf w) ∨
   id = switch_rf_state ∧ z = (- ENOMEM)%Z ∧ euid = 0%Z ∧
   ∃ st u, arg_int args 0 = Some st ∧ arg_ptr args 1 = Some u ∧ knows dg u ∧ rf_state (rf w') = st).
Proof.
  intros Hsec Hr Hz. assert (wf w) as Hwf by apply Hsec.
  destruct id; cbn [run_call] in Hr.
  - destruct (arg_int args 0) as [st|] eqn:Hst; [|done]. destruct (arg_ptr args 1) as [u|] eqn:Hu; [|done].
    do 2 erewrite K_bind_Ret in Hr by reflexivity. apply bind_Ret_inv in Hr as (z' & w3 & H3 & [= -> <- ->]).
    destruct (switch_step _ _ _ _ _ _ _ _ Hsec H3) as (Hs & Hsys & [He|(Hk & He & Hst' & Hrf & Hzz)]).
    + split; [done|]. split; [done|]. left. by rewrite (extends_glob _ _ He).
    + split; [done|]. split; [done|]. right. split; [done|]. split; [lia|]. split; [done|]. by exists st, u.
  - apply bind_Ret_inv in Hr as (z' & w3 & H3 & [= -> <- ->]).
    by eapply extends_unchanged, (keeps_sys_get_rf_state w Hwf w z w').
  - apply decoded_inv in Hr as (path & u & (z' & w3 & H3 & [= -> <- ->])%bind_Ret_inv).
    destruct (add_step _ _ _ _ _ _ _ _ Hsec H3) as (a' & Hs & Hlf & [->|(_ & -> & _)]); [|done].
    split; [done|]. split; [by apply list_frame_sys|]. left. by apply list_frame_state.
  - apply decoded_inv in Hr as (path & u & (z' & w3 & H3 & [= -> <- ->])%bind_Ret_inv).
    destruct (remove_step _ _ _ _ _ _ _ _ Hsec H3) as (a' & Hs & Hlf & [->|(_ & -> & _)]); [|done].
    split; [done|]. split; [by apply list_frame_sys|]. left. by apply list_frame_state.
  - apply decoded_inv in Hr as (room & n & H3).
    by eapply extends_unchanged, (keeps_sys_print w Hwf room n w (z, out) w').
  - apply bind_Ret_inv in Hr as (z' & w3 & H3 & [= -> <- ->]). injection H3 as _ <-. by eapply extends_unchanged.
Qed.
End syscall_properties.
