(* ===== verification/Stdio.v ===== *)
(** * The C library of the user programs

    The process of a user program (standard input and output, errno, the system
    it runs on) and its monad: a run returns, faults, never ends, or crashes the
    kernel.  Standard input is the bytes that will be read; then the end of file,
    for ever.  [scanf], [strtok] and [strtol] are functions of the bytes. *)

From S2P Require Import Prelude CString Kernel Syscall.

Create HintDb eats.

(** ** Bytes *)

Definition LF : ascii := ascii_of_nat 10.
Definition DEL : ascii := ascii_of_nat 127.
Definition quote : buf := [ascii_of_nat 34].

(** A line of text, as it is typed or printed. *)
Definition line (s : buf) : buf := s ++ [LF].

(** [isspace] *)
Definition is_space (c : ascii) : bool :=
  let n := N_of_ascii c in (n =? 32)%N || ((9 <=? n) && (n <=? 13))%N.

Fixpoint drop_space (b : buf) : buf :=
  match b with
  | [] => []
  | c :: b' => if is_space c then drop_space b' else b
  end.

(** The longest prefix of bytes for which [f] holds, at most [n] of them. *)
Fixpoint span (f : ascii → bool) (n : nat) (b : buf) : buf * buf :=
  match n, b with
  | S n', c :: b' => if f c then let '(s, r) := span f n' b' in (c :: s, r) else ([], b)
  | _, _ => ([], b)
  end.

(** ** Numbers *)

(** The value of a digit or a letter. *)
Definition digit_val (c : ascii) : option Z :=
  let n := Z.of_N (N_of_ascii c) in
  if decide (48 ≤ n ≤ 57)%Z then Some (n - 48)%Z else
  if decide (97 ≤ n ≤ 122)%Z then Some (n - 87)%Z else
  if decide (65 ≤ n ≤ 90)%Z then Some (n - 55)%Z else None.

Definition is_digit (base : Z) (c : ascii) : bool :=
  match digit_val c with Some d => (d <? base)%Z | None => false end.

Definition digits_val (base : Z) (ds : buf) : Z :=
  foldl (λ n c, (n * base + default 0 (digit_val c))%Z) 0%Z ds.

Definition LONG_MAX : Z := (2 ^ 63 - 1)%Z.

(** A number that does not fit in a [long] becomes the nearest one. *)
Definition clamp64 (z : Z) : Z := Z.max (- 2 ^ 63) (Z.min LONG_MAX z).

Definition sign (b : buf) : bool * buf :=
  match b with
  | c :: b' => if decide (c = "-"%char) then (true, b')
               else if decide (c = "+"%char) then (false, b') else (false, b)
  | [] => (false, [])
  end.

Definition signed (neg : bool) (z : Z) : Z := clamp64 (if neg then - z else z)%Z.

(** [strtol(s, NULL, 0)]: the prefix selects the base. *)
Definition strtol0 (s : buf) : Z :=
  let '(neg, s) := sign (drop_space s) in
  let '(base, s) :=
    match s with
    | z :: x :: d :: s' =>
        if decide (z = "0"%char) then
          if decide ((x = "x"%char ∨ x = "X"%char) ∧ is_digit 16 d = true) then (16%Z, d :: s')
          else (8%Z, s)
        else (10%Z, s)
    | z :: _ => if decide (z = "0"%char) then (8%Z, s) else (10%Z, s)
    | [] => (10%Z, s)
    end in
  let '(ds, _) := span (is_digit base) (length s) s in
  signed neg (digits_val base ds).

(** ** scanf *)

(** ["%d"]: the number, unless there is none, and the input left. *)
Definition scan_int (b : buf) : option Z * buf :=
  let '(neg, b) := sign (drop_space b) in
  let '(ds, rest) := span (is_digit 10) (length b) b in
  match ds with
  | [] => (None, rest)
  | _ => (Some (int32 (signed neg (digits_val 10 ds))), rest)
  end.

(** ["%s"] *)
Definition scan_word (b : buf) : option buf * buf :=
  let b := drop_space b in
  let '(s, rest) := span (λ c, negb (is_space c)) (length b) b in
  match s with [] => (None, rest) | _ => (Some s, rest) end.

(** [" %1023[^\n]"] *)
Definition scan_line (b : buf) : option buf * buf :=
  let '(s, rest) := span (λ c, bool_decide (c ≠ LF)) 1023 (drop_space b) in
  match s with [] => (None, rest) | _ => (Some s, rest) end.

(** ** strtok *)

Definition space : ascii := " "%char.

Fixpoint drop_blank (s : buf) : buf :=
  match s with
  | [] => []
  | c :: s' => if decide (c = space) then drop_blank s' else s
  end.

(** [strtok(s, " ")]: the token and what follows its delimiter. *)
Definition strtok (s : buf) : option (buf * buf) :=
  let s := drop_blank s in
  let '(tok, rest) := span (λ c, bool_decide (c ≠ space)) (length s) s in
  match tok with [] => None | _ => Some (tok, tail rest) end.

(** ** The process *)

(** The system a program runs on: its system calls, [access(path, F_OK) == 0] and
    the commands given to [system]. *)
Class Sys (S : Type) := {
  sys_call : Z → list arg → S → fault + (Z * buf) * S;
  sys_access : buf → S → bool;
  sys_command : buf → S → S;
}.

(** The library and the terminal: messages of errno, the bytes from the address
    given by the [n]-th [malloc(size)] on (NULL when there is none), the answers
    of [tcgetattr] and of the two [tcsetattr], and the bytes that follow the last
    argument of the program. *)
Class Libc := {
  strerror : Z → buf;
  user_malloc : nat → Z → option buf;
  tcgetattr_ok : bool;
  tcset_new_ok : bool;
  tcset_old_ok : bool;
  after_argv : buf;
}.

Record proc (S : Type) := mk_proc {
  p_in : buf;        (* standard input, from the next byte on *)
  p_out : buf;       (* standard output *)
  p_err : buf;       (* standard error *)
  p_errno : Z;
  p_mallocs : nat;   (* calls of malloc so far *)
  p_sys : S;
}.
Arguments mk_proc {_} _ _ _ _ _ _.
Arguments p_in {_} _.
Arguments p_out {_} _.
Arguments p_err {_} _.
Arguments p_errno {_} _.
Arguments p_mallocs {_} _.
Arguments p_sys {_} _.

(** Ways a run ends without a result: a fault of the program, a loop that never
    ends, a crash of the kernel. *)
Inductive stop := Fault (f : fault) | Spin | Panic (f : fault).

Definition U (S A : Type) : Type := proc S → stop + A * proc S.

#[export] Instance U_ret {S} : MRet (U S) := λ A a p, inr (a, p).
#[export] Instance U_bind {S} : MBind (U S) := λ A B k m p,
  match m p with inr (a, p') => k a p' | inl e => inl e end.

Section stdio.
Context {S : Type} `{SY : !Sys S} `{LC : Libc}.
Implicit Types p : proc S.

Definition u_stop {A} (e : stop) : U S A := λ _, inl e.
Definition u_opt {A} (f : fault) (o : option A) : U S A :=
  match o with Some a => mret a | None => u_stop (Fault f) end.

Definition with_in (b : buf) p : proc S :=
  mk_proc b (p_out p) (p_err p) (p_errno p) (p_mallocs p) (p_sys p).
Definition with_out (s : buf) p : proc S :=
  mk_proc (p_in p) (p_out p ++ s) (p_err p) (p_errno p) (p_mallocs p) (p_sys p).
Definition with_err (s : buf) p : proc S :=
  mk_proc (p_in p) (p_out p) (p_err p ++ s) (p_errno p) (p_mallocs p) (p_sys p).
Definition with_errno (e : Z) p : proc S :=
  mk_proc (p_in p) (p_out p) (p_err p) e (p_mallocs p) (p_sys p).
Definition with_sys (s : S) p : proc S :=
  mk_proc (p_in p) (p_out p) (p_err p) (p_errno p) (p_mallocs p) s.

Definition printf (s : buf) : U S unit := λ p, inr (tt, with_out s p).
Definition eprintf (s : buf) : U S unit := λ p, inr (tt, with_err s p).
Definition puts (s : buf) : U S unit := printf (line s).
Definition errno : U S Z := λ p, inr (p_errno p, p).
Definition errno_text : U S buf := λ p, inr (strerror (p_errno p), p).

(** [malloc]: the address as the bytes from it on. *)
Definition malloc (size : Z) : U S (option buf) := λ p,
  inr (user_malloc (p_mallocs p) size,
       mk_proc (p_in p) (p_out p) (p_err p) (p_errno p) (Datatypes.S (p_mallocs p)) (p_sys p)).

(** A conversion of [scanf]. *)
Definition scanf {A} (scan : buf → A * buf) : U S A := λ p,
  let '(a, rest) := scan (p_in p) in inr (a, with_in rest p).

Definition access (path : buf) : U S bool := λ p, inr (sys_access path (p_sys p), p).
Definition system (command : buf) : U S unit := λ p,
  inr (tt, with_sys (sys_command command (p_sys p)) p).

(** [syscall(nr, ...)]: results from -4095 to -1 are error numbers. *)
Definition syscall (nr : Z) (args : list arg) : U S (Z * buf) := λ p,
  match sys_call nr args (p_sys p) with
  | inl f => inl (Panic f)
  | inr ((z, out), s) =>
      if decide (-4095 ≤ z ≤ -1)%Z then inr (((-1)%Z, out), with_errno (- z) (with_sys s p))
      else inr ((int32 z, out), with_sys s p)
  end.

(** The macro [FFLUSH]: [while(getchar() != '\n')]; at the end of the file it does
    not end. *)
Fixpoint after_line (b : buf) : option buf :=
  match b with
  | [] => None
  | c :: b' => if decide (c = LF) then Some b' else after_line b'
  end.
Definition FFLUSH : U S unit := λ p,
  match after_line (p_in p) with Some b => inr (tt, with_in b p) | None => inl Spin end.

(** The macro [PRESS_ANY_KEY]: [while(!getchar()){}] *)
Fixpoint after_key (b : buf) : buf :=
  match b with
  | [] => []
  | c :: b' => if decide (c = NUL) then after_key b' else b'
  end.
Definition get_key : U S unit := λ p, inr (tt, with_in (after_key (p_in p)) p).
Definition PRESS_ANY_KEY : U S unit := puts (lit "Press ENTER to continue") ;; get_key.
End stdio.

(** ** Runs consume their input *)

Section eats.
Context {S : Type} `{SY : !Sys S} `{LC : Libc}.

(** A run of [m] that returns has read at least [k] bytes. *)
Definition eats {A} (k : nat) (m : U S A) : Prop :=
  ∀ p a p', m p = inr (a, p') → length (p_in p') + k ≤ length (p_in p).

Lemma U_bind_inr {A B} (m : U S A) (f : A → U S B) p a p' :
  m p = inr (a, p') → (m ≫= f) p = f a p'.
Proof. intros H. unfold mbind, U_bind. by rewrite H. Qed.

Lemma U_bind_inv {A B} (m : U S A) (f : A → U S B) p b p' :
  (m ≫= f) p = inr (b, p') → ∃ a p1, m p = inr (a, p1) ∧ f a p1 = inr (b, p').
Proof. unfold mbind, U_bind. destruct (m p) as [|[a p1]]; [done|]. eauto. Qed.

Lemma eats_ret {A} (a : A) : eats 0 (mret a).
Proof. intros p b p' [= <- <-]. lia. Qed.

Lemma eats_stop {A} e k : eats k (@u_stop S A e).
Proof. by intros p a p'. Qed.

Lemma eats_bind {A B} j k (m : U S A) (f : A → U S B) :
  eats j m → (∀ a, eats k (f a)) → eats (j + k) (m ≫= f).
Proof.
  intros Hm Hf p b p' (a & p1 & H1 & H2)%U_bind_inv. apply Hm in H1. apply Hf in H2. lia.
Qed.

Lemma eats_bind0 {A B} k (m : U S A) (f : A → U S B) :
  eats 0 m → (∀ a, eats k (f a)) → eats k (m ≫= f).
Proof. intros Hm Hf. by apply (eats_bind 0 k). Qed.

Lemma eats_weaken {A} j k (m : U S A) : eats j m → k ≤ j → eats k m.
Proof. intros Hm Hk p a p' H. apply Hm in H. lia. Qed.

Lemma eats_opt {A} f (o : option A) : eats 0 (@u_opt S A f o).
Proof. destruct o; [apply eats_ret|apply eats_stop]. Qed.

Lemma eats_keep {A} (m : U S A) : (∀ p a p', m p = inr (a, p') → p_in p' = p_in p) → eats 0 m.
Proof. intros H p a p' Hm. rewrite (H p a p' Hm). lia. Qed.

Lemma eats_printf s : eats 0 (@printf S s).
Proof. apply eats_keep. by intros p a p' [= <- <-]. Qed.
Lemma eats_eprintf s : eats 0 (@eprintf S s).
Proof. apply eats_keep. by intros p a p' [= <- <-]. Qed.
Lemma eats_puts s : eats 0 (@puts S s).
Proof. apply eats_printf. Qed.
Lemma eats_errno : eats 0 (@errno S).
Proof. apply eats_keep. by intros p a p' [= <- <-]. Qed.
Lemma eats_errno_text : eats 0 (errno_text (S := S)).
Proof. apply eats_keep. by intros p a p' [= <- <-]. Qed.
Lemma eats_malloc z : eats 0 (malloc (S := S) z).
Proof. apply eats_keep. by intros p a p' [= <- <-]. Qed.
Lemma eats_access s : eats 0 (access s).
Proof. apply eats_keep. by intros p a p' [= <- <-]. Qed.
Lemma eats_system s : eats 0 (system s).
Proof. apply eats_keep. by intros p a p' [= <- <-]. Qed.
Lemma eats_syscall nr args : eats 0 (syscall nr args).
Proof.
  apply eats_keep. intros p a p'. unfold syscall.
  destruct (sys_call nr args (p_sys p)) as [|[[z out] s]]; [done|]. case_decide; by intros [= <- <-].
Qed.

Lemma after_line_length b r : after_line b = Some r → length r < length b.
Proof.
  induction b as [|c b IH]; [done|]. simpl. case_decide; [intros [= <-]; lia|].
  intros Hb%IH. lia.
Qed.
Lemma eats_FFLUSH : eats 1 (@FFLUSH S).
Proof.
  intros p a p'. unfold FFLUSH. destruct (after_line _) as [r|] eqn:Hr; [|done].
  intros [= <- <-]. apply after_line_length in Hr. simpl. lia.
Qed.
Lemma eats_FFLUSH0 : eats 0 (@FFLUSH S).
Proof. eapply eats_weaken; [apply eats_FFLUSH|lia]. Qed.

Lemma after_key_length b : length (after_key b) ≤ length b.
Proof. induction b as [|c b IH]; [done|]. simpl. case_decide; simpl; lia. Qed.
Lemma eats_PRESS_ANY_KEY : eats 0 (@PRESS_ANY_KEY S).
Proof.
  apply eats_bind0; [apply eats_puts|]. intros [] p a p' [= <- <-].
  pose proof (after_key_length (p_in p)). simpl. lia.
Qed.

(** [scanf] followed by the use of what it has read. *)
Lemma eats_scanf {A} (scan : buf → A * buf) :
  (∀ b, length (scan b).2 ≤ length b) → eats 0 (scanf (S := S) scan).
Proof.
  intros Hs p a p'. unfold scanf. specialize (Hs (p_in p)). destruct (scan (p_in p)) as [x r].
  intros [= <- <-]. simpl in *. lia.
Qed.

Lemma eats_scanf_some {A B} (scan : buf → option A * buf) e (f : A → U S B) :
  (∀ b a r, scan b = (Some a, r) → length r < length b) → (∀ a, eats 0 (f a)) →
  eats 1 (scanf scan ≫= λ o, u_opt e o ≫= f).
Proof.
  intros Hs Hf p b p' (o & p1 & H1 & (a & p2 & H2 & H3)%U_bind_inv)%U_bind_inv.
  unfold scanf in H1. destruct (scan (p_in p)) as [x r] eqn:Hx. injection H1 as -> <-.
  destruct o as [a'|]; [|done]. injection H2 as -> <-. apply Hs in Hx. apply Hf in H3. simpl in *. lia.
Qed.

(** *** Lengths of what is scanned *)

Lemma drop_space_length b : length (drop_space b) ≤ length b.
Proof. induction b as [|c b IH]; [done|]. simpl. case_match; simpl; lia. Qed.

Lemma span_app f n b s r : span f n b = (s, r) → b = s ++ r.
Proof.
  revert n s r. induction b as [|c b IH]; intros [|n] s r; simpl; try by intros [= <- <-].
  case_match; [|by intros [= <- <-]]. destruct (span f n b) as [s' r'] eqn:Hs.
  intros [= <- <-]. simpl. f_equal. by eapply IH.
Qed.

Lemma sign_length b : length (sign b).2 ≤ length b.
Proof. destruct b as [|c b]; [done|]. simpl. repeat case_decide; simpl; lia. Qed.

(** The three conversions leave a shorter input when they succeed. *)
Lemma scan_int_length b : length (scan_int b).2 ≤ length b ∧
  ∀ z r, scan_int b = (Some z, r) → length r < length b.
Proof.
  unfold scan_int. pose proof (drop_space_length b). pose proof (sign_length (drop_space b)) as Hs.
  destruct (sign (drop_space b)) as [neg b']. simpl in Hs.
  destruct (span (is_digit 10) (length b') b') as [ds rest] eqn:Hd. apply span_app in Hd as ->.
  rewrite length_app in Hs. destruct ds as [|c ds]; simpl in *; [by split; [lia|]|].
  split; [lia|]. intros z r [= _ <-]. lia.
Qed.

Lemma scan_word_length b : length (scan_word b).2 ≤ length b.
Proof.
  unfold scan_word. pose proof (drop_space_length b). cbv zeta. destruct (span _ _ _) as [s r] eqn:Hs.
  apply span_app in Hs. rewrite Hs, length_app in *. destruct s; simpl in *; lia.
Qed.

Lemma scan_line_length b s r : scan_line b = (Some s, r) → length r < length b.
Proof.
  unfold scan_line. pose proof (drop_space_length b). destruct (span _ _ _) as [s' r'] eqn:Hs.
  apply span_app in Hs. rewrite Hs, length_app in *. destruct s'; [done|].
  intros [= <- <-]. simpl in *. lia.
Qed.
End eats.

#[export] Hint Resolve eats_ret eats_stop eats_opt eats_printf eats_eprintf eats_puts eats_errno
  eats_errno_text eats_malloc eats_access eats_system eats_syscall eats_FFLUSH0
  eats_PRESS_ANY_KEY : eats.

(** Goals [eats 0 m]: along the structure of [m]. *)
Ltac eating :=
  repeat first
    [ solve [eauto with eats]
    | apply eats_bind0; [|intros ?]
    | match goal with
      | |- eats 0 (match ?x with _ => _ end) => destruct x
      | |- eats 0 (let '(_, _) := ?x in _) => destruct x
      end ].

(** ** What runs do to the system *)

Section obeys.
Context {S : Type} `{SY : !Sys S} `{LC : Libc} (R : relation S) `{HR : !PreOrder R}.

(** A run of [m] that returns takes the system along [R]. *)
Definition obeys {A} (m : U S A) : Prop :=
  ∀ p a p', m p = inr (a, p') → R (p_sys p) (p_sys p').

Lemma obeys_bind {A B} (m : U S A) (f : A → U S B) :
  obeys m → (∀ a, obeys (f a)) → obeys (m ≫= f).
Proof.
  intros Hm Hf p b p' (a & p1 & H1 & H2)%U_bind_inv. etransitivity; [by eapply Hm|by eapply Hf].
Qed.

Lemma obeys_keep {A} (m : U S A) : (∀ p a p', m p = inr (a, p') → p_sys p' = p_sys p) → obeys m.
Proof. intros Hk p a p' Hm. by rewrite (Hk p a p' Hm). Qed.

Lemma obeys_ret {A} (a : A) : obeys (mret a).
Proof. apply obeys_keep. by intros p b p' [= <- <-]. Qed.
Lemma obeys_stop {A} e : obeys (@u_stop S A e).
Proof. by intros p a p'. Qed.
Lemma obeys_opt {A} f (o : option A) : obeys (u_opt f o).
Proof. destruct o; [apply obeys_ret|apply obeys_stop]. Qed.
Lemma obeys_printf s : obeys (printf s).
Proof. apply obeys_keep. by intros p b p' [= <- <-]. Qed.
Lemma obeys_eprintf s : obeys (eprintf s).
Proof. apply obeys_keep. by intros p b p' [= <- <-]. Qed.
Lemma obeys_puts s : obeys (puts s).
Proof. apply obeys_printf. Qed.
Lemma obeys_errno : obeys errno.
Proof. apply obeys_keep. by intros p b p' [= <- <-]. Qed.
Lemma obeys_errno_text : obeys errno_text.
Proof. apply obeys_keep. by intros p b p' [= <- <-]. Qed.
Lemma obeys_malloc z : obeys (malloc z).
Proof. apply obeys_keep. by intros p b p' [= <- <-]. Qed.
Lemma obeys_scanf {A} (scan : buf → A * buf) : obeys (scanf scan).
Proof.
  apply obeys_keep. intros p b p'. unfold scanf. destruct (scan (p_in p)). by intros [= <- <-].
Qed.
Lemma obeys_FFLUSH : obeys FFLUSH.
Proof. apply obeys_keep. intros p b p'. unfold FFLUSH. case_match; [by intros [= <- <-]|done]. Qed.
Lemma obeys_PRESS_ANY_KEY : obeys PRESS_ANY_KEY.
Proof. apply obeys_keep. by intros p b p' [= <- <-]. Qed.

Lemma obeys_syscall nr args :
  (∀ s r s', sys_call nr args s = inr (r, s') → R s s') → obeys (syscall nr args).
Proof.
  intros Hc p b p'. unfold syscall. destruct (sys_call nr args (p_sys p)) as [|[[z out] s]] eqn:He; [done|].
  apply Hc in He. case_decide; by intros [= <- <-].
Qed.
Lemma obeys_system cmd : (∀ s, R s (sys_command cmd s)) → obeys (system cmd).
Proof. intros Hc p b p' [= <- <-]. apply Hc. Qed.
End obeys.

Create HintDb obeys.
#[export] Hint Resolve obeys_ret obeys_stop obeys_opt obeys_printf obeys_eprintf obeys_puts obeys_errno
  obeys_errno_text obeys_malloc obeys_scanf obeys_FFLUSH obeys_PRESS_ANY_KEY : obeys.

(** Goals [obeys R m]: along the structure of [m]. *)
Ltac obeying :=
  repeat first
    [ solve [eauto with obeys]
    | apply (obeys_bind _); [|intros ?]
    | match goal with
      | |- obeys _ (match ?x with _ => _ end) => destruct x
      | |- obeys _ (let '(_, _) := ?x in _) => destruct x
      end ].

(** ** Runs that return *)

Section wp.
Context {S : Type} `{SY : !Sys S} `{LC : Libc}.
Implicit Types p : proc S.

(** The run of [m] returns, with a result and a process that satisfy [Q]. *)
Definition wp {A} (m : U S A) (Q : A → proc S → Prop) p : Prop :=
  ∃ a p', m p = inr (a, p') ∧ Q a p'.

(** The same input to read and the same system. *)
Definition same_io p p' : Prop := p_in p' = p_in p ∧ p_sys p' = p_sys p.

#[export] Instance same_io_equiv : Equivalence same_io.
Proof. split; [by intros p|intros p q []; by split|intros p q r [] []; split; congruence]. Qed.

Lemma wp_ret {A} (a : A) Q p : Q a p → wp (mret a) Q p.
Proof. intros HQ. by exists a, p. Qed.

Lemma wp_bind {A B} (m : U S A) (f : A → U S B) Q p :
  wp m (λ a, wp (f a) Q) p → wp (m ≫= f) Q p.
Proof.
  intros (a & p1 & H1 & b & p2 & H2 & HQ). exists b, p2. split; [|done].
  by rewrite (U_bind_inr _ _ _ _ _ H1).
Qed.

Lemma wp_mono {A} (m : U S A) (Q Q' : A → proc S → Prop) p :
  wp m Q p → (∀ a p', Q a p' → Q' a p') → wp m Q' p.
Proof. intros (a & p' & Hm & HQ) HQ'. exists a, p'. eauto. Qed.

Lemma wp_quiet {A} (m : U S A) Q p a p' :
  m p = inr (a, p') → same_io p p' → (∀ q, same_io p q → Q a q) → wp m Q p.
Proof. intros Hm Hq HQ. exists a, p'. eauto. Qed.

Lemma wp_printf s Q p : (∀ q, same_io p q → Q tt q) → wp (printf s) Q p.
Proof. intros HQ. by eapply (wp_quiet _ _ _ _ _ eq_refl). Qed.
Lemma wp_eprintf s Q p : (∀ q, same_io p q → Q tt q) → wp (eprintf s) Q p.
Proof. intros HQ. by eapply (wp_quiet _ _ _ _ _ eq_refl). Qed.
Lemma wp_puts s Q p : (∀ q, same_io p q → Q tt q) → wp (puts s) Q p.
Proof. apply wp_printf. Qed.
Lemma wp_errno_text Q p : (∀ s q, same_io p q → Q s q) → wp errno_text Q p.
Proof. intros HQ. eapply (wp_quiet _ _ _ _ _ eq_refl); [done|apply HQ]. Qed.

Lemma wp_opt {A} e (o : option A) Q p a : o = Some a → Q a p → wp (u_opt e o) Q p.
Proof. intros -> HQ. by apply wp_ret. Qed.

Lemma wp_scanf {A} (scan : buf → A * buf) Q p a r :
  scan (p_in p) = (a, r) → (∀ q, p_in q = r → p_sys q = p_sys p → Q a q) → wp (scanf scan) Q p.
Proof. intros Hs HQ. exists a, (with_in r p). unfold scanf. rewrite Hs. eauto. Qed.

Lemma wp_FFLUSH s r Q p :
  LF ∉ s → p_in p = s ++ LF :: r → (∀ q, p_in q = r → p_sys q = p_sys p → Q tt q) → wp FFLUSH Q p.
Proof.
  intros Hs Hp HQ. exists tt, (with_in r p). unfold FFLUSH. rewrite Hp. split; [|by apply HQ].
  assert (after_line (s ++ LF :: r) = Some r) as ->; [|done]. clear Hp HQ.
  induction s as [|c s IH]; [done|]. cbn [app after_line]. apply not_elem_of_cons in Hs as [Hc Hs].
  rewrite decide_False by done. by apply IH.
Qed.

Lemma wp_PRESS_ANY_KEY c r Q p :
  c ≠ NUL → p_in p = c :: r → (∀ q, p_in q = r → p_sys q = p_sys p → Q tt q) → wp PRESS_ANY_KEY Q p.
Proof.
  intros Hc Hp HQ. apply wp_bind, wp_puts. intros q [Hq Hs].
  exists tt, (with_in r q). unfold get_key. rewrite Hq, Hp. cbn [after_key]. rewrite decide_False by done.
  split; [done|]. by apply HQ.
Qed.

Lemma wp_access path Q p : Q (sys_access path (p_sys p)) p → wp (access path) Q p.
Proof. intros HQ. by exists (sys_access path (p_sys p)), p. Qed.

Lemma wp_system cmd Q p :
  (∀ q, p_in q = p_in p → p_sys q = sys_command cmd (p_sys p) → Q tt q) → wp (system cmd) Q p.
Proof. intros HQ. exists tt. eexists. split; [reflexivity|]. by apply HQ. Qed.

(** A system call that succeeds, and one that fails. *)
Lemma wp_syscall nr args z out s Q p :
  sys_call nr args (p_sys p) = inr ((z, out), s) → (0 ≤ z < 2 ^ 31)%Z →
  (∀ q, p_in q = p_in p → p_sys q = s → Q (z, out) q) → wp (syscall nr args) Q p.
Proof.
  intros Hc Hz HQ. exists (z, out), (with_sys s p). unfold syscall. rewrite Hc.
  rewrite decide_False by lia. rewrite int32_small by lia. split; [done|by apply HQ].
Qed.

Lemma wp_syscall_err nr args e out s Q p :
  sys_call nr args (p_sys p) = inr (((- e)%Z, out), s) → (1 ≤ e ≤ 4095)%Z →
  (∀ q, p_in q = p_in p → p_sys q = s → p_errno q = e → Q ((-1)%Z, out) q) → wp (syscall nr args) Q p.
Proof.
  intros Hc He HQ. exists ((-1)%Z, out), (with_errno e (with_sys s p)). unfold syscall. rewrite Hc.
  rewrite decide_True by lia. rewrite Z.opp_involutive. split; [done|by apply HQ].
Qed.

Lemma wp_errno Q p : Q (p_errno p) p → wp errno Q p.
Proof. intros HQ. by exists (p_errno p), p. Qed.
End wp.

(** One step of a run along the structure of the program. *)
Ltac ustep :=
  first
    [ apply wp_bind
    | apply wp_puts; intros ? [? ?]
    | apply wp_printf; intros ? [? ?]
    | apply wp_eprintf; intros ? [? ?]
    | apply wp_errno_text; intros ? ? [? ?]
    | apply wp_ret ].

(** ** What is typed *)

Lemma span_all f n s r :
  forallb f s = true → length s ≤ n → (match r with c :: _ => f c | [] => false end) = false →
  span f n (s ++ r) = (s, r).
Proof.
  intros Hs Hn Hr. revert n Hn. induction s as [|c s IH]; intros n Hn.
  - destruct r as [|c r]; [by destruct n|]. destruct n; [done|]. simpl. by rewrite Hr.
  - simpl in *. apply andb_true_iff in Hs as [Hc Hs]. destruct n as [|n]; [lia|].
    cbn [app span]. rewrite Hc. by rewrite IH by (done || lia).
Qed.

(** A digit on a line, possibly after the end of the line before. *)
Lemma scan_int_digit c d r :
  digit_val c = Some d → (0 ≤ d ≤ 9)%Z → scan_int (LF :: c :: LF :: r) = (Some d, LF :: r) ∧
  scan_int (c :: LF :: r) = (Some d, LF :: r).
Proof.
  intros Hd Hr.
  assert (is_space c = false ∧ c ≠ "-"%char ∧ c ≠ "+"%char) as (Hsp & Hm & Hp).
  { unfold digit_val in Hd. destruct c as [[] [] [] [] [] [] [] []]; by vm_compute in Hd. }
  assert (is_digit 10 c = true) as Hdig by (unfold is_digit; rewrite Hd; apply Z.ltb_lt; lia).
  assert (scan_int (c :: LF :: r) = (Some d, LF :: r)) as H1.
  { unfold scan_int. cbn [drop_space]. rewrite Hsp. cbn [sign].
    rewrite !decide_False by done.
    rewrite (span_all (is_digit 10) _ [c] (LF :: r)) by (simpl; rewrite ?Hdig; (done || lia)).
    unfold digits_val. cbn [foldl]. rewrite Hd. cbn [default].
    assert (signed false (0 * 10 + d) = d) as Hv.
    { unfold signed, clamp64, LONG_MAX. cbv iota. rewrite Z.min_r, Z.max_r by lia. lia. }
    unfold from_option, id. rewrite Hv, int32_small by lia. done. }
  split; [|done]. rewrite <- H1. reflexivity.
Qed.

(** A word on the line after. *)
Lemma scan_word_line s r :
  s ≠ [] → forallb (λ c, negb (is_space c)) s = true → scan_word (LF :: s ++ LF :: r) = (Some s, LF :: r).
Proof.
  intros Hne Hs. unfold scan_word. cbv zeta.
  change (drop_space (LF :: s ++ LF :: r)) with (drop_space (s ++ LF :: r)).
  destruct s as [|c s]; [done|].
  assert (drop_space ((c :: s) ++ LF :: r) = (c :: s) ++ LF :: r) as ->.
  { simpl in *. by destruct (is_space c). }
  rewrite span_all; [done|done|rewrite length_app; lia|done].
Qed.
