(* ===== verification/Client.v ===== *)
(** * The client (client/client.c)

    The text menu over the six system calls: one definition per function, and
    [main] as a machine whose labels are those of the code.  It runs on any system
    that has the interface [Sys]; what the monitor promises to it is the class
    [MonitorSpec] below. *)

From S2P Require Import Prelude CString Kernel Logger Syscall Stdio.

(** ** Constants (client.h) *)

Definition EXIT_VALUE : Z := 9999.
Definition HOME_VALUE : Z := 8888.
Definition WRONG_EUID_VALUE : Z := 7777.
Definition MAX_PASS_LEN : nat := 32.
Definition EXIT_SUCCESS : Z := 0.
Definition EXIT_FAILURE : Z := 1.

(** [struct mod_info]; the number is uninitialised until it is assigned. *)
Record mod_info := mk_mod_info { mod_number : option Z; mod_command : buf }.
Definition sizeof_mod_info : Z := 20.
Definition sizeof_command : nat := 16.

(** The constant lines of the menus. *)
Definition frame_text : buf :=
  lit "=========================================================================".
Definition title_text : buf :=
  lit "=                   STACK1 REFERENCE MONITOR GUI                        =".
Definition blank_text : buf :=
  lit "=                                                                       =".

Section client.
Context {S : Type} `{SY : !Sys S} `{LC : Libc}.

(** The [switch] on a state with the [printf] after it; [state_string] is
    uninitialised in the default case. *)
Definition print_state (ret : Z) : U S unit :=
  state_string ← u_opt UninitRead
    (if decide (ret = RF_ON) then Some (lit "ON") else
     if decide (ret = RF_OFF) then Some (lit "OFF") else
     if decide (ret = RF_REC_ON) then Some (lit "REC_ON") else
     if decide (ret = RF_REC_OFF) then Some (lit "REC_OFF") else None);
  puts (lit "Reference monitor state is set to " ++ state_string).

(** ** The system calls *)

Definition change_state (rf_state : Z) (password : buf) : U S Z :=
  if decide (rf_state < 0 ∧ 3 < rf_state)%Z then mret EXIT_FAILURE else
  r ← syscall SWITCH_STATE [AInt rf_state; APtr password];
  let ret := r.1 in
  if decide (ret = -1)%Z then
    e ← errno;
    msg ← errno_text;
    if decide (e = EACCES) then puts (msg ++ lit ": Invalid Password") ;; mret HOME_VALUE else
    if decide (e = EPERM) then
      puts (msg ++ lit ": Client should be in EUID root mode") ;; mret WRONG_EUID_VALUE
    else puts (lit "Unexpected error: " ++ msg) ;; mret ret
  else print_state ret ;; mret EXIT_SUCCESS.

Definition get_rf_state : U S Z :=
  r ← syscall GET_RF_STATE [];
  let ret := r.1 in
  if decide (ret = -1)%Z then
    msg ← errno_text; puts (msg ++ lit ": Unexpected error") ;; mret EXIT_FAILURE
  else print_state ret ;; mret ret.

(** The C string at the start of a buffer, as [printf] reads it. *)
Definition text_of (b : buf) : U S buf := u_opt Overrun (c_str b).

Definition add_to_blacklist (path password : buf) : U S Z :=
  r ← syscall ADD_TO_BLACKLIST [APtr path; APtr password];
  let ret := r.1 in
  if decide (ret = -1)%Z then
    msg ← errno_text; printf [LF] ;; puts (msg ++ lit ": Unexpected error") ;; mret EXIT_FAILURE
  else
    s ← text_of path; printf [LF] ;; puts (s ++ lit " succesfully added to blacklist") ;; mret ret.

Definition remove_from_blacklist (path password : buf) : U S Z :=
  r ← syscall REMOVE_FROM_BLACKLIST [APtr path; APtr password];
  let ret := r.1 in
  if decide (ret = -1)%Z then
    msg ← errno_text; printf [LF] ;; puts (msg ++ lit ": Unexpected error") ;; mret EXIT_FAILURE
  else
    s ← text_of path;
    printf [LF] ;;
    (if decide (ret = 1%Z) then puts (lit "Path " ++ s ++ lit " not found in blacklist")
     else puts (s ++ lit " succesfully removed from blacklist")) ;;
    mret ret.

(** The size is computed as a [size_t].  Bytes that the system call stores past
    the end of the allocation destroy the heap. *)
Definition print_blacklist : U S unit :=
  r ← syscall GET_BLACKLIST_SIZE [];
  let ret := r.1 in
  if decide (ret = -1)%Z then
    msg ← errno_text; puts (msg ++ lit ": Unexpected error")
  else
    let blacklist_size := ret in
    let bytes := uint64 (uint64 blacklist_size * 4096) in
    blacklist ← malloc bytes;
    r ← syscall PRINT_BLACKLIST [AOut (length (default [] blacklist)); AInt blacklist_size];
    let '(ret, stored) := r in
    if decide (ret = -1)%Z then
      msg ← errno_text; puts (msg ++ lit ": Unexpected error")
    else
      b ← u_opt NullDeref blacklist;
      if decide (bytes < Z.of_nat (length stored))%Z then u_stop (Fault Overrun) else
      b' ← u_opt Overrun (write_at b 0 stored);
      s ← text_of b';
      printf s.

(** ** The menus *)

Definition get_function_number : U S Z :=
  rf_state ← get_rf_state;
  system (lit "clear") ;;
  puts frame_text ;; puts title_text ;; puts blank_text ;;
  puts (lit "= 1 - Change reference monitor state                                    =") ;;
  puts (lit "= 2 - Get reference monitor state                                       =") ;;
  (if decide (rf_state = 2 ∨ rf_state = 3)%Z then
     puts (lit "= 3 - Add a file or path to the blacklist                               =") ;;
     puts (lit "= 4 - Remove a file or path to the blacklist                            =") ;;
     puts (lit "= 5 - Print blacklist                                                   =") ;;
     puts (lit "= 6 - Exit                                                              =")
   else
     puts (lit "= 3 - Exit                                                              =")) ;;
  puts blank_text ;; puts frame_text ;;
  printf (LF :: lit "Choose an option: ") ;;
  n ← scanf scan_int;
  input_number ← u_opt UninitRead n;
  input_number ←
    (if decide (input_number < 1)%Z then
       puts (lit "Error: Invalid choice for function selection") ;; PRESS_ANY_KEY ;; mret (-1)%Z
     else mret input_number);
  if decide (input_number = 3 ∧ (rf_state = 0 ∨ rf_state = 1))%Z then mret EXIT_VALUE else
  if decide (input_number = 6 ∧ (rf_state = 2 ∨ rf_state = 3))%Z then mret EXIT_VALUE else
  mret input_number.

(** The screen of the modules, and whether they are all loaded. *)
Definition module_screen : U S bool :=
  discoverer_module ← access (lit "/sys/module/the_usctm");
  fs_module ← access (lit "/sys/module/singlefilefs");
  rf_module ← access (lit "/sys/module/the_stack_reference_monitor");
  let all := discoverer_module && fs_module && rf_module in
  system (lit "clear") ;;
  puts frame_text ;; puts title_text ;; puts blank_text ;;
  (if discoverer_module : bool
   then puts (lit "= MODULE 1: Systemcall Table Discoverer (the_usctm) is ON               =")
   else puts (lit "= MODULE 1: Systemcall Table Discoverer (the_usctm) is OFF              =")) ;;
  (if fs_module : bool
   then puts (lit "= MODULE 2: Filesystem (singlefilefs) is ON                             =")
   else puts (lit "= MODULE 2: Filesystem (singlefilefs) is OFF                            =")) ;;
  (if rf_module : bool
   then puts (lit "= MODULE 3: Reference Monitor (the_stack_reference_monitor) is ON       =")
   else puts (lit "= MODULE 3: Reference Monitor (the_stack_reference_monitor) is OFF      =")) ;;
  puts blank_text ;; puts frame_text ;;
  printf (LF :: lit "Type " ++ quote ++ lit "install/remove <mod_number>" ++ quote ++
          line (lit " to modify this setting")) ;;
  (if all : bool
   then puts (lit "Type " ++ quote ++ lit "home" ++ quote ++ lit " to interact with the system")
   else mret tt) ;;
  puts (lit "Type " ++ quote ++ lit "exit" ++ quote ++ lit " to shut down the application") ;;
  mret all.

(** The tests on the command: the value to return and the module number. *)
Definition module_command (all : bool) (command rest : buf) : U S (Z * option Z) :=
  if decide (command = lit "exit") then mret (EXIT_VALUE, None) else
  if decide (all = true ∧ command = lit "home") then mret (HOME_VALUE, None) else
  if decide (command ≠ lit "install" ∧ command ≠ lit "remove") then
    puts (lit "Error: Invalid command " ++ command ++
          (if all then lit ", should be install/remove, exit or home"
           else lit ", should be install/remove or exit")) ;;
    FFLUSH ;; PRESS_ANY_KEY ;; mret ((-1)%Z, None)
  else
    tok ← u_opt NullDeref (strtok rest);
    let n := int32 (strtol0 tok.1) in
    if decide (n < 1 ∨ 3 < n)%Z then
      puts (lit "Error: Invalid module number, should be 1,2 or 3") ;;
      PRESS_ANY_KEY ;; mret ((-1)%Z, Some n)
    else mret (0%Z, Some n).

(** The line is read into an array of 256 bytes; the command is copied up to
    [sizeof(command)], the size of a pointer. *)
Definition display_module_info (mi : mod_info) : U S (Z * mod_info) :=
  all ← module_screen;
  input ← scanf scan_line;
  input ← u_opt UninitRead input;
  if decide (256 < length input + 1) then u_stop (Fault Overrun) else
  s ← text_of (input ++ [NUL]);
  tok ← u_opt NullDeref (strtok s);
  let '(command, rest) := tok in
  r ← module_command all command rest;
  let '(return_value, number) := r in
  command' ← u_opt Overrun (strncpy (mod_command mi) (command ++ [NUL]) 8);
  mret (return_value, mk_mod_info number command').

Definition exit_function : U S unit :=
  printf (LF :: lit "Apllication shutting down") ;;
  printf (lit ".") ;; printf (lit ".") ;; printf (lit ".") ;;
  system (lit "clear").

(** ** getpasswd *)

Definition echoes (mask : Z) : bool := (31 <? mask)%Z && (mask <? 127)%Z.

(** The loop from index [idx] on: the buffer, the index, the last byte read
    ([None] at the end of the file), the input left and the text echoed. *)
Fixpoint passwd_loop (sz : nat) (mask : Z) (inp pw : buf) (idx : nat) (echo : buf)
  : option (buf * nat * option ascii * buf * buf) :=
  match inp with
  | [] => Some (pw, idx, None, [], echo)
  | c :: inp' =>
      if decide ((c ≠ LF ∧ idx < sz - 1) ∨ (idx = sz - 1 ∧ c = DEL)) then
        if decide (c ≠ DEL) then
          if decide (idx < length pw) then
            passwd_loop sz mask inp' (<[idx := c]> pw) (Datatypes.S idx)
              (echo ++ if echoes mask then [ascii_of_N (Z.to_N mask)] else [])
          else None
        else
          match idx with
          | O => passwd_loop sz mask inp' pw O echo
          | Datatypes.S i =>
              if decide (i < length pw) then
                passwd_loop sz mask inp' (<[i := NUL]> pw) i
                  (echo ++ if echoes mask then [ascii_of_nat 8; space; ascii_of_nat 8] else [])
              else None
          end
      else Some (pw, idx, Some c, inp', echo)
  end.

(** [getpasswd(&pw, sz, mask, stdin)]: the result and [pw]. *)
Definition getpasswd (pw : option buf) (sz : nat) (mask : Z) : U S (Z * option buf) :=
  if decide (sz = 0) then mret ((-1)%Z, pw) else
  let sz := Nat.min sz MAX_PASS_LEN in
  pw ← (match pw with
        | Some b => mret (Some b)
        | None =>
            tmp ← malloc (Z.of_nat sz);
            match tmp with
            | None => mret None
            | Some b => b' ← u_opt Overrun (write_at b 0 (replicate sz NUL)); mret (Some b')
            end
        end);
  match pw with
  | None => mret ((-1)%Z, None)
  | Some b =>
      if negb tcgetattr_ok then
        eprintf (line (lit "getpasswd() error: tcgetattr failed.")) ;; mret ((-1)%Z, Some b) else
      if negb tcset_new_ok then
        eprintf (line (lit "getpasswd() error: tcsetattr failed.")) ;; mret ((-1)%Z, Some b) else
      r ← scanf (λ inp, match passwd_loop sz mask inp b 0 [] with
                        | Some (b', idx, c, rest, echo) => (Some (b', idx, c, echo), rest)
                        | None => (None, inp)
                        end);
      r ← u_opt Overrun r;
      let '(b', idx, c, echo) := r in
      printf echo ;;
      b'' ← u_opt Overrun (write_at b' idx [NUL]);
      if negb tcset_old_ok then
        eprintf (line (lit "getpasswd() error: tcsetattr failed.")) ;; mret ((-1)%Z, Some b'') else
      (if decide (idx = sz - 1 ∧ c ≠ Some LF) then
         eprintf (line (lit " (getpasswd() warning: truncated at " ++ dec (Z.of_nat (sz - 1)) ++
                        lit " chars.)"))
       else mret tt) ;;
      mret (Z.of_nat idx, Some b'')
  end.

(** ** main *)

(** The labels of [main], and the head of the loop on [display_module_info]. *)
Inductive label := MODULE_INFO_DISPLAY | MODULE_LOOP | HOME.

(** What a part of [main] does next. *)
Inductive next := Goto (l : label) | Exit (code : Z).

(** The local variables of [main] that live from one label to another. *)
Record locals := mk_locals {
  lo_psw : buf;
  lo_path : buf;
  lo_mod : mod_info;
  lo_state : option Z;   (* rf_state, once it has been read *)
}.

Definition lo_set_psw (b : buf) (lo : locals) : locals := mk_locals b (lo_path lo) (lo_mod lo) (lo_state lo).
Definition lo_set_path (b : buf) (lo : locals) : locals := mk_locals (lo_psw lo) b (lo_mod lo) (lo_state lo).
Definition lo_set_mod (m : mod_info) (lo : locals) : locals := mk_locals (lo_psw lo) (lo_path lo) m (lo_state lo).
Definition lo_set_state (z : Z) (lo : locals) : locals :=
  mk_locals (lo_psw lo) (lo_path lo) (lo_mod lo) (Some z).

Definition install_command (n : Z) : option buf :=
  if decide (n = 1%Z) then Some (lit "cd ../syscall-table-discoverer/; sudo make") else
  if decide (n = 2%Z) then Some (lit "cd ../log-filesystem/; sudo make") else
  if decide (n = 3%Z) then Some (lit "cd ../reference-monitor/; sudo make") else None.

Definition remove_command (n : Z) : option buf :=
  if decide (n = 1%Z) then Some (lit "sudo rmmod the_usctm") else
  if decide (n = 2%Z) then Some (lit "sudo rmmod singlefilefs") else
  if decide (n = 3%Z) then Some (lit "sudo rmmod the_stack_reference_monitor") else None.

(** The end of [case 0], once the command is known: run it, or give up on an
    unexpected number. *)
Definition run_module_command (command : option buf) (lo : locals) : U S (next * locals) :=
  match command with
  | Some cmd => system cmd ;; FFLUSH ;; PRESS_ANY_KEY ;; mret (Goto MODULE_INFO_DISPLAY, lo)
  | None =>
      puts (lit "Error: Unexpected value for module number, application shutting down") ;;
      mret (Exit EXIT_FAILURE, lo)
  end.

(** The [switch] after the loop on [display_module_info]. *)
Definition module_switch (ret : Z) (lo : locals) : U S (next * locals) :=
  if decide (ret = 0%Z) then
    command ← text_of (mod_command (lo_mod lo));
    if decide (command = lit "install") then
      n ← u_opt UninitRead (mod_number (lo_mod lo));
      run_module_command (install_command n) lo
    else if decide (command = lit "remove") then
      n ← u_opt UninitRead (mod_number (lo_mod lo));
      run_module_command (remove_command n) lo
    else
      puts (lit "Error: Unexpected value for command, application shutting down") ;;
      PRESS_ANY_KEY ;; mret (Exit EXIT_FAILURE, lo)
  else if decide (ret = HOME_VALUE) then mret (Goto HOME, lo)
  else if decide (ret = EXIT_VALUE) then exit_function ;; mret (Exit EXIT_SUCCESS, lo)
  else
    puts (lit "Error: Unexpected error, application shutting down") ;;
    FFLUSH ;; mret (Exit EXIT_FAILURE, lo).

Definition module_loop (lo : locals) : U S (next * locals) :=
  r ← display_module_info (lo_mod lo);
  let '(ret, mi) := r in
  let lo := lo_set_mod mi lo in
  if decide (ret = -1)%Z then mret (Goto MODULE_LOOP, lo) else module_switch ret lo.

Definition module_info_display (lo : locals) : U S (next * locals) :=
  m ← malloc sizeof_mod_info;
  match m with
  | None => u_stop (Fault NullDeref)
  | Some _ =>
      module_loop (lo_set_mod (mk_mod_info None (replicate sizeof_command NUL)) lo)
  end.

(** The mask of the password. *)
Definition star : Z := 42.

(** [nchr = getpasswd(&password, MAX_PASS_LEN, '*', fp)]; [password] is the address
    of [psw]. *)
Definition ask_password (lo : locals) : U S (Z * locals) :=
  r ← getpasswd (Some (lo_psw lo)) MAX_PASS_LEN star;
  let '(nchr, pw) := r in
  b ← u_opt NullDeref pw;
  mret (nchr, lo_set_psw b lo).

(** [scanf("%s", path)] *)
Definition ask_path (lo : locals) : U S locals :=
  w ← scanf scan_word;
  match w with
  | None => mret lo
  | Some s =>
      path ← u_opt Overrun (write_at (lo_path lo) 0 (s ++ [NUL]));
      mret (lo_set_path path lo)
  end.

(** The end of a turn of the loop at [HOME]. *)
Definition end_turn (lo : locals) : U S (next * locals) :=
  PRESS_ANY_KEY ;; mret (Goto HOME, lo).

Definition case_change_state (lo : locals) : U S (next * locals) :=
  puts (lit "Insert reference monitor state you want to provide ") ;;
  puts (lit "0 - OM") ;; puts (lit "1 - OFF") ;; puts (lit "2 - REC_ON") ;; puts (lit "3 - REC_OFF") ;;
  st ← scanf scan_int;
  let lo := match st with Some z => lo_set_state z lo | None => lo end in
  rf_state ← u_opt UninitRead (lo_state lo);
  if decide (rf_state < 0 ∨ 3 < rf_state)%Z then
    printf (lit "Error: Invalid state for reference monitorn") ;; end_turn lo
  else
    puts (lit "Insert reference monitor password") ;;
    FFLUSH ;;
    r ← ask_password lo;
    let '(nchr, lo) := r in
    if decide (nchr = 0%Z) then
      puts (lit "Error: Password must be selected to change RF state") ;; end_turn lo
    else
      printf [LF] ;;
      ret ← change_state rf_state (lo_psw lo);
      if decide (ret ≠ 0%Z) then
        if decide (ret = WRONG_EUID_VALUE ∨ ret = HOME_VALUE) then end_turn lo
        else
          puts (lit "Error: Unexpected error in switch rf state syscall, system will shout down") ;;
          PRESS_ANY_KEY ;; mret (Exit EXIT_FAILURE, lo)
      else end_turn lo.

(** [case 3] and [case 4]: the question, the complaint and the call differ. *)
Definition case_edit (question complaint : buf) (edit : buf → buf → U S Z) (lo : locals)
  : U S (next * locals) :=
  puts question ;;
  lo ← ask_path lo;
  FFLUSH ;;
  puts (lit "Insert reference monitor password") ;;
  r ← ask_password lo;
  let '(nchr, lo) := r in
  if decide (nchr = 0%Z) then puts complaint ;; end_turn lo
  else edit (lo_path lo) (lo_psw lo) ;; end_turn lo.

Definition home (lo : locals) : U S (next * locals) :=
  ret ← get_function_number;
  if decide (ret = -1)%Z then mret (Goto HOME, lo) else
  if decide (ret = 1%Z) then case_change_state lo else
  if decide (ret = 2%Z) then get_rf_state ;; FFLUSH ;; end_turn lo else
  if decide (ret = 3%Z) then
    case_edit (lit "Insert the full path of the file to add to blacklist")
      (lit "Error: Password must be selected to add to blacklist state") add_to_blacklist lo else
  if decide (ret = 4%Z) then
    case_edit (lit "Insert the full path of the file to remove from blacklist")
      (lit "Error: Password must be selected to remove from blacklist") remove_from_blacklist lo else
  if decide (ret = 5%Z) then print_blacklist ;; FFLUSH ;; end_turn lo else
  if decide (ret = EXIT_VALUE) then FFLUSH ;; mret (Goto MODULE_INFO_DISPLAY, lo) else
  FFLUSH ;; puts (lit "Error: No valid number as been selected") ;; PRESS_ANY_KEY ;; end_turn lo.

(** From one label to the next. *)
Definition main_step (l : label) (lo : locals) : U S (next * locals) :=
  match l with
  | MODULE_INFO_DISPLAY => module_info_display lo
  | MODULE_LOOP => module_loop lo
  | HOME => home lo
  end.

(** [main] from a label on, with at most [fuel] steps; [None] when they are not
    enough or when one of them never ends. *)
Fixpoint main_from (fuel : nat) (l : label) (lo : locals) (p : proc S) : option (stop + Z * proc S) :=
  match fuel with
  | O => None
  | Datatypes.S fuel' =>
      match main_step l lo p with
      | inl Spin => None
      | inl e => Some (inl e)
      | inr ((Exit code, _), p') => Some (inr (code, p'))
      | inr ((Goto l', lo'), p') => main_from fuel' l' lo' p'
      end
  end.

(** The password array is zero at the start; the rest of the frame is not. *)
Definition main (fuel : nat) (path : buf) (p : proc S) : option (stop + Z * proc S) :=
  main_from fuel MODULE_INFO_DISPLAY
    (mk_locals (replicate MAX_PASS_LEN NUL) path (mk_mod_info None []) None) p.

(** ** reference-monitor/user/switch_reconfigure.c *)

Definition perror (prefix : buf) : U S unit :=
  msg ← errno_text; eprintf (line (prefix ++ msg)).

(** [main] with the arguments [argv], the name of the program first. *)
Definition switch_reconfigure (argv : list buf) : U S Z :=
  match argv with
  | [_; arg1; passw] =>
      let state := int32 (strtol0 arg1) in
      if decide (state = -1)%Z then perror [] ;; mret EXIT_FAILURE else
      r ← syscall SWITCH_STATE [AInt state; APtr (passw ++ NUL :: after_argv)];
      let ret := r.1 in
      if decide (ret = -1)%Z then
        e ← errno;
        (if decide (e = EACCES) then msg ← errno_text; puts (msg ++ lit ": Invalid Password")
         else perror (lit "...: ")) ;;
        mret EXIT_FAILURE
      else print_state ret ;; mret EXIT_SUCCESS
  | _ =>
      puts (lit "Error: This program should be called with 2 parameters, the state number and the password") ;;
      mret EXIT_FAILURE
  end.
End client.

(** ** Every turn reads *)

Section reading.
Context {S : Type} `{SY : !Sys S} `{LC : Libc}.

Lemma eats_print_state ret : eats 0 (print_state (S := S) ret).
Proof. unfold print_state. eating. Qed.
#[local] Hint Resolve eats_print_state : eats.

Lemma eats_text_of b : eats 0 (text_of (S := S) b).
Proof. unfold text_of. eating. Qed.
#[local] Hint Resolve eats_text_of : eats.

Lemma eats_get_rf_state : eats 0 get_rf_state.
Proof. unfold get_rf_state. cbv zeta. eating. Qed.
Lemma eats_change_state st pw : eats 0 (change_state st pw).
Proof. unfold change_state. cbv zeta. eating. Qed.
Lemma eats_add_to_blacklist path pw : eats 0 (add_to_blacklist path pw).
Proof. unfold add_to_blacklist. cbv zeta. eating. Qed.
Lemma eats_remove_from_blacklist path pw : eats 0 (remove_from_blacklist path pw).
Proof. unfold remove_from_blacklist. cbv zeta. eating. Qed.
Lemma eats_print_blacklist : eats 0 print_blacklist.
Proof. unfold print_blacklist. cbv zeta. eating. Qed.
#[local] Hint Resolve eats_get_rf_state eats_change_state eats_add_to_blacklist
  eats_remove_from_blacklist eats_print_blacklist : eats.

Lemma eats_get_function_number : eats 1 get_function_number.
Proof.
  unfold get_function_number. apply eats_bind0; [eating|intros rf_state].
  repeat (apply eats_bind0; [solve [eating]|intros ?]).
  apply eats_scanf_some; [intros b z r; apply scan_int_length|]. intros n. eating.
Qed.

Lemma eats_module_screen : eats 0 module_screen.
Proof. unfold module_screen. cbv zeta. eating. Qed.
Lemma eats_module_command all command rest : eats 0 (module_command (S := S) all command rest).
Proof. unfold module_command. cbv zeta. eating. Qed.
#[local] Hint Resolve eats_module_screen eats_module_command : eats.

Lemma eats_display_module_info mi : eats 1 (display_module_info mi).
Proof.
  unfold display_module_info. apply eats_bind0; [eating|intros all].
  apply eats_scanf_some; [exact scan_line_length|]. intros n. eating.
Qed.

Lemma passwd_loop_length sz mask inp pw idx echo r :
  passwd_loop sz mask inp pw idx echo = Some r → length r.1.2 ≤ length inp.
Proof.
  revert pw idx echo. induction inp as [|c inp IH]; intros pw idx echo; simpl; [by intros [= <-]|].
  case_decide; [|intros [= <-]; simpl; lia]. repeat case_decide; try done; [intros H'%IH; lia|].
  destruct idx; [intros H'%IH; lia|]. case_decide; [intros H'%IH; lia|done].
Qed.

Lemma eats_getpasswd pw sz mask : eats 0 (getpasswd (S := S) pw sz mask).
Proof.
  unfold getpasswd. case_decide; [eating|]. cbv zeta. apply eats_bind0; [eating|].
  intros [b|]; [|eating]. destruct tcgetattr_ok; [|eating]. destruct tcset_new_ok; [|eating].
  cbn [negb]. apply eats_bind0; [|intros r; eating].
  apply eats_scanf. intros inp. destruct (passwd_loop _ _ inp b 0 []) as [[[[[b' idx] c] rest] echo]|] eqn:Hl;
    [|done]. by apply passwd_loop_length in Hl.
Qed.
#[local] Hint Resolve eats_getpasswd : eats.

Lemma eats_scan_word : eats 0 (scanf (S := S) scan_word).
Proof. apply eats_scanf, scan_word_length. Qed.
Lemma eats_scan_int : eats 0 (scanf (S := S) scan_int).
Proof. apply eats_scanf. intros b. apply scan_int_length. Qed.
#[local] Hint Resolve eats_scan_word eats_scan_int : eats.

Lemma eats_main_step l lo : eats 1 (main_step l lo).
Proof.
  assert (∀ lo', eats 1 (module_loop lo')) as Hloop.
  { intros lo'. unfold module_loop. apply (eats_bind 1 0); [apply eats_display_module_info|].
    intros [ret mi]. unfold module_switch, run_module_command, exit_function. cbv zeta. eating. }
  destruct l; simpl.
  - unfold module_info_display. apply eats_bind0; [eating|]. intros [b|]; [apply Hloop|apply eats_stop].
  - apply Hloop.
  - unfold home. apply (eats_bind 1 0); [apply eats_get_function_number|]. intros ret.
    unfold case_change_state, case_edit, ask_path, ask_password, end_turn. eating.
Qed.
End reading.

(** ** What the home menu does to the system *)

Definition client_numbers : list Z :=
  [SWITCH_STATE; GET_RF_STATE; ADD_TO_BLACKLIST; REMOVE_FROM_BLACKLIST; PRINT_BLACKLIST;
   GET_BLACKLIST_SIZE].

Section calls.
Context {S : Type} `{SY : !Sys S} `{LC : Libc} (R : relation S) `{HR : !PreOrder R}.
Hypothesis calls_obey : ∀ nr args s r s', nr ∈ client_numbers → sys_call nr args s = inr (r, s') → R s s'.
Hypothesis clear_obeys : ∀ s, R s (sys_command (lit "clear") s).

Lemma obeys_call nr args : nr ∈ client_numbers → obeys R (syscall nr args).
Proof. intros Hin. apply obeys_syscall. intros s r s'. by apply calls_obey. Qed.

Lemma obeys_print_state ret : obeys R (print_state ret).
Proof. unfold print_state. obeying. Qed.
Lemma obeys_text_of b : obeys R (text_of b).
Proof. unfold text_of. obeying. Qed.
#[local] Hint Resolve obeys_print_state obeys_text_of : obeys.
#[local] Hint Extern 1 (obeys R (syscall _ _)) => apply obeys_call; unfold client_numbers; set_solver : obeys.

Lemma obeys_get_rf_state : obeys R get_rf_state.
Proof. unfold get_rf_state. cbv zeta. obeying. Qed.
Lemma obeys_change_state st pw : obeys R (change_state st pw).
Proof. unfold change_state. cbv zeta. obeying. Qed.
Lemma obeys_add_to_blacklist path pw : obeys R (add_to_blacklist path pw).
Proof. unfold add_to_blacklist. cbv zeta. obeying. Qed.
Lemma obeys_remove_from_blacklist path pw : obeys R (remove_from_blacklist path pw).
Proof. unfold remove_from_blacklist. cbv zeta. obeying. Qed.
Lemma obeys_print_blacklist : obeys R print_blacklist.
Proof. unfold print_blacklist. cbv zeta. obeying. Qed.
Lemma obeys_clear : obeys R (system (lit "clear")).
Proof. by apply obeys_system. Qed.
Lemma obeys_getpasswd pw sz mask : obeys R (getpasswd pw sz mask).
Proof. unfold getpasswd. cbv zeta. obeying. Qed.
#[local] Hint Resolve obeys_get_rf_state obeys_change_state obeys_add_to_blacklist
  obeys_remove_from_blacklist obeys_print_blacklist obeys_clear obeys_getpasswd : obeys.

Lemma obeys_get_function_number : obeys R get_function_number.
Proof. unfold get_function_number. obeying. Qed.
#[local] Hint Resolve obeys_get_function_number : obeys.

Lemma obeys_home lo : obeys R (home lo).
Proof. unfold home, case_change_state, case_edit, ask_path, ask_password, end_turn. obeying. Qed.

(** [switch_reconfigure] makes one of these calls. *)
Lemma obeys_switch_reconfigure argv : obeys R (switch_reconfigure argv).
Proof. unfold switch_reconfigure, perror. cbv zeta. obeying. Qed.
End calls.

(** ** What is typed as a password *)

(** The text that is left of a line when DEL removes the character before. *)
Definition edit_char (acc : buf) (c : ascii) : buf :=
  if decide (c = DEL) then take (length acc - 1) acc else acc ++ [c].
Definition edit_from (acc s : buf) : buf := foldl edit_char acc s.
Definition edited (s : buf) : buf := edit_from [] s.

(** The text never grows past [n] characters. *)
Fixpoint fits (n : nat) (acc s : buf) : Prop :=
  length acc ≤ n ∧ match s with [] => True | c :: s' => fits n (edit_char acc c) s' end.

Lemma fits_length n acc s : fits n acc s → length acc ≤ n.
Proof. by destruct s; intros []. Qed.

Lemma passwd_loop_run sz mask acc s rest pw echo :
  1 < sz → length pw = sz → take (length acc) pw = acc → LF ∉ s → fits (sz - 1) acc s →
  ∃ pw' echo', passwd_loop sz mask (s ++ LF :: rest) pw (length acc) echo =
    Some (pw', length (edit_from acc s), Some LF, rest, echo') ∧
    length pw' = sz ∧ take (length (edit_from acc s)) pw' = edit_from acc s.
Proof.
  intros Hsz. revert acc pw echo. induction s as [|c s IH]; intros acc pw echo Hl Hacc Hs Hf.
  { exists pw, echo. cbn [app passwd_loop]. rewrite decide_False; [done|]. intros [[? _]|[_ ?]]; done. }
  apply not_elem_of_cons in Hs as [Hc Hs]. destruct Hf as [Hle Hf]. pose proof (fits_length _ _ _ Hf) as Hle'.
  cbn [app passwd_loop edit_from foldl]. unfold edit_char in Hf, Hle' |- *.
  destruct (decide (c = DEL)) as [Hd|Hd].
  - rewrite decide_True by (destruct (decide (length acc = sz - 1)); [by right|left; split; [done|lia]]).
    rewrite decide_False by (intros Hn; by apply Hn).
    destruct acc as [|x acc] using rev_ind; [by apply (IH [])|clear IHacc].
    rewrite !length_app in *. cbn [length] in *. replace (length acc + 1) with (S (length acc)) in * by lia.
    cbv iota. rewrite decide_True by lia.
    replace (S (length acc) - 1) with (length acc) in * by lia.
    rewrite take_app_length in *. apply IH; [by rewrite length_insert| |done|done].
    rewrite take_insert_ge by lia. apply (f_equal (take (length acc))) in Hacc.
    rewrite take_take, take_app_length in Hacc. by replace (length acc `min` S (length acc)) with (length acc) in Hacc by lia.
  - rewrite length_app in Hle'. cbn [length] in Hle'.
    rewrite decide_True by (left; split; [done|lia]). rewrite decide_True by done.
    rewrite decide_True by lia. replace (S (length acc)) with (length (acc ++ [c])) by (rewrite length_app; simpl; lia).
    apply IH; [by rewrite length_insert| |done|done].
    rewrite length_app, Nat.add_1_r, (take_S_r _ _ c) by (apply list_lookup_insert_eq; lia).
    by rewrite take_insert_ge, Hacc by lia.
Qed.

(** Whatever is typed, the index stays in the array. *)
Lemma passwd_loop_bound sz mask inp pw idx echo :
  0 < sz → length pw = sz → idx ≤ sz - 1 →
  ∃ pw' idx' c rest echo', passwd_loop sz mask inp pw idx echo = Some (pw', idx', c, rest, echo') ∧
    length pw' = sz ∧ idx' ≤ sz - 1.
Proof.
  intros Hsz. revert pw idx echo. induction inp as [|c inp IH]; intros pw idx echo Hl Hi;
    cbn [passwd_loop]; [by eexists _, _, _, _, _|].
  case_decide as Hc; [|by eexists _, _, _, _, _].
  destruct (decide (c ≠ DEL)) as [Hd|Hd].
  - rewrite decide_True by lia. apply IH; [by rewrite length_insert|]. destruct Hc as [[_ ?]|[_ ->]]; [lia|done].
  - destruct idx as [|i]; [by apply IH|]. rewrite decide_True by lia. apply IH; [by rewrite length_insert|lia].
Qed.

Lemma write_nul (b : buf) i :
  i < length b → ∃ b', write_at b i [NUL] = Some b' ∧ length b' = length b ∧
    b' = take i b ++ NUL :: drop (S i) b.
Proof.
  intros Hi. eexists. split; [unfold write_at; rewrite decide_True by (simpl; lia); reflexivity|].
  cbn [length app]. rewrite Nat.add_1_r. split; [|done]. rewrite length_app. cbn [length]. len.
Qed.

Lemma NUL_in_take (b b' : buf) i n : b' = take i b ++ NUL :: drop (S i) b → i < n → i < length b → NUL ∈ take n b'.
Proof.
  intros -> Hn Hi. apply list_elem_of_lookup. exists i. rewrite lookup_take_lt by done.
  rewrite lookup_app_r by len. rewrite length_take, Nat.min_l, Nat.sub_diag by lia. done.
Qed.

Section passwords.
Context {S : Type} `{SY : !Sys S} `{LC : Libc}.

(** With a terminal, a password is read: its length is returned and the array
    holds it with a terminator. *)
Lemma wp_getpasswd (pw s rest : buf) (Q : Z * option buf → proc S → Prop) (p : proc S) :
  tcgetattr_ok = true → tcset_new_ok = true → tcset_old_ok = true →
  length pw = MAX_PASS_LEN → LF ∉ s → fits (MAX_PASS_LEN - 1) [] s → p_in p = s ++ LF :: rest →
  (∀ q pw', p_in q = rest → p_sys q = p_sys p → length pw' = MAX_PASS_LEN →
     (∃ r, pw' = edited s ++ NUL :: r) → Q (Z.of_nat (length (edited s)), Some pw') q) →
  wp (getpasswd (Some pw) MAX_PASS_LEN star) Q p.
Proof.
  intros Ht1 Ht2 Ht3 Hl Hs Hf Hp HQ. unfold getpasswd. rewrite decide_False by done. cbv zeta.
  apply wp_bind, wp_ret. rewrite Ht1, Ht2, Ht3. cbn [negb]. rewrite Nat.min_id.
  destruct (passwd_loop_run MAX_PASS_LEN star [] s rest pw []) as (b & echo & Hloop & Hb & Htake);
    [unfold MAX_PASS_LEN; lia|done|by rewrite take_0|done|done|].
  cbn [length] in Hloop. fold (edited s) in *. apply wp_bind. eapply wp_scanf; [by rewrite Hp, Hloop|].
  intros q Hq1 Hq2. apply wp_bind. eapply wp_opt; [reflexivity|]. cbv beta iota.
  apply wp_bind, wp_printf. intros q1 [Hq1i Hq1s].
  assert (length (edited s) < length b) as Hlt.
  { rewrite Hb. apply (f_equal length) in Htake. rewrite length_take in Htake.
    assert (length (edited s) ≤ MAX_PASS_LEN - 1); [|unfold MAX_PASS_LEN in *; lia].
    clear -Hf. unfold edited. revert Hf. generalize (@nil ascii). induction s as [|c s IH]; intros acc [Hle Hf]; [done|].
    by apply IH. }
  destruct (write_nul b (length (edited s)) Hlt) as (b' & Hw & Hb' & He).
  apply wp_bind. eapply wp_opt; [exact Hw|]. rewrite Htake in He.
  assert (wp (mret (Z.of_nat (length (edited s)), Some b')) Q q1) as Hend.
  { apply wp_ret, HQ; [congruence|congruence|congruence|by eexists]. }
  case_decide; apply wp_bind; [exfalso; naive_solver|]. apply wp_ret, Hend.
Qed.

(** Whatever is typed, and whatever the terminal answers, the array keeps its
    size and a terminator. *)
Lemma getpasswd_terminated (pw : buf) (p : proc S) r p' :
  length pw = MAX_PASS_LEN → NUL ∈ pw → getpasswd (Some pw) MAX_PASS_LEN star p = inr (r, p') →
  ∃ n pw', r = (n, Some pw') ∧ (-1 ≤ n ≤ 31)%Z ∧ length pw' = MAX_PASS_LEN ∧ NUL ∈ pw'.
Proof.
  intros Hl Hn. unfold getpasswd. rewrite decide_False by done. cbv zeta. rewrite Nat.min_id.
  rewrite (U_bind_inr _ _ p (Some pw) p) by reflexivity. cbv iota.
  assert (∀ (s : buf) q, (eprintf s ;; mret ((-1)%Z, Some pw)) q = inr (r, p') →
    ∃ n pw', r = (n, Some pw') ∧ (-1 ≤ n ≤ 31)%Z ∧ length pw' = MAX_PASS_LEN ∧ NUL ∈ pw') as Hfail.
  { intros s q [= <- <-]. exists (-1)%Z, pw. split; [done|]. split; [lia|done]. }
  destruct tcgetattr_ok; [|apply Hfail]. destruct tcset_new_ok; [|apply Hfail]. cbn [negb].
  destruct (passwd_loop_bound MAX_PASS_LEN star (p_in p) pw 0 []) as (b & idx & c & rest & echo & Hloop & Hb & Hi);
    [unfold MAX_PASS_LEN; lia|done|lia|].
  assert (idx < length b) as Hlt by (rewrite Hb; unfold MAX_PASS_LEN in *; lia).
  destruct (write_nul b idx Hlt) as (b' & Hw & Hb' & He).
  erewrite U_bind_inr by (unfold scanf; rewrite Hloop; reflexivity).
  erewrite U_bind_inr by reflexivity. cbv beta iota. erewrite U_bind_inr by reflexivity. rewrite Hw.
  erewrite U_bind_inr by reflexivity.
  assert (NUL ∈ b') as Hnb.
  { rewrite He. apply elem_of_app. right. by left. }
  unfold MAX_PASS_LEN in *. destruct tcset_old_ok; cbn [negb].
  - intros (u & q & _ & [= <- <-])%U_bind_inv. exists (Z.of_nat idx), b'. split; [done|]. split; [lia|]. by rewrite Hb'.
  - intros (u & q & _ & [= <- <-])%U_bind_inv. exists (-1)%Z, b'. split; [done|]. split; [lia|]. by rewrite Hb'.
Qed.
End passwords.

(** ** The screen of the modules *)

Lemma strncpy_length dest src n d : strncpy dest src n = Some d → length d = length dest.
Proof.
  revert src n d. induction dest as [|x dest IH]; intros src [|n] d; cbn [strncpy];
    [by intros [= <-]|done|by intros [= <-]|].
  destruct src as [|c src]; [done|]. case_decide; [by intros Hw%write_at_length|].
  intros (d' & Hd & ->)%fmap_Some. simpl. f_equal. by eapply IH.
Qed.

(** The copy of a command of at most seven characters is terminated. *)
Lemma strncpy_c_str dest s n d :
  no_nul s → length s < n → strncpy dest (s ++ [NUL]) n = Some d → c_str d = Some s.
Proof.
  revert dest n d. induction s as [|c s IH]; intros [|x dest] [|n] d Hs Hn; cbn [length app strncpy] in *;
    try lia; try done.
  - rewrite decide_True by done. unfold write_at. case_decide; [|done]. by intros [= <-].
  - apply not_elem_of_cons in Hs as [Hc Hs].
    rewrite decide_False by done. intros (d' & Hd & ->)%fmap_Some. cbn [c_str].
    rewrite decide_False by done. by rewrite (IH dest n d' Hs ltac:(lia) Hd).
Qed.

Section modules.
Context {S : Type} `{SY : !Sys S} `{LC : Libc}.
Hypothesis clear_quiet : ∀ s : S, sys_command (lit "clear") s = s.

Definition all_loaded (s : S) : bool :=
  sys_access (lit "/sys/module/the_usctm") s && sys_access (lit "/sys/module/singlefilefs") s &&
  sys_access (lit "/sys/module/the_stack_reference_monitor") s.

Lemma wp_inv {A} (m : U S A) Q p a p' : wp m Q p → m p = inr (a, p') → Q a p'.
Proof. intros (b & q & Hm & HQ) Hm'. rewrite Hm in Hm'. by injection Hm' as -> ->. Qed.

Lemma wp_clear Q (p : proc S) : (∀ q, same_io p q → Q tt q) → wp (system (lit "clear")) Q p.
Proof. intros HQ. apply wp_system. intros q Hi Hs. apply HQ. split; [done|]. by rewrite Hs. Qed.

Lemma module_screen_run Q (p : proc S) :
  (∀ q, same_io p q → Q (all_loaded (p_sys p)) q) → wp module_screen Q p.
Proof.
  intros HQ. unfold module_screen. do 3 (apply wp_bind, wp_access). cbv zeta.
  change (sys_access (lit "/sys/module/the_usctm") _ && _ && _) with (all_loaded (p_sys p)).
  apply wp_bind, wp_clear. intros q [].
  do 3 (apply wp_bind, wp_puts; intros ? []).
  do 3 (apply wp_bind; destruct (sys_access _ _); apply wp_puts; intros ? []).
  all: do 2 (apply wp_bind, wp_puts; intros ? []); apply wp_bind, wp_printf; intros ? [];
    apply wp_bind; destruct (all_loaded (p_sys p)); [apply wp_puts; intros ? []|apply wp_ret];
    apply wp_bind, wp_puts; intros ? []; apply wp_ret, HQ; split; congruence.
Qed.

(** What the tests on the command give. *)
Lemma module_command_inv all command rest ret n (p p' : proc S) :
  module_command all command rest p = inr ((ret, n), p') →
  p_sys p' = p_sys p ∧
  ((ret = EXIT_VALUE ∧ n = None) ∨ (ret = HOME_VALUE ∧ all = true) ∨ ret = (-1)%Z ∨
   (ret = 0%Z ∧ (command = lit "install" ∨ command = lit "remove") ∧
    ∃ k, n = Some k ∧ (1 ≤ k ≤ 3)%Z)).
Proof.
  unfold module_command. case_decide; [intros [= <- <- <-]; split; [done|by left]|].
  case_decide as Hh; [intros [= <- <- <-]; split; [done|right; left; naive_solver]|].
  case_decide as Hc.
  - intros ([] & p1 & [= <-] & ([] & p2 & Hf & ([] & p3 & Hk & [= <- <- <-])%U_bind_inv)%U_bind_inv)%U_bind_inv.
    injection Hk as <-. split; [|by right; right; left].
    unfold FFLUSH in Hf. destruct (after_line _); [|done]. by injection Hf as <-.
  - intros (tok & p1 & Ht & Hr)%U_bind_inv. destruct (strtok rest) as [[t r]|]; [|done].
    injection Ht as <- <-. cbv zeta in Hr. cbn [fst] in Hr. case_decide as Hn.
    + apply U_bind_inv in Hr as ([] & p2 & [= <-] & ([] & p3 & Hk & [= <- <- <-])%U_bind_inv).
      injection Hk as <-. split; [done|]. by right; right; left.
    + injection Hr as <- <- <-. split; [done|]. right; right; right. split; [done|]. split.
      * destruct (decide (command = lit "install")); [by left|]. right.
        destruct (decide (command = lit "remove")); [done|]. tauto.
      * eexists. split; [done|]. lia.
Qed.

Lemma display_inv mi ret mi' (p p' : proc S) :
  length (mod_command mi) = sizeof_command → display_module_info mi p = inr ((ret, mi'), p') →
  p_sys p' = p_sys p ∧ length (mod_command mi') = sizeof_command ∧
  (ret = EXIT_VALUE ∨ (ret = HOME_VALUE ∧ all_loaded (p_sys p) = true) ∨ ret = (-1)%Z ∨
   (ret = 0%Z ∧
    (c_str (mod_command mi') = Some (lit "install") ∨ c_str (mod_command mi') = Some (lit "remove")) ∧
    ∃ k, mod_number mi' = Some k ∧ (1 ≤ k ≤ 3)%Z)).
Proof.
  intros Hl. unfold display_module_info. intros (all & p1 & H1 & Hr)%U_bind_inv.
  assert (all = all_loaded (p_sys p) ∧ p_sys p1 = p_sys p) as [-> Hs1].
  { eapply (wp_inv _ _ _ _ _ (module_screen_run (λ a q, a = all_loaded (p_sys p) ∧ p_sys q = p_sys p) p
      ltac:(by intros q [])) H1). }
  apply U_bind_inv in Hr as (o & p2 & H2 & Hr). apply U_bind_inv in Hr as (input & p3 & H3 & Hr).
  assert (p_sys p3 = p_sys p) as Hs3.
  { unfold scanf in H2. destruct (scan_line (p_in p1)) as [x r]. injection H2 as -> <-.
    destruct o; [|done]. by injection H3 as _ <-. }
  case_decide; [done|]. apply U_bind_inv in Hr as (s & p4 & H4 & Hr).
  apply U_bind_inv in Hr as ([command rest] & p5 & H5 & Hr).
  apply U_bind_inv in Hr as ([ret' n] & p6 & H6 & Hr).
  apply U_bind_inv in Hr as (d & p7 & H7 & [= <- <- <-]).
  assert (p4 = p3) as -> by (unfold text_of in H4; destruct (c_str _); [by injection H4 as _ <-|done]).
  assert (p5 = p3) as -> by (destruct (strtok s); [by injection H5 as _ <-|done]).
  destruct (module_command_inv _ _ _ _ _ _ _ H6) as [Hs6 Hc].
  destruct (strncpy _ _ 8) as [d'|] eqn:Hd; [|done]. injection H7 as -> <-.
  pose proof (strncpy_length _ _ _ _ Hd) as Hdl. cbn [mod_command mod_number].
  split; [congruence|]. split; [congruence|].
  destruct Hc as [[-> _]|[[-> Hall]|[->|(-> & Hcmd & k & -> & Hk)]]]; [by left|right; by left|do 2 right; by left|].
  do 3 right. split; [done|]. split; [|by exists k].
  destruct Hcmd as [->| ->]; [left|right]; (eapply strncpy_c_str; [| |exact Hd]; [by compute_done|by vm_compute; lia]).
Qed.

(** What a turn of the module menu does to the system. *)
Inductive module_turn (s : S) : next → S → Prop :=
  | mt_again : module_turn s (Goto MODULE_LOOP) s
  | mt_home : all_loaded s = true → module_turn s (Goto HOME) s
  | mt_exit : module_turn s (Exit EXIT_SUCCESS) s
  | mt_command n cmd :
      (1 ≤ n ≤ 3)%Z → install_command n = Some cmd ∨ remove_command n = Some cmd →
      module_turn s (Goto MODULE_INFO_DISPLAY) (sys_command cmd s).

Lemma command_known n : (1 ≤ n ≤ 3)%Z → is_Some (install_command n) ∧ is_Some (remove_command n).
Proof.
  intros Hn. assert (n = 1 ∨ n = 2 ∨ n = 3)%Z as [->|[->| ->]] by lia; split; by eexists.
Qed.

Lemma module_loop_turn lo nx lo' (p p' : proc S) :
  length (mod_command (lo_mod lo)) = sizeof_command → module_loop lo p = inr ((nx, lo'), p') →
  module_turn (p_sys p) nx (p_sys p') ∧ length (mod_command (lo_mod lo')) = sizeof_command ∧
  lo_psw lo' = lo_psw lo ∧ lo_path lo' = lo_path lo.
Proof.
  intros Hl ([ret mi] & p1 & H1 & Hr)%U_bind_inv.
  destruct (display_inv _ _ _ _ _ Hl H1) as (Hs & Hml & Hc). cbv beta iota zeta in Hr.
  set (lo1 := lo_set_mod mi lo) in Hr.
  assert (∀ cmd n, (1 ≤ n ≤ 3)%Z → install_command n = Some cmd ∨ remove_command n = Some cmd →
    run_module_command (Some cmd) lo1 p1 = inr ((nx, lo'), p') →
    module_turn (p_sys p) nx (p_sys p') ∧ lo' = lo1) as Hcmd.
  { intros cmd n Hn Hin ([] & q1 & [= <-] & ([] & q2 & Hf & ([] & q3 & Hk & [= <- <- <-])%U_bind_inv)%U_bind_inv)%U_bind_inv.
    injection Hk as <-. unfold FFLUSH in Hf. destruct (after_line _); [|done]. injection Hf as <-.
    split; [|done]. simpl. rewrite Hs. by eapply mt_command. }
  assert (module_turn (p_sys p) nx (p_sys p') ∧ lo' = lo1) as [Ht ->]; [|by split].
  destruct Hc as [->|[[-> Hall]|[->|(-> & Hcm & k & Hk & Hkr)]]].
  - unfold module_switch in Hr. rewrite !decide_False in Hr by done. rewrite decide_True in Hr by done.
    apply U_bind_inv in Hr as ([] & q & Hx & [= <- <- <-]). split; [|done].
    assert (p_sys q = p_sys p1) as ->.
    { unfold exit_function in Hx. repeat (apply U_bind_inv in Hx as ([] & ? & [= <-] & Hx)).
      injection Hx as <-. apply clear_quiet. }
    rewrite Hs. apply mt_exit.
  - injection Hr as <- <- <-. split; [|done]. rewrite Hs. by apply mt_home.
  - injection Hr as <- <- <-. split; [|done]. rewrite Hs. apply mt_again.
  - unfold module_switch in Hr. rewrite decide_False in Hr by done. rewrite decide_True in Hr by done.
    destruct (command_known k Hkr) as [[ci Hi] [cr Hrm]]. cbn [lo_mod lo1 lo_set_mod] in Hr.
    destruct Hcm as [Hcm|Hcm]; unfold text_of in Hr; rewrite Hcm in Hr;
      apply U_bind_inv in Hr as (c & q & [= <- <-] & Hr).
    + rewrite decide_True in Hr by done. rewrite Hk in Hr. apply U_bind_inv in Hr as (n & q & [= <- <-] & Hr).
      rewrite Hi in Hr. by eapply Hcmd; [|left|].
    + rewrite decide_False in Hr by done. rewrite decide_True in Hr by done. rewrite Hk in Hr.
      apply U_bind_inv in Hr as (n & q & [= <- <-] & Hr). rewrite Hrm in Hr. by eapply Hcmd; [|right|].
Qed.
End modules.

(** ** Properties *)

Section client_properties.
Context {S : Type} `{SY : !Sys S} `{LC : Libc}.
Implicit Types (p : proc S) (lo : locals).

Lemma main_from_stable fuel l lo p r :
  main_from fuel l lo p = Some r → ∀ fuel', fuel ≤ fuel' → main_from fuel' l lo p = Some r.
Proof.
  revert l lo p. induction fuel as [|fuel IH]; intros l lo p; [done|].
  cbn [main_from]. intros Hr [|fuel'] Hle; [lia|]. cbn [main_from].
  destruct (main_step l lo p) as [e|[[[l'|code] lo'] p']]; [done| |done]. apply IH; [done|lia].
Qed.

(** [main] comes to a step that never ends. *)
Inductive hangs : label → locals → proc S → Prop :=
  | hangs_here l lo p : main_step l lo p = inl Spin → hangs l lo p
  | hangs_later l lo p l' lo' p' :
      main_step l lo p = inr ((Goto l', lo'), p') → hangs l' lo' p' → hangs l lo p.

Lemma hangs_never_returns l lo p fuel : hangs l lo p → main_from fuel l lo p = None.
Proof.
  intros Hh. revert fuel.
  induction Hh as [l lo p Hs|l lo p l' lo' p' Hs _ IH]; intros [|fuel]; cbn [main_from]; [done| |done|]; by rewrite Hs.
Qed.

(** Every turn of the client reads at least one byte, so within as many turns as
    there are bytes of input, and one more, it exits or faults, or it comes to the
    loop of [FFLUSH] with no newline left and never returns. *)
Theorem client_ends_or_hangs l lo p :
  (∃ r, ∀ fuel, length (p_in p) < fuel → main_from fuel l lo p = Some r) ∨
  (hangs l lo p ∧ ∀ fuel, main_from fuel l lo p = None).
Proof.
  cut ((∃ r, main_from (Datatypes.S (length (p_in p))) l lo p = Some r) ∨ hangs l lo p).
  { intros [[r Hr]|Hh]; [left|right; split; [done|]; intros fuel; by apply hangs_never_returns].
    exists r. intros fuel Hf. eapply main_from_stable; [exact Hr|lia]. }
  remember (length (p_in p)) as n eqn:Hn. revert l lo p Hn.
  induction (lt_wf n) as [n _ IH]. intros l lo p ->. cbn [main_from].
  destruct (main_step l lo p) as [e|[[[l'|code] lo'] p']] eqn:Hs; [| |by left; eexists].
  { destruct e; [by left; eexists|right; by apply hangs_here|by left; eexists]. }
  pose proof (eats_main_step l lo p _ _ Hs) as Heat.
  destruct (IH (length (p_in p')) ltac:(lia) l' lo' p' eq_refl) as [[r Hr]|Hh].
  - left. exists r. eapply main_from_stable; [exact Hr|lia].
  - right. by eapply hangs_later.
Qed.


(** A turn of the module menu that returns asks again, goes to the home menu
    with the three modules loaded, exits with success, or runs one of the six
    install and remove commands: the branches of [main] for an unexpected command,
    module number or result are never taken. *)
Theorem module_menu_turns lo p nx lo' p' :
  (∀ s : S, sys_command (lit "clear") s = s) →
  length (mod_command (lo_mod lo)) = sizeof_command →
  main_step MODULE_LOOP lo p = inr ((nx, lo'), p') ∨ main_step MODULE_INFO_DISPLAY lo p = inr ((nx, lo'), p') →
  module_turn (p_sys p) nx (p_sys p') ∧ nx ≠ Exit EXIT_FAILURE ∧
  length (mod_command (lo_mod lo')) = sizeof_command.
Proof.
  intros Hclear Hl Hr.
  assert (module_turn (p_sys p) nx (p_sys p') ∧ length (mod_command (lo_mod lo')) = sizeof_command) as [Ht Hl'].
  { destruct Hr as [Hr|Hr]; [destruct (module_loop_turn Hclear lo nx lo' p p' Hl Hr) as (? & ? & _); done|].
    apply U_bind_inv in Hr as (m & p1 & [= Hm <-] & Hr). destruct m as [b|]; [|done].
    apply (module_loop_turn Hclear) in Hr as (? & ? & _); [done|apply length_replicate]. }
  split; [done|]. split; [|done]. by destruct Ht.
Qed.

(** A line with the command install and no number makes the client read
    through NULL, and a line of more than 255 characters overruns the array it is
    read into. *)
Theorem module_menu_faults lo p rest s :
  (∀ s : S, sys_command (lit "clear") s = s) →
  (p_in p = line (lit "install") ++ rest → main_step MODULE_LOOP lo p = inl (Fault NullDeref)) ∧
  (255 < length s ≤ 1023 → LF ∉ s → (∀ c, head s = Some c → is_space c = false) →
   p_in p = line s ++ rest → main_step MODULE_LOOP lo p = inl (Fault Overrun)).
Proof.
  intros Hclear.
  destruct (module_screen_run Hclear (λ a q, p_in q = p_in p) p) as (all & q & Hscr & Hi); [by intros q []|].
  cbn [main_step]. unfold module_loop, display_module_info. split.
  - intros Hp. unfold mbind, U_bind. rewrite Hscr. unfold scanf. rewrite Hi, Hp.
    assert (scan_line (line (lit "install") ++ rest) = (Some (lit "install"), LF :: rest)) as -> by reflexivity.
    cbn [u_opt mret U_ret]. cbv beta iota. rewrite decide_False by (simpl; lia).
    change (text_of (lit "install" ++ [NUL])) with (mret (lit "install") : U S buf). cbv [mret U_ret].
    change (strtok (lit "install")) with (Some (lit "install", @nil ascii)). cbv beta iota.
    cbn [u_opt]. cbv [mret U_ret]. unfold module_command. rewrite decide_False by done.
    rewrite decide_False by (by intros [_ ?]). rewrite decide_False by (intros [Hx _]; by apply Hx). done.
  - intros Hl Hs Hh Hp. unfold mbind, U_bind. rewrite Hscr. unfold scanf. rewrite Hi, Hp.
    assert (scan_line (line s ++ rest) = (Some s, LF :: rest)) as ->.
    { unfold scan_line, line. rewrite <- app_assoc. destruct s as [|c s]; [simpl in Hl; lia|].
      change (drop_space ((c :: s) ++ [LF] ++ rest)) with
        (if is_space c then drop_space (s ++ [LF] ++ rest) else (c :: s) ++ [LF] ++ rest).
      rewrite (Hh c eq_refl). rewrite (span_all _ 1023 (c :: s) ([LF] ++ rest)); [done| |lia|done].
      apply forallb_forall. intros x Hx. apply bool_decide_eq_true. intros ->.
      by apply Hs, list_elem_of_In. }
    cbn [u_opt mret U_ret]. cbv beta iota. rewrite decide_True by lia. done.
Qed.
End client_properties.
