(* ===== verification/Sessions.v ===== *)
(** * Sessions of the client with the monitor

    What the monitor promises to a program that makes its system calls
    ([MonitorSpec]), and what a user gets from the client on any system that keeps
    that promise: the text typed at the menu has the effect of the call. *)

From S2P Require Import Prelude CString Kernel Blacklist Logger Syscall Stdio Client.

(** ** The interface *)

Section results.
Context (accepts : buf → bool) (root : bool).

(** The result of the privileged part of a call, once the password is known. *)
Definition privileged (pw : buf) (z : Z) : Z :=
  if accepts pw then if root then z else (- EPERM)%Z else (- EACCES)%Z.

Definition switch_result (st' : Z) (pw : buf) : Z := privileged pw st'.
Definition switch_state (st st' : Z) (pw : buf) : Z := if accepts pw && root then st' else st.

Definition add_result (st : Z) (l : list buf) (k pw : buf) : Z :=
  if decide (st < 2)%Z then (- EPERM)%Z else
  privileged pw (if decide (k ∈ l) then - EEXIST else 0)%Z.
Definition add_paths (st : Z) (l : list buf) (k pw : buf) : list buf :=
  if decide (2 ≤ st)%Z then
    if accepts pw && root then if decide (k ∈ l) then l else l ++ [k] else l
  else l.

Definition remove_result (st : Z) (l : list buf) (k pw : buf) : Z :=
  if decide (st < 2)%Z then (- EPERM)%Z else privileged pw (if decide (k ∈ l) then 0 else 1)%Z.
Definition remove_paths (st : Z) (l : list buf) (k pw : buf) : list buf :=
  if decide (2 ≤ st)%Z then if accepts pw && root then filter (.≠ k) l else l else l.
End results.

(** [monitor s st l]: in the system [s] the monitor is in the state [st] and
    protects the paths [l]; [accepts] tells the right passwords and [root] the
    privilege of the caller. *)
Class MonitorSpec (S : Type) `{SY : !Sys S} := {
  monitor : S → Z → list buf → Prop;
  accepts : buf → bool;
  root : bool;
  monitor_range s st l : monitor s st l → (0 ≤ st ≤ 3)%Z;
  monitor_get s st l : monitor s st l →
    ∃ s', sys_call GET_RF_STATE [] s = inr ((st, []), s') ∧ monitor s' st l;
  monitor_switch s st l st' u pw :
    monitor s st l → (0 ≤ st' ≤ 3)%Z → PASSW_LEN ≤ length u → c_str (take PASSW_LEN u) = Some pw →
    ∃ s', sys_call SWITCH_STATE [AInt st'; APtr u] s = inr ((switch_result accepts root st' pw, []), s') ∧
      monitor s' (switch_state accepts root st st' pw) l;
  monitor_add s st l path k u pw :
    monitor s st l → user_path path = Some k → PASSW_LEN ≤ length u →
    c_str (take PASSW_LEN u) = Some pw →
    ∃ s', sys_call ADD_TO_BLACKLIST [APtr path; APtr u] s =
        inr ((add_result accepts root st l k pw, []), s') ∧
      monitor s' st (add_paths accepts root st l k pw);
  monitor_remove s st l path k u pw :
    monitor s st l → user_path path = Some k → PASSW_LEN ≤ length u →
    c_str (take PASSW_LEN u) = Some pw →
    ∃ s', sys_call REMOVE_FROM_BLACKLIST [APtr path; APtr u] s =
        inr ((remove_result accepts root st l k pw, []), s') ∧
      monitor s' st (remove_paths accepts root st l k pw);
  monitor_clear s : sys_command (lit "clear") s = s;
  counter : S → Z;
  monitor_size s st l args :
    monitor s st l → sys_call GET_BLACKLIST_SIZE args s = inr ((counter s, []), s);
  monitor_print s st l room n :
    monitor s st l → int32 n ≠ counter s →
    sys_call PRINT_BLACKLIST [AOut room; AInt n] s = inr (((-1)%Z, []), s);
}.

(** The results of the edits: a value, or the number of an error. *)
Lemma add_result_cases accepts root st l k pw :
  let r := add_result accepts root st l k pw in r = 0%Z ∨ ∃ e, r = (- e)%Z ∧ (1 ≤ e ≤ 4095)%Z.
Proof.
  unfold add_result, privileged, EPERM, EACCES, EEXIST. repeat case_decide; repeat case_match;
    first [by left|right; eexists; split; [reflexivity|lia]].
Qed.

Lemma remove_result_cases accepts root st l k pw :
  let r := remove_result accepts root st l k pw in
  (0 ≤ r ≤ 1)%Z ∨ ∃ e, r = (- e)%Z ∧ (1 ≤ e ≤ 4095)%Z.
Proof.
  unfold remove_result, privileged, EPERM, EACCES. repeat case_decide; repeat case_match;
    first [left; lia|right; eexists; split; [reflexivity|lia]].
Qed.

(** ** Turns of the menu *)

Section sessions.
Context {S : Type} `{SY : !Sys S} `{LC : Libc} `{MS : !MonitorSpec S}.
Implicit Types (p q : proc S) (lo : locals) (st : Z) (l : list buf).

Lemma wp_print_state st Q p :
  (0 ≤ st ≤ 3)%Z → (∀ q, same_io p q → Q tt q) → wp (print_state st) Q p.
Proof.
  intros Hst HQ. unfold print_state. apply wp_bind.
  assert (st = 0 ∨ st = 1 ∨ st = 2 ∨ st = 3)%Z as [->|[->|[->| ->]]] by lia;
    (eapply wp_opt; [reflexivity|]); by apply wp_puts.
Qed.

Lemma wp_get_rf_state st l Q p :
  monitor (p_sys p) st l → (∀ q, p_in q = p_in p → monitor (p_sys q) st l → Q st q) →
  wp get_rf_state Q p.
Proof.
  intros Hm HQ. pose proof (monitor_range _ _ _ Hm) as Hst.
  destruct (monitor_get _ _ _ Hm) as (s' & Hc & Hm'). unfold get_rf_state. apply wp_bind.
  eapply wp_syscall; [exact Hc|lia|]. intros q Hq Hs. cbv beta zeta. cbn [fst].
  rewrite decide_False by lia. apply wp_bind, wp_print_state; [done|]. intros q' [Hi' Hs'].
  apply wp_ret, HQ; congruence.
Qed.

(** The number of the menu, as the program understands it in a state. *)
Definition menu_choice (st d : Z) : Z :=
  if decide (d = 3 ∧ (st = 0 ∨ st = 1))%Z then EXIT_VALUE else
  if decide (d = 6 ∧ (st = 2 ∨ st = 3))%Z then EXIT_VALUE else d.

Lemma wp_get_function_number st l c d r Q p :
  monitor (p_sys p) st l → digit_val c = Some d → (1 ≤ d ≤ 9)%Z → p_in p = c :: LF :: r →
  (∀ q, p_in q = LF :: r → monitor (p_sys q) st l → Q (menu_choice st d) q) →
  wp get_function_number Q p.
Proof.
  intros Hm Hc Hd Hp HQ. unfold get_function_number. apply wp_bind.
  eapply wp_get_rf_state; [exact Hm|]. intros q Hq Hmq.
  apply wp_bind, wp_system. intros q0 Hq0 Hs0. rewrite monitor_clear in Hs0.
  assert (∀ q, p_in q = p_in p → monitor (p_sys q) st l →
    wp (puts blank_text ;; puts frame_text ;; printf (LF :: lit "Choose an option: ") ;;
        n ← scanf scan_int; input_number ← u_opt UninitRead n;
        input_number ←
          (if decide (input_number < 1)%Z then
             puts (lit "Error: Invalid choice for function selection") ;; PRESS_ANY_KEY ;; mret (-1)%Z
           else mret input_number);
        if decide (input_number = 3 ∧ (st = 0 ∨ st = 1))%Z then mret EXIT_VALUE else
        if decide (input_number = 6 ∧ (st = 2 ∨ st = 3))%Z then mret EXIT_VALUE else
        mret input_number) Q q) as Hrest.
  { intros q3 Hq3 Hmq3. do 2 (apply wp_bind, wp_puts; intros ? []). apply wp_bind, wp_printf. intros qa [].
    apply wp_bind. eapply wp_scanf.
    { replace (p_in qa) with (c :: LF :: r) by congruence. apply (scan_int_digit c d r Hc). lia. }
    intros qb Hqb Hs2. apply wp_bind. eapply wp_opt; [reflexivity|]. apply wp_bind.
    rewrite decide_False by lia. apply wp_ret.
    assert (wp (mret (menu_choice st d)) Q qb) as Hend by (apply wp_ret, HQ; congruence).
    unfold menu_choice in Hend. by repeat case_decide. }
  do 5 (apply wp_bind, wp_puts; intros ? []). apply wp_bind.
  destruct (decide (st = 2 ∨ st = 3)%Z); [do 3 (apply wp_bind, wp_puts; intros ? [])|]; apply wp_puts; intros ? []; apply Hrest; congruence.
Qed.

(** A terminal, and an array for the password. *)
Definition terminal : Prop := tcgetattr_ok = true ∧ tcset_new_ok = true ∧ tcset_old_ok = true.

(** A password that is typed as [s]: it is [edited s]. *)
Record typed (s : buf) : Prop := {
  ty_line : LF ∉ s;
  ty_fits : fits (MAX_PASS_LEN - 1) [] s;
  ty_some : edited s ≠ [];
  ty_text : no_nul (edited s);
}.

Lemma wp_ask_password s r lo Q p :
  terminal → typed s → length (lo_psw lo) = MAX_PASS_LEN → p_in p = s ++ LF :: r →
  (∀ q lo' n, p_in q = r → p_sys q = p_sys p → (n ≠ 0)%Z → lo_path lo' = lo_path lo →
     length (lo_psw lo') = MAX_PASS_LEN → c_str (take PASSW_LEN (lo_psw lo')) = Some (edited s) →
     Q (n, lo') q) →
  wp (ask_password lo) Q p.
Proof.
  intros (T1 & T2 & T3) [Hl Hf Hne Hnn] Hp Hin HQ. unfold ask_password. apply wp_bind.
  eapply wp_getpasswd; [done..|]. intros q pw' Hq Hs Hlen [x Hx].
  cbv beta iota. apply wp_bind. eapply wp_opt; [reflexivity|]. apply wp_ret, HQ; [done|done| |done|done|].
  - destruct (edited s); [done|]. simpl. lia.
  - cbn [lo_psw]. change PASSW_LEN with MAX_PASS_LEN. rewrite <- Hlen, firstn_all, Hx. by apply c_str_app.
Qed.

Lemma wp_end_turn c r lo Q p :
  c ≠ NUL → p_in p = c :: r → (∀ q, p_in q = r → p_sys q = p_sys p → Q (Goto HOME, lo) q) →
  wp (end_turn lo) Q p.
Proof.
  intros Hc Hp HQ. unfold end_turn. apply wp_bind. eapply wp_PRESS_ANY_KEY; [done|done|].
  intros q Hq Hs. by apply wp_ret, HQ.
Qed.

(** The call of [sys_switch_rf_state] and the answer on the screen. *)
Lemma wp_change_state st l st' u pw Q p :
  monitor (p_sys p) st l → (0 ≤ st' ≤ 3)%Z → PASSW_LEN ≤ length u → c_str (take PASSW_LEN u) = Some pw →
  (∀ ret q, ret = 0%Z ∨ ret = WRONG_EUID_VALUE ∨ ret = HOME_VALUE → p_in q = p_in p →
     monitor (p_sys q) (switch_state accepts root st st' pw) l → Q ret q) →
  wp (change_state st' u) Q p.
Proof.
  intros Hm Hst Hu Hpw HQ. destruct (monitor_switch _ _ _ _ _ _ Hm Hst Hu Hpw) as (s' & Hc & Hm').
  unfold change_state. rewrite decide_False by lia. apply wp_bind.
  unfold switch_result, privileged in Hc. destruct (accepts pw) eqn:Ha; [destruct root eqn:Hroot|].
  - eapply wp_syscall; [exact Hc|lia|]. intros q Hq Hs. cbv beta zeta. cbn [fst].
    rewrite decide_False by lia. apply wp_bind, wp_print_state; [lia|]. intros q' [].
    apply wp_ret, HQ; [by left|congruence|congruence].
  - eapply wp_syscall_err; [exact Hc|unfold EPERM; lia|]. intros q Hq Hs He. cbv beta zeta. cbn [fst].
    rewrite decide_True by done. apply wp_bind, wp_errno, wp_bind, wp_errno_text. intros m q' [].
    rewrite He. rewrite decide_False by done. rewrite decide_True by done.
    apply wp_bind, wp_puts. intros q'' []. apply wp_ret, HQ; [tauto|congruence|congruence].
  - eapply wp_syscall_err; [exact Hc|unfold EACCES; lia|]. intros q Hq Hs He. cbv beta zeta. cbn [fst].
    rewrite decide_True by done. apply wp_bind, wp_errno, wp_bind, wp_errno_text. intros m q' [].
    rewrite He. rewrite decide_True by done.
    apply wp_bind, wp_puts. intros q'' []. apply wp_ret, HQ; [tauto|congruence|congruence].
Qed.

(** A path that is typed as a word. *)
Record typed_path (k : buf) : Prop := {
  tp_some : k ≠ [];
  tp_word : forallb (λ c, negb (is_space c)) k = true;
  tp_text : no_nul k;
  tp_short : length k < PATH_MAX;
}.

Lemma path_stored k (b : buf) :
  typed_path k → length b = PATH_MAX →
  ∃ b', write_at b 0 (k ++ [NUL]) = Some b' ∧ length b' = PATH_MAX ∧ c_str b' = Some k ∧
    user_path b' = Some k.
Proof.
  intros [_ _ Hn Hs] Hb.
  assert (∃ b', write_at b 0 (k ++ [NUL]) = Some b') as [b' Hw].
  { unfold write_at. rewrite decide_True by (rewrite length_app; simpl; lia). by eexists. }
  exists b'. pose proof (write_at_length _ _ _ _ Hw) as Hl. split; [done|]. split; [congruence|].
  assert (b' = k ++ NUL :: drop (0 + length (k ++ [NUL])) b) as He.
  { unfold write_at in Hw. case_decide; [|done]. injection Hw as <-. cbn [take app]. by rewrite <- app_assoc. }
  split; [rewrite He; by apply c_str_app|].
  unfold user_path, user_buf. replace (PATH_MAX - length b') with 0 by lia. cbn [replicate].
  rewrite app_nil_r, take_ge by lia. rewrite He. by apply c_str_app.
Qed.

Lemma wp_ask_path k r lo Q p :
  typed_path k → length (lo_path lo) = PATH_MAX → p_in p = LF :: k ++ LF :: r →
  (∀ q lo', p_in q = LF :: r → p_sys q = p_sys p → lo_psw lo' = lo_psw lo →
     length (lo_path lo') = PATH_MAX → c_str (lo_path lo') = Some k → user_path (lo_path lo') = Some k →
     Q lo' q) →
  wp (ask_path lo) Q p.
Proof.
  intros Hk Hl Hp HQ. destruct (path_stored k (lo_path lo) Hk Hl) as (b' & Hw & Hb & Hc & Hu).
  unfold ask_path. apply wp_bind. eapply wp_scanf.
  { rewrite Hp. apply scan_word_line; apply Hk. }
  intros q Hq Hs. apply wp_bind. eapply wp_opt; [exact Hw|]. by apply wp_ret, HQ.
Qed.

(** The two edits of the list, as functions of the client. *)
Lemma wp_add st l path k u pw Q p :
  monitor (p_sys p) st l → c_str path = Some k → user_path path = Some k → PASSW_LEN ≤ length u →
  c_str (take PASSW_LEN u) = Some pw →
  (∀ ret q, p_in q = p_in p → monitor (p_sys q) st (add_paths accepts root st l k pw) → Q ret q) →
  wp (add_to_blacklist path u) Q p.
Proof.
  intros Hm Hc Hk Hu Hpw HQ. destruct (monitor_add _ _ _ _ _ _ _ Hm Hk Hu Hpw) as (s' & Hcall & Hm').
  unfold add_to_blacklist. apply wp_bind.
  destruct (add_result_cases accepts root st l k pw) as [Hz|(e & He & Hr)].
  - rewrite Hz in Hcall. eapply wp_syscall; [exact Hcall|lia|]. intros q Hq Hs. cbv beta zeta. cbn [fst].
    rewrite decide_False by lia. apply wp_bind. eapply wp_opt; [exact Hc|].
    apply wp_bind, wp_printf. intros ? []. apply wp_bind, wp_puts. intros ? []. apply wp_ret, HQ; congruence.
  - rewrite He in Hcall. eapply wp_syscall_err; [exact Hcall|lia|]. intros q Hq Hs _. cbv beta zeta. cbn [fst].
    rewrite decide_True by lia. apply wp_bind, wp_errno_text. intros ? ? [].
    apply wp_bind, wp_printf. intros ? []. apply wp_bind, wp_puts. intros ? []. apply wp_ret, HQ; congruence.
Qed.

Lemma wp_remove st l path k u pw Q p :
  monitor (p_sys p) st l → c_str path = Some k → user_path path = Some k → PASSW_LEN ≤ length u →
  c_str (take PASSW_LEN u) = Some pw →
  (∀ ret q, p_in q = p_in p → monitor (p_sys q) st (remove_paths accepts root st l k pw) → Q ret q) →
  wp (remove_from_blacklist path u) Q p.
Proof.
  intros Hm Hc Hk Hu Hpw HQ. destruct (monitor_remove _ _ _ _ _ _ _ Hm Hk Hu Hpw) as (s' & Hcall & Hm').
  unfold remove_from_blacklist. apply wp_bind.
  destruct (remove_result_cases accepts root st l k pw) as [Hz|(e & He & Hr)].
  - eapply wp_syscall; [exact Hcall|lia|]. intros q Hq Hs. cbv beta zeta. cbn [fst].
    rewrite decide_False by lia. apply wp_bind. eapply wp_opt; [exact Hc|].
    apply wp_bind, wp_printf. intros ? []. apply wp_bind.
    case_decide; apply wp_puts; intros ? []; apply wp_ret, HQ; congruence.
  - rewrite He in Hcall. eapply wp_syscall_err; [exact Hcall|lia|]. intros q Hq Hs _. cbv beta zeta. cbn [fst].
    rewrite decide_True by lia. apply wp_bind, wp_errno_text. intros ? ? [].
    apply wp_bind, wp_printf. intros ? []. apply wp_bind, wp_puts. intros ? []. apply wp_ret, HQ; congruence.
Qed.

(** A turn that asks for a path and a password. *)
Lemma wp_case_edit question complaint (edit : buf → buf → U S Z) k s c r lo (P : S → Prop) p :
  terminal → typed_path k → typed s → length (lo_psw lo) = MAX_PASS_LEN →
  length (lo_path lo) = PATH_MAX → c ≠ NUL → p_in p = LF :: k ++ LF :: s ++ LF :: c :: r →
  (∀ path u Q q, p_sys q = p_sys p → c_str path = Some k → user_path path = Some k →
     PASSW_LEN ≤ length u → c_str (take PASSW_LEN u) = Some (edited s) →
     (∀ ret q', p_in q' = p_in q → P (p_sys q') → Q ret q') → wp (edit path u) Q q) →
  wp (case_edit question complaint edit lo)
    (λ res q, res.1 = Goto HOME ∧ length (lo_psw res.2) = MAX_PASS_LEN ∧
       length (lo_path res.2) = PATH_MAX ∧ p_in q = r ∧ P (p_sys q)) p.
Proof.
  intros Ht Hk Hs Hpw Hpath Hc Hp Hedit. unfold case_edit. apply wp_bind, wp_puts. intros q [Hi Hsy].
  apply wp_bind. eapply wp_ask_path; [exact Hk|done|by rewrite Hi|].
  intros q1 lo1 Hi1 Hs1 Hpw1 Hl1 Hc1 Hu1. apply wp_bind.
  eapply (wp_FFLUSH [] (s ++ LF :: c :: r)); [apply not_elem_of_nil|done|]. intros q2 Hi2 Hs2.
  apply wp_bind, wp_puts. intros q3 [Hi3 Hs3]. apply wp_bind.
  eapply wp_ask_password; [done|done|congruence|by rewrite Hi3, Hi2|].
  intros q4 lo2 n Hi4 Hs4 Hn Hp2 Hl2 Hpw2. cbv beta iota. rewrite decide_False by done. apply wp_bind.
  apply Hedit; [congruence|congruence|congruence|by rewrite Hl2|done|]. intros ret q5 Hi5 HP.
  eapply wp_end_turn; [done|by rewrite Hi5, Hi4|]. intros q6 Hi6 Hs6. cbn [fst snd].
  split; [done|]. split; [done|]. split; [congruence|]. split; [done|]. by rewrite Hs6.
Qed.

(** The client at its home menu, on a system whose monitor is in the state [st]
    with the paths [l]. *)
Record ready lo p st l : Prop := {
  rd_psw : length (lo_psw lo) = MAX_PASS_LEN;
  rd_path : length (lo_path lo) = PATH_MAX;
  rd_monitor : monitor (p_sys p) st l;
}.

(** The turn that switches the state, with the password [pw] that
    [ask_password] leaves in the array. *)
Lemma switch_turn_with lo p st l c st' text pw rest :
  ready lo p st l → digit_val c = Some st' → (0 ≤ st' ≤ 3)%Z →
  p_in p = line (lit "1") ++ line [c] ++ text →
  (∀ q Q, p_in q = text →
     (∀ q' lo' n, p_in q' = LF :: rest → p_sys q' = p_sys q → (n ≠ 0)%Z → lo_path lo' = lo_path lo →
        length (lo_psw lo') = MAX_PASS_LEN → c_str (take PASSW_LEN (lo_psw lo')) = Some pw → Q (n, lo') q') →
     wp (ask_password (lo_set_state st' lo)) Q q) →
  ∃ lo' p', main_step HOME lo p = inr ((Goto HOME, lo'), p') ∧ p_in p' = rest ∧
    ready lo' p' (switch_state accepts root st st' pw) l.
Proof.
  intros [Hpsw Hpath Hm] Hc Hst Hp Hask.
  cut (wp (home lo) (λ res q, res.1 = Goto HOME ∧ p_in q = rest ∧
         ready res.2 q (switch_state accepts root st st' pw) l) p).
  { intros ([nx lo'] & p' & Hr & Hnx & Hi & Hrd). cbn [fst snd] in *. subst nx. by exists lo', p'. }
  unfold home. apply wp_bind. eapply (wp_get_function_number st l "1"%char 1);
    [exact Hm|done|lia|exact Hp|]. intros q Hi Hmq.
  change (menu_choice st 1) with 1%Z. rewrite decide_False by lia. rewrite decide_True by done.
  unfold case_change_state. do 5 (apply wp_bind, wp_puts; intros ? []). apply wp_bind. eapply wp_scanf.
  { match goal with |- scan_int (p_in ?x) = _ => replace (p_in x) with (LF :: c :: LF :: text) end.
    - apply (scan_int_digit c st' _ Hc). lia.
    - transitivity (p_in q); [|congruence]. rewrite Hi. unfold line. by rewrite <- !app_assoc. }
  intros r2 Hi2 Hs2. cbv zeta. apply wp_bind. eapply wp_opt; [reflexivity|]. rewrite decide_False by lia.
  apply wp_bind, wp_puts. intros r3 [Hi3 Hs3]. apply wp_bind.
  eapply (wp_FFLUSH [] text); [apply not_elem_of_nil|by rewrite Hi3|]. intros r4 Hi4 Hs4.
  apply wp_bind, Hask; [done|].
  intros r5 lo2 n Hi5 Hs5 Hn Hp2 Hl2 Hpw2. cbv beta iota. rewrite decide_False by done.
  apply wp_bind, wp_printf. intros r6 [Hi6 Hs6]. apply wp_bind.
  eapply (wp_change_state st l st' _ pw); [congruence|done|by rewrite Hl2|done|].
  intros ret r7 Hret Hi7 Hm7.
  assert (wp (end_turn lo2) (λ res q, res.1 = Goto HOME ∧ p_in q = rest ∧
         ready res.2 q (switch_state accepts root st st' pw) l) r7) as Hend.
  { eapply wp_end_turn; [|by rewrite Hi7, Hi6, Hi5|]; [done|]. intros r8 Hi8 Hs8.
    split; [done|]. split; [done|]. split; cbn [snd]; congruence. }
  case_decide; [|done]. rewrite decide_True by tauto. done.
Qed.

Lemma switch_turn lo p st l c st' s rest :
  terminal → ready lo p st l → digit_val c = Some st' → (0 ≤ st' ≤ 3)%Z → typed s →
  p_in p = line (lit "1") ++ line [c] ++ line s ++ line [] ++ rest →
  ∃ lo' p', main_step HOME lo p = inr ((Goto HOME, lo'), p') ∧ p_in p' = rest ∧
    ready lo' p' (switch_state accepts root st st' (edited s)) l.
Proof.
  intros Ht Hrd Hc Hst Hs Hp. eapply switch_turn_with; [done..|exact Hp|]. intros q Q Hq HQ.
  eapply wp_ask_password; [done|done|apply Hrd| |exact HQ]. rewrite Hq. unfold line. by rewrite <- app_assoc.
Qed.

(** A password and a path in memory, as the kernel reads them. *)
Lemma password_at pw r : no_nul pw → length pw < PASSW_LEN → c_str (take PASSW_LEN (pw ++ NUL :: r)) = Some pw.
Proof.
  intros Hnn Hlt. rewrite take_app_ge by lia. destruct (PASSW_LEN - length pw) as [|n] eqn:Hn; [lia|].
  cbn [take]. by apply c_str_app.
Qed.

Lemma user_path_at k r : no_nul k → length k < PATH_MAX → user_path (k ++ NUL :: r) = Some k.
Proof.
  intros Hnn Hlt. unfold user_path, user_buf. rewrite take_app_ge by lia.
  destruct (PATH_MAX - length k) as [|n] eqn:Hn; [lia|]. cbn [take]. rewrite <- app_assoc. by apply c_str_app.
Qed.

(** [switch_reconfigure] makes the call once. *)
Lemma wp_switch_reconfigure prog arg1 pw st l st' Q p :
  monitor (p_sys p) st l → int32 (strtol0 arg1) = st' → (0 ≤ st' ≤ 3)%Z → no_nul pw → length pw < PASSW_LEN →
  PASSW_LEN ≤ length (pw ++ NUL :: after_argv) →
  (∀ q, monitor (p_sys q) (switch_state accepts root st st' pw) l →
     Q (if accepts pw && root then EXIT_SUCCESS else EXIT_FAILURE) q) →
  wp (switch_reconfigure [prog; arg1; pw]) Q p.
Proof.
  intros Hm Harg Hst Hnn Hlt Hlen HQ. unfold switch_reconfigure. cbv zeta. rewrite Harg.
  rewrite decide_False by lia.
  pose proof (password_at pw after_argv Hnn Hlt) as Hpw.
  destruct (monitor_switch _ _ _ _ _ _ Hm Hst Hlen Hpw) as (s' & Hc & Hm'). apply wp_bind.
  unfold switch_result, privileged, switch_state in *. destruct (accepts pw); [destruct root|];
    cbn [andb] in *.
  - eapply wp_syscall; [exact Hc|lia|]. intros q _ Hs. cbv beta zeta. cbn [fst].
    rewrite decide_False by lia. apply wp_bind, wp_print_state; [done|]. intros q' [_ Hs'].
    apply wp_ret, HQ. congruence.
  - eapply wp_syscall_err; [exact Hc|unfold EPERM; lia|]. intros q _ Hs He. cbv beta zeta. cbn [fst].
    rewrite decide_True by done. apply wp_bind, wp_errno. rewrite He, decide_False by done.
    apply wp_bind. unfold perror. apply wp_bind, wp_errno_text. intros m q' [_ Hs'].
    apply wp_eprintf. intros q'' [_ Hs'']. apply wp_ret, HQ. congruence.
  - eapply wp_syscall_err; [exact Hc|unfold EACCES; lia|]. intros q _ Hs He. cbv beta zeta. cbn [fst].
    rewrite decide_True by done. apply wp_bind, wp_errno. rewrite He, decide_True by done.
    apply wp_bind, wp_bind, wp_errno_text. intros m q' [_ Hs'].
    apply wp_puts. intros q'' [_ Hs'']. apply wp_ret, HQ. congruence.
Qed.
End sessions.

(** ** Properties *)

Section session_properties.
Context {S : Type} `{SY : !Sys S} `{LC : Libc} `{MS : !MonitorSpec S}.
Implicit Types (p q : proc S) (lo : locals) (st : Z) (l : list buf).

(** A user who types 1, the number of a state, the password and ENTER at the
    home menu gets the monitor in that state when the password is right and the
    client runs as root, and the state as it was otherwise; the client is at its
    home menu again and has read exactly that text. *)
Theorem switch_session lo p st l c st' s rest :
  terminal → ready lo p st l → digit_val c = Some st' → (0 ≤ st' ≤ 3)%Z → typed s →
  p_in p = line (lit "1") ++ line [c] ++ line s ++ line [] ++ rest →
  ∃ lo' p', main_step HOME lo p = inr ((Goto HOME, lo'), p') ∧ p_in p' = rest ∧
    ready lo' p' (switch_state accepts root st st' (edited s)) l.
Proof. apply switch_turn. Qed.

(** When the attributes of the terminal cannot be read, [getpasswd] gives -1,
    which the menu does not test: no password is asked for, and the state is
    switched with the password that the array holds from an earlier turn. *)
Theorem stale_password_session lo p st l c st' pw rest :
  tcgetattr_ok = false → ready lo p st l → c_str (take PASSW_LEN (lo_psw lo)) = Some pw →
  digit_val c = Some st' → (0 ≤ st' ≤ 3)%Z →
  p_in p = line (lit "1") ++ line [c] ++ line [] ++ rest →
  ∃ lo' p', main_step HOME lo p = inr ((Goto HOME, lo'), p') ∧ p_in p' = rest ∧
    ready lo' p' (switch_state accepts root st st' pw) l.
Proof.
  intros Ht Hrd Hpw Hc Hst Hp. eapply switch_turn_with; [done..|exact Hp|]. intros q Q Hq HQ.
  unfold ask_password. apply wp_bind. unfold getpasswd. rewrite decide_False by done. cbv zeta.
  apply wp_bind, wp_ret. cbv iota. rewrite Ht. cbn [negb]. apply wp_bind, wp_eprintf. intros q1 [Hi Hs].
  apply wp_ret, wp_bind. eapply wp_opt; [reflexivity|]. apply wp_ret, HQ; cbn [lo_path lo_psw];
    [by rewrite Hi, Hq|done|done|done|apply Hrd|done].
Qed.

(** C25. In a reconfiguration state, a user who types 3 (or 4), a path, the password
    and ENTER gets the path added to (removed from) the protected paths when the
    password is right and the client runs as root, and the same paths otherwise. *)
Theorem edit_session lo p st l k s rest :
  terminal → ready lo p st l → (2 ≤ st)%Z → typed_path k → typed s →
  (p_in p = line (lit "3") ++ line k ++ line s ++ line [] ++ rest →
   ∃ lo' p', main_step HOME lo p = inr ((Goto HOME, lo'), p') ∧ p_in p' = rest ∧
     ready lo' p' st (add_paths accepts root st l k (edited s))) ∧
  (p_in p = line (lit "4") ++ line k ++ line s ++ line [] ++ rest →
   ∃ lo' p', main_step HOME lo p = inr ((Goto HOME, lo'), p') ∧ p_in p' = rest ∧
     ready lo' p' st (remove_paths accepts root st l k (edited s))).
Proof.
  intros Ht [Hpsw Hpath Hm] Hst Hk Hs. pose proof (monitor_range _ _ _ Hm) as Hr.
  assert (∀ q l', p_in q = LF :: k ++ LF :: s ++ LF :: LF :: rest → monitor (p_sys q) st l →
    ∀ question complaint edit,
    (∀ path u Q q', p_sys q' = p_sys q → c_str path = Some k → user_path path = Some k →
       PASSW_LEN ≤ length u → c_str (take PASSW_LEN u) = Some (edited s) →
       (∀ ret q'', p_in q'' = p_in q' → monitor (p_sys q'') st l' → Q ret q'') → wp (edit path u) Q q') →
    wp (case_edit question complaint edit lo)
      (λ res q', res.1 = Goto HOME ∧ p_in q' = rest ∧ ready res.2 q' st l') q) as Hturn.
  { intros q l' Hi Hmq question complaint edit Hedit. eapply wp_mono.
    - by apply (wp_case_edit question complaint edit k s LF rest lo (λ s', monitor s' st l')).
    - intros [nx lo'] q' (? & ? & ? & ? & ?). by split_and!. }
  assert (∀ l', wp (home lo) (λ res q, res.1 = Goto HOME ∧ p_in q = rest ∧ ready res.2 q st l') p →
    ∃ lo' p', main_step HOME lo p = inr ((Goto HOME, lo'), p') ∧ p_in p' = rest ∧ ready lo' p' st l') as Hout.
  { intros l' ([nx lo'] & p' & Hrun & Hnx & Hi & Hrd). cbn [fst snd] in *. subst nx. by exists lo', p'. }
  assert (∀ t, line k ++ line s ++ line [] ++ t = k ++ LF :: s ++ LF :: LF :: t) as Htext.
  { intros t. unfold line. by rewrite <- !app_assoc. }
  split; intros Hp; apply Hout; unfold home; apply wp_bind.
  - eapply (wp_get_function_number st l "3"%char 3); [exact Hm|done|lia|exact Hp|]. intros q Hi Hmq.
    rewrite Htext in Hi. assert (menu_choice st 3 = 3%Z) as ->.
    { unfold menu_choice. rewrite decide_False by lia. done. }
    do 3 rewrite decide_False by lia. rewrite decide_True by done.
    apply Hturn; [done|done|]. intros path u Q q' Hq' ? ? ? ? HQ. eapply wp_add; [by rewrite Hq'|done..].
  - eapply (wp_get_function_number st l "4"%char 4); [exact Hm|done|lia|exact Hp|]. intros q Hi Hmq.
    rewrite Htext in Hi. change (menu_choice st 4) with 4%Z.
    do 4 rewrite decide_False by lia. rewrite decide_True by done.
    apply Hturn; [done|done|]. intros path u Q q' Hq' ? ? ? ? HQ. eapply wp_remove; [by rewrite Hq'|done..].
Qed.

(** C26. The number that the home menu shows for the exit, ENTER, and the command
    exit end the client with success, in two steps of its machine, when malloc
    succeeds. *)
Theorem exit_session lo p st l rest :
  ready lo p st l → (∀ n, is_Some (user_malloc n sizeof_mod_info)) →
  p_in p = line (lit (if decide (st < 2)%Z then "3" else "6")) ++ line (lit "exit") ++ rest →
  ∃ p', main_from 2 HOME lo p = Some (inr (EXIT_SUCCESS, p')).
Proof.
  intros [Hpsw Hpath Hm] Hmal Hp. pose proof (monitor_range _ _ _ Hm) as Hr.
  assert (wp (home lo) (λ res q, res = (Goto MODULE_INFO_DISPLAY, lo) ∧ p_in q = line (lit "exit") ++ rest) p)
    as (res & p1 & Hrun & -> & Hi1).
  { unfold home. apply wp_bind.
    assert (∃ c d, digit_val c = Some d ∧ (1 ≤ d ≤ 9)%Z ∧ menu_choice st d = EXIT_VALUE ∧
      p_in p = c :: LF :: line (lit "exit") ++ rest) as (c & d & Hc & Hd & Hme & Hp').
    { destruct (decide (st < 2)%Z); [exists "3"%char, 3%Z|exists "6"%char, 6%Z];
        (split; [done|]); (split; [lia|]); (split; [|exact Hp]); unfold menu_choice.
      - by rewrite decide_True by lia.
      - rewrite decide_False by lia. by rewrite decide_True by lia. }
    eapply wp_get_function_number; [exact Hm|exact Hc|lia|exact Hp'|]. intros q Hi _. rewrite Hme.
    unfold EXIT_VALUE. do 6 rewrite decide_False by lia. rewrite decide_True by done. apply wp_bind.
    eapply (wp_FFLUSH []); [apply not_elem_of_nil|exact Hi|]. intros r Hir _. by apply wp_ret. }
  assert (wp (module_info_display lo) (λ res q, res.1 = Exit EXIT_SUCCESS) p1) as (res & p2 & Hrun2 & Hx).
  { destruct (Hmal (p_mallocs p1)) as [b Hb]. unfold module_info_display. apply wp_bind.
    eexists _, _. split; [unfold malloc; by rewrite Hb|]. cbv beta iota. unfold module_loop.
    apply wp_bind. unfold display_module_info. apply wp_bind.
    apply module_screen_run; [apply monitor_clear|]. intros q [Hiq _].
    apply wp_bind. eapply wp_scanf.
    { rewrite Hiq. cbn [p_in]. rewrite Hi1. reflexivity. }
    intros q2 _ _. apply wp_bind. eapply wp_opt; [reflexivity|]. rewrite decide_False by (simpl; lia).
    apply wp_bind. eapply wp_opt; [reflexivity|]. apply wp_bind. eapply wp_opt; [reflexivity|].
    cbv beta iota. apply wp_bind. unfold module_command. rewrite decide_True by reflexivity. apply wp_ret.
    cbv beta iota. apply wp_bind. eapply wp_opt; [reflexivity|]. apply wp_ret. cbv beta iota zeta.
    rewrite decide_False by done. unfold module_switch. do 2 rewrite decide_False by done.
    rewrite decide_True by done. apply wp_bind. unfold exit_function.
    do 4 (apply wp_bind, wp_printf; intros ? []). apply wp_clear; [apply monitor_clear|]. intros ? [].
    by apply wp_ret. }
  exists p2. cbn [main_from main_step]. rewrite Hrun. cbn [main_from main_step]. rewrite Hrun2.
  destruct res as [nx lo']. cbn [fst] in Hx. by subst nx.
Qed.

(** The command-line program with the number of a state and a password of fewer
    than 32 characters puts the monitor in that state and exits with success when
    the password is right and it runs as root, and otherwise leaves the state and
    exits with failure. *)
Theorem switch_reconfigure_session prog arg1 pw st l st' p :
  monitor (p_sys p) st l → int32 (strtol0 arg1) = st' → (0 ≤ st' ≤ 3)%Z → no_nul pw → length pw < PASSW_LEN →
  PASSW_LEN ≤ length (pw ++ NUL :: after_argv) →
  ∃ p', switch_reconfigure [prog; arg1; pw] p =
      inr (if accepts pw && root then EXIT_SUCCESS else EXIT_FAILURE, p') ∧
    monitor (p_sys p') (switch_state accepts root st st' pw) l.
Proof.
  intros Hm Harg Hst Hnn Hlt Hlen.
  destruct (wp_switch_reconfigure prog arg1 pw st l st'
    (λ z q, z = (if accepts pw && root then EXIT_SUCCESS else EXIT_FAILURE) ∧
       monitor (p_sys q) (switch_state accepts root st st' pw) l) p) as (z & p' & Hr & -> & Hm'); [done..|].
  by exists p'.
Qed.
End session_properties.
