(* ===== verification/Deployment.v ===== *)
(** * The client on the kernel with the module

    The kernel with the loaded module is a system on which user programs run
    ([kernel_sys]): a call goes through the system call table.  The theorems of the
    module discharge what the client relies on ([monitor_kept]), so the sessions of
    the client hold on it; and a user other than root changes nothing through the
    programs. *)

From S2P Require Import Prelude CString Kernel Utils Blacklist Logger Kprobes Scth Monitor Security.
From S2P Require Import Syscall Stdio Client Sessions.

(** The effective user of the program, the files it can see and the commands it
    can run. *)
Class Shell := {
  shell_euid : Z;
  shell_access : buf → world → bool;
  shell_run : buf → world → world;
}.

(** [clear] changes the terminal only. *)
Class ShellLaws `{SH : Shell} : Prop := { shell_clear w : shell_run (lit "clear") w = w }.

(** Memory and the crypto API never fail. *)
Class Available `{AL : Alloc} `{CR : Crypto} : Prop := {
  memory_up n : kmalloc_ok n = true;
  crypto_api_up n : crypto_up n;
}.

Section deployment.
Context `{AL : Alloc} `{CR : Crypto} `{CL : !CryptoLaws} `{VF : Vfs} `{VL : !VfsLaws} `{LF : LogFile}
  `{KA : KprobeAPI} `{KL : !KprobeLaws} `{LK : Linked} `{LL : !LinkedLaws} `{ST : Stack} `{SL : Slab}
  `{IA : !InitOnAlloc} `{OC : OtherCalls} `{SH : Shell} `{SHL : !ShellLaws}.

#[export] Instance kernel_sys : Sys world :=
  {| sys_call := λ nr args w,
       match dispatch nr args shell_euid w with Ret r w' => inr (r, w') | Crash f => inl f end;
     sys_access := shell_access;
     sys_command := shell_run |}.

(** The table [words] had [ni] at the entries of client.h, which now lead to the
    module. *)
Context (dg : buf) (words : list Z) (ni : Z) (Hwords : Forall (λ k, k < length words) client_slots).

Definition deployed (a : blacklist) (w : world) : Prop :=
  secure dg a w ∧ installed words client_slots ni (g_sys (w_glob w)).

(** ** Every call is an operation of the module *)

Lemma call_of_number nr : nr ∈ client_numbers →
  ∃ i k id, nr = Z.of_nat k ∧ client_slots !! i = Some k ∧ syscall_ids !! i = Some id.
Proof.
  intros Hin. unfold client_numbers in Hin. rewrite !elem_of_cons, elem_of_nil in Hin.
  destruct Hin as [->|[->|[->|[->|[->|[->|[]]]]]]];
    [exists 0|exists 1|exists 2|exists 3|exists 4|exists 5]; eexists _, _;
    (split; [|split; reflexivity]); reflexivity.
Qed.

Lemma run_call_step id args euid r w w' : run_call id args euid w = Ret r w' → step w w'.
Proof.
  destruct id; cbn [run_call].
  - intros (st & u & (z & w3 & H3 & [= _ <-])%bind_Ret_inv)%decoded_inv. by eapply step_switch.
  - intros (z & w3 & H3 & [= _ <-])%bind_Ret_inv. by eapply step_get_state.
  - intros (st & u & (z & w3 & H3 & [= _ <-])%bind_Ret_inv)%decoded_inv. by eapply step_add.
  - intros (st & u & (z & w3 & H3 & [= _ <-])%bind_Ret_inv)%decoded_inv. by eapply step_remove.
  - intros (room & n & H3)%decoded_inv. by eapply step_print.
  - intros (z & w3 & H3 & [= _ <-])%bind_Ret_inv. by eapply step_size.
Qed.

Lemma deployed_dispatch a w i k id args :
  deployed a w → client_slots !! i = Some k → syscall_ids !! i = Some id →
  sys_call (Z.of_nat k) args w =
  match run_call id args shell_euid w with Ret r w' => inr (r, w') | Crash f => inl f end.
Proof.
  intros [_ Hin] Hk Hid. cbn [sys_call kernel_sys]. by erewrite dispatch_slot.
Qed.

(** ** A caller without privilege changes nothing *)

Definition unchanged (a : blacklist) (w w' : world) : Prop :=
  rf_state (rf w') = rf_state (rf w) ∧ deployed a w'.

Lemma unprivileged_step a w w' nr args r :
  deployed a w → shell_euid ≠ 0%Z → nr ∈ client_numbers → sys_call nr args w = inr (r, w') →
  unchanged a w w'.
Proof.
  intros Hd Hu (i & k & id & -> & Hk & Hid)%call_of_number Hc. pose proof Hd as [Hsec Hin].
  rewrite (deployed_dispatch a w i k id args Hd Hk Hid) in Hc.
  destruct (run_call id args shell_euid w) as [r' w1|] eqn:Hr; [|done]. injection Hc as -> ->.
  assert (extends w w' → unchanged a w w') as Hext.
  { intros He. pose proof (extends_glob _ _ He) as Hg. split; [by rewrite Hg|].
    split; [by eapply secure_extends|by rewrite Hg]. }
  assert (wf w) as Hwf by apply Hsec.
  destruct id; cbn [run_call] in Hr.
  - apply decoded_inv in Hr as (st & u & (z & w3 & H3 & [= _ <-])%bind_Ret_inv).
    destruct (switch_step _ _ _ _ _ _ _ _ Hsec H3) as (_ & _ & [He|(_ & He & _)]); [by apply Hext|done].
  - apply bind_Ret_inv in Hr as (z & w3 & H3 & [= _ <-]).
    destruct (keeps_sys_get_rf_state w Hwf w z w3) as [He _]; [done..|]. by apply Hext.
  - apply decoded_inv in Hr as (st & u & (z & w3 & H3 & [= _ <-])%bind_Ret_inv).
    destruct (add_step _ _ _ _ _ _ _ _ Hsec H3) as (a' & Hs & Hlf & [->|(Hm & _)]); [|by destruct Hm as (_ & ? & _)].
    split; [by apply list_frame_state|]. split; [done|]. by rewrite (list_frame_sys _ _ Hlf).
  - apply decoded_inv in Hr as (st & u & (z & w3 & H3 & [= _ <-])%bind_Ret_inv).
    destruct (remove_step _ _ _ _ _ _ _ _ Hsec H3) as (a' & Hs & Hlf & [->|(Hm & _)]); [|by destruct Hm as (_ & ? & _)].
    split; [by apply list_frame_state|]. split; [done|]. by rewrite (list_frame_sys _ _ Hlf).
  - apply decoded_inv in Hr as (room & n & H3).
    destruct (keeps_sys_print w Hwf room n w r w') as [He _]; [done..|]. by apply Hext.
  - apply bind_Ret_inv in Hr as (z & w3 & H3 & [= _ <-]). injection H3 as _ <-. by apply Hext.
Qed.

(** What a run of an unprivileged program does to the state and the paths. *)
Definition leaves (w w' : world) : Prop := ∀ a, deployed a w → unchanged a w w'.

#[local] Instance leaves_preorder : PreOrder leaves.
Proof.
  split.
  - by intros w a Hd.
  - intros w1 w2 w3 H12 H23 a Hd. destruct (H12 a Hd) as [Hs Hd2]. destruct (H23 a Hd2) as [Hs' Hd3].
    split; [congruence|done].
Qed.

Lemma clear_leaves w : leaves w (sys_command (lit "clear") w).
Proof. cbn [sys_command kernel_sys]. by rewrite shell_clear. Qed.

Lemma call_leaves nr args w r w' :
  shell_euid ≠ 0%Z → nr ∈ client_numbers → sys_call nr args w = inr (r, w') → leaves w w'.
Proof. intros Hu Hin Hc a Hd. by eapply unprivileged_step. Qed.

Context `{LC : Libc}.

Lemma home_leaves lo : shell_euid ≠ 0%Z → obeys leaves (home lo).
Proof. intros. apply obeys_home; [apply _|intros; by eapply call_leaves|apply clear_leaves]. Qed.

Lemma switch_reconfigure_leaves argv : shell_euid ≠ 0%Z → obeys leaves (switch_reconfigure argv).
Proof. intros. apply obeys_switch_reconfigure; [apply _|by intros; eapply call_leaves|apply clear_leaves]. Qed.

(** ** The module keeps what the client relies on *)

Section promises.
Context `{AV : !Available}.

(** A call of the client, as the operation of the module it leads to. *)
Lemma deployed_call a a' w w' i k id args r :
  deployed a w → client_slots !! i = Some k → syscall_ids !! i = Some id →
  run_call id args shell_euid w = Ret r w' → secure dg a' w' →
  sys_call (Z.of_nat k) args w = inr (r, w') ∧ deployed a' w'.
Proof.
  intros Hd Hk Hid Hr Hs. rewrite (deployed_dispatch a w i k id args Hd Hk Hid), Hr. split; [done|].
  apply run_call_step in Hr. destruct Hd as [Hsec Hin].
  destruct (step_secure _ _ _ _ Hsec Hr) as (_ & _ & _ & Hg). split; [done|]. by rewrite Hg.
Qed.

(** [sys_get_rf_state] tells the state. *)
Lemma get_rf_state_run a w :
  secure dg a w → ∃ w', sys_get_rf_state w = Ret (rf_state (rf w)) w' ∧ extends w w'.
Proof.
  intros Hsec. assert (wf w) as Hwf by apply Hsec. pose proof (proj1 Hwf) as Hb.
  assert (∃ w', sys_get_rf_state w = Ret (rf_state (rf w)) w') as [w' Hr].
  { unfold sys_get_rf_state. erewrite K_bind_Ret by (apply run_kmalloc_ok, memory_up).
    rewrite decide_False by kptr. kstep.
    destruct (set_state_string_run (rf_state (rf w)) (brk w) (clock w)
      (w_alloc (OBuf (fresh_bytes (clock w) state_string_size)) w)) as (b & s & Hset & _);
      [apply Hsec|apply lookup_insert_eq|kptr|].
    erewrite K_bind_Ret by exact Hset. by eexists. }
  exists w'. split; [done|]. by apply (keeps_sys_get_rf_state w Hwf w _ w' (reflexivity w) Hr).
Qed.

(** The checks of the two edits, with memory and the crypto API available. *)
Lemma edit_checks_run a u pw (m : K Z) w :
  secure dg a w → PASSW_LEN ≤ length u → c_str (take PASSW_LEN u) = Some pw →
  (rf_state (rf w) < 2)%Z ∨ sha256 pw ≠ dg ∨ shell_euid ≠ 0%Z →
  ∃ w', extends w w' ∧
  (ret ← is_rf_rec;
   if decide (ret ≠ 0%Z) then mret ret else
   ret ← password_check u;
   if decide (ret ≠ 0%Z) then mret ret else
   (let ret := euid_check shell_euid in
    if decide (ret ≠ 0%Z) then mret ret else m)) w =
  Ret (if decide (rf_state (rf w) < 2)%Z then - EPERM else
       if decide (sha256 pw = dg) then - EPERM else - EACCES)%Z w'.
Proof.
  intros Hsec Hlen Hpw Hno. erewrite K_bind_Ret by apply run_is_rf_rec.
  destruct (decide (rf_state (rf w) < 2)%Z) as [Hst|Hst]; [by exists w|].
  rewrite (decide_False (P := 0%Z ≠ 0%Z)) by naive_solver.
  destruct (password_check_run u pw dg w) as (w1 & Hpc & He & _);
    [apply Hsec|apply Hsec|apply memory_up|apply crypto_api_up|done..|].
  exists w1. split; [done|]. erewrite K_bind_Ret by exact Hpc.
  destruct (decide (sha256 pw = dg)) as [Hd|Hd].
  - rewrite (decide_False (P := 0%Z ≠ 0%Z)) by naive_solver. cbv zeta.
    rewrite decide_True by (rewrite euid_check_0; naive_solver).
    unfold euid_check. by destruct (Z.eqb_spec shell_euid 0); [naive_solver|].
  - by rewrite decide_True by done.
Qed.

Definition monitor_in (w : world) (st : Z) (l : list buf) : Prop :=
  ∃ a, deployed a w ∧ rf_state (rf w) = st ∧ bl_paths a = l.

Definition right_password (pw : buf) : bool := bool_decide (sha256 pw = dg).
Definition by_root : bool := bool_decide (shell_euid = 0%Z).

Lemma in_int32 st : (0 ≤ st ≤ 3)%Z → int32 st = st.
Proof. intros. apply int32_small; lia. Qed.

Lemma kernel_monitor_switch w st l st' u pw :
  monitor_in w st l → (0 ≤ st' ≤ 3)%Z → PASSW_LEN ≤ length u → c_str (take PASSW_LEN u) = Some pw →
  ∃ w', sys_call SWITCH_STATE [AInt st'; APtr u] w =
      inr ((switch_result right_password by_root st' pw, []), w') ∧
    monitor_in w' (switch_state right_password by_root st st' pw) l.
Proof.
  intros (a & Hd & <- & <-) Hst Hlen Hpw. pose proof (proj1 Hd) as Hsec.
  destruct (switch_run st' u pw shell_euid dg a w) as (z & w' & Hrun & Hsec' & Hz);
    [done|by intros ??; apply memory_up|apply crypto_api_up|done..|].
  rewrite decide_True in Hz by done.
  destruct (deployed_call a a w w' 0 134 switch_rf_state [AInt st'; APtr u] (z, [])) as [Hc Hd'];
    [done..| |done|].
  { cbn [run_call]. unfold arg_int, arg_ptr. cbn [lookup list_lookup]. rewrite in_int32 by done.
    kstep. kstep. by erewrite K_bind_Ret by exact Hrun. }
  exists w'. change SWITCH_STATE with (Z.of_nat 134). rewrite Hc.
  unfold switch_result, switch_state, privileged, right_password, by_root, monitor_in.
  case_decide as H1; [rewrite (bool_decide_eq_true_2 _ H1)|rewrite (bool_decide_eq_false_2 _ H1)];
    [case_decide as H2; [rewrite (bool_decide_eq_true_2 _ H2)|rewrite (bool_decide_eq_false_2 _ H2)]|];
    injection Hz as -> Hst'; (split; [done|]); by exists a.
Qed.

(** The result of an edit that is denied. *)
Lemma denied_result st pw z :
  (st < 2)%Z ∨ sha256 pw ≠ dg ∨ shell_euid ≠ 0%Z →
  (if decide (st < 2)%Z then - EPERM else privileged right_password by_root pw z)%Z =
  (if decide (st < 2)%Z then - EPERM else if decide (sha256 pw = dg) then - EPERM else - EACCES)%Z.
Proof.
  intros Hno. case_decide as Hst; [done|]. unfold privileged, right_password, by_root.
  case_decide as Hp; [rewrite bool_decide_eq_true_2 by done|by rewrite bool_decide_eq_false_2 by done].
  by rewrite bool_decide_eq_false_2 by naive_solver.
Qed.

(** Who may edit, and what [add_paths] and [remove_paths] are otherwise. *)
Lemma edit_cases st pw :
  ((2 ≤ st)%Z ∧ sha256 pw = dg ∧ shell_euid = 0%Z ∧ right_password pw = true ∧ by_root = true) ∨
  ((st < 2)%Z ∨ sha256 pw ≠ dg ∨ shell_euid ≠ 0%Z) ∧ ((2 ≤ st)%Z → right_password pw && by_root = false).
Proof.
  unfold right_password, by_root.
  destruct (decide (2 ≤ st)%Z); [|by right; split; [left; lia|lia]].
  destruct (decide (sha256 pw = dg)) as [Hp|Hp];
    [rewrite (bool_decide_eq_true_2 _ Hp)|rewrite (bool_decide_eq_false_2 _ Hp)].
  - destruct (decide (shell_euid = 0%Z)) as [He|He];
      [rewrite (bool_decide_eq_true_2 _ He)|rewrite (bool_decide_eq_false_2 _ He)]; [by left|].
    right. split; [tauto|done].
  - right. split; [tauto|done].
Qed.

Lemma kernel_monitor_add w st l path k u pw :
  monitor_in w st l → user_path path = Some k → PASSW_LEN ≤ length u →
  c_str (take PASSW_LEN u) = Some pw →
  ∃ w', sys_call ADD_TO_BLACKLIST [APtr path; APtr u] w =
      inr ((add_result right_password by_root st l k pw, []), w') ∧
    monitor_in w' st (add_paths right_password by_root st l k pw).
Proof.
  intros (a & Hd & Hst & <-) Hk Hlen Hpw. pose proof (proj1 Hd) as Hsec.
  assert (∀ z a' w', sys_add_to_blacklist path u shell_euid w = Ret z w' → secure dg a' w' →
    sys_call ADD_TO_BLACKLIST [APtr path; APtr u] w = inr ((z, []), w') ∧ deployed a' w') as Hcall.
  { intros z a' w' Hr Hs. change ADD_TO_BLACKLIST with (Z.of_nat 174).
    apply (deployed_call a a' w w' 2 174 add_blacklist); [done..| |done].
    cbn [run_call]. kstep. kstep. by erewrite K_bind_Ret by exact Hr. }
  destruct (edit_cases st pw) as [(H2 & Hp & He & Hrp & Hbr)|[Hno Hoff]].
  - destruct (edits_run path u k pw dg a w) as [(w' & Hr & Hs) _];
      [apply memory_up|apply crypto_api_up|done| |done..|].
    { pose proof (sec_state _ _ _ Hsec). unfold RF_REC_ON, RF_REC_OFF. lia. }
    rewrite He in Hcall. destruct (Hcall _ _ _ Hr Hs) as [Hc Hd']. exists w'. rewrite Hc.
    unfold add_result, add_paths, privileged. rewrite Hrp, Hbr, (decide_False (P := (st < 2)%Z)), (decide_True (P := (2 ≤ st)%Z)) by lia.
    split; [done|]. eexists. split; [exact Hd'|]. cbn [andb].
    destruct (add_step _ _ _ _ _ _ _ _ Hsec Hr) as (_ & _ & Hf & _). split; [by rewrite (list_frame_state _ _ Hf)|].
    by case_decide.
  - destruct (edit_checks_run a u pw (ret ← Blacklist.add_to_blacklist path;
      if decide (ret ≠ 0%Z) then mret ret else mret 0%Z) w) as (w' & Hx & Hr); [done..|by rewrite Hst|].
    destruct (Hcall _ a w' Hr) as [Hc Hd']; [by eapply secure_extends|]. exists w'. rewrite Hc.
    unfold add_result, add_paths. rewrite denied_result, Hst by done. split; [done|]. exists a. split; [done|].
    split; [by rewrite (extends_glob _ _ Hx), Hst|]. destruct (decide (2 ≤ st)%Z) as [H2|]; [by rewrite (Hoff H2)|done].
Qed.

Lemma kernel_monitor_remove w st l path k u pw :
  monitor_in w st l → user_path path = Some k → PASSW_LEN ≤ length u →
  c_str (take PASSW_LEN u) = Some pw →
  ∃ w', sys_call REMOVE_FROM_BLACKLIST [APtr path; APtr u] w =
      inr ((remove_result right_password by_root st l k pw, []), w') ∧
    monitor_in w' st (remove_paths right_password by_root st l k pw).
Proof.
  intros (a & Hd & Hst & <-) Hk Hlen Hpw. pose proof (proj1 Hd) as Hsec.
  assert (∀ z a' w', sys_remove_from_blacklist path u shell_euid w = Ret z w' → secure dg a' w' →
    sys_call REMOVE_FROM_BLACKLIST [APtr path; APtr u] w = inr ((z, []), w') ∧ deployed a' w') as Hcall.
  { intros z a' w' Hr Hs. change REMOVE_FROM_BLACKLIST with (Z.of_nat 177).
    apply (deployed_call a a' w w' 3 177 remove_blacklist); [done..| |done].
    cbn [run_call]. kstep. kstep. by erewrite K_bind_Ret by exact Hr. }
  destruct (edit_cases st pw) as [(H2 & Hp & He & Hrp & Hbr)|[Hno Hoff]].
  - destruct (edits_run path u k pw dg a w) as [_ (w' & Hr & Hs)];
      [apply memory_up|apply crypto_api_up|done| |done..|].
    { pose proof (sec_state _ _ _ Hsec). unfold RF_REC_ON, RF_REC_OFF. lia. }
    rewrite He in Hcall. destruct (Hcall _ _ _ Hr Hs) as [Hc Hd']. exists w'. rewrite Hc.
    unfold remove_result, remove_paths, privileged. rewrite Hrp, Hbr, (decide_False (P := (st < 2)%Z)), (decide_True (P := (2 ≤ st)%Z)) by lia.
    split; [done|]. eexists. split; [exact Hd'|]. cbn [andb].
    destruct (remove_step _ _ _ _ _ _ _ _ Hsec Hr) as (_ & _ & Hf & _). split; [by rewrite (list_frame_state _ _ Hf)|].
    case_decide as Hin; [done|]. by rewrite filter_ne_absent.
  - destruct (edit_checks_run a u pw (ret ← Blacklist.remove_from_blacklist path;
      if decide (ret = - EINVAL)%Z then mret 1%Z else mret ret) w) as (w' & Hx & Hr); [done..|by rewrite Hst|].
    destruct (Hcall _ a w' Hr) as [Hc Hd']; [by eapply secure_extends|]. exists w'. rewrite Hc.
    unfold remove_result, remove_paths. rewrite denied_result, Hst by done. split; [done|]. exists a. split; [done|].
    split; [by rewrite (extends_glob _ _ Hx), Hst|]. destruct (decide (2 ≤ st)%Z) as [H2|]; [by rewrite (Hoff H2)|done].
Qed.

Lemma kernel_monitor_get w st l :
  monitor_in w st l →
  ∃ w', sys_call GET_RF_STATE [] w = inr ((st, []), w') ∧ monitor_in w' st l.
Proof.
  intros (a & Hd & <- & <-). pose proof (proj1 Hd) as Hsec.
  destruct (get_rf_state_run a w Hsec) as (w' & Hr & He). exists w'. change GET_RF_STATE with (Z.of_nat 156).
  destruct (deployed_call a a w w' 1 156 Monitor.get_rf_state [] (rf_state (rf w), [])) as [Hc Hd'];
    [done..| |by eapply secure_extends|].
  { cbn [run_call]. by erewrite K_bind_Ret by exact Hr. }
  split; [done|]. exists a. by rewrite (extends_glob _ _ He).
Qed.

Definition counter_in (w : world) : Z := rf_blacklist_size (rf w).

Lemma kernel_monitor_size w st l args :
  monitor_in w st l → sys_call GET_BLACKLIST_SIZE args w = inr ((counter_in w, []), w).
Proof.
  intros (a & Hd & _). change GET_BLACKLIST_SIZE with (Z.of_nat 180).
  by rewrite (deployed_dispatch a w 5 180 get_blacklist_size args Hd eq_refl eq_refl).
Qed.

Lemma kernel_monitor_print w st l room n :
  monitor_in w st l → int32 n ≠ counter_in w →
  sys_call PRINT_BLACKLIST [AOut room; AInt n] w = inr (((-1)%Z, []), w).
Proof.
  intros (a & Hd & _) Hn. change PRINT_BLACKLIST with (Z.of_nat 178).
  rewrite (deployed_dispatch a w 4 178 Monitor.print_blacklist _ Hd eq_refl eq_refl). cbn [run_call].
  do 2 erewrite K_bind_Ret by reflexivity.
  unfold sys_print_blacklist, get_rf, get_glob. kstep. cbv zeta. by rewrite decide_True by done.
Qed.

(** The kernel with the loaded module keeps the promise. *)
#[export] Program Instance kernel_monitor : MonitorSpec world := {|
  monitor := monitor_in; accepts := right_password; root := by_root;
  monitor_get := kernel_monitor_get; monitor_switch := kernel_monitor_switch;
  monitor_add := kernel_monitor_add; monitor_remove := kernel_monitor_remove;
  monitor_clear := shell_clear; counter := counter_in;
  monitor_size := kernel_monitor_size; monitor_print := kernel_monitor_print |}.
Next Obligation. intros w st l (a & [Hsec _] & <- & _). apply Hsec. Qed.
End promises.
End deployment.

(** ** Properties *)

Section deployment_properties.
Context `{AL : Alloc} `{CR : Crypto} `{CL : !CryptoLaws} `{VF : Vfs} `{VL : !VfsLaws} `{LF : LogFile}
  `{KA : KprobeAPI} `{KL : !KprobeLaws} `{LK : Linked} `{LL : !LinkedLaws} `{ST : Stack} `{SL : Slab}
  `{IA : !InitOnAlloc} `{OC : OtherCalls} `{SH : Shell} `{SHL : !ShellLaws} `{LC : Libc}.

(** C11. Run by a user other than root, a turn of the home menu of the client and a
    run of [switch_reconfigure] leave the state of the monitor and the protected
    paths as they are, whatever is typed and whatever the arguments. *)
Theorem unprivileged_programs dg words ni a p :
  Forall (λ k, k < length words) client_slots → deployed dg words ni a (p_sys p) → shell_euid ≠ 0%Z →
  (∀ lo res p', main_step HOME lo p = inr (res, p') →
     rf_state (rf (p_sys p')) = rf_state (rf (p_sys p)) ∧ deployed dg words ni a (p_sys p')) ∧
  (∀ argv res p', switch_reconfigure argv p = inr (res, p') →
     rf_state (rf (p_sys p')) = rf_state (rf (p_sys p)) ∧ deployed dg words ni a (p_sys p')).
Proof.
  intros Hw Hd Hu. split.
  - intros lo res p' Hr. by apply (home_leaves dg words ni Hw lo Hu p res p' Hr).
  - intros argv res p' Hr. by apply (switch_reconfigure_leaves dg words ni Hw argv Hu p res p' Hr).
Qed.

(** C10. The whole path from the keyboard to the kernel: once the module is loaded
    in a kernel whose first six entries with the address of [sys_ni_syscall] are
    those of client.h, the client in which a user types 1, the number of a state,
    a password and ENTER leaves the module in that state when the digest of what
    was typed is the one of the parameter of the module and the client runs as
    root, and in the state OFF otherwise. *)
Theorem loaded_kernel_session `{AV : !Available} words v pw w lo c st' s rest :
  unloaded pw w → table words w → first_repeated words v →
  take HACKED_ENTRIES (slots words v) = client_slots → (∀ l, (register_kretprobes l).1 = 0%Z) →
  terminal → length (lo_psw lo) = MAX_PASS_LEN → length (lo_path lo) = PATH_MAX →
  digit_val c = Some st' → (0 ≤ st' ≤ 3)%Z → typed s →
  ∃ w1, init_module w = Ret 0%Z w1 ∧
    ∀ p, p_sys p = w1 → p_in p = line (lit "1") ++ line [c] ++ line s ++ line [] ++ rest →
    ∃ lo' p', main_step HOME lo p = inr ((Goto HOME, lo'), p') ∧ p_in p' = rest ∧
      (∃ a, deployed (sha256 pw) words v a (p_sys p') ∧ bl_paths a = []) ∧
      rf_state (rf (p_sys p')) =
        if decide (sha256 (edited s) = sha256 pw ∧ shell_euid = 0%Z) then st' else RF_OFF.
Proof.
  intros Hun Ht Hv Hsl Hreg Hterm Hpsw Hpath Hc Hst Hs.
  assert (HACKED_ENTRIES ≤ length (slots words v)) as Hlen.
  { assert (length (take HACKED_ENTRIES (slots words v)) = 6) as Hl by by rewrite Hsl.
    rewrite length_take in Hl. unfold HACKED_ENTRIES in *. lia. }
  destruct (init_module_run words v pw w) as (w1 & Hinit & Hsec & Hoff & _ & Hin);
    [done..|apply crypto_api_up|apply memory_up|done|].
  exists w1. split; [done|]. rewrite Hsl in Hin.
  assert (Forall (λ k, k < length words) client_slots) as Hw by (rewrite <- Hsl; by eapply installed_bound).
  set (MS := kernel_monitor (sha256 pw) words v Hw). intros p <- Hp.
  destruct (switch_turn (MS := MS) lo p RF_OFF [] c st' s rest) as (lo' & p' & Hr & Hi & [_ _ Hm]);
    [done| |done..|].
  { split; [done..|]. by exists bl_empty. }
  destruct Hm as (a & Hd & Hstate & Hpaths). exists lo', p'. split; [done|]. split; [done|].
  split; [by exists a|]. rewrite Hstate. unfold switch_state. cbn [accepts root MS kernel_monitor].
  unfold right_password, by_root. repeat case_bool_decide; repeat case_decide; naive_solver.
Qed.
End deployment_properties.
