(* ===== verification/LogFs.v ===== *)
(** * The log file system (log-filesystem/)

    The single append-only file that holds the log: the driver (file.c, dir.c,
    file_system.c) and the program that makes its image (singlefilemakefs.c).
    The device is a sequence of bytes, read and written in blocks of 4096. *)

From S2P Require Import Prelude CString Kernel.

(** ** Constants (file_system.h) *)

Definition MAGIC : Z := 0x42424242.
Definition DEFAULT_BLOCK_SIZE : Z := 4096.
Definition SB_BLOCK_NUMBER : Z := 0.
Definition FILENAME_MAXLEN : nat := 255.
Definition SINGLEFILEFS_ROOT_INODE_NUMBER : Z := 10.
Definition SINGLEFILEFS_FILE_INODE_NUMBER : Z := 1.
Definition SINGLEFILEFS_INODES_BLOCK_NUMBER : Z := 1.
Definition UNIQUE_FILE_NAME : buf := lit "ref_monitor_log.txt".
Definition BLOCK : nat := N.to_nat 4096.
Arguments BLOCK : simpl never.

(** ** State *)

(** The mounted file system: the device, the size in the cached inode of the
    file (absent when the inode is not in the cache), whether the root directory
    is set up, and the mutex. *)
Record sfs := mk_sfs {
  fs_dev : buf;
  fs_inode : option Z;
  fs_root : bool;
  fs_mutex : bool;
}.

Definition fs_set_dev (d : buf) (s : sfs) : sfs :=
  mk_sfs d (fs_inode s) (fs_root s) (fs_mutex s).
Definition fs_set_inode (i : option Z) (s : sfs) : sfs :=
  mk_sfs (fs_dev s) i (fs_root s) (fs_mutex s).
Definition fs_set_root (b : bool) (s : sfs) : sfs :=
  mk_sfs (fs_dev s) (fs_inode s) b (fs_mutex s).
Definition fs_set_mutex (b : bool) (s : sfs) : sfs :=
  mk_sfs (fs_dev s) (fs_inode s) (fs_root s) b.

(** The monad of the driver: a fault of the kernel, or a result and a state. *)
Definition FS (A : Type) : Type := sfs → fault + A * sfs.

#[export] Instance FS_ret : MRet FS := λ A a s, inr (a, s).
#[export] Instance FS_bind : MBind FS := λ A B k m s,
  match m s with inr (a, s') => k a s' | inl f => inl f end.

Definition fs_crash {A} (f : fault) : FS A := λ _, inl f.
Definition fs_opt {A} (f : fault) (o : option A) : FS A :=
  match o with Some a => mret a | None => fs_crash f end.
Definition fs_get : FS sfs := λ s, inr (s, s).
Definition fs_put (s : sfs) : FS unit := λ _, inr (tt, s).

Lemma FS_bind_inr {A B} (m : FS A) (k : A → FS B) s a s' :
  m s = inr (a, s') → (m ≫= k) s = k a s'.
Proof. intros H. unfold mbind, FS_bind. by rewrite H. Qed.

Definition mutex_lock : FS unit :=
  s ← fs_get; if fs_mutex s then fs_crash Deadlock else fs_put (fs_set_mutex true s).
Definition mutex_unlock : FS unit :=
  s ← fs_get; if fs_mutex s then fs_put (fs_set_mutex false s) else fs_crash BadUnlock.

(** What the driver gets from the rest of the kernel: whether a block of the
    device can be read, whether memory and inodes are available, and the bytes
    that follow an allocated object of a given size. *)
Class FsKernel := {
  sb_bread_ok : Z → bool;
  fs_kmalloc_ok : nat → bool;
  iget_ok : Z → bool;
  d_make_root_ok : bool;
  heap_after : nat → buf;
}.

(** 64-bit little-endian numbers. *)
Fixpoint le_bytes (n : nat) (z : Z) : buf :=
  match n with
  | O => []
  | S n' => ascii_of_N (Z.to_N (z mod 256)) :: le_bytes n' (z / 256)%Z
  end.
Fixpoint of_le (b : buf) : Z :=
  match b with
  | [] => 0
  | c :: b' => (Z.of_N (N_of_ascii c) + 256 * of_le b')%Z
  end.

(** The number in the eight bytes from [off] on. *)
Definition get64 (b : buf) (off : nat) : Z := of_le (take 8 (drop off b)).

(** Offsets in [struct onefilefs_sb_info] and [struct onefilefs_inode]. *)
Definition sb_magic_off : nat := 8.
Definition inode_file_size_off : nat := 24.

Section driver.
Context `{FK : FsKernel}.

(** [sb_bread(sb, block)]: NULL outside of the device.  file_system.c sets no block
    size, so a block has the size of those of the device, and the code takes it to be
    [DEFAULT_BLOCK_SIZE]: what the kernel gives a block device without a larger sector
    whose size is a multiple of 4096, like a loop device on an image of that size. *)
Definition sb_bread (block : Z) : FS (option buf) :=
  s ← fs_get;
  if decide (0 ≤ block ∧ (block + 1) * DEFAULT_BLOCK_SIZE ≤ Z.of_nat (length (fs_dev s)))%Z then
    if sb_bread_ok block then
      mret (Some (take BLOCK (drop (Z.to_nat (block * DEFAULT_BLOCK_SIZE)) (fs_dev s))))
    else mret None
  else mret None.

(** The content of a block after it has been changed in its buffer and marked
    dirty. *)
Definition put_block (block : Z) (b : buf) : FS unit :=
  s ← fs_get;
  d ← fs_opt Overrun (write_at (fs_dev s) (Z.to_nat (block * DEFAULT_BLOCK_SIZE)) b);
  fs_put (fs_set_dev d s).

(** [i_size] of the file's inode. *)
Definition i_size_read : FS Z :=
  s ← fs_get; fs_opt NullDeref (fs_inode s).
Definition i_size_write (z : Z) : FS unit :=
  s ← fs_get; fs_put (fs_set_inode (Some z) s).

(** ** file.c *)

(** [onefilefs_read]: the result, the bytes stored in the user buffer, of which
    [room] bytes are writable, and the new [*off]. *)
Definition onefilefs_read (room : nat) (len off : Z) : FS (Z * buf * Z) :=
  file_size ← i_size_read;
  mutex_lock ;;
  if decide (uint64 file_size ≤ uint64 off)%Z then mutex_unlock ;; mret (0%Z, [], off) else
  let len := if decide (uint64 file_size < uint64 (off + len))%Z then uint64 (file_size - off) else len in
  let offset := Z.rem off DEFAULT_BLOCK_SIZE in
  let len := if decide (DEFAULT_BLOCK_SIZE < uint64 (offset + len))%Z
             then uint64 (DEFAULT_BLOCK_SIZE - offset) else len in
  let block_to_read := int32 (Z.quot off DEFAULT_BLOCK_SIZE + 2) in
  bh ← sb_bread block_to_read;
  match bh with
  | None => mutex_unlock ;; mret ((- EIO)%Z, [], off)
  | Some b_data =>
      src ← fs_opt Overrun
        (if decide (0 ≤ offset ∧ 0 ≤ len ∧ offset + len ≤ Z.of_nat (length b_data))%Z
         then Some (take (Z.to_nat len) (drop (Z.to_nat offset) b_data)) else None);
      let ret := length src - room in
      mutex_unlock ;;
      mret ((len - Z.of_nat ret)%Z, take room src, (off + (len - Z.of_nat ret))%Z)
  end.

(** [onefile_write] of the bytes [from], of which the first [avail] can be
    copied. *)
Definition onefile_write (from : buf) (avail : nat) : FS Z :=
  mutex_lock ;;
  file_size ← i_size_read;
  let payload := length from in
  if negb (fs_kmalloc_ok payload) then mutex_unlock ;; mret 0%Z else
  let data := take avail from in
  if decide (length data ≠ payload) then mutex_unlock ;; mret 0%Z else
  (* the printk reads the data as a string *)
  fs_opt Overrun (c_str (data ++ heap_after payload)) ;;
  let offset := file_size in
  let block_offset := Z.rem offset DEFAULT_BLOCK_SIZE in
  let block_to_write := int32 (Z.quot offset DEFAULT_BLOCK_SIZE + 2) in
  let '(block_to_write, offset, block_offset) :=
    if decide (uint64 (4096 - block_offset) < Z.of_nat payload)%Z
    then (int32 (block_to_write + 1), (offset + (4096 - block_offset))%Z, 0%Z)
    else (block_to_write, offset, block_offset) in
  bh ← sb_bread block_to_write;
  match bh with
  | None => mutex_unlock ;; mret (- EIO)%Z
  | Some b_data =>
      b' ← fs_opt Overrun
        (if decide (0 ≤ block_offset)%Z then write_at b_data (Z.to_nat block_offset) data else None);
      put_block block_to_write b' ;;
      (if decide (uint64 file_size < uint64 (offset + Z.of_nat payload))%Z
       then i_size_write (offset + Z.of_nat payload) else mret tt) ;;
      mutex_unlock ;;
      mret (Z.of_nat payload)
  end.

(** The result of a lookup: an error, no entry, or the dentry, attached to the
    inode or not. *)
Inductive lookup_result := LErr (e : Z) | LNone | LDentry (attached : bool).

Definition onefilefs_lookup (name : buf) : FS lookup_result :=
  c ← fs_opt Overrun (strcmp (name ++ [NUL]) (UNIQUE_FILE_NAME ++ [NUL]));
  if decide (c = 0%Z) then
    if negb (iget_ok 1) then mret (LErr (- ENOMEM)) else
    s ← fs_get;
    match fs_inode s with
    | Some _ => mret (LDentry false)
    | None =>
        bh ← sb_bread SINGLEFILEFS_INODES_BLOCK_NUMBER;
        match bh with
        | None => mret (LErr (- EIO))
        | Some b_data =>
            i_size_write (get64 b_data inode_file_size_off) ;;
            mret (LDentry true)
        end
    end
  else mret LNone.

(** ** dir.c *)

(** [onefilefs_iterate] from position [pos], where [emit name namelen ino] is the
    result of [dir_emit]: the new position and the entries given, with the length
    the driver passes for each name. *)
Definition onefilefs_iterate (emit : buf → nat → Z → bool) (pos : Z) : Z * list (buf * nat * Z) :=
  if decide (2 + 1 ≤ pos)%Z then (pos, []) else
  let step (p : Z) (name : buf) (ino : Z) (k : Z → Z * list (buf * nat * Z)) (pos : Z) :=
    if decide (pos = p) then
      if emit name FILENAME_MAXLEN ino
      then let '(q, l) := k (pos + 1)%Z in (q, (name, FILENAME_MAXLEN, ino) :: l)
      else (pos, [])
    else k pos in
  step 0%Z (lit ".") SINGLEFILEFS_ROOT_INODE_NUMBER
    (step 1%Z (lit "..") 1%Z
      (step 2%Z UNIQUE_FILE_NAME SINGLEFILEFS_FILE_INODE_NUMBER (λ q, (q, [])))) pos.

(** ** file_system.c *)

(** [singlefilefs_fill_super]; the test after [sb_bread] is on the superblock,
    not on the buffer. *)
Definition singlefilefs_fill_super : FS Z :=
  bh ← sb_bread SB_BLOCK_NUMBER;
  b_data ← fs_opt NullDeref bh;
  let magic := get64 b_data sb_magic_off in
  if decide (magic ≠ MAGIC) then mret (- EBADF)%Z else
  if negb (iget_ok SINGLEFILEFS_ROOT_INODE_NUMBER) then mret (- ENOMEM)%Z else
  if negb d_make_root_ok then mret (- ENOMEM)%Z else
  s ← fs_get;
  fs_put (fs_set_root true s) ;;
  mret 0%Z.

(** [singlefilefs_kill_superblock]: the inode cache and the root go; the device
    keeps what the driver wrote. *)
Definition singlefilefs_kill_superblock : FS unit :=
  s ← fs_get; fs_put (fs_set_root false (fs_set_inode None s)).
End driver.

(** ** singlefilemakefs.c *)

Definition file_body : buf :=
  lit "TID, TGID, UID, EUID, Offending program path, Fingerprint" ++ [ascii_of_nat 10].

(** What the program gets from the system: whether the device opens, how many
    bytes the n-th [write] stores ([None]: it fails), and the content of uninitialised memory. *)
Class MkfsSystem := {
  mkfs_open_ok : bool;
  mkfs_write : nat → nat → option nat;
  junk : nat → nat → buf;
}.

Class MkfsLaws `{MS : MkfsSystem} : Prop := {
  length_junk i n : length (junk i n) = n;
}.

Section mkfs.
Context `{MS : MkfsSystem}.

(** The structures as bytes; [junk] is what was never written. *)
Definition sb_bytes : buf :=
  le_bytes 8 1 ++ le_bytes 8 MAGIC ++ le_bytes 8 DEFAULT_BLOCK_SIZE ++ junk 0 (BLOCK - 24).
Definition inode_bytes : buf :=
  le_bytes 4 0x8000 ++ junk 1 4 ++ le_bytes 8 SINGLEFILEFS_FILE_INODE_NUMBER ++ junk 2 8 ++
  le_bytes 8 (Z.of_nat (length file_body)).

(** [write(fd, s, n)]: the device, the position and the result. *)
Definition dev_write (call : nat) (dev : buf) (pos : nat) (s : buf) : buf * nat * Z :=
  match mkfs_write call (length s) with
  | Some k =>
      let n := Nat.min k (length s) in
      (take pos dev ++ take n s ++ drop (pos + n) dev, pos + n, Z.of_nat n)
  | None => (dev, pos, (-1)%Z)
  end.

(** [main]: the exit value and the device. *)
Definition mkfs_main (argc : Z) (dev : buf) : Z * buf :=
  if decide (argc ≠ 2%Z) then ((-1)%Z, dev) else
  if negb mkfs_open_ok then ((-1)%Z, dev) else
  let '(dev, pos, ret) := dev_write 0 dev 0 sb_bytes in
  if decide (ret ≠ DEFAULT_BLOCK_SIZE) then (ret, dev) else
  let '(dev, pos, ret) := dev_write 1 dev pos inode_bytes in
  if decide (ret ≠ 32%Z) then ((-1)%Z, dev) else
  let nbytes := BLOCK - 32 in
  let '(dev, pos, ret) := dev_write 2 dev pos (junk 3 nbytes) in
  if decide (ret ≠ Z.of_nat nbytes) then ((-1)%Z, dev) else
  let nbytes := length file_body in
  let '(dev, pos, ret) := dev_write 3 dev pos file_body in
  if decide (ret ≠ Z.of_nat nbytes) then ((-1)%Z, dev) else
  (0%Z, dev).
End mkfs.

(** ** Facts: bytes *)

Section slices.
Context {A : Type}.
Implicit Types l k : list A.

(** The [n] elements from [a] on. *)
Definition slice l (a n : nat) : list A := take n (drop a l).

Lemma length_slice l a n : a + n ≤ length l → length (slice l a n) = n.
Proof. intros. unfold slice. len. Qed.

Lemma slice_slice l a n b m : b + m ≤ n → slice (slice l a n) b m = slice l (a + b) m.
Proof.
  intros Hm. unfold slice. rewrite skipn_firstn_comm, take_take, drop_drop. f_equal. lia.
Qed.

Lemma slice_app l a n m : slice l a (n + m) = slice l a n ++ slice l (a + n) m.
Proof.
  unfold slice. rewrite <- drop_drop. generalize (drop a l). intros k.
  rewrite <- (take_drop n k) at 1. destruct (decide (n ≤ length k)).
  - rewrite take_app_add' by len. done.
  - rewrite (drop_ge k), take_nil, !app_nil_r by lia. rewrite !take_ge by len. done.
Qed.

(** A store in a part of the list. *)
Lemma write_at_some l off k :
  off + length k ≤ length l → write_at l off k = Some (take off l ++ k ++ drop (off + length k) l).
Proof. intros. unfold write_at. by rewrite decide_True. Qed.

Lemma write_at_slice l a n off k b :
  a + n ≤ length l → write_at (slice l a n) off k = Some b → write_at l a b = write_at l (a + off) k.
Proof.
  intros Hl Hb. assert (off + length k ≤ n) as Ho.
  { unfold write_at in Hb. case_decide as Hd; [|done]. by rewrite length_slice in Hd. }
  pose proof (write_at_length _ _ _ _ Hb) as Hbl. rewrite length_slice in Hbl by done.
  rewrite write_at_some in Hb by (by rewrite length_slice). injection Hb as <-.
  rewrite !write_at_some by lia. f_equal. unfold slice at 1 2.
  rewrite skipn_firstn_comm, take_take, drop_drop, Nat.min_l by lia.
  rewrite Hbl, <- !app_assoc, app_assoc. f_equal.
  - rewrite take_drop_commute. rewrite <- (take_drop a (take (a + off) l)) at 2.
    by rewrite take_take, Nat.min_l by lia.
  - f_equal. replace (a + (off + length k)) with (a + off + length k) by lia.
    etransitivity; [|apply (take_drop (n - (off + length k)))]. rewrite drop_drop. do 2 f_equal. lia.
Qed.

(** What a store leaves of a slice. *)
Lemma slice_write_before l l' off k a n :
  write_at l off k = Some l' → a + n ≤ off → slice l' a n = slice l a n.
Proof.
  unfold write_at. case_decide as Hd; [|done]. intros [= <-] Ha. unfold slice.
  rewrite drop_app_le by len. rewrite take_app_le by len.
  by rewrite skipn_firstn_comm, take_take, Nat.min_l by lia.
Qed.

Lemma slice_write_at l l' off k : write_at l off k = Some l' → slice l' off (length k) = k.
Proof.
  unfold write_at. case_decide as Hd; [|done]. intros [= <-]. unfold slice.
  rewrite drop_app_length' by len. by rewrite take_app_length.
Qed.
End slices.

Lemma BLOCK_Z : Z.of_nat BLOCK = 4096%Z.
Proof. done. Qed.

(** ** Facts: the driver *)

Section driver_facts.
Context `{FK : FsKernel}.

(** The file of size [sz]: its bytes start at the third block of the device. *)
Definition content (s : sfs) (sz : nat) : buf := slice (fs_dev s) (2 * BLOCK) sz.

(** The file system is mounted, the inode of the file is cached with size [sz],
    and the file lies on the device, which has whole blocks, is below 2^42 bytes
    and can be read. *)
Record mounted (s : sfs) (sz : nat) : Prop := {
  mt_inode : fs_inode s = Some (Z.of_nat sz);
  mt_mutex : fs_mutex s = false;
  mt_size : 2 * BLOCK + sz ≤ length (fs_dev s);
  mt_blocks : ∃ n, length (fs_dev s) = n * BLOCK;
  mt_small : (Z.of_nat (length (fs_dev s)) < 2 ^ 42)%Z;
  mt_read b : sb_bread_ok b = true;
}.

Lemma sb_bread_run (k : nat) s :
  sb_bread_ok (Z.of_nat k) = true → (k + 1) * BLOCK ≤ length (fs_dev s) →
  sb_bread (Z.of_nat k) s = inr (Some (slice (fs_dev s) (k * BLOCK) BLOCK), s).
Proof.
  intros Hok Hl. unfold sb_bread, fs_get. erewrite FS_bind_inr by reflexivity.
  pose proof BLOCK_Z. unfold DEFAULT_BLOCK_SIZE. rewrite decide_True by lia. rewrite Hok.
  by replace (Z.to_nat (Z.of_nat k * 4096)) with (k * BLOCK) by lia.
Qed.

Lemma sb_bread_outside (k : nat) s :
  length (fs_dev s) < (k + 1) * BLOCK → sb_bread (Z.of_nat k) s = inr (None, s).
Proof.
  intros Hl. unfold sb_bread, fs_get. erewrite FS_bind_inr by reflexivity.
  pose proof BLOCK_Z. unfold DEFAULT_BLOCK_SIZE. by rewrite decide_False by lia.
Qed.

(** The block and the offset of a byte of the file. *)
Lemma block_of_byte (off : nat) :
  Z.rem (Z.of_nat off) 4096 = Z.of_nat (off mod BLOCK) ∧
  Z.quot (Z.of_nat off) 4096 = Z.of_nat (off / BLOCK) ∧
  off = off / BLOCK * BLOCK + off mod BLOCK ∧ off mod BLOCK < BLOCK.
Proof.
  assert (BLOCK ≠ 0) as HB by (unfold BLOCK; lia).
  rewrite Z.rem_mod_nonneg, Z.quot_div_nonneg by lia. change 4096%Z with (Z.of_nat BLOCK).
  rewrite <- Nat2Z.inj_mod, <- Nat2Z.inj_div. split; [done|]. split; [done|]. split.
  - rewrite Nat.mul_comm. by apply Nat.div_mod.
  - by apply Nat.mod_upper_bound.
Qed.

(** A byte of the device below 2^42 is in a block with an [int] number. *)
Lemma block_in_range s (off : nat) :
  (Z.of_nat (length (fs_dev s)) < 2 ^ 42)%Z → (∃ n, length (fs_dev s) = n * BLOCK) →
  2 * BLOCK + off < length (fs_dev s) →
  (Z.of_nat (off / BLOCK + 3) < 2 ^ 31)%Z ∧ (off / BLOCK + 2 + 1) * BLOCK ≤ length (fs_dev s).
Proof.
  intros Hs (n & Hn) Ho. destruct (block_of_byte off) as (_ & _ & Hoff & Hlt).
  pose proof BLOCK_Z. rewrite Hn in Ho |- *.
  assert (off / BLOCK + 2 < n) as Hb.
  { apply (Nat.mul_lt_mono_pos_r BLOCK); [lia|]. lia. }
  split; [|apply Nat.mul_le_mono_r; lia]. rewrite Hn in Hs. nia.
Qed.

Lemma run_mutex_lock s : fs_mutex s = false → mutex_lock s = inr (tt, fs_set_mutex true s).
Proof. intros Hm. unfold mutex_lock, fs_get. erewrite FS_bind_inr by reflexivity. by rewrite Hm. Qed.

Lemma run_mutex_unlock s : fs_mutex s = true → mutex_unlock s = inr (tt, fs_set_mutex false s).
Proof. intros Hm. unfold mutex_unlock, fs_get. erewrite FS_bind_inr by reflexivity. by rewrite Hm. Qed.

Lemma fs_mutex_id s : fs_mutex s = false → fs_set_mutex false (fs_set_mutex true s) = s.
Proof. destruct s. simpl. by intros ->. Qed.

Lemma run_i_size s sz : fs_inode s = Some sz → i_size_read s = inr (sz, s).
Proof. intros Hi. unfold i_size_read, fs_get. erewrite FS_bind_inr by reflexivity. by rewrite Hi. Qed.

(** The number of bytes one read gives. *)
Definition read_count (sz len off : nat) : nat :=
  Nat.min len (Nat.min (sz - off) (BLOCK - off mod BLOCK)).

Lemma read_run s sz room len off :
  mounted s sz → (Z.of_nat len < 2 ^ 62)%Z → (Z.of_nat off < 2 ^ 62)%Z →
  let n := read_count sz len off in
  onefilefs_read room (Z.of_nat len) (Z.of_nat off) s =
  inr ((Z.of_nat (Nat.min n room), take room (slice (content s sz) off n),
        Z.of_nat (off + Nat.min n room)), s).
Proof.
  intros [Hi Hm Hsz Hbl Hsm Hrd] Hlen Hoff n. pose proof BLOCK_Z.
  destruct (block_of_byte off) as (Hrem & Hquot & Hdm & Hlt).
  unfold onefilefs_read. erewrite FS_bind_inr by by apply run_i_size.
  erewrite FS_bind_inr by by apply run_mutex_lock.
  rewrite !(uint64_small (Z.of_nat _)) by lia. case_decide as Hend.
  { assert (n = 0) as -> by (unfold n, read_count; lia).
    erewrite FS_bind_inr by by apply run_mutex_unlock. rewrite fs_mutex_id by done.
    unfold mret, FS_ret, slice. rewrite take_0, take_nil. do 3 f_equal. lia. }
  cbv zeta. unfold DEFAULT_BLOCK_SIZE. rewrite Hrem, Hquot.
  rewrite (uint64_small (Z.of_nat off + _)) by lia.
  set (len1 := if decide (Z.of_nat sz < Z.of_nat off + Z.of_nat len)%Z
               then uint64 (Z.of_nat sz - Z.of_nat off) else Z.of_nat len).
  assert (len1 = Z.of_nat (Nat.min len (sz - off))) as ->.
  { unfold len1. case_decide; [rewrite uint64_small by lia|]; lia. }
  rewrite (uint64_small (Z.of_nat (off mod BLOCK) + _)) by lia.
  match goal with |- context [if decide (4096 < ?x)%Z then ?y else ?z] =>
    assert ((if decide (4096 < x)%Z then y else z) = Z.of_nat n) as -> end.
  { unfold n, read_count. case_decide; [rewrite uint64_small by lia|]; lia. }
  destruct (block_in_range s off Hsm Hbl) as [Hint Hin]; [lia|].
  replace (Z.of_nat (off / BLOCK) + 2)%Z with (Z.of_nat (off / BLOCK + 2)) by lia.
  rewrite int32_small by lia.
  erewrite FS_bind_inr by (apply sb_bread_run; [apply Hrd|exact Hin]). cbv iota.
  change (fs_dev (fs_set_mutex true s)) with (fs_dev s).
  rewrite length_slice by lia.
  rewrite decide_True by (unfold n, read_count; lia). rewrite !Nat2Z.id.
  change (take n (drop (off mod BLOCK) ?l)) with (slice l (off mod BLOCK) n).
  rewrite slice_slice by (unfold n, read_count; lia).
  assert (slice (fs_dev s) ((off / BLOCK + 2) * BLOCK + off mod BLOCK) n = slice (content s sz) off n) as ->.
  { unfold content. rewrite slice_slice by (unfold n, read_count; lia). f_equal. lia. }
  erewrite FS_bind_inr by reflexivity. erewrite FS_bind_inr by by apply run_mutex_unlock.
  rewrite fs_mutex_id by done. unfold mret, FS_ret.
  assert (length (slice (content s sz) off n) = n) as ->.
  { apply length_slice. unfold content. rewrite length_slice by lia. unfold n, read_count. lia. }
  do 3 f_equal; [f_equal|]; lia.
Qed.

(** The bytes skipped so that the payload does not cross a block. *)
Definition pad (sz n : nat) : nat := if decide (BLOCK - sz mod BLOCK < n) then BLOCK - sz mod BLOCK else 0.

(** The block and the offset a payload of [n] bytes goes to. *)
Lemma write_target sz n :
  0 < n ≤ BLOCK →
  let t := sz + pad sz n in
  (if decide (uint64 (4096 - Z.of_nat (sz mod BLOCK)) < Z.of_nat n)%Z
   then (int32 (int32 (Z.of_nat (sz / BLOCK) + 2) + 1),
         (Z.of_nat sz + (4096 - Z.of_nat (sz mod BLOCK)))%Z, 0%Z)
   else (int32 (Z.of_nat (sz / BLOCK) + 2), Z.of_nat sz, Z.of_nat (sz mod BLOCK))) =
  (int32 (Z.of_nat (t / BLOCK + 2)), Z.of_nat t, Z.of_nat (t mod BLOCK)) ∧
  t mod BLOCK + n ≤ BLOCK.
Proof.
  intros Hn t. pose proof BLOCK_Z. destruct (block_of_byte sz) as (_ & _ & Hsz & Hlt).
  rewrite uint64_small by lia. unfold t, pad. case_decide as Hc; case_decide as Hd; try lia.
  - assert (sz + (BLOCK - sz mod BLOCK) = (sz / BLOCK + 1) * BLOCK) as Ht by lia.
    rewrite Ht, Nat.div_mul, Nat.Div0.mod_mul by (unfold BLOCK; lia).
    rewrite int32_add. split; [|lia]. repeat (f_equal; try lia).
  - rewrite Nat.add_0_r. split; [|lia]. repeat (f_equal; try lia).
Qed.

Lemma write_start s sz p :
  mounted s sz → 0 < length p ≤ BLOCK → fs_kmalloc_ok (length p) = true →
  is_Some (c_str (p ++ heap_after (length p))) →
  let t := sz + pad sz (length p) in
  onefile_write p (length p) s =
  (bh ← sb_bread (int32 (Z.of_nat (t / BLOCK + 2)));
   match bh with
   | None => mutex_unlock ;; mret (- EIO)%Z
   | Some b_data =>
       b' ← fs_opt Overrun (write_at b_data (t mod BLOCK) p);
       put_block (int32 (Z.of_nat (t / BLOCK + 2))) b' ;;
       (if decide (uint64 (Z.of_nat sz) < uint64 (Z.of_nat t + Z.of_nat (length p)))%Z
        then i_size_write (Z.of_nat t + Z.of_nat (length p)) else mret tt) ;;
       mutex_unlock ;;
       mret (Z.of_nat (length p))
   end) (fs_set_mutex true s).
Proof.
  intros [Hi Hm Hsz Hbl Hsm Hrd] Hp Hk [str Hstr] t.
  destruct (block_of_byte sz) as (Hrem & Hquot & _).
  destruct (write_target sz (length p) Hp) as [Ht _]. fold t in Ht.
  unfold onefile_write. erewrite FS_bind_inr by by apply run_mutex_lock.
  erewrite FS_bind_inr by by apply run_i_size. cbv zeta. rewrite Hk. cbn [negb].
  rewrite firstn_all. rewrite decide_False by (intros Hx; by apply Hx).
  rewrite Hstr. erewrite FS_bind_inr by reflexivity.
  unfold DEFAULT_BLOCK_SIZE. rewrite Hrem, Hquot, Ht. cbv beta iota.
  destruct (decide (0 ≤ Z.of_nat (t mod BLOCK))%Z); [|lia]. by rewrite Nat2Z.id.
Qed.

Lemma write_run s sz p :
  mounted s sz → 0 < length p ≤ BLOCK → fs_kmalloc_ok (length p) = true →
  is_Some (c_str (p ++ heap_after (length p))) →
  let sz' := sz + pad sz (length p) + length p in
  2 * BLOCK + sz' ≤ length (fs_dev s) →
  ∃ s', onefile_write p (length p) s = inr (Z.of_nat (length p), s') ∧ mounted s' sz' ∧
    content s' sz' = content s sz ++ slice (fs_dev s) (2 * BLOCK + sz) (pad sz (length p)) ++ p ∧
    slice (fs_dev s') 0 (2 * BLOCK + sz) = slice (fs_dev s) 0 (2 * BLOCK + sz) ∧
    fs_root s' = fs_root s ∧ length (fs_dev s') = length (fs_dev s).
Proof.
  intros Hmt Hp Hk Hstr sz' Hroom. pose proof BLOCK_Z.
  rewrite (write_start s sz p) by done. set (t := sz + pad sz (length p)) in *.
  destruct Hmt as [Hi Hm Hsz Hbl Hsm Hrd].
  destruct (write_target sz (length p) Hp) as [_ Hfit]. fold t in Hfit.
  destruct (block_of_byte t) as (_ & _ & Ht & _).
  destruct (block_in_range s t Hsm Hbl) as [Hint Hin]; [lia|].
  rewrite int32_small by lia.
  erewrite FS_bind_inr by (apply sb_bread_run; [apply Hrd|exact Hin]).
  change (fs_dev (fs_set_mutex true s)) with (fs_dev s). cbv iota.
  set (blk := slice (fs_dev s) ((t / BLOCK + 2) * BLOCK) BLOCK).
  assert (length blk = BLOCK) as Hblk by (apply length_slice; lia).
  destruct (write_at blk (t mod BLOCK) p) as [b'|] eqn:Hb'; [|by rewrite write_at_some in Hb' by lia].
  erewrite FS_bind_inr by reflexivity.
  assert (write_at (fs_dev s) ((t / BLOCK + 2) * BLOCK) b' = write_at (fs_dev s) (2 * BLOCK + t) p) as Hw.
  { rewrite (write_at_slice _ _ BLOCK (t mod BLOCK) p) by (done || lia). f_equal. lia. }
  destruct (write_at (fs_dev s) (2 * BLOCK + t) p) as [dev'|] eqn:Hdev;
    [|by rewrite write_at_some in Hdev by lia].
  pose proof (write_at_length _ _ _ _ Hdev) as Hdl.
  erewrite FS_bind_inr.
  2:{ unfold put_block, fs_get, DEFAULT_BLOCK_SIZE. erewrite FS_bind_inr by reflexivity.
      replace (Z.to_nat (Z.of_nat (t / BLOCK + 2) * 4096)) with ((t / BLOCK + 2) * BLOCK) by lia.
      change (fs_dev (fs_set_mutex true s)) with (fs_dev s). rewrite Hw. reflexivity. }
  rewrite !uint64_small by lia. rewrite decide_True by lia.
  erewrite FS_bind_inr by reflexivity. erewrite FS_bind_inr by by apply run_mutex_unlock.
  eexists. split; [reflexivity|]. split; [|split; [|split]].
  - split; cbn [fs_inode fs_mutex fs_dev fs_set_mutex fs_set_inode fs_set_dev]; rewrite ?Hdl;
      [f_equal; lia|reflexivity|exact Hroom|exact Hbl|exact Hsm|exact Hrd].
  - unfold content. cbn [fs_dev fs_set_mutex fs_set_inode fs_set_dev]. unfold sz', t.
    rewrite !slice_app, <- app_assoc. f_equal; [eapply slice_write_before; [exact Hdev|lia]|].
    f_equal; [eapply slice_write_before; [exact Hdev|lia]|].
    replace (2 * BLOCK + (sz + pad sz (length p))) with (2 * BLOCK + t) by (unfold t; lia).
    by eapply slice_write_at.
  - eapply slice_write_before; [exact Hdev|lia].
  - by split.
Qed.

(** The device is full, or the payload is larger than a block. *)
Lemma write_full s sz p :
  mounted s sz → 0 < length p ≤ BLOCK → fs_kmalloc_ok (length p) = true →
  is_Some (c_str (p ++ heap_after (length p))) →
  length (fs_dev s) < 2 * BLOCK + (sz + pad sz (length p)) + length p →
  onefile_write p (length p) s = inr ((- EIO)%Z, s).
Proof.
  intros Hmt Hp Hk Hstr Hroom. pose proof BLOCK_Z.
  rewrite (write_start s sz p) by done. set (t := sz + pad sz (length p)) in *.
  destruct Hmt as [Hi Hm Hsz [n Hn] Hsm Hrd].
  destruct (write_target sz (length p) Hp) as [_ Hfit]. fold t in Hfit.
  destruct (block_of_byte t) as (_ & _ & Ht & _).
  assert (n < t / BLOCK + 2 + 1) as Hblk.
  { apply (Nat.mul_lt_mono_pos_r BLOCK); [lia|]. lia. }
  assert (pad sz (length p) ≤ BLOCK) as Hpad by (unfold pad; case_decide; lia).
  rewrite int32_small.
  2:{ split; [lia|]. nia. }
  erewrite FS_bind_inr.
  2:{ apply sb_bread_outside. change (fs_dev (fs_set_mutex true s)) with (fs_dev s).
      rewrite Hn. apply Nat.mul_lt_mono_pos_r; lia. }
  cbv iota. erewrite FS_bind_inr by by apply run_mutex_unlock. by rewrite fs_mutex_id.
Qed.

(** A reader that asks for [len] bytes until it gets none. *)
Fixpoint read_all (fuel len : nat) (off : Z) : FS buf :=
  match fuel with
  | O => fs_crash OutOfFuel
  | S fuel' =>
      r ← onefilefs_read len (Z.of_nat len) off;
      let '(n, bytes, off') := r in
      if decide (n ≤ 0)%Z then mret bytes else
      rest ← read_all fuel' len off';
      mret (bytes ++ rest)
  end.

Lemma read_all_run fuel s sz len off :
  mounted s sz → 0 < len → (Z.of_nat len < 2 ^ 62)%Z → off ≤ sz → sz - off < fuel →
  read_all fuel len (Z.of_nat off) s = inr (slice (content s sz) off (sz - off), s).
Proof.
  intros Hmt Hlen Hlen2. pose proof (mt_size _ _ Hmt) as Hsz. pose proof (mt_small _ _ Hmt) as Hsm.
  revert off. induction fuel as [|fuel IH]; intros off Hoff Hfuel; [lia|]. cbn [read_all].
  erewrite FS_bind_inr by (apply (read_run s sz len len off); [done|lia|lia]). cbv beta iota.
  set (n := read_count sz len off).
  assert (n ≤ len ∧ off + n ≤ sz ∧ (off < sz → 0 < n)) as (Hn1 & Hn2 & Hn3).
  { unfold n, read_count. destruct (block_of_byte off) as (_ & _ & _ & Hlt).
    split; [lia|]. split; lia. }
  rewrite Nat.min_l by done. rewrite take_ge.
  2:{ unfold slice. rewrite length_take. lia. }
  case_decide as Hd.
  - assert (n = 0) as Hn by lia. assert (sz - off = 0) as -> by lia. rewrite Hn. done.
  - erewrite FS_bind_inr by (apply IH; lia). unfold mret, FS_ret. do 2 f_equal.
    rewrite <- slice_app. f_equal. lia.
Qed.
End driver_facts.

(** ** Facts: the image *)

Lemma of_le_bytes n z : (0 ≤ z < 256 ^ Z.of_nat n)%Z → of_le (le_bytes n z) = z.
Proof.
  revert z. induction n as [|n IH]; intros z Hz.
  - simpl in *. lia.
  - assert (256 ^ Z.of_nat (S n) = 256 * 256 ^ Z.of_nat n)%Z as Hp
      by (rewrite Nat2Z.inj_succ, Z.pow_succ_r by lia; done).
    cbn [le_bytes of_le]. pose proof (Z.mod_pos_bound z 256 ltac:(lia)).
    rewrite IH by (split; [apply Z.div_pos; lia|apply Z.div_lt_upper_bound; lia]).
    rewrite N_ascii_embedding by lia. rewrite Z2N.id by lia.
    rewrite (Z.div_mod z 256) at 3 by lia. lia.
Qed.

Lemma length_le_bytes n z : length (le_bytes n z) = n.
Proof. revert z. induction n as [|n IH]; intros z; simpl; [done|]. by rewrite IH. Qed.

Lemma get64_slice l a n off : off + 8 ≤ n → get64 (slice l a n) off = of_le (slice l (a + off) 8).
Proof. intros Hn. unfold get64. change (take 8 (drop off ?x)) with (slice x off 8). by rewrite slice_slice. Qed.

Section image.
Context `{MS : MkfsSystem} `{ML : !MkfsLaws}.

Lemma length_sb_bytes : length sb_bytes = BLOCK.
Proof.
  unfold sb_bytes. rewrite !length_app, !length_le_bytes, length_junk. pose proof BLOCK_Z. lia.
Qed.

Lemma length_inode_bytes : length inode_bytes = 32.
Proof. unfold inode_bytes. by rewrite !length_app, !length_le_bytes, !length_junk. Qed.

(** The bytes of a complete image. *)
Definition image (dev : buf) : buf :=
  sb_bytes ++ inode_bytes ++ junk 3 (BLOCK - 32) ++ file_body ++ drop (2 * BLOCK + length file_body) dev.

Lemma dev_write_app call dev0 dev s :
  mkfs_write call (length s) = Some (length s) →
  dev_write call (dev0 ++ dev) (length dev0) s =
  ((dev0 ++ s) ++ drop (length s) dev, length (dev0 ++ s), Z.of_nat (length s)).
Proof.
  intros Hw. unfold dev_write. rewrite Hw. cbv zeta.
  rewrite Nat.min_id, take_app_length, firstn_all.
  rewrite drop_app_add. by rewrite length_app, app_assoc.
Qed.

Lemma mkfs_run dev :
  mkfs_open_ok = true → (∀ i n, mkfs_write i n = Some n) → mkfs_main 2 dev = (0%Z, image dev).
Proof.
  intros Ho Hw. unfold mkfs_main. rewrite decide_False by (intros Hx; by apply Hx). rewrite Ho. cbn [negb].
  pose proof BLOCK_Z as HB.
  rewrite (dev_write_app 0 [] dev sb_bytes) by done. cbv beta iota. rewrite length_sb_bytes, app_nil_l.
  rewrite decide_False by (unfold DEFAULT_BLOCK_SIZE; lia).
  rewrite <- length_sb_bytes at 1. rewrite dev_write_app by done. cbv beta iota.
  rewrite length_inode_bytes. rewrite decide_False by (intros Hx; by apply Hx). cbv zeta.
  rewrite dev_write_app by done. cbv beta iota. rewrite length_junk. rewrite decide_False by (intros Hx; by apply Hx).
  rewrite dev_write_app by done. cbv beta iota. rewrite decide_False by (intros Hx; by apply Hx).
  unfold image. rewrite <- !app_assoc, !drop_drop. do 5 f_equal.
  rewrite length_sb_bytes. f_equal; lia.
Qed.

(** What the driver reads from the image. *)
Lemma image_magic dev : of_le (slice (image dev) sb_magic_off 8) = MAGIC.
Proof.
  unfold image, sb_bytes, sb_magic_off, slice. rewrite <- !app_assoc.
  rewrite drop_app_length' by (by rewrite length_le_bytes).
  rewrite take_app_length' by (by rewrite length_le_bytes). by apply of_le_bytes.
Qed.

Lemma image_size dev :
  of_le (slice (image dev) (BLOCK + inode_file_size_off) 8) = Z.of_nat (length file_body).
Proof.
  set (pre := le_bytes 4 0x8000 ++ junk 1 4 ++ le_bytes 8 SINGLEFILEFS_FILE_INODE_NUMBER ++ junk 2 8).
  set (rest := junk 3 (BLOCK - 32) ++ file_body ++ drop (2 * BLOCK + length file_body) dev).
  assert (image dev = (sb_bytes ++ pre) ++ le_bytes 8 (Z.of_nat (length file_body)) ++ rest) as ->.
  { unfold image, inode_bytes, pre, rest. by rewrite <- !app_assoc. }
  assert (length (sb_bytes ++ pre) = BLOCK + inode_file_size_off) as Hl.
  { unfold pre. by rewrite !length_app, length_sb_bytes, !length_le_bytes, !length_junk. }
  unfold slice. rewrite drop_app_length' by done.
  rewrite take_app_length' by (by rewrite length_le_bytes). by apply of_le_bytes.
Qed.

Lemma length_image dev : 2 * BLOCK + length file_body ≤ length dev → length (image dev) = length dev.
Proof.
  intros Hd. unfold image. rewrite !length_app, length_sb_bytes, length_inode_bytes, length_junk, length_drop.
  pose proof BLOCK_Z. lia.
Qed.

Lemma image_body dev : slice (image dev) (2 * BLOCK) (length file_body) = file_body.
Proof.
  assert (image dev = (sb_bytes ++ inode_bytes ++ junk 3 (BLOCK - 32)) ++ file_body ++
            drop (2 * BLOCK + length file_body) dev) as ->.
  { unfold image. by rewrite <- !app_assoc. }
  pose proof BLOCK_Z. unfold slice. rewrite drop_app_length'.
  - by rewrite take_app_length.
  - rewrite !length_app, length_sb_bytes, length_inode_bytes, length_junk. lia.
Qed.
End image.

(** ** Facts: mounting *)

Section mounting.
Context `{FK : FsKernel} `{MS : MkfsSystem} `{ML : !MkfsLaws}.

(** The driver is loaded and nothing is mounted. *)
Definition unmounted (dev : buf) : sfs := mk_sfs dev None false false.

(** Mount, and first lookup of the file. *)
Definition mount_lookup : FS (Z * lookup_result) :=
  z ← singlefilefs_fill_super;
  l ← onefilefs_lookup UNIQUE_FILE_NAME;
  mret (z, l).

Lemma lookup_name_eq : strcmp (UNIQUE_FILE_NAME ++ [NUL]) (UNIQUE_FILE_NAME ++ [NUL]) = Some 0%Z.
Proof. reflexivity. Qed.

Lemma mount_run dev :
  (∀ b, sb_bread_ok b = true) → (∀ i, iget_ok i = true) → d_make_root_ok = true →
  2 * BLOCK ≤ length dev → of_le (slice dev sb_magic_off 8) = MAGIC →
  mount_lookup (unmounted dev) =
  inr ((0%Z, LDentry true), mk_sfs dev (Some (of_le (slice dev (BLOCK + inode_file_size_off) 8))) true false).
Proof.
  intros Hrd Hig Hroot Hl Hmagic. pose proof BLOCK_Z. unfold mount_lookup.
  erewrite (FS_bind_inr singlefilefs_fill_super).
  2:{ unfold singlefilefs_fill_super. change SB_BLOCK_NUMBER with (Z.of_nat 0).
      erewrite FS_bind_inr by (apply sb_bread_run; [apply Hrd|cbn [fs_dev unmounted]; lia]).
      erewrite FS_bind_inr by reflexivity. cbv zeta.
      rewrite get64_slice by (unfold sb_magic_off; lia). cbn [fs_dev unmounted]. rewrite !Nat.add_0_l.
      rewrite decide_False by (rewrite Hmagic; intros Hx; by apply Hx). rewrite Hig, Hroot. reflexivity. }
  erewrite FS_bind_inr.
  2:{ unfold onefilefs_lookup. rewrite lookup_name_eq. erewrite FS_bind_inr by reflexivity.
      rewrite decide_True by done. rewrite Hig. cbn [negb]. unfold fs_get.
      erewrite FS_bind_inr by reflexivity. cbn [fs_inode fs_set_root unmounted].
      change SINGLEFILEFS_INODES_BLOCK_NUMBER with (Z.of_nat 1).
      erewrite FS_bind_inr by (apply sb_bread_run; [apply Hrd|cbn [fs_dev fs_set_root unmounted]; lia]).
      cbv iota. rewrite get64_slice by (unfold inode_file_size_off; lia). reflexivity. }
  cbn [fs_dev fs_set_root unmounted]. by rewrite Nat.mul_1_l.
Qed.

Lemma remount_run s :
  (∀ b, sb_bread_ok b = true) → (∀ i, iget_ok i = true) → d_make_root_ok = true →
  fs_mutex s = false → 2 * BLOCK ≤ length (fs_dev s) →
  of_le (slice (fs_dev s) sb_magic_off 8) = MAGIC →
  (singlefilefs_kill_superblock ;; mount_lookup) s =
  inr ((0%Z, LDentry true),
       mk_sfs (fs_dev s) (Some (of_le (slice (fs_dev s) (BLOCK + inode_file_size_off) 8))) true false).
Proof.
  intros Hrd Hig Hroot Hm Hl Hmagic.
  erewrite (FS_bind_inr _ _ _ tt (unmounted (fs_dev s))).
  - by apply mount_run.
  - unfold singlefilefs_kill_superblock, fs_get, fs_put. erewrite FS_bind_inr by reflexivity.
    unfold unmounted. destruct s. simpl in *. by rewrite Hm.
Qed.
End mounting.

(** ** Properties *)

Section logfs_properties.
Context `{FK : FsKernel} `{MS : MkfsSystem} `{ML : !MkfsLaws}.

(** C32. [onefile_write] of a payload of at most 4096 bytes appends: the file is
    the old content, the rest of the last block when the payload does not fit in
    it, and the payload; nothing before is changed, the mutex is released, and
    the number of bytes is returned.  On a full device it returns -EIO and changes
    nothing. *)
Theorem onefile_write_appends s sz p :
  mounted s sz → 0 < length p ≤ BLOCK → fs_kmalloc_ok (length p) = true →
  is_Some (c_str (p ++ heap_after (length p))) →
  let sz' := sz + pad sz (length p) + length p in
  if decide (2 * BLOCK + sz' ≤ length (fs_dev s)) then
    ∃ s', onefile_write p (length p) s = inr (Z.of_nat (length p), s') ∧ mounted s' sz' ∧
      content s' sz' = content s sz ++ slice (fs_dev s) (2 * BLOCK + sz) (pad sz (length p)) ++ p ∧
      slice (fs_dev s') 0 (2 * BLOCK + sz) = slice (fs_dev s) 0 (2 * BLOCK + sz)
  else onefile_write p (length p) s = inr ((- EIO)%Z, s).
Proof.
  intros Hmt Hp Hk Hstr sz'. case_decide as Hd.
  { destruct (write_run s sz p) as (s' & Hw & Hm & Hc & Hpre & _); [done..|]. by exists s'. }
  eapply write_full; [done|done|done|done|]. unfold sz' in Hd. lia.
Qed.

(** C33. A read gives the bytes of the file from the offset on, at most as many as
    asked, up to the end of the file and of the block, and moves the offset; a
    reader that repeats it gets the whole file. *)
Theorem onefilefs_read_correct s sz len off :
  mounted s sz → 0 < len → (Z.of_nat len < 2 ^ 62)%Z → off ≤ sz →
  (let n := read_count sz len off in
   onefilefs_read len (Z.of_nat len) (Z.of_nat off) s =
     inr ((Z.of_nat n, slice (content s sz) off n, Z.of_nat (off + n)), s) ∧ (off < sz → 0 < n)) ∧
  read_all (S sz) len 0 s = inr (content s sz, s).
Proof.
  intros Hmt Hlen Hl2 Hoff. pose proof (mt_size _ _ Hmt). pose proof (mt_small _ _ Hmt).
  assert (length (content s sz) = sz) as Hcl by by apply length_slice. split.
  - cbv zeta. pose proof (read_run s sz len len off Hmt Hl2 ltac:(lia)) as Hr. cbv zeta in Hr.
    assert (read_count sz len off ≤ len) as Hn by (unfold read_count; lia).
    rewrite Nat.min_l in Hr by done. rewrite take_ge in Hr.
    2:{ unfold slice. rewrite length_take. lia. }
    split; [done|]. unfold read_count. destruct (block_of_byte off) as (_ & _ & _ & Hlt). lia.
  - rewrite (read_all_run (S sz) s sz len 0) by (done || lia). do 2 f_equal.
    unfold slice. rewrite drop_0, Nat.sub_0_r. apply take_ge. lia.
Qed.

(** C34. The image that the mkfs program makes can be mounted, and the file then
    holds the header line. *)
Theorem mkfs_mount_roundtrip dev :
  (∀ b, sb_bread_ok b = true) → (∀ i, iget_ok i = true) → d_make_root_ok = true →
  mkfs_open_ok = true → (∀ i n, mkfs_write i n = Some n) →
  (∃ n, length dev = n * BLOCK) → 2 * BLOCK + length file_body ≤ length dev →
  (Z.of_nat (length dev) < 2 ^ 42)%Z →
  ∃ dev' s, mkfs_main 2 dev = (0%Z, dev') ∧ mount_lookup (unmounted dev') = inr ((0%Z, LDentry true), s) ∧
    mounted s (length file_body) ∧ content s (length file_body) = file_body.
Proof.
  intros Hrd Hig Hroot Hopen Hwr Hbl Hl Hsm.
  exists (image dev). eexists. split; [by apply mkfs_run|]. pose proof (length_image dev Hl) as Hil. split.
  - apply mount_run; [done..| |apply image_magic]. rewrite Hil. lia.
  - rewrite image_size. split; [|apply image_body].
    split; cbn [fs_inode fs_mutex fs_dev]; rewrite ?Hil; [reflexivity|reflexivity|done..].
Qed.

(** C37. The size of the file is never stored on the device: after an append and a
    remount the file is what it was when the image was made, and the rows written
    since are not in it. *)
Theorem remount_forgets_appends s p dev :
  (∀ b, sb_bread_ok b = true) → (∀ i, iget_ok i = true) → d_make_root_ok = true →
  s = mk_sfs (image dev) (Some (Z.of_nat (length file_body))) true false →
  mounted s (length file_body) → 0 < length p ≤ BLOCK → fs_kmalloc_ok (length p) = true →
  is_Some (c_str (p ++ heap_after (length p))) →
  2 * BLOCK + length file_body + pad (length file_body) (length p) + length p ≤ length (fs_dev s) →
  ∃ s1 s2, onefile_write p (length p) s = inr (Z.of_nat (length p), s1) ∧
    (singlefilefs_kill_superblock ;; mount_lookup) s1 = inr ((0%Z, LDentry true), s2) ∧
    fs_inode s2 = Some (Z.of_nat (length file_body)) ∧ content s2 (length file_body) = file_body.
Proof.
  intros Hrd Hig Hroot Hs Hmt Hp Hk Hstr Hroom. pose proof BLOCK_Z.
  destruct (write_run s (length file_body) p) as (s1 & Hw & Hmt1 & _ & Hpre & _); [done..|lia|].
  assert (∀ a n, a + n ≤ 2 * BLOCK + length file_body → slice (fs_dev s1) a n = slice (image dev) a n) as Heq.
  { intros a n Hn. pose proof (f_equal (λ l, slice l a n) Hpre) as H1. cbv beta in H1.
    rewrite !slice_slice in H1 by lia. rewrite Hs in H1. exact H1. }
  exists s1. eexists. split; [done|]. split; [|split].
  - apply remount_run; [done|done|done|apply Hmt1| |].
    + pose proof (mt_size _ _ Hmt1). lia.
    + rewrite Heq by (unfold sb_magic_off; lia). apply image_magic.
  - cbn [fs_inode]. rewrite Heq by (unfold inode_file_size_off; lia). by rewrite image_size.
  - unfold content. cbn [fs_dev]. rewrite Heq by lia. apply image_body.
Qed.

(** A payload larger than a block is copied past the end of the block. *)
Theorem onefile_write_overrun s sz p :
  mounted s sz → BLOCK < length p → fs_kmalloc_ok (length p) = true →
  is_Some (c_str (p ++ heap_after (length p))) →
  (sz / BLOCK + 2 + 1 + 1) * BLOCK ≤ length (fs_dev s) → (Z.of_nat (length p) < 2 ^ 62)%Z →
  onefile_write p (length p) s = inl Overrun.
Proof.
  intros [Hi Hm Hsz Hbl Hsm Hrd] Hp Hk [str Hstr] Hroom Hlp. pose proof BLOCK_Z.
  destruct (block_of_byte sz) as (Hrem & Hquot & Hdm & Hlt).
  unfold onefile_write. erewrite FS_bind_inr by by apply run_mutex_lock.
  erewrite FS_bind_inr by by apply run_i_size. cbv zeta. rewrite Hk. cbn [negb].
  rewrite firstn_all. rewrite decide_False by (intros Hx; by apply Hx).
  rewrite Hstr. erewrite FS_bind_inr by reflexivity. unfold DEFAULT_BLOCK_SIZE.
  rewrite Hrem, Hquot, uint64_small by lia. rewrite decide_True by lia. cbv beta iota.
  assert ((Z.of_nat (sz / BLOCK) + 4) * 4096 < 2 ^ 42 + 1)%Z by lia.
  rewrite int32_add. replace (Z.of_nat (sz / BLOCK) + 2 + 1)%Z with (Z.of_nat (sz / BLOCK + 3)) by lia.
  rewrite int32_small by lia.
  erewrite FS_bind_inr by (apply sb_bread_run; [apply Hrd|cbn [fs_dev fs_set_mutex]; lia]). cbv iota.
  unfold mbind at 1, FS_bind at 1. rewrite decide_True by done. unfold write_at. rewrite length_slice by (cbn [fs_dev fs_set_mutex]; lia).
  by rewrite decide_False by (simpl; lia).
Qed.

(** The directory gives its three entries in order, one position each, and a
    reader whose buffer takes nothing more stops at the position reached; the
    length of every name is given as 255, more than the literals have. *)
Theorem onefilefs_iterate_lists :
  onefilefs_iterate (λ _ _ _, true) 0 =
    (3%Z, [(lit ".", 255, SINGLEFILEFS_ROOT_INODE_NUMBER); (lit "..", 255, 1%Z);
           (UNIQUE_FILE_NAME, 255, SINGLEFILEFS_FILE_INODE_NUMBER)]) ∧
  (∀ emit pos, (0 ≤ pos)%Z →
     let '(q, l) := onefilefs_iterate emit pos in
     (pos ≤ q ∧ (q ≤ 3 ∨ q = pos))%Z ∧ Z.of_nat (length l) = (q - pos)%Z) ∧
  (∀ emit pos, (3 ≤ pos)%Z → onefilefs_iterate emit pos = (pos, [])).
Proof.
  split; [reflexivity|]. split.
  - intros emit pos Hpos. unfold onefilefs_iterate.
    repeat case_decide; subst; repeat case_match; simplify_eq/=; lia.
  - intros emit pos Hpos. unfold onefilefs_iterate. by rewrite decide_True.
Qed.
End logfs_properties.
