(* ===== verification/LogDriver.v ===== *)
(** * The life of the log file system driver

    Registration of the file system type, mounting through [mount_bdev]
    (file_system.c), and the runs of a registered driver: mounts, unmounts and
    accesses to the file in any order. *)

From S2P Require Import Prelude CString Kernel LogFs.

(** ** State *)

(** The names of the registered file systems and the file system on the device. *)
Record log_driver := mk_driver { ld_types : list buf; ld_fs : sfs }.

(** The name in [onefilefs_type]. *)
Definition onefilefs_type : buf := lit "singlefilefs".

(** [register_filesystem] and [unregister_filesystem]: the result and the names
    registered afterwards. *)
Class FsTypes := {
  register_filesystem : buf → list buf → Z * list buf;
  unregister_filesystem : buf → list buf → Z * list buf;
}.

(** A name is registered once; only a registered name can be removed. *)
Class FsTypesLaws `{FT : FsTypes} : Prop := {
  register_new name l : name ∉ l → register_filesystem name l = (0%Z, l ++ [name]);
  register_again name l : name ∈ l → register_filesystem name l = ((- EBUSY)%Z, l);
  unregister_present name l : name ∈ l → unregister_filesystem name l = (0%Z, filter (.≠ name) l);
  unregister_absent name l : name ∉ l → unregister_filesystem name l = ((- EINVAL)%Z, l);
}.

(** [mount_bdev], given the functions that fill and kill the superblock: an error
    or the root. *)
Class MountBdev := {
  bdev_ok : bool;
  mount_bdev : FS Z → FS unit → FS (Z + unit);
}.

(** A device that is mounted already is not filled again; when filling fails the
    superblock is killed and the error is the result. *)
Class MountLaws `{MB : MountBdev} : Prop := {
  mount_closed fill kill s : bdev_ok = false → ∃ e, mount_bdev fill kill s = inr (inl e, s);
  mount_again fill kill s : fs_root s = true → ∃ r, mount_bdev fill kill s = inr (r, s);
  mount_fresh fill kill s : bdev_ok = true → fs_root s = false →
    mount_bdev fill kill s =
    (z ← fill; if decide (z = 0%Z) then mret (inr tt) else kill ;; mret (inl z)) s;
}.

(** ** file_system.c *)

Section module.
Context `{FT : FsTypes}.

(** The mutex is set up whether the registration succeeds or not. *)
Definition singlefilefs_init (d : log_driver) : Z * log_driver :=
  let '(ret, types) := register_filesystem onefilefs_type (ld_types d) in
  (ret, mk_driver types (fs_set_mutex false (ld_fs d))).

Definition singlefilefs_exit (d : log_driver) : log_driver :=
  let '(ret, types) := unregister_filesystem onefilefs_type (ld_types d) in
  mk_driver types (ld_fs d).
End module.

Section runs.
Context `{FK : FsKernel} `{MB : MountBdev}.

Definition singlefilefs_mount : FS (Z + unit) :=
  mount_bdev singlefilefs_fill_super singlefilefs_kill_superblock.

(** One use of the file system. *)
Inductive log_step : sfs → sfs → Prop :=
  | ls_mount r s s' : singlefilefs_mount s = inr (r, s') → log_step s s'
  | ls_unmount s s' : fs_root s = true → singlefilefs_kill_superblock s = inr (tt, s') → log_step s s'
  | ls_lookup name r s s' : fs_root s = true → onefilefs_lookup name s = inr (r, s') → log_step s s'
  | ls_read room len off r s s' :
      fs_root s = true → onefilefs_read room len off s = inr (r, s') → log_step s s'
  | ls_write from avail z s s' :
      fs_root s = true → onefile_write from avail s = inr (z, s') → log_step s s'.

(** ** The invariant of the runs *)

(** An image: the size [sz] stored in it is the one of a file on the device. *)
Record formatted (dev : buf) (sz : nat) : Prop := {
  fm_magic : of_le (slice dev sb_magic_off 8) = MAGIC;
  fm_size : of_le (slice dev (BLOCK + inode_file_size_off) 8) = Z.of_nat sz;
  fm_room : 2 * BLOCK + sz ≤ length dev;
  fm_small : (Z.of_nat (length dev) < 2 ^ 42)%Z;
}.

(** The device still starts with the image and its first [sz] bytes of file, the
    mutex is free and a cached size is that of a file on the device. *)
Record holds_image (dev : buf) (sz : nat) (s : sfs) : Prop := {
  hi_length : length (fs_dev s) = length dev;
  hi_prefix : slice (fs_dev s) 0 (2 * BLOCK + sz) = slice dev 0 (2 * BLOCK + sz);
  hi_mutex : fs_mutex s = false;
  hi_inode z : fs_inode s = Some z →
    ∃ n, z = Z.of_nat n ∧ sz ≤ n ∧ 2 * BLOCK + n ≤ length dev;
}.

Lemma FS_bind_inv {A B} (m : FS A) (k : A → FS B) s r :
  (m ≫= k) s = inr r → ∃ a s', m s = inr (a, s') ∧ k a s' = inr r.
Proof. unfold mbind, FS_bind. destruct (m s) as [|[a s']]; [done|]. eauto. Qed.

Lemma fs_opt_inv {A} f (o : option A) s a s' : fs_opt f o s = inr (a, s') → o = Some a ∧ s' = s.
Proof. destruct o; [|done]. by intros [= <- <-]. Qed.

Lemma sb_bread_inv block o s s' :
  sb_bread block s = inr (o, s') → s' = s ∧
    ∀ b, o = Some b → (0 ≤ block ∧ (block + 1) * 4096 ≤ Z.of_nat (length (fs_dev s)))%Z ∧
      b = slice (fs_dev s) (Z.to_nat (block * 4096)) BLOCK.
Proof.
  intros (x & s1 & [= <- <-] & H)%FS_bind_inv. unfold DEFAULT_BLOCK_SIZE in H.
  case_decide as Hb; [destruct (sb_bread_ok block)|]; injection H as <- <-; (split; [done|]);
    intros b [= <-]. split; [exact Hb|reflexivity].
Qed.

Lemma write_at_fits (l k b : buf) off : write_at l off k = Some b → off + length k ≤ length l.
Proof. unfold write_at. by case_decide. Qed.

Lemma mutex_lock_inv s a s' :
  mutex_lock s = inr (a, s') → fs_mutex s = false ∧ s' = fs_set_mutex true s.
Proof.
  unfold mutex_lock, fs_get, fs_put, mbind, FS_bind. destruct (fs_mutex s); [done|]. by intros [= _ <-].
Qed.

Lemma mutex_unlock_inv s a s' : mutex_unlock s = inr (a, s') → s' = fs_set_mutex false s.
Proof.
  unfold mutex_unlock, fs_get, fs_put, mbind, FS_bind. destruct (fs_mutex s); [|done]. by intros [= _ <-].
Qed.

Lemma unlock_ret_inv {A} (a : A) s r s' :
  (mutex_unlock ;; mret a) s = inr (r, s') → r = a ∧ s' = fs_set_mutex false s.
Proof. intros (x & s1 & ->%mutex_unlock_inv & [= <- <-])%FS_bind_inv. done. Qed.

Section invariant.
Context (dev : buf) (sz : nat) (Hfm : formatted dev sz).
Implicit Types (s : sfs).

Lemma holds_unlocked s : holds_image dev sz s → fs_set_mutex false (fs_set_mutex true s) = s.
Proof. intros Hs. apply fs_mutex_id, Hs. Qed.

(** Any part of the image. *)
Lemma holds_slice s a n :
  holds_image dev sz s → a + n ≤ 2 * BLOCK + sz → slice (fs_dev s) a n = slice dev a n.
Proof.
  intros Hs Hn. pose proof (f_equal (λ l, slice l a n) (hi_prefix _ _ _ Hs)) as H1. cbv beta in H1.
  by rewrite !slice_slice in H1 by lia.
Qed.

(** The block [k] and the offset [o] in it that [onefile_write] goes to, from a file
    of size [n] for a payload of [len] bytes. *)
Lemma write_place (n len : nat) :
  (Z.of_nat n < 2 ^ 42)%Z →
  ∃ k o, (if decide (uint64 (4096 - Z.rem (Z.of_nat n) 4096) < Z.of_nat len)%Z
    then (int32 (int32 (Z.quot (Z.of_nat n) 4096 + 2) + 1),
          (Z.of_nat n + (4096 - Z.rem (Z.of_nat n) 4096))%Z, 0%Z)
    else (int32 (Z.quot (Z.of_nat n) 4096 + 2), Z.of_nat n, Z.rem (Z.of_nat n) 4096)) =
    (Z.of_nat (k + 2), Z.of_nat (k * BLOCK + o), Z.of_nat o) ∧ n ≤ k * BLOCK + o ∧ o < BLOCK.
Proof.
  intros Hn. destruct (block_of_byte n) as (-> & -> & Hdm & Hlt). pose proof BLOCK_Z as HB.
  assert (Z.of_nat (n / BLOCK) * 4096 ≤ Z.of_nat n)%Z by (rewrite <- HB, <- Nat2Z.inj_mul; lia).
  rewrite (int32_small (Z.of_nat (n / BLOCK) + 2)), int32_small, uint64_small by lia.
  case_decide.
  - exists (n / BLOCK + 1), 0. split; [|lia]. repeat f_equal; lia.
  - exists (n / BLOCK), (n mod BLOCK). split; [|lia]. repeat f_equal; lia.
Qed.

(** A store in the block [k] of the file, after the first [sz] bytes, keeps the
    image. *)
Lemma holds_store k o data b' s s1 x :
  holds_image dev sz s → (k + 3) * BLOCK ≤ length dev → sz ≤ k * BLOCK + o →
  write_at (slice (fs_dev s) ((k + 2) * BLOCK) BLOCK) o data = Some b' →
  put_block (Z.of_nat (k + 2)) b' (fs_set_mutex true s) = inr (x, s1) →
  ∃ d', s1 = fs_set_dev d' (fs_set_mutex true s) ∧ length d' = length dev ∧
    slice d' 0 (2 * BLOCK + sz) = slice dev 0 (2 * BLOCK + sz).
Proof.
  intros Hs Hin Ho Hb' (y & s3 & [= <- <-] & Hput)%FS_bind_inv. pose proof BLOCK_Z as HB.
  apply FS_bind_inv in Hput as (d' & s3 & [Hd' ->]%fs_opt_inv & Hput). injection Hput as _ <-.
  cbn [fs_dev fs_set_mutex] in Hd'. unfold DEFAULT_BLOCK_SIZE in Hd'.
  replace (Z.to_nat (Z.of_nat (k + 2) * 4096)) with ((k + 2) * BLOCK) in Hd' by lia.
  rewrite (write_at_slice _ _ BLOCK o data) in Hd'; [|rewrite (hi_length _ _ _ Hs); lia|done].
  exists d'. split; [done|]. rewrite (write_at_length _ _ _ _ Hd'), <- (hi_prefix _ _ _ Hs).
  split; [apply Hs|]. eapply slice_write_before; [exact Hd'|lia].
Qed.

Lemma holds_write from avail z s s' :
  holds_image dev sz s → onefile_write from avail s = inr (z, s') → holds_image dev sz s'.
Proof.
  intros Hs (x & s1 & [_ ->]%mutex_lock_inv & H)%FS_bind_inv.
  apply FS_bind_inv in H as (fsz & s1 & (y & s2 & [= <- <-] & [Hi ->]%fs_opt_inv)%FS_bind_inv & H).
  cbn [fs_inode fs_set_mutex] in Hi. destruct (hi_inode _ _ _ Hs _ Hi) as (n & -> & Hn1 & Hn2).
  cbv zeta in H. destruct (negb _); [apply unlock_ret_inv in H as [_ ->]; by rewrite holds_unlocked|].
  destruct (decide (length (take avail from) ≠ length from)) as [|Hlen];
    [apply unlock_ret_inv in H as [_ ->]; by rewrite holds_unlocked|]. apply dec_stable in Hlen.
  apply FS_bind_inv in H as (_ & s1 & [_ ->]%fs_opt_inv & H).
  pose proof BLOCK_Z as HB. pose proof (fm_small _ _ Hfm) as Hsm.
  destruct (write_place n (length from)) as (k & o & Hplace & Ht & Ho); [lia|].
  unfold DEFAULT_BLOCK_SIZE in H. rewrite Hplace in H. cbv beta iota in H. clear Hplace.
  apply FS_bind_inv in H as (bh & s1 & [-> Hbh]%sb_bread_inv & H).
  destruct bh as [b|]; [|apply unlock_ret_inv in H as [_ ->]; by rewrite holds_unlocked].
  destruct (Hbh b eq_refl) as [Hin ->]. clear Hbh. cbn [fs_dev fs_set_mutex] in Hin, H.
  rewrite (hi_length _ _ _ Hs) in Hin. assert ((k + 3) * BLOCK ≤ length dev) as Hk by lia.
  replace (Z.to_nat (Z.of_nat (k + 2) * 4096)) with ((k + 2) * BLOCK) in H by lia.
  rewrite (decide_True (P := (0 ≤ Z.of_nat o)%Z)) in H by lia. rewrite Nat2Z.id in H.
  apply FS_bind_inv in H as (b' & s1 & [Hb' ->]%fs_opt_inv & H).
  assert (o + length from ≤ BLOCK) as Hfit.
  { apply write_at_fits in Hb'. rewrite length_slice in Hb'; [lia|]. rewrite (hi_length _ _ _ Hs). lia. }
  apply FS_bind_inv in H as (u1 & s1 & Hput & H).
  eapply (holds_store k o) in Hput as (d' & -> & Hdl & Hpre); [|done|done|lia|exact Hb'].
  apply FS_bind_inv in H as (u4 & s4 & Hsz & H). apply unlock_ret_inv in H as [_ ->].
  assert (∀ s0, s0 = fs_set_dev d' (fs_set_mutex true s) ∨
    s0 = fs_set_inode (Some (Z.of_nat (k * BLOCK + o) + Z.of_nat (length from))%Z)
           (fs_set_dev d' (fs_set_mutex true s)) → holds_image dev sz (fs_set_mutex false s0)) as Hnew.
  { intros s0 [-> | ->]; (split; [exact Hdl|exact Hpre|done|]); [exact (hi_inode _ _ _ Hs)|].
    intros z0 [= <-]. exists (k * BLOCK + o + length from). split; [lia|]. split; [lia|]. lia. }
  apply Hnew. revert Hsz. case_decide; [|intros [= _ <-]; by left].
  intros (? & ? & [= <- <-] & [= _ <-])%FS_bind_inv. by right.
Qed.

Lemma holds_read room len off r s s' :
  holds_image dev sz s → onefilefs_read room len off s = inr (r, s') → holds_image dev sz s'.
Proof.
  intros Hs (fsz & s1 & (y & s2 & [= <- <-] & [Hi ->]%fs_opt_inv)%FS_bind_inv & H)%FS_bind_inv.
  apply FS_bind_inv in H as (u & s1 & [_ ->]%mutex_lock_inv & H).
  case_decide; [apply unlock_ret_inv in H as [_ ->]; by rewrite holds_unlocked|].
  apply FS_bind_inv in H as (bh & s1 & [-> _]%sb_bread_inv & H).
  destruct bh as [b|]; [|apply unlock_ret_inv in H as [_ ->]; by rewrite holds_unlocked].
  apply FS_bind_inv in H as (src & s1 & [_ ->]%fs_opt_inv & H).
  apply unlock_ret_inv in H as [_ ->]. by rewrite holds_unlocked.
Qed.

Lemma holds_lookup name r s s' :
  holds_image dev sz s → onefilefs_lookup name s = inr (r, s') → holds_image dev sz s'.
Proof.
  intros Hs (c & s1 & [_ ->]%fs_opt_inv & H)%FS_bind_inv.
  case_decide; [|by injection H as _ <-]. destruct (negb _); [by injection H as _ <-|].
  apply FS_bind_inv in H as (s0 & s1 & [= <- <-] & H). destruct (fs_inode s); [by injection H as _ <-|].
  apply FS_bind_inv in H as (bh & s1 & [-> Hbh]%sb_bread_inv & H).
  destruct bh as [b|]; [|by injection H as _ <-]. destruct (Hbh b eq_refl) as [_ ->].
  apply FS_bind_inv in H as (u & s1 & (? & ? & [= <- <-] & [= _ <-])%FS_bind_inv & [= _ <-]).
  destruct Hs as [Hl Hp Hm Hi]. split; [exact Hl|exact Hp|exact Hm|]. intros z [= <-].
  pose proof BLOCK_Z as HB. change (Z.to_nat (SINGLEFILEFS_INODES_BLOCK_NUMBER * 4096)) with (Z.to_nat 4096).
  replace (Z.to_nat 4096) with BLOCK by lia. rewrite get64_slice by (unfold inode_file_size_off; lia).
  rewrite (holds_slice s) by (by split || (unfold inode_file_size_off; lia)).
  rewrite (fm_size _ _ Hfm). exists sz. split; [done|]. split; [done|]. apply Hfm.
Qed.

Lemma holds_kill s : holds_image dev sz s →
  ∃ s', singlefilefs_kill_superblock s = inr (tt, s') ∧ holds_image dev sz s' ∧ fs_dev s' = fs_dev s ∧
    s' = unmounted (fs_dev s).
Proof.
  intros [Hl Hp Hm Hi]. eexists. split; [reflexivity|].
  split; [by split|]. split; [done|]. destruct s. unfold unmounted. cbn in Hm. by subst.
Qed.

(** Filling the superblock reads the device and may set up the root. *)
Lemma fill_inv z s s' : singlefilefs_fill_super s = inr (z, s') → s' = s ∨ s' = fs_set_root true s.
Proof.
  intros (bh & s1 & [-> _]%sb_bread_inv & H)%FS_bind_inv.
  apply FS_bind_inv in H as (b & s1 & [_ ->]%fs_opt_inv & H). cbv zeta in H.
  case_decide; [injection H as _ <-; by left|]. destruct (negb _); [injection H as _ <-; by left|].
  destruct (negb _); [injection H as _ <-; by left|].
  apply FS_bind_inv in H as (s0 & s1 & [= <- <-] & H).
  apply FS_bind_inv in H as (u & s1 & [= _ <-] & [= _ <-]). by right.
Qed.

Lemma holds_root b s : holds_image dev sz s → holds_image dev sz (fs_set_root b s).
Proof. intros [Hl Hp Hm Hi]. by split. Qed.

Lemma holds_mount `{ML : !MountLaws} r s s' :
  holds_image dev sz s → singlefilefs_mount s = inr (r, s') → holds_image dev sz s'.
Proof.
  unfold singlefilefs_mount. intros Hs H. destruct (fs_root s) eqn:Hroot.
  { destruct (mount_again singlefilefs_fill_super singlefilefs_kill_superblock s Hroot) as [r' Hr].
    rewrite Hr in H. by injection H as _ <-. }
  destruct bdev_ok eqn:Hok.
  2:{ destruct (mount_closed singlefilefs_fill_super singlefilefs_kill_superblock s Hok) as [e He].
      rewrite He in H. by injection H as _ <-. }
  rewrite mount_fresh in H by done. apply FS_bind_inv in H as (z & s1 & Hfill & H).
  assert (holds_image dev sz s1) as Hs1.
  { apply fill_inv in Hfill as [-> | ->]; [done|by apply holds_root]. }
  case_decide; [by injection H as _ <-|]. destruct (holds_kill s1 Hs1) as (s2 & Hk & Hs2 & _).
  apply FS_bind_inv in H as (u & s3 & Hk' & [= _ <-]). rewrite Hk in Hk'. by injection Hk' as _ <-.
Qed.

Lemma holds_step `{ML : !MountLaws} s s' :
  holds_image dev sz s → log_step s s' → holds_image dev sz s'.
Proof.
  intros Hs Hst. revert Hs. destruct Hst as [r s0 s1 H|s0 s1 _ H|name r s0 s1 _ H|room len off r s0 s1 _ H|from avail z s0 s1 _ H]; intros Hs.
  - by eapply holds_mount.
  - destruct (holds_kill s0 Hs) as (s2 & Hk & Hs2 & _). rewrite Hk in H. by injection H as <-.
  - by eapply holds_lookup.
  - by eapply holds_read.
  - by eapply holds_write.
Qed.

(** A mount and the first lookup, on a device that can be read. *)
Lemma mount_again_run `{ML : !MountLaws} s :
  holds_image dev sz s → fs_root s = false → fs_inode s = None →
  (∀ b, sb_bread_ok b = true) → (∀ i, iget_ok i = true) → d_make_root_ok = true → bdev_ok = true →
  ∃ s1 s2, singlefilefs_mount s = inr (inr tt, s1) ∧
    onefilefs_lookup UNIQUE_FILE_NAME s1 = inr (LDentry true, s2) ∧ fs_root s2 = true ∧
    fs_inode s2 = Some (Z.of_nat sz) ∧ holds_image dev sz s2 ∧
    content s2 sz = slice dev (2 * BLOCK) sz.
Proof.
  intros Hs Hroot Hino Hrd Hig Hdm Hok. pose proof BLOCK_Z as HB. pose proof (fm_room _ _ Hfm) as Hroom.
  assert (s = unmounted (fs_dev s)) as He.
  { pose proof (hi_mutex _ _ _ Hs) as Hmu. clear -Hroot Hino Hmu. destruct s. unfold unmounted.
    cbn in Hroot, Hino, Hmu. by subst. }
  pose proof (mount_run (fs_dev s)) as Hm. rewrite <- He, (hi_length _ _ _ Hs) in Hm.
  rewrite (holds_slice s sb_magic_off), (holds_slice s (BLOCK + _)), (fm_size _ _ Hfm) in Hm
    by (done || unfold sb_magic_off, inode_file_size_off; lia).
  specialize (Hm Hrd Hig Hdm ltac:(lia) (fm_magic _ _ Hfm)).
  apply FS_bind_inv in Hm as (z & s1 & Hfill & Hm). apply FS_bind_inv in Hm as (l & s2 & Hlk & [= -> -> ->]).
  exists s1. eexists. split; [|split; [exact Hlk|]].
  - unfold singlefilefs_mount. rewrite mount_fresh by done. by erewrite FS_bind_inr by exact Hfill.
  - split; [done|]. split; [done|]. split.
    + eapply holds_lookup; [|exact Hlk]. apply fill_inv in Hfill as [-> | ->]; [done|by apply holds_root].
    + unfold content. cbn [fs_dev]. apply holds_slice; [done|lia].
Qed.
End invariant.
End runs.

(** ** Properties *)

Section log_driver_properties.
Context `{FK : FsKernel} `{MB : MountBdev} `{ML : !MountLaws} `{FT : FsTypes} `{FL : !FsTypesLaws}.

(** C28. In any run of a driver on a formatted device (mounts, unmounts, lookups,
    reads and writes, with any arguments, in any order), the superblock, the block
    of the inode and the bytes the file had when the device was formatted stay as
    they are and the mutex is free between two operations; after an unmount the
    device mounts again and the file is the one that was formatted. *)
Theorem log_runs_keep_image dev sz s s' :
  formatted dev sz → holds_image dev sz s → rtc log_step s s' →
  holds_image dev sz s' ∧
  ((∀ b, sb_bread_ok b = true) → (∀ i, iget_ok i = true) → d_make_root_ok = true → bdev_ok = true →
   ∃ s0 s1 s2, singlefilefs_kill_superblock s' = inr (tt, s0) ∧ singlefilefs_mount s0 = inr (inr tt, s1) ∧
     onefilefs_lookup UNIQUE_FILE_NAME s1 = inr (LDentry true, s2) ∧
     fs_inode s2 = Some (Z.of_nat sz) ∧ content s2 sz = slice dev (2 * BLOCK) sz).
Proof.
  intros Hfm Hs Hrun.
  assert (holds_image dev sz s') as Hs' by (induction Hrun; [done|]; eauto using holds_step).
  split; [done|]. intros Hrd Hig Hdm Hok.
  destruct (holds_kill dev sz s' Hs') as (s0 & Hk & Hs0 & _ & Hun).
  destruct (mount_again_run dev sz Hfm s0) as (s1 & s2 & H1 & H2 & _ & H3 & _ & H4);
    [done|by rewrite Hun|by rewrite Hun|done..|].
  by exists s0, s1, s2.
Qed.

(** Loading the driver registers the file system once: a second registration
    fails with -EBUSY, the mutex is set up anew all the same, and unloading gives
    back the names that were registered before. *)
Theorem log_driver_registers types fs :
  onefilefs_type ∉ types →
  ∃ d, singlefilefs_init (mk_driver types fs) = (0%Z, d) ∧ fs_mutex (ld_fs d) = false ∧
    singlefilefs_init d = ((- EBUSY)%Z, d) ∧ ld_types (singlefilefs_exit d) = types ∧
    ∀ b, fs_mutex (ld_fs (singlefilefs_init (mk_driver (ld_types d) (fs_set_mutex b (ld_fs d)))).2) = false.
Proof.
  intros Hn. eexists. unfold singlefilefs_init, singlefilefs_exit. cbn [ld_types].
  rewrite register_new by done. split; [reflexivity|]. cbn [ld_types ld_fs].
  assert (onefilefs_type ∈ types ++ [onefilefs_type]) as Hin by set_solver.
  rewrite register_again, unregister_present by done. cbn [ld_types ld_fs].
  split; [done|]. split; [done|]. split; [|done].
  rewrite filter_app, filter_ne_absent, filter_cons_False by (done || naive_solver).
  by rewrite filter_nil, app_nil_r.
Qed.
End log_driver_properties.
