(* ===== verification/LogPath.v ===== *)
(** * The way of a log row

    The logger and the log file system together: the row that [deferred_work]
    writes goes through the opening of the log file and [kernel_write] to
    [onefile_write], and a reader of the file gets it back.  The opening is kernel
    code and a parameter ([LogOpen]); it calls [security_file_open], so the probe
    that the module places there sees it like any other opening.  The state is the
    world of the monitor and the mounted file system with the cached dentry of its
    file. *)

From S2P Require Import Prelude CString Kernel Utils Blacklist Logger Kprobes Scth Monitor Security Mediation LogFs.

(** The file system, and whether the dentry of its file is cached with its inode. *)
Record vfs := mk_vfs { v_fs : sfs; v_dentry : bool }.

(** ** The monad of both *)

Definition log_state : Type := world * vfs.
Definition L (A : Type) : Type := log_state → fault + A * log_state.

#[export] Instance L_ret : MRet L := λ A a x, inr (a, x).
#[export] Instance L_bind : MBind L := λ A B k m x,
  match m x with inr (a, x') => k a x' | inl f => inl f end.

(** Code of the monitor and of the file system. *)
Definition of_K {A} (m : K A) : L A := λ '(w, v),
  match m w with Ret a w' => inr (a, (w', v)) | Crash f => inl f end.
Definition of_FS {A} (m : FS A) : L A := λ '(w, v),
  match m (v_fs v) with inr (a, s) => inr (a, (w, mk_vfs s (v_dentry v))) | inl f => inl f end.

Lemma L_bind_inr {A B} (m : L A) (k : A → L B) x a x' : m x = inr (a, x') → (m ≫= k) x = k a x'.
Proof. intros H. unfold mbind, L_bind. by rewrite H. Qed.

Lemma L_bind_inl {A B} (m : L A) (k : A → L B) x f : m x = inl f → (m ≫= k) x = inl f.
Proof. intros H. unfold mbind, L_bind. by rewrite H. Qed.

Lemma L_of_K {A} (m : K A) w v a w' : m w = Ret a w' → of_K m (w, v) = inr (a, (w', v)).
Proof. intros H. unfold of_K. by rewrite H. Qed.

(** ** The opening of the log file *)

(** [filp_open(path, O_WRONLY, 0644)] by a worker of the kernel: the error, or 0.
    [log_dentry] is the dentry of the file of the mounted file system. *)
Class LogOpen `{VF : Vfs} := {
  filp_open : buf → L Z;
  log_dentry : dentry;
  worker : task;
}.

(** The path of the file from the root of its file system, and the arguments of
    [security_file_open] when it is opened for writing. *)
Definition log_path : buf := slash :: UNIQUE_FILE_NAME.
Definition log_regs `{LO : LogOpen} : pt_regs :=
  mk_regs _ (KFile (mk_file _ log_dentry O_WRONLY)) KOther KOther KOther.

(** The opening of a file whose dentry is cached is a call of [security_file_open],
    which fails when this does (for a worker no other security module denies it); with
    nothing mounted there is no file.  A worker of the kernel has no user memory.
    [dentry_path_raw] gives the path inside of the file system. *)
Class LogOpenLaws `{AL : Alloc} `{VF : Vfs} `{KR : !Kretprobes} `{LO : !LogOpen} : Prop := {
  filp_open_file w v : fs_root (v_fs v) = true → v_dentry v = true →
    filp_open LOG_FILE (w, v) =
    of_K (k ← get_krp file_open; probed_call k log_regs worker (mret 0%Z)) (w, v);
  filp_open_absent w v : fs_root (v_fs v) = false →
    ∃ err, err ≠ 0%Z ∧ filp_open LOG_FILE (w, v) = inr (err, (w, v));
  worker_kernel : t_exe worker = None;
  log_dentry_path : dentry_path_raw log_dentry PATH_MAX = inr log_path;
}.

Section log_path.
Context `{AL : Alloc} `{CR : Crypto} `{VF : Vfs} `{FK : FsKernel} `{LO : !LogOpen}.

(** [deferred_work] on the file system: [filp_open], [kernel_write], whose result
    is only printed, and the release of the item. *)
Definition deferred_work_fs (data : ptr) : L unit :=
  row ← of_K (deferred_row data);
  err ← filp_open LOG_FILE;
  if decide (err ≠ 0%Z) then mret tt else
  len ← of_K (of_opt Overrun (strlen row));
  ret ← of_FS (onefile_write (take len row) len);
  of_K (kfree data).

(** The queued items, in order. *)
Fixpoint run_queue (ps : list ptr) : L unit :=
  match ps with [] => mret tt | p :: ps' => deferred_work_fs p ;; run_queue ps' end.

(** Blocked accesses by the threads [ts], one after the other. *)
Fixpoint log_all (ts : list task) : K unit :=
  match ts with [] => mret tt | t :: ts' => write_on_log t ;; log_all ts' end.
End log_path.

(** ** Where the rows are *)

(** The file [c] holds, from [off] to its end, the rows one after the other, each in
    one block. *)
Fixpoint rows_at (c : buf) (off : nat) (rows : list buf) : Prop :=
  match rows with
  | [] => length c = off
  | r :: rows' =>
      slice c (off + pad off (length r)) (length r) = r ∧
      rows_at c (off + pad off (length r) + length r) rows'
  end.

(** The size of the file after the rows. *)
Fixpoint size_after (off : nat) (rows : list buf) : nat :=
  match rows with [] => off | r :: rows' => size_after (off + pad off (length r) + length r) rows' end.

Lemma size_after_le off rows : off ≤ size_after off rows.
Proof.
  revert off. induction rows as [|r rows IH]; intros off; simpl; [lia|]. etransitivity; [|apply IH]. lia.
Qed.

(** The string of a buffer is its part before the terminator. *)
Lemma strlen_take b n : strlen b = Some n → length (take n b) = n.
Proof.
  rewrite strlen_c_str. intros (s & Hs & ->)%fmap_Some. apply c_str_Some in Hs as (_ & rest & ->). len.
Qed.

(** The log file is there: it is mounted, with [sz] bytes, and its dentry is cached. *)
Record log_open `{FK : FsKernel} (v : vfs) (sz : nat) : Prop := {
  lo_mounted : mounted (v_fs v) sz;
  lo_root : fs_root (v_fs v) = true;
  lo_dentry : v_dentry v = true;
}.

(** And the monitor lets it be opened: its list [a] does not protect it in this
    state. *)
Record log_allowed (a : blacklist) (w : world) : Prop := {
  la_rep : bl_rep w a;
  la_probe : probe_set true file_open (g_krp (w_glob w) file_open);
  la_free : ¬ protected (rf_state (rf w)) a log_path;
}.

(** This depends on the monitor structure, the probe and the list only. *)
Lemma log_allowed_frame a w w' :
  log_allowed a w → wf w' → rf w' = rf w → g_krp (w_glob w') = g_krp (w_glob w) →
  (∀ q o, mem w !! q = Some o → (∀ k, o ≠ OWork k) → mem w' !! q = Some o) → log_allowed a w'.
Proof.
  intros [Hr Hp Hf] Hwf Hrf Hk Hm. split; [by eapply bl_rep_frame|by rewrite Hk|by rewrite Hrf].
Qed.

Lemma log_allowed_secure dg a w : secure dg a w → ¬ protected (rf_state (rf w)) a log_path → log_allowed a w.
Proof. intros [Hr _ _ [_ Hp _]] Hf. by split. Qed.

Section open.
Context `{AL : Alloc} `{CR : Crypto} `{CL : !CryptoLaws} `{VF : Vfs} `{VL : !VfsLaws} `{FK : FsKernel}.
Context `{KR : !Kretprobes} `{KRL : !KretprobeLaws} `{LO : !LogOpen} `{LOL : !LogOpenLaws} `{IA : !InitOnAlloc}.
Context (Hmem : ∀ n, kmalloc_ok n = true).

Lemma log_verdict a w :
  bl_rep w a → answers (must_deny (rf_state (rf w)) a [log_path]) w (run_entry open_entry log_regs w).
Proof.
  intros Hr. apply (entry_verdict open_entry log_regs [log_dentry]); [done|done| |by intros i _; apply Hmem].
  constructor; [|constructor]. split; [apply log_dentry_path|by vm_compute; lia].
Qed.

(** The probe of the module lets the opening pass. *)
Lemma filp_open_log a v sz w :
  log_open v sz → log_allowed a w →
  ∃ w', filp_open LOG_FILE (w, v) = inr (0%Z, (w', v)) ∧ extends w w'.
Proof.
  intros [_ Hroot Hd] [Hr Hp Hf]. rewrite filp_open_file by done.
  assert (∃ w', (k ← get_krp file_open; probed_call k log_regs worker (mret 0%Z)) w = Ret 0%Z w' ∧ extends w w')
    as (w' & Hrun & He); [|exists w'; by split; [apply L_of_K|]].
  unfold get_krp, get_glob. kstep. set (k := g_krp (w_glob w) file_open) in *.
  destruct (kp_enabled k) eqn:Hon; [|exists w; by rewrite probed_off].
  destruct (log_verdict a w Hr) as (x & w1 & Hx & He & _ & Hans).
  destruct Hans as [[Hm _]|[_ ->]].
  { apply Exists_cons in Hm as [Hm|Hm%Exists_nil]; done. }
  exists w1. split; [|done]. by rewrite (probed_pass k open_entry _ _ _ _ _ _ _ Hon (ps_entry _ _ _ Hp) Hx).
Qed.

(** And when the list protects the log file, the return handler runs in the worker,
    which has no program. *)
Lemma filp_open_denied a v sz w :
  log_open v sz → bl_rep w a → probe_set true file_open (g_krp (w_glob w) file_open) →
  kp_enabled (g_krp (w_glob w) file_open) = true → protected (rf_state (rf w)) a log_path →
  filp_open LOG_FILE (w, v) = inl NullDeref.
Proof.
  intros [_ Hroot Hd] Hr Hp Hon Hf. rewrite filp_open_file by done.
  assert ((k ← get_krp file_open; probed_call k log_regs worker (mret 0%Z)) w = Crash NullDeref) as Hrun;
    [|unfold of_K; by rewrite Hrun].
  unfold get_krp, get_glob. kstep.
  destruct (log_verdict a w Hr) as (x & w1 & Hx & He & _ & Hans).
  destruct Hans as [(_ & m & -> & Hmn & text & Ht & Hm)|[Hno _]]; [|destruct Hno; by apply Exists_cons; left].
  rewrite (probed_hit _ open_entry _ _ _ _ _ _ Hon (ps_handler _ _ _ Hp) (ps_entry _ _ _ Hp) Hx).
  unfold ret_handler. kstep. rewrite decide_False by done.
  erewrite K_bind_Ret by (eapply run_k_print; [exact Hm|done|by apply c_str_app]).
  apply K_bind_Crash. unfold write_on_log. erewrite K_bind_Ret by (apply run_kmalloc_ok, Hmem).
  assert (wf w1) as [Hb _] by (eapply extends_wf; [exact He|apply Hr]). rewrite decide_False by kptr.
  by rewrite worker_kernel.
Qed.
End open.

Section rows.
Context `{AL : Alloc} `{CR : Crypto} `{CL : !CryptoLaws} `{VF : Vfs} `{VL : !VfsLaws} `{FK : FsKernel}.
Context `{KR : !Kretprobes} `{KRL : !KretprobeLaws} `{LO : !LogOpen} `{LOL : !LogOpenLaws} `{IA : !InitOnAlloc}.
Context (Hmem : ∀ n, kmalloc_ok n = true) (Hcrypto : ∀ n, crypto_up n) (Hkm : ∀ n, fs_kmalloc_ok n = true)
  (Hafter : ∀ r, length r ≤ 255 → is_Some (c_str (r ++ heap_after (length r)))).

Lemma log_row_length t s : 0 < length (log_row t s) ≤ 255.
Proof.
  unfold log_row. rewrite length_take.
  assert (0 < length (row_text (t_pid t) (t_tgid t) (t_uid t) (t_euid t) s (hex (sha256 s)))); [|lia].
  unfold row_text. rewrite !length_app. change (length [ascii_of_nat 10]) with 1. lia.
Qed.

(** One item: its row is appended to the file. *)
Lemma deferred_work_fs_run t s p a w v sz :
  let r := log_row t s in
  let sz' := sz + pad sz (length r) + length r in
  queued w p t s → log_allowed a w → log_open v sz → 2 * BLOCK + sz' ≤ length (fs_dev (v_fs v)) →
  ∃ w' v', deferred_work_fs p (w, v) = inr (tt, (w', v')) ∧ log_allowed a w' ∧
    (∀ q o, q ≠ p → mem w !! q = Some o → mem w' !! q = Some o) ∧
    log_open v' sz' ∧ length (fs_dev (v_fs v')) = length (fs_dev (v_fs v)) ∧
    ∃ gap, length gap = pad sz (length r) ∧ content (v_fs v') sz' = content (v_fs v) sz ++ gap ++ r.
Proof.
  intros r sz' Hq Hal Hop Hroom. pose proof (log_row_length t s) as Hr. fold r in Hr.
  assert (wf w) as Hwf by apply Hal.
  destruct (deferred_row_run t s p w) as (w1 & row & len & Hrow & He1 & _ & Hlen & Htk); [done..|].
  fold r in Htk. pose proof (extends_wf _ _ He1 Hwf) as Hwf1.
  assert (log_allowed a w1) as Hal1.
  { eapply log_allowed_frame; [exact Hal|done|by rewrite (extends_glob _ _ He1)..|].
    intros q o Hqo _. by eapply extends_lookup. }
  destruct (filp_open_log Hmem a v sz w1 Hop Hal1) as (w2 & Hopen & He2).
  assert (extends w w2) as He by by etransitivity. pose proof (extends_wf _ _ He Hwf) as Hwf2.
  pose proof Hq as (lp & dup & h & b & Hp & _). pose proof (wf_heap_not_null _ _ _ Hwf Hp) as Hpn.
  pose proof (extends_lookup _ _ _ _ He Hp) as Hp2.
  destruct (write_run (v_fs v) sz r) as (s' & Hw & Hmt & Hc & _ & Hroot & Hdl);
    [apply Hop|unfold BLOCK; lia|apply Hkm|apply Hafter; lia|done|].
  assert (len = length r) as Hl by (by rewrite <- Htk, (strlen_take _ _ Hlen)).
  exists (w_free p w2), (mk_vfs s' (v_dentry v)). split; [|split; [|split; [|split; [|split]]]].
  - unfold deferred_work_fs. erewrite L_bind_inr by (apply L_of_K, Hrow).
    erewrite L_bind_inr by exact Hopen. rewrite decide_False by (intros Hn; by apply Hn).
    erewrite L_bind_inr by (by apply L_of_K, run_of_opt). rewrite Htk, Hl.
    erewrite L_bind_inr by (unfold of_FS; by rewrite Hw). apply L_of_K. by eapply run_kfree.
  - eapply log_allowed_frame; [exact Hal|by apply wf_free|simpl; by rewrite (extends_glob _ _ He)..|].
    intros q o Hqo Ho. simpl. rewrite lookup_delete_ne; [by eapply extends_lookup|]. intros <-.
    rewrite Hp in Hqo. injection Hqo as <-. by eapply Ho.
  - intros q o' Hne Hq'. simpl. rewrite lookup_delete_ne by done. by eapply extends_lookup.
  - split; [done|simpl|apply Hop]. rewrite Hroot. apply Hop.
  - done.
  - exists (slice (fs_dev (v_fs v)) (2 * BLOCK + sz) (pad sz (length r))). split; [|done].
    apply length_slice. unfold sz' in Hroom. lia.
Qed.

(** What a row leaves of the rows that follow: its bytes stay. *)
Lemma rows_at_app c d off rows r gap :
  rows_at c off rows → length gap = pad (length c) (length r) → d = c ++ gap ++ r →
  rows_at d off (rows ++ [r]).
Proof.
  intros Hc Hg ->. revert off Hc. induction rows as [|r0 rows IH]; intros off; cbn [rows_at app].
  - intros <-. rewrite <- Hg. split; [|rewrite !length_app; lia].
    unfold slice. rewrite app_assoc, drop_app_length' by len. by rewrite firstn_all.
  - intros [Hr Hc]. split; [|by apply IH]. assert (off + pad off (length r0) + length r0 ≤ length c) as Hle.
    { clear -Hc. revert Hc. generalize (off + pad off (length r0) + length r0). clear. intros o.
      revert o. induction rows as [|r rows IH]; intros o; cbn [rows_at]; [lia|]. intros [_ Hc%IH]. lia. }
    etransitivity; [|exact Hr]. unfold slice. rewrite drop_app_le by lia. by rewrite take_app_le by len.
Qed.

(** The end of one item leaves the others. *)
Lemma queued_free w w' p t s q t' s' :
  queued w p t s → queued w q t' s' → q ≠ p →
  (∀ x o, x ≠ p → mem w !! x = Some o → mem w' !! x = Some o) → queued w' q t' s'.
Proof.
  intros (lp & dup & h & b & Hp & _) (lp' & dup' & h' & b' & Hq & Hl & Hd & Hs) Hne Hkeep.
  exists lp', dup', h', b'. split; [by apply Hkeep|]. split; [|split; [|done]]; apply Hkeep; congruence.
Qed.

(** The items of the queue, in order. *)
Lemma run_queue_run ps es a w v sz0 sz rows :
  let rows' := (λ e, log_row e.1 e.2) <$> es in
  Forall2 (λ p e, queued w p e.1 e.2) ps es → NoDup ps → log_allowed a w → log_open v sz →
  rows_at (content (v_fs v) sz) sz0 rows →
  2 * BLOCK + size_after sz rows' ≤ length (fs_dev (v_fs v)) →
  ∃ w' v' sz', run_queue ps (w, v) = inr (tt, (w', v')) ∧
    log_open v' sz' ∧ sz' = size_after sz rows' ∧
    content (v_fs v) sz `prefix_of` content (v_fs v') sz' ∧
    rows_at (content (v_fs v') sz') sz0 (rows ++ rows').
Proof.
  revert es w v sz rows. induction ps as [|p ps IH]; intros es w v sz rows rows' Hq Hnd Hal Hop Hrows Hroom.
  - apply Forall2_nil_inv_l in Hq as ->. exists w, v, sz. unfold rows'. simpl. rewrite app_nil_r. done.
  - apply Forall2_cons_inv_l in Hq as ([t s] & es' & Hp & Hps & ->).
    apply NoDup_cons in Hnd as [Hnot Hnd]. unfold rows' in Hroom |- *. cbn [fmap list_fmap fst snd size_after] in *.
    set (r := log_row t s) in *. set (sz1 := sz + pad sz (length r) + length r) in *.
    pose proof (size_after_le sz1 ((λ e, log_row e.1 e.2) <$> es')) as Hle.
    destruct (deferred_work_fs_run t s p a w v sz) as (w1 & v1 & Hr1 & Hal1 & Hm1 & Hop1 & Hl1 & gap & Hgap & Hc1);
      [done..|fold r sz1; lia|]. fold r sz1 in Hop1, Hgap, Hc1.
    assert (length (content (v_fs v) sz) = sz) as Hcl.
    { unfold content. apply length_slice. pose proof (mt_size _ _ (lo_mounted _ _ Hop)). lia. }
    destruct (IH es' w1 v1 sz1 (rows ++ [r])) as (w2 & v2 & sz2 & Hr2 & Hop2 & Hsz2 & Hpre & Hrows2);
      [|done|done|done| |by rewrite Hl1|].
    + rewrite Forall2_lookup in Hps |- *. intros i. specialize (Hps i). inversion Hps as [q e Hqe Hi|]; constructor.
      eapply (queued_free w w1 p); [exact Hp|exact Hqe| |exact Hm1]. intros ->. apply Hnot.
      by eapply list_elem_of_lookup_2.
    + eapply rows_at_app; [exact Hrows| |exact Hc1]. by rewrite Hcl.
    + exists w2, v2, sz2. split; [by cbn [run_queue]; erewrite L_bind_inr by exact Hr1|].
      split; [done|]. split; [done|]. split.
      * etransitivity; [|exact Hpre]. rewrite Hc1. by exists (gap ++ r).
      * by rewrite <- app_assoc in Hrows2.
Qed.

(** And what a reader of the file gets then. *)
Lemma run_queue_read ps es a w v sz :
  let rows := (λ e, log_row e.1 e.2) <$> es in
  Forall2 (λ p e, queued w p e.1 e.2) ps es → NoDup ps → log_allowed a w → log_open v sz →
  2 * BLOCK + size_after sz rows ≤ length (fs_dev (v_fs v)) →
  ∃ w' v' c, run_queue ps (w, v) = inr (tt, (w', v')) ∧
    read_all (S (length c)) BLOCK 0 (v_fs v') = inr (c, v_fs v') ∧
    content (v_fs v) sz `prefix_of` c ∧ rows_at c sz rows.
Proof.
  intros rows Hq Hnd Hal Hop Hroom.
  assert (length (content (v_fs v) sz) = sz) as Hcl.
  { unfold content. apply length_slice. pose proof (mt_size _ _ (lo_mounted _ _ Hop)). lia. }
  destruct (run_queue_run ps es a w v sz sz []) as
    (w2 & v' & sz' & Hr2 & Hop2 & Hsz & Hpre & Hrows); [done..|].
  exists w2, v', (content (v_fs v') sz'). split; [done|]. split; [|by split].
  pose proof (lo_mounted _ _ Hop2) as Hmt. pose proof (mt_size _ _ Hmt) as Hms.
  assert (length (content (v_fs v') sz') = sz') as Hcl'.
  { unfold content. apply length_slice. lia. }
  rewrite Hcl'. change 0%Z with (Z.of_nat 0).
  rewrite (read_all_run _ _ sz' BLOCK 0) by (done || unfold BLOCK; lia).
  rewrite Nat.sub_0_r. unfold slice. rewrite drop_0, <- Hcl' at 1. by rewrite firstn_all.
Qed.

(** An item has one row. *)
Lemma queued_row w p t s t' s' : queued w p t s → queued w p t' s' → log_row t s = log_row t' s'.
Proof using Type.
  intros (lp & dup & h & b & Hp & Hl & Hd & Hs) (lp' & dup' & h' & b' & Hp' & Hl' & Hd' & Hs').
  rewrite Hp in Hp'. injection Hp' as <-. rewrite Hl in Hl'. injection Hl' as H1 H2 H3 H4 <- _.
  rewrite Hd in Hd'. injection Hd' as <-. rewrite Hs in Hs'. injection Hs' as <-. unfold log_row. congruence.
Qed.

(** The threads have their program and its path. *)
Definition runs_program (t : task) (s : buf) : Prop :=
  ∃ d, t_exe t = Some d ∧ dentry_path_raw d PATH_MAX = inr s.

Lemma queued_le w w' p t s : heap_le (w_heap w) (w_heap w') → queued w p t s → queued w' p t s.
Proof.
  intros [Hsub _] (lp & dup & h & b & Hp & Hl & Hd & Hs). exists lp, dup, h, b.
  split; [by eapply lookup_weaken|]. split; [by eapply lookup_weaken|]. by split; [eapply lookup_weaken|].
Qed.

(** The blocked accesses are queued. *)
Lemma log_all_run ts ss w :
  wf w → Forall2 runs_program ts ss →
  ∃ w' ps, log_all ts w = Ret tt w' ∧ heap_le (w_heap w) (w_heap w') ∧
    w_glob w' = set_queue (g_queue (w_glob w) ++ ps) (w_glob w) ∧
    Forall2 (λ p e, queued w' p e.1 e.2) ps (zip ts ss) ∧ NoDup ps ∧ Forall (λ p, brk w < p)%N ps.
Proof.
  intros Hwf Hts. revert w Hwf. induction Hts as [|t s ts ss (d & Hd & Hs) Hts IH]; intros w Hwf.
  - exists w, []. split; [done|]. split; [done|]. rewrite app_nil_r. split; [by destruct w as [? []]|].
    split; [constructor|]. split; constructor.
  - destruct (write_on_log_run t d s w) as (w1 & p & Hr & Hle & Hg & Hq & Hp & _);
      [done|done|done|by intros i _; apply Hmem|apply fresh_byte_zero|].
    destruct (IH w1) as (w2 & ps & Hr2 & Hle2 & Hg2 & Hq2 & Hnd & Hps); [by apply Hle|].
    exists w2, (p :: ps). split; [by cbn [log_all]; erewrite K_bind_Ret by exact Hr|].
    split; [by etransitivity|]. split; [rewrite Hg2, Hg; simpl; by rewrite <- app_assoc|].
    assert (p < brk w1)%N as Hlt.
    { destruct Hq as (lp & dup & h & b & Hm & _). apply (proj2 ((proj2 (proj2 (proj2 Hle))) Hwf)) in Hm. lia. }
    split; [constructor; [by eapply queued_le|done]|]. split.
    + constructor; [|done]. intros Hin. rewrite Forall_forall in Hps. apply Hps in Hin. lia.
    + constructor; [done|]. eapply Forall_impl; [exact Hps|]. simpl. intros x Hx.
      destruct Hle as (_ & Hb & _). lia.
Qed.
End rows.

(** ** Properties *)

Section log_path_properties.
Context `{AL : Alloc} `{CR : Crypto} `{CL : !CryptoLaws} `{VF : Vfs} `{VL : !VfsLaws} `{FK : FsKernel}
  `{KR : !Kretprobes} `{KRL : !KretprobeLaws} `{LO : !LogOpen} `{LOL : !LogOpenLaws} `{IA : !InitOnAlloc}.

(** C12. From a blocked access to the reader of the log: the accesses of any
    sequence of threads are queued, the work items run, and a reader who reads the
    log file block by block gets the old content followed by one row per access, in
    order, each with the identifiers, the program path and the digest of that path
    and each within one block; on a mounted device with room, when memory and hashing
    are available and the monitor does not protect its own log file, whose opening by
    the worker goes through the probe of the module. *)
Theorem blocked_accesses_reach_log_file dg a ts ss w v sz :
  let rows := (λ e, log_row e.1 e.2) <$> zip ts ss in
  (∀ n, kmalloc_ok n = true) → (∀ n, crypto_up n) → (∀ n, fs_kmalloc_ok n = true) →
  (∀ r, length r ≤ 255 → is_Some (c_str (r ++ heap_after (length r)))) →
  secure dg a w → ¬ protected (rf_state (rf w)) a log_path →
  g_queue (w_glob w) = [] → Forall2 runs_program ts ss → log_open v sz →
  2 * BLOCK + size_after sz rows ≤ length (fs_dev (v_fs v)) →
  ∃ w1 ps w2 v' c, log_all ts w = Ret tt w1 ∧ g_queue (w_glob w1) = ps ∧
    run_queue ps (w_put (set_queue [] (w_glob w1)) w1, v) = inr (tt, (w2, v')) ∧
    read_all (S (length c)) BLOCK 0 (v_fs v') = inr (c, v_fs v') ∧
    content (v_fs v) sz `prefix_of` c ∧ rows_at c sz rows.
Proof.
  intros rows Hmem Hcr Hkm Hafter Hsec Hfree Hq0 Hts Hop Hroom.
  destruct (log_all_run Hmem ts ss w) as (w1 & ps & Hr & Hle & Hg & Hq & Hnd & _); [apply Hsec|done|].
  rewrite Hq0 in Hg. assert (log_allowed a (w_put (set_queue [] (w_glob w1)) w1)) as Hal.
  { eapply log_allowed_frame; [by apply (log_allowed_secure dg)|apply Hle, Hsec|simpl; by rewrite Hg..|].
    intros q o Hqo _. eapply lookup_weaken; [exact Hqo|apply Hle]. }
  destruct (run_queue_read Hmem Hcr Hkm Hafter ps (zip ts ss) a (w_put (set_queue [] (w_glob w1)) w1) v sz) as
    (w2 & v' & c & Hr2 & Hread); [done..|].
  exists w1, ps, w2, v', c. split; [done|]. split; [by rewrite Hg|]. by split.
Qed.

(** C29. A monitor that protects its own log file is brought down by the next row: in a
    state that blocks, with an entry that matches the path of the file in its file
    system (/ does, for example), the probe denies the opening by the worker, and the
    return handler asks for the program of a thread that has none: a NULL pointer is
    dereferenced in the kernel.  Memory and hashing are available and the counter has
    not wrapped. *)
Theorem protected_log_faults dg a n t s p w v sz :
  (∀ n, kmalloc_ok n = true) → (∀ n, crypto_up n) → secure dg a w → counted n a → (Z.of_nat n < 2 ^ 31)%Z →
  blocks (rf_state (rf w)) (bl_paths a) [log_path] → log_open v sz → queued w p t s →
  deferred_work_fs p (w, v) = inl NullDeref.
Proof.
  intros Hmem Hcr Hsec Hcnt Hn Hbl Hop Hq. assert (wf w) as Hwf by apply Hsec.
  destruct (deferred_row_run t s p w) as (w1 & row & len & Hrow & He & _); [done..|].
  pose proof (secure_extends _ _ _ _ He Hsec) as Hsec1. pose proof (extends_glob _ _ He) as Hg.
  unfold deferred_work_fs. erewrite L_bind_inr by (apply L_of_K, Hrow). apply L_bind_inl.
  destruct (sec_probes _ _ _ Hsec1) as [_ Hset Hen].
  eapply (filp_open_denied Hmem a); [exact Hop|apply Hsec1|apply Hset| |].
  - rewrite Hen, Hg. apply bool_decide_eq_true_2, Hbl.
  - rewrite <- Hg in Hbl. apply (blocks_must_deny n) in Hbl; [|done|done|apply Hsec1].
    by apply Exists_cons in Hbl as [Hbl|Hbl%Exists_nil].
Qed.

(** C30. What becomes of a row when the file cannot take it: the file system is not
    mounted (the item is not even released), or the device is full, where the error
    of the write is ignored and the row is lost without a trace. *)
Theorem log_row_errors t s p w v :
  (∀ n, crypto_up n) → wf w → queued w p t s →
  (fs_root (v_fs v) = false →
   ∃ w', deferred_work_fs p (w, v) = inr (tt, (w', v)) ∧ extends w w' ∧ is_Some (mem w' !! p)) ∧
  (∀ a sz, log_open v sz → log_allowed a w → (∀ n, kmalloc_ok n = true) → (∀ n, fs_kmalloc_ok n = true) →
   (∀ r, length r ≤ 255 → is_Some (c_str (r ++ heap_after (length r)))) →
   length (fs_dev (v_fs v)) < 2 * BLOCK + size_after sz [log_row t s] →
   ∃ w', deferred_work_fs p (w, v) = inr (tt, (w', v)) ∧ mem w' !! p = None).
Proof.
  intros Hcr Hwf Hq. destruct (deferred_row_run t s p w) as (w1 & row & len & Hrow & He & _ & Hlen & Htk); [done..|].
  pose proof Hq as (lp & dup & h & b & Hp & _). pose proof (wf_heap_not_null _ _ _ Hwf Hp) as Hpn.
  pose proof (extends_lookup _ _ _ _ He Hp) as Hp1. pose proof (log_row_length t s) as Hr.
  split.
  - intros Hroot. exists w1. split; [|by split; [|exists (OWork (mk_packed_work p lp))]].
    unfold deferred_work_fs. erewrite L_bind_inr by (apply L_of_K, Hrow).
    destruct (filp_open_absent w1 v Hroot) as (err & Herr & Hopen).
    erewrite L_bind_inr by exact Hopen. by rewrite decide_True by done.
  - intros a sz Hop Hal Hmem Hkm Hafter Hfull.
    assert (log_allowed a w1) as Hal1.
    { eapply log_allowed_frame; [exact Hal|by eapply extends_wf|by rewrite (extends_glob _ _ He)..|].
      intros q o Hqo _. by eapply extends_lookup. }
    destruct (filp_open_log Hmem a v sz w1 Hop Hal1) as (w2 & Hopen & He2).
    pose proof (extends_lookup _ _ _ _ He2 Hp1) as Hp2. exists (w_free p w2). split; [|apply lookup_delete_eq].
    unfold deferred_work_fs. erewrite L_bind_inr by (apply L_of_K, Hrow). erewrite L_bind_inr by exact Hopen.
    rewrite decide_False by (intros Hn; by apply Hn).
    erewrite L_bind_inr by (by apply L_of_K, run_of_opt). rewrite Htk.
    assert (len = length (log_row t s)) as -> by (by rewrite <- Htk, (strlen_take _ _ Hlen)).
    erewrite L_bind_inr.
    2:{ unfold of_FS. erewrite (write_full _ sz); [reflexivity|apply Hop|unfold BLOCK; lia|apply Hkm
          |apply Hafter; lia|cbn [size_after] in Hfull; lia]. }
    destruct v as [s0 d0]. apply L_of_K. by eapply run_kfree.
Qed.
End log_path_properties.
