(* ===== verification/LogInterleaving.v ===== *)
(** * The log of interleaved accesses

    The processors of the interleaving, the logger and the log file system together:
    what the threads of every interleaving queue is what the work items write and
    what a reader of the log file finds. *)

From S2P Require Import Prelude CString Kernel Utils Blacklist Logger Kprobes Security Mediation Concurrency.
From S2P Require Import ProbeThreads ProbeLogic Interleaving LogFs LogPath.

Section log_interleaving.
Context `{AL : Alloc} `{CR : Crypto} `{CL : !CryptoLaws} `{VF : Vfs} `{VL : !VfsLaws} `{KA : KprobeAPI}
  `{KL : !KprobeLaws} `{IA : !InitOnAlloc} `{KT : !KretprobeThreads} `{KTL : !KretprobeThreadLaws} `{FK : FsKernel}
  `{KR : !Kretprobes} `{KRL : !KretprobeLaws} `{LO : !LogOpen} `{LOL : !LogOpenLaws}.

(** The log file can be opened after a run, when no entry protects it. *)
Lemma interleaved_allowed dg a rs w ts w' :
  (∀ n, kmalloc_ok n = true) → (∀ n, crypto_up n) → secure dg a w → Forall request_ok rs →
  (∀ k, k ∈ bl_paths a ∨ added rs k → ¬ matches k log_path) →
  rtc pool_step (thread_of <$> rs, w) (ts, w') → Forall returned ts →
  ∃ a', log_allowed a' (w_put (set_queue [] (w_glob w')) w').
Proof.
  intros Hmem Hcr Hsec Hok Hlog Hrun Hret.
  destruct (interleaved_monitor dg a rs w ts w' Hmem Hcr Hsec Hok Hrun) as (_ & _ & Hp & Hl).
  destruct Hl as (a' & Hrep & Hmay & _); [by eapply returned_free|]. exists a'.
  split; [eapply bl_rep_frame; [exact Hrep|apply Hrep|done..]|apply Hp|].
  intros (_ & _ & _ & (k & Hk & Hm)%Exists_exists). by eapply Hlog; [apply Hmay|].
Qed.

(** C9. No blocked access is missing in the log: processors run any interleaving of
    system calls and of calls of the probed functions, then the queued work items
    run, on a mounted device with room, with no entry that protects the log file
    itself.  A reader of the log file gets the old content followed by one row per
    item in the order of the queue, each within one block; and every call on a path
    below one that is protected throughout has returned -EACCES and has its row, with
    the identifiers of its thread and its program, among them, provided that its probe
    has instances for all the calls of its function. *)
Theorem interleaved_denials_reach_log_file dg a rs w ts w' v sz :
  (∀ n, kmalloc_ok n = true) → (∀ n, crypto_up n) → (∀ n, fs_kmalloc_ok n = true) →
  (∀ r, length r ≤ 255 → is_Some (c_str (r ++ heap_after (length r)))) →
  secure dg a w → g_queue (w_glob w) = [] → Forall request_ok rs →
  (∀ k, k ∈ bl_paths a ∨ added rs k → ¬ matches k log_path) →
  (Z.of_nat (length (bl_paths a)) ≤ bl_size a ∧ bl_size a + Z.of_nat (length rs) < 2 ^ 31)%Z →
  rf_state (rf w) = RF_ON ∨ rf_state (rf w) = RF_REC_ON →
  (∀ st, switched rs st → st = RF_ON ∨ st = RF_REC_ON) →
  rtc pool_step (thread_of <$> rs, w) (ts, w') → Forall returned ts → log_open v sz →
  ∃ rows,
    (∀ i p regs t f paths exe k path z,
       rs !! i = Some (RCall p regs t f) → call_ok p regs t f paths exe →
       g_active (w_glob w) p + probed_calls rs p ≤ instances p →
       k ∈ bl_paths a → ¬ removed rs k → path ∈ paths → matches k path → ts !! i = Some (Done z) →
       z = (- EACCES)%Z ∧ log_row t exe ∈ rows) ∧
    length rows = length (g_queue (w_glob w')) ∧
    (2 * BLOCK + size_after sz rows ≤ length (fs_dev (v_fs v)) →
     ∃ w2 v' c, run_queue (g_queue (w_glob w')) (w_put (set_queue [] (w_glob w')) w', v) = inr (tt, (w2, v')) ∧
       read_all (S (length c)) BLOCK 0 (v_fs v') = inr (c, v_fs v') ∧
       content (v_fs v) sz `prefix_of` c ∧ rows_at c sz rows).
Proof.
  intros Hmem Hcr Hkm Hafter Hsec Hq0 Hok Hlog Hsz Hst Hsw Hrun Hret Hop.
  destruct (interleaved_items dg a rs w ts w' Hmem Hcr Hsec Hok Hrun) as (Hwf & q & es & Hq & Hnd & Hits).
  destruct (interleaved_allowed dg a rs w ts w' Hmem Hcr Hsec Hok Hlog Hrun Hret) as [a' Hal].
  rewrite Hq0 in Hq. simpl in Hq. exists ((λ e, log_row e.1 e.2) <$> es). split; [|split].
  - intros i p regs t f paths exe k path z Hi Hcall Hinst Hk Hn Hpath Hm Hz.
    edestruct (call_denied dg a rs w ts w') as (-> & q' & wp & Hq' & Hin & Hwp); [eassumption..|].
    split; [done|]. rewrite Hq0, Hq in Hq'. simpl in Hq'. subst q'.
    apply list_elem_of_lookup in Hin as [j Hj]. destruct (Forall2_lookup_l _ _ _ _ _ Hits Hj) as (e & He & Hqe).
    rewrite (queued_row _ _ _ _ _ _ Hwp Hqe). apply list_elem_of_fmap. exists e. split; [done|].
    by eapply list_elem_of_lookup_2.
  - by rewrite length_fmap, Hq, (Forall2_length _ _ _ Hits).
  - intros Hroom. rewrite Hq. by apply (run_queue_read Hmem Hcr Hkm Hafter q es a').
Qed.
End log_interleaving.
