(* ===== verification/UserPrograms.v ===== *)
(** * The test programs

    The small programs that come with the modules: reference-monitor/user/user.c
    and remove.c, which edit the blacklist, open.c, which writes a file,
    syscall-table-discoverer/user/user.c, which makes one call, and
    log-filesystem/user.c, which writes to the log file.  They run on the processes
    of [Stdio]; the first two and the call on any system that keeps the promise of
    the monitor, the last one on the mounted log file system. *)

From S2P Require Import Prelude CString Kernel Utils Blacklist Logger Syscall Stdio Client Sessions LogFs LogPath.

(** What the programs find around them: the entry of the user in the password file
    and the login name, the bytes that follow a string literal and the frame of
    [main], the registers that a call with too few arguments leaves to the kernel,
    and the stack where [open.c] keeps its buffer. *)
Class UserEnv := {
  pw_name : option buf;
  login : option buf;
  after_literal : buf → buf;
  frame : buf;
  stray_int : Z;
  stray_ptr : user_ptr;
  open_frame : buf;
}.

Definition FRAME_SIZE : nat := 256.
Arguments FRAME_SIZE : simpl never.

(** The files as [open.c] uses them: the bytes of a file opened for update, and the
    result of writing them back. *)
Class Files (S : Type) := {
  fopen_update : buf → S → option buf;
  file_store : buf → buf → S → bool * S;
}.

Section programs.
Context {S : Type} `{SY : !Sys S} `{LC : Libc} `{UE : UserEnv}.

(** [sprintf(file_string, ...)]: the array with the text, followed by the rest of
    the stack. *)
Definition frame_string (s : buf) : U S buf :=
  b ← u_opt Overrun (sprintf_at (take FRAME_SIZE frame) 0 s);
  mret (b ++ drop FRAME_SIZE frame).

(** A string literal, as the kernel reads it. *)
Definition literal (s : buf) : user_ptr := s ++ NUL :: after_literal s.

(** [if (ret == -1) { perror("..."); error_flag = 1; }] *)
Definition check_ret (ret error_flag : Z) : U S Z :=
  if decide (ret = -1)%Z then perror (lit "...: ") ;; mret 1%Z else mret error_flag.

(** *** reference-monitor/user/user.c *)

Definition add_user : U S Z :=
  match pw_name with
  | None => msg ← errno_text; puts msg ;; mret (-1)%Z
  | Some _ =>
      file_string ← frame_string (lit "/home/stack1/Desktop/rf/");
      r ← syscall ADD_TO_BLACKLIST [APtr file_string; APtr (literal (lit "pippo"))];
      check_ret r.1 0
  end.

(** *** reference-monitor/user/remove.c *)

(** The address 1 that the program gives for the buffer of the list. *)
Definition address_one : arg := AOut 0.

Definition rf_path (user : buf) : buf := lit "/home/" ++ user ++ lit "/Desktop/rf/".

Definition remove_user : U S Z :=
  name ← u_opt NullDeref login;
  file_string ← frame_string (rf_path name);
  r ← syscall REMOVE_FROM_BLACKLIST [APtr file_string; APtr (literal (lit "1234"))];
  error_flag ← check_ret r.1 0;
  r ← syscall PRINT_BLACKLIST [address_one; AInt stray_int];
  error_flag ← check_ret r.1 error_flag;
  r ← syscall GET_BLACKLIST_SIZE [AInt 1];
  error_flag ← check_ret r.1 error_flag;
  puts (lit "Blacklist size " ++ dec r.1) ;;
  mret error_flag.

(** *** syscall-table-discoverer/user/user.c *)

Definition discoverer_user : U S Z :=
  _ ← syscall 134 [AInt 1; APtr stray_ptr]; mret 0%Z.

(** *** reference-monitor/user/open.c *)

Definition READ_BUFFER : nat := 16.
Definition TEMP_FILE : buf := lit "/home/stack1/Desktop/temp.txt".

Context `{FL : !Files S}.

Definition fopen (path : buf) : U S (option buf) := λ p, inr (fopen_update path (p_sys p), p).
Definition store_file (path new : buf) : U S bool := λ p,
  let '(ok, s) := file_store path new (p_sys p) in inr (ok, with_sys s p).

(** The four bytes go to the buffer of the stream; [fread] of at least one byte
    stores them first and reads on from there, [fclose] stores what is not stored
    yet.  The length of the read is [strlen] of an array that holds nothing yet. *)
Definition open_user : U S Z :=
  fp ← fopen TEMP_FILE;
  match fp with
  | None => puts (lit "Couldn't open file") ;; mret 0%Z
  | Some old =>
      let text := lit "Ciao" in
      let new := text ++ drop (length text) old in
      n ← u_opt Overrun (strlen open_frame);
      stored ← (if decide (n = 0) then mret false else store_file TEMP_FILE new);
      let got := if stored : bool then take n (drop (length text) new) else [] in
      read_buffer ← u_opt Overrun (write_at (take READ_BUFFER open_frame) 0 got);
      s ← text_of (read_buffer ++ drop READ_BUFFER open_frame);
      puts (lit "Char read is " ++ s) ;;
      puts (lit "Done") ;;
      (if stored then mret true else store_file TEMP_FILE new) ;;
      mret 0%Z
  end.
End programs.

(** *** log-filesystem/user.c *)

(** The directory the image is mounted on (the Makefile of the file system). *)
Definition MOUNT_DIR : buf := lit "/opt/mount/".

(** The system call [open(path, O_WRONLY)]: a file descriptor or a negative error. *)
Class OpenCall := { open_call : buf → vfs → Z * vfs }.

(** A name of the mounted directory that the lookup operation of the file system does
    not find is a file that does not exist. *)
Class OpenLaws `{FK : FsKernel} `{OC : OpenCall} : Prop := {
  open_missing name v s : fs_root (v_fs v) = true → slash ∉ name →
    onefilefs_lookup name (v_fs v) = inr (LNone, s) →
    open_call (MOUNT_DIR ++ name) v = ((- ENOENT)%Z, mk_vfs s (v_dentry v));
}.

Section log_user.
Context `{FK : FsKernel} `{OC : OpenCall} `{LC : Libc}.

Definition FILENAME : buf := lit "/opt/mount/ref-monitor-log.txt".
Definition LOG_MESSAGE : buf := line (lit "Questo è un messaggio di log.").

(** [open(path, O_WRONLY)] and [write] on the log file system: -1 and errno on an
    error. *)
Definition u_result (r : fault + Z * vfs) (p : proc vfs) : stop + Z * proc vfs :=
  match r with
  | inl f => inl (Panic f)
  | inr (z, v) =>
      if decide (-4095 ≤ z ≤ -1)%Z then inr ((-1)%Z, with_errno (- z) (with_sys v p))
      else inr (int32 z, with_sys v p)
  end.
Definition u_open (path : buf) : U vfs Z := λ p, u_result (inr (open_call path (p_sys p))) p.
Definition u_write (data : buf) : U vfs Z := λ p,
  u_result (match onefile_write data (length data) (v_fs (p_sys p)) with
            | inl f => inl f
            | inr (z, s) => inr (z, mk_vfs s (v_dentry (p_sys p)))
            end) p.

Definition log_user_to (filename : buf) : U vfs Z :=
  fd ← u_open filename;
  if decide (fd < 0)%Z then perror (lit "Errore nell'apertura del file: ") ;; mret EXIT_FAILURE else
  ret ← u_write LOG_MESSAGE;
  if decide (ret < 0)%Z then perror (lit "Errore nella scrittura nel file: ") ;; mret EXIT_FAILURE else
  puts (lit "Messaggio di log scritto con successo in " ++ filename) ;;
  mret 0%Z.

Definition log_user : U vfs Z := log_user_to FILENAME.
End log_user.

(** ** Runs *)

Section runs.
Context {S : Type} `{SY : !Sys S} `{LC : Libc} `{UE : UserEnv} `{MS : !MonitorSpec S}.

Lemma frame_string_run s (p : proc S) :
  FRAME_SIZE ≤ length frame → no_nul s → length s < FRAME_SIZE →
  ∃ b, frame_string s p = inr (b, p) ∧ user_path b = Some s.
Proof.
  intros Hf Hs Hl. eexists. split.
  - unfold frame_string, sprintf_at, write_at. rewrite decide_True by (rewrite length_take, length_app; change (length [NUL]) with 1; lia).
    reflexivity.
  - cbn [take app]. rewrite <- !app_assoc. apply user_path_at; [done|]. unfold FRAME_SIZE, PATH_MAX in *. lia.
Qed.

Lemma wp_check_ret ret flag Q (p : proc S) :
  (∀ q, p_sys q = p_sys p → Q (if decide (ret = -1)%Z then 1%Z else flag) q) → wp (check_ret ret flag) Q p.
Proof.
  intros HQ. unfold check_ret. case_decide; [|by apply wp_ret, HQ].
  apply wp_bind. unfold perror. apply wp_bind, wp_errno_text. intros m q [_ Hs].
  apply wp_eprintf. intros q' [_ Hs']. apply wp_ret, HQ. congruence.
Qed.

(** A call and the test of its result. *)
Lemma wp_checked {A} nr args z out s flag (f : Z → Z → U S A) Q (p : proc S) :
  sys_call nr args (p_sys p) = inr ((z, out), s) →
  (∀ ret q, p_sys q = s → (ret = -1 ↔ -4095 ≤ z ≤ -1 ∨ int32 z = -1)%Z →
     wp (f ret (if decide (ret = -1)%Z then 1%Z else flag)) Q q) →
  wp (r ← syscall nr args; error_flag ← check_ret r.1 flag; f r.1 error_flag) Q p.
Proof.
  intros Hc HQ. apply wp_bind. unfold wp at 1, syscall. rewrite Hc.
  destruct (decide (-4095 ≤ z ≤ -1)%Z) as [Hz|Hz]; (eexists _, _; split; [reflexivity|]); cbn [fst];
    apply wp_bind, wp_check_ret; intros q Hq; (apply HQ; [exact Hq|lia]).
Qed.
End runs.

Section log_runs.
Context `{FK : FsKernel} `{OC : OpenCall} `{OL : !OpenLaws} `{LC : Libc}.

(** A name that is not the one of the log file. *)
Lemma u_open_missing (p : proc vfs) :
  fs_root (v_fs (p_sys p)) = true → u_open FILENAME p = inr ((-1)%Z, with_errno ENOENT p).
Proof.
  intros Hroot. unfold u_open. change FILENAME with (MOUNT_DIR ++ lit "ref-monitor-log.txt").
  rewrite (open_missing _ _ (v_fs (p_sys p))); [|done|by compute_done|].
  - destruct p as [i o e n m [s d]]. reflexivity.
  - unfold onefilefs_lookup. erewrite FS_bind_inr by reflexivity. by rewrite decide_False by done.
Qed.
End log_runs.

(** ** Properties *)

Section user_properties.
Context {S : Type} `{SY : !Sys S} `{LC : Libc} `{UE : UserEnv} `{MS : !MonitorSpec S}.

(** C36. [user.c] adds the path of its directory when the monitor can be reconfigured,
    "pippo" is the password, it runs as root and the path is not there, and exits
    with 0 exactly then; otherwise it changes nothing and exits with 1.  The user is
    in the password file, and the system keeps the promise of the monitor. *)
Theorem add_user_session (p : proc S) st l :
  let k := lit "/home/stack1/Desktop/rf/" in
  let pw := lit "pippo" in
  monitor (p_sys p) st l → is_Some pw_name → FRAME_SIZE ≤ length frame → PASSW_LEN ≤ length (literal pw) →
  ∃ p', add_user p = inr (if decide (2 ≤ st ∧ accepts pw = true ∧ root = true ∧ k ∉ l)%Z then 0%Z else 1%Z, p') ∧
    monitor (p_sys p') st (add_paths accepts root st l k pw).
Proof.
  intros k pw Hm [name Hname] Hf Hpw.
  set (z := if decide (2 ≤ st ∧ accepts pw = true ∧ root = true ∧ k ∉ l)%Z then 0%Z else 1%Z).
  cut (wp add_user (λ a q, a = z ∧ monitor (p_sys q) st (add_paths accepts root st l k pw)) p).
  { intros (a & p' & Hr & -> & Hm'). by exists p'. }
  unfold add_user. rewrite Hname. fold k.
  destruct (frame_string_run k p Hf) as (b & Hrun & Hb); [by compute_done|vm_compute; lia|].
  apply wp_bind. exists b, p. split; [exact Hrun|].
  destruct (monitor_add _ st l b k (literal pw) pw Hm Hb Hpw) as (s' & Hc & Hm');
    [by apply password_at; [compute_done|vm_compute; lia]|].
  cut (wp (r ← syscall ADD_TO_BLACKLIST [APtr b; APtr (literal pw)]; error_flag ← check_ret r.1 0; mret error_flag)
    (λ a q, a = z ∧ monitor (p_sys q) st (add_paths accepts root st l k pw)) p).
  { intros (a & q & Hr & HQ). exists a, q. split; [|done]. rewrite <- Hr. unfold mbind, U_bind, mret, U_ret.
    destruct (syscall _ _ p) as [|[r q1]]; [done|]. by destruct (check_ret r.1 0 q1) as [|[]]. }
  eapply (wp_checked _ _ _ _ _ _ (λ _ e, mret e)); [exact Hc|]. intros ret q Hq Hret. apply wp_ret.
  split; [|by rewrite Hq]. unfold z. clear -Hret. unfold add_result, privileged, EPERM, EACCES, EEXIST in Hret.
  destruct (decide (st < 2)%Z), (accepts pw), root, (decide (k ∈ l)); repeat case_decide; naive_solver lia.
Qed.

(** [remove.c] removes the directory of its user when the monitor can be
    reconfigured, "1234" is the password and it runs as root; but it then asks for
    the list at the address 1 with whatever number the register holds, so unless
    that number is the counter the second call fails and the program exits with 1
    even when the removal succeeded. *)
Theorem remove_user_session (p : proc S) st l name :
  let k := rf_path name in
  let pw := lit "1234" in
  monitor (p_sys p) st l → login = Some name → no_nul name → length k < FRAME_SIZE →
  FRAME_SIZE ≤ length frame → PASSW_LEN ≤ length (literal pw) →
  ∃ u s1, user_path u = Some k ∧
    sys_call REMOVE_FROM_BLACKLIST [APtr u; APtr (literal pw)] (p_sys p) =
      inr ((remove_result accepts root st l k pw, []), s1) ∧
    monitor s1 st (remove_paths accepts root st l k pw) ∧
    (int32 stray_int ≠ counter s1 → ∃ p', remove_user p = inr (1%Z, p') ∧ p_sys p' = s1).
Proof.
  intros k pw Hm Hlog Hnn Hlen Hf Hpw. assert (no_nul k) as Hk.
  { unfold k, rf_path. repeat apply no_nul_app; [by compute_done|done|by compute_done]. }
  destruct (frame_string_run k p Hf Hk Hlen) as (b & Hrun & Hb).
  destruct (monitor_remove _ st l b k (literal pw) pw Hm Hb Hpw) as (s1 & Hc & Hm1);
    [by apply password_at; [compute_done|vm_compute; lia]|].
  exists b, s1. split; [done|]. split; [done|]. split; [done|]. intros Hst.
  cut (wp remove_user (λ a q, a = 1%Z ∧ p_sys q = s1) p).
  { intros (a & p' & Hr & -> & Hs). by exists p'. }
  unfold remove_user. apply wp_bind. eapply wp_opt; [exact Hlog|]. fold k. apply wp_bind. exists b, p.
  split; [exact Hrun|]. eapply (wp_checked _ _ _ _ _ _ (λ _ e, _)); [exact Hc|]. intros r1 q1 Hq1 _.
  eapply (wp_checked _ _ _ _ _ _ (λ _ e, _)); [eapply monitor_print; rewrite Hq1; done|]. intros r2 q2 Hq2 Hr2.
  rewrite decide_True by lia.
  eapply (wp_checked _ _ _ _ _ _ (λ r e, puts (lit "Blacklist size " ++ dec r) ;; mret e)); [eapply monitor_size; by rewrite Hq2, Hq1|]. intros r3 q3 Hq3 _.
  apply wp_bind, wp_puts. intros q4 [_ Hq4]. apply wp_ret. split; [by case_decide|congruence].
Qed.
End user_properties.

Section open_user_properties.
Context {S : Type} `{SY : !Sys S} `{LC : Libc} `{UE : UserEnv} `{FL : !Files S}.

(** [open.c] exits with 0 and touches nothing when the file cannot be opened; when it
    can, the number of bytes it reads into its 16 is [strlen] of what the stack held,
    so more than 16 bytes there and in the file overrun the array. *)
Theorem open_user_runs (p : proc S) :
  (fopen_update TEMP_FILE (p_sys p) = None →
   ∃ p', open_user p = inr (0%Z, p') ∧ p_sys p' = p_sys p) ∧
  (∀ old n, fopen_update TEMP_FILE (p_sys p) = Some old → strlen open_frame = Some n →
   (file_store TEMP_FILE (lit "Ciao" ++ drop 4 old) (p_sys p)).1 = true →
   READ_BUFFER < n → READ_BUFFER < length (drop 4 old) → open_user p = inl (Fault Overrun)).
Proof.
  unfold open_user, fopen. split.
  - intros Hf. erewrite U_bind_inr by reflexivity. rewrite Hf. by eexists.
  - intros old n Hf Hn Hst Hlt Hlen. erewrite U_bind_inr by reflexivity. rewrite Hf. cbv zeta. rewrite Hn.
    erewrite U_bind_inr by reflexivity. rewrite decide_False by lia. change (length (lit "Ciao")) with 4.
    unfold store_file. destruct (file_store _ _ _) as [ok s'] eqn:Hs. simpl in Hst. subst ok.
    erewrite U_bind_inr by (rewrite Hs; reflexivity). cbv iota.
    assert (write_at (take READ_BUFFER open_frame) 0 (take n (drop 4 (lit "Ciao" ++ drop 4 old))) = None) as ->; [|done].
    rewrite drop_app_length' by done. unfold write_at. rewrite decide_False; [done|].
    rewrite !length_take. unfold READ_BUFFER in *. lia.
Qed.
End open_user_properties.

Section log_user_properties.
Context `{FK : FsKernel} `{OC : OpenCall} `{OL : !OpenLaws} `{LC : Libc}.

(** The test program of the log file system names a file that does not exist
    there, so on every mounted file system it exits with failure and ENOENT and writes
    nothing; with a name that opens the log file it appends its message and exits
    with 0. *)
Theorem log_user_misses_file (p : proc vfs) :
  fs_root (v_fs (p_sys p)) = true →
  (∃ p', log_user p = inr (EXIT_FAILURE, p') ∧ p_sys p' = p_sys p ∧ p_errno p' = ENOENT) ∧
  (∀ filename fd sz, let n := length LOG_MESSAGE in let sz' := sz + pad sz n + n in
   open_call filename (p_sys p) = (fd, p_sys p) → (0 ≤ fd < 2 ^ 31)%Z → mounted (v_fs (p_sys p)) sz →
   fs_kmalloc_ok n = true → is_Some (c_str (LOG_MESSAGE ++ heap_after n)) →
   2 * BLOCK + sz' ≤ length (fs_dev (v_fs (p_sys p))) →
   ∃ p' gap, log_user_to filename p = inr (0%Z, p') ∧ length gap = pad sz n ∧
     content (v_fs (p_sys p')) sz' = content (v_fs (p_sys p)) sz ++ gap ++ LOG_MESSAGE).
Proof.
  intros Hroot. split.
  - unfold log_user, log_user_to. erewrite U_bind_inr by (by apply u_open_missing).
    rewrite decide_True by done. unfold perror. eexists. split; [reflexivity|]. done.
  - intros filename fd sz n sz' Hop Hfd Hmt Hk Ha Hroom.
    destruct (write_run (v_fs (p_sys p)) sz LOG_MESSAGE) as (s' & Hw & _ & Hc & _);
      [done|by vm_compute; lia|done..|]. fold n in Hw, Hc.
    exists (with_out (line (lit "Messaggio di log scritto con successo in " ++ filename))
      (with_sys (mk_vfs s' (v_dentry (p_sys p))) p)). eexists. split; [|split; [|exact Hc]].
    + unfold log_user_to. erewrite U_bind_inr.
      2:{ unfold u_open. rewrite Hop. unfold u_result. rewrite decide_False by lia. reflexivity. }
      rewrite int32_small, decide_False by lia. erewrite U_bind_inr.
      2:{ unfold u_write. fold n. cbn [with_sys p_sys]. rewrite Hw. reflexivity. }
      by rewrite decide_False.
    + apply length_slice. unfold sz' in Hroom. lia.
Qed.
End log_user_properties.
