(* ===== verification/Discoverer.v ===== *)
(** * The system call table discoverer (syscall-table-discoverer/)

    The module that finds the system call table: the walk of the page tables
    (lib/vtpmo.c), the pattern search in kernel memory and the list of free
    entries (usctm.c).  The machine is a parameter: the page tables in physical
    memory and the words of the kernel address space. *)

From S2P Require Import Prelude Kernel Scth.

(** ** The machine *)

(** [cr3], the word [i] of the page table at a physical address, and the word at
    a virtual address ([None]: the access faults). *)
Class Machine := {
  cr3 : Z;
  phys : Z → Z → Z;
  vmem : Z → option Z;
}.

(** ** vtpmo.c *)

Definition ADDRESS_MASK : Z := 0xfffffffffffff000.
Definition PT_ADDRESS_MASK : Z := 0x7ffffffffffff000.
Definition VALID : Z := 0x1.
Definition LH_MAPPING : Z := 0x80.
Definition NO_MAP : Z := -1.

Definition PML4 (addr : Z) : Z := Z.land (Z.shiftr addr 39) 0x1ff.
Definition PDP (addr : Z) : Z := Z.land (Z.shiftr addr 30) 0x1ff.
Definition PDE (addr : Z) : Z := Z.land (Z.shiftr addr 21) 0x1ff.
Definition PTE (addr : Z) : Z := Z.land (Z.shiftr addr 12) 0x1ff.

Definition has (entry bit : Z) : bool := negb (Z.land entry bit =? 0)%Z.

Section vtpmo.
Context `{MC : Machine}.

Definition sys_vtpmo (vaddr : Z) : Z :=
  let pml4 := Z.land cr3 ADDRESS_MASK in
  if negb (has (phys pml4 (PML4 vaddr)) VALID) then NO_MAP else
  let pdp := Z.land (phys pml4 (PML4 vaddr)) PT_ADDRESS_MASK in
  if negb (has (phys pdp (PDP vaddr)) VALID) then NO_MAP else
  let pde := Z.land (phys pdp (PDP vaddr)) PT_ADDRESS_MASK in
  if negb (has (phys pde (PDE vaddr)) VALID) then NO_MAP else
  if has (phys pde (PDE vaddr)) LH_MAPPING then
    let frame_addr := Z.land (phys pde (PDE vaddr)) PT_ADDRESS_MASK in
    int32 (Z.shiftr frame_addr 12)
  else
  let pte := Z.land (phys pde (PDE vaddr)) PT_ADDRESS_MASK in
  if negb (has (phys pte (PTE vaddr)) VALID) then NO_MAP else
  let frame_addr := Z.land (phys pte (PTE vaddr)) PT_ADDRESS_MASK in
  int32 (Z.shiftr frame_addr 12).
End vtpmo.

(** ** usctm.c *)

Definition START : Z := 0xffffffff00000000.
Definition MAX_ADDR : Z := 0xfffffffffff00000.
Definition FIRST_NI_SYSCALL : Z := 134.
Definition SECOND_NI_SYSCALL : Z := 174.
Definition THIRD_NI_SYSCALL : Z := 182.
Definition FOURTH_NI_SYSCALL : Z := 183.
Definition FIFTH_NI_SYSCALL : Z := 214.
Definition SIXTH_NI_SYSCALL : Z := 215.
Definition SEVENTH_NI_SYSCALL : Z := 236.
Definition ENTRIES_TO_EXPLORE : nat := 256.
Definition MAX_FREE : nat := 15.
Definition PAGE : Z := 4096.

(** The module's variables. *)
Record usctm := mk_usctm {
  hacked_ni_syscall : Z;
  hacked_syscall_tbl : Z;
  sys_call_table_address : Z;
  sys_ni_syscall_address : Z;
  free_entries : list Z;
}.

Section search.
Context `{MC : Machine}.

(** [addr[i]] *)
Definition word (addr i : Z) : option Z := vmem (uint64 (addr + 8 * i)).

(** The loop from [i] on, [n] entries left. *)
Fixpoint good_area_from (addr i : Z) (n : nat) : option bool :=
  match n with
  | O => Some true
  | S n' =>
      a ← word addr i;
      b ← word addr FIRST_NI_SYSCALL;
      if decide (a = b) then Some false else good_area_from addr (i + 1) n'
  end.

Definition good_area (addr : Z) : option bool := good_area_from addr 1 133.

(** [addr[FIRST_NI_SYSCALL] == addr[k]] for the entries [ks], left to right. *)
Fixpoint same_as_first (addr : Z) (ks : list Z) : option bool :=
  match ks with
  | [] => Some true
  | k :: ks' =>
      a ← word addr FIRST_NI_SYSCALL;
      b ← word addr k;
      if decide (a = b) then same_as_first addr ks' else Some false
  end.

Definition other_ni : list Z :=
  [SECOND_NI_SYSCALL; THIRD_NI_SYSCALL; FOURTH_NI_SYSCALL; FIFTH_NI_SYSCALL; SIXTH_NI_SYSCALL;
   SEVENTH_NI_SYSCALL].

(** The condition of [validate_page]. *)
Definition pattern (addr : Z) : option bool :=
  a ← word addr FIRST_NI_SYSCALL;
  if negb (Z.land a 0x3 =? 0)%Z then Some false else
  if decide (a = 0%Z) then Some false else
  if negb (0xffffffff00000000 <? a)%Z then Some false else
  same ← same_as_first addr other_ni;
  if same : bool then good_area addr else Some false.

(** The loop of [validate_page] from offset [i] on, [n] offsets left: the address
    of the table and of [sys_ni_syscall], [None] when there is none in the page;
    the outer [None] is a fault. *)
Fixpoint validate_from (page i : Z) (n : nat) : option (option (Z * Z)) :=
  match n with
  | O => Some None
  | S n' =>
      let new_page := uint64 (page + i + SEVENTH_NI_SYSCALL * 8) in
      if decide (uint64 (page + PAGE) = Z.land new_page ADDRESS_MASK ∧ sys_vtpmo new_page = NO_MAP)
      then Some None else
      let addr := uint64 (page + i) in
      found ← pattern addr;
      if found : bool then ni ← word addr FIRST_NI_SYSCALL; Some (Some (addr, ni))
      else validate_from page (i + 8) n'
  end.

Definition validate_page (addr : Z) : option (option (Z * Z)) := validate_from addr 0 512.

(** The loop of [syscall_table_finder] from [k] on, [n] pages left. *)
Fixpoint finder_from (k : Z) (n : nat) (st : usctm) : option usctm :=
  match n with
  | O => Some st
  | S n' =>
      if decide (sys_vtpmo k ≠ NO_MAP) then
        r ← validate_page k;
        match r with
        | Some (tbl, ni) => Some (mk_usctm ni tbl tbl ni (free_entries st))
        | None => finder_from (k + 4096) n' st
        end
      else finder_from (k + 4096) n' st
  end.

Definition pages_to_search : N := Z.to_N ((MAX_ADDR - START) / 4096).

Definition syscall_table_finder (st : usctm) : option usctm :=
  finder_from START (N.to_nat pages_to_search) st.

(** The loop on the free entries from [i] on, [n] entries left; [j] entries of
    the array are filled. *)
Fixpoint free_from (tbl ni i : Z) (n j : nat) (free : list Z) : option (list Z) :=
  match n with
  | O => Some free
  | S n' =>
      a ← word tbl i;
      if decide (a = ni) then
        let free := <[j := i]> free in
        if decide (MAX_FREE ≤ S j) then Some free else free_from tbl ni (i + 1) n' (S j) free
      else free_from tbl ni (i + 1) n' j free
  end.

(** [init_module] after the search. *)
Definition publish (st : usctm) : option (Z * usctm) :=
  if decide (hacked_syscall_tbl st = 0%Z) then Some ((-1)%Z, st) else
  l ← free_from (hacked_syscall_tbl st) (hacked_ni_syscall st) 0 ENTRIES_TO_EXPLORE 0 (free_entries st);
  Some (0%Z, mk_usctm (hacked_ni_syscall st) (hacked_syscall_tbl st) (sys_call_table_address st)
               (sys_ni_syscall_address st) l).

Definition usctm_init_module (st : usctm) : option (Z * usctm) :=
  st ← syscall_table_finder st; publish st.
End search.

(** The variables as the module is loaded. *)
Definition usctm_start : usctm := mk_usctm 0 0 0 0 (replicate MAX_FREE 0%Z).

(** ** The hardware walk *)

(** Bits 51 to 12 of an entry, and bits 51 to 21 for a page of 2 MiB and 51 to 30
    for a page of 1 GiB, are the address of a table or of a page. *)
Definition HW_MASK : Z := 0x000ffffffffff000.
Definition HW_MASK_2M : Z := 0x000fffffffe00000.
Definition HW_MASK_1G : Z := 0x000fffffc0000000.

Section hardware.
Context `{MC : Machine}.

Definition pml4_entry (v : Z) : Z := phys (Z.land cr3 HW_MASK) (PML4 v).
Definition pdp_entry (v : Z) : Z := phys (Z.land (pml4_entry v) HW_MASK) (PDP v).
Definition pde_entry (v : Z) : Z := phys (Z.land (pdp_entry v) HW_MASK) (PDE v).
Definition pte_entry (v : Z) : Z := phys (Z.land (pde_entry v) HW_MASK) (PTE v).

(** The frame of the address [v] (Intel SDM, volume 3, 4-level paging): the frame of
    its page and, in a large page, the part of the address above bit 12 that is the
    offset.  [None]: an access faults. *)
Definition hw_walk (v : Z) : option Z :=
  if negb (has (pml4_entry v) VALID) then None else
  if negb (has (pdp_entry v) VALID) then None else
  if has (pdp_entry v) LH_MAPPING then
    Some (Z.shiftr (Z.land (pdp_entry v) HW_MASK_1G) 12 + (512 * PDE v + PTE v))%Z else
  if negb (has (pde_entry v) VALID) then None else
  if has (pde_entry v) LH_MAPPING then
    Some (Z.shiftr (Z.land (pde_entry v) HW_MASK_2M) 12 + PTE v)%Z else
  if negb (has (pte_entry v) VALID) then None else
  Some (Z.shiftr (Z.land (pte_entry v) HW_MASK) 12).

(** [v] is mapped by a page of 2 MiB. *)
Definition in_large_page (v : Z) : bool :=
  has (pml4_entry v) VALID && has (pdp_entry v) VALID && has (pde_entry v) VALID && has (pde_entry v) LH_MAPPING.

(** A valid entry with an address below 8 TiB and bits 52 to 62 clear. *)
Definition plain_entry (e : Z) : Prop := Z.land e 0x7ffff80000000000 = 0%Z.

(** The entries of the walk of [v]: plain, no page of 1 GiB, and a page of 2 MiB
    is aligned (bit 12, the PAT bit, included). *)
Definition plain_path (v : Z) : Prop :=
  Z.land cr3 0xfff0000000000000 = 0%Z ∧
  (has (pml4_entry v) VALID = true → plain_entry (pml4_entry v) ∧
  (has (pdp_entry v) VALID = true →
     plain_entry (pdp_entry v) ∧ has (pdp_entry v) LH_MAPPING = false ∧
  (has (pde_entry v) VALID = true → plain_entry (pde_entry v) ∧
  if has (pde_entry v) LH_MAPPING then Z.land (pde_entry v) 0x1ff000 = 0%Z
  else has (pte_entry v) VALID = true → plain_entry (pte_entry v)))).
End hardware.

(** What the discoverer relies on, for the last 4 GiB of the address space, the
    part that is searched (its addresses are canonical): a word is readable exactly
    when its page is mapped, and the entries that map it are plain. *)
Class MachineLaws `{MC : Machine} : Prop := {
  vmem_mapped v : (START ≤ v < 2 ^ 64)%Z → (v mod 8 = 0)%Z → is_Some (vmem v) ↔ is_Some (hw_walk v);
  kernel_plain v : (START ≤ v < 2 ^ 64)%Z → plain_path v;
}.

(** ** The walk *)

Lemma land_masks e m x y : m = Z.lor x y → Z.land e y = 0%Z → Z.land e m = Z.land e x.
Proof. intros -> Hy. by rewrite Z.land_lor_distr_r, Hy, Z.lor_0_r. Qed.

Lemma land_range e m k :
  (0 ≤ k)%Z → Z.land m (Z.ones k) = m → (0 ≤ Z.land e m < 2 ^ k)%Z.
Proof.
  intros Hk Hm. rewrite <- Hm, Z.land_assoc, Z.land_ones by done. apply Z.mod_pos_bound. lia.
Qed.

Lemma plain_next e : plain_entry e → Z.land e PT_ADDRESS_MASK = Z.land e HW_MASK.
Proof.
  intros He. apply (land_masks _ _ _ 0x7ff0000000000000); [done|].
  transitivity (Z.land (Z.land e 0x7ffff80000000000) 0x7ff0000000000000); [by rewrite <- Z.land_assoc|].
  by rewrite He.
Qed.

Lemma plain_frame e :
  plain_entry e →
  int32 (Z.shiftr (Z.land e PT_ADDRESS_MASK) 12) = Z.shiftr (Z.land e HW_MASK) 12 ∧
  (0 ≤ Z.shiftr (Z.land e HW_MASK) 12)%Z.
Proof.
  intros He. rewrite (plain_next e He).
  rewrite (land_masks e HW_MASK 0x7fffffff000 0xff80000000000); [|done|].
  2:{ transitivity (Z.land (Z.land e 0x7ffff80000000000) 0xff80000000000).
      { by rewrite <- Z.land_assoc. } by rewrite He. }
  pose proof (land_range e 0x7fffffff000 43 ltac:(lia) eq_refl) as Hr.
  rewrite Z.shiftr_div_pow2 by lia.
  assert (0 ≤ Z.land e 8796093018112 / 2 ^ 12 < 2 ^ 31)%Z by (split; [apply Z.div_pos|apply Z.div_lt_upper_bound]; lia).
  split; [apply int32_small|]; lia.
Qed.

Section walk.
Context `{MC : Machine}.

(** What [sys_vtpmo] makes of the frame of [v]: in a page of 2 MiB it does not add
    the offset, so it gives the first frame of the page. *)
Definition page_frame (v : Z) (r : option Z) : Z :=
  match r with
  | Some f => if in_large_page v then (f - PTE v)%Z else f
  | None => NO_MAP
  end.

Lemma sys_vtpmo_walk v :
  plain_path v →
  sys_vtpmo v = page_frame v (hw_walk v) ∧ (∀ f, hw_walk v = Some f → 0 ≤ page_frame v (Some f))%Z.
Proof.
  intros (Hc & H4). unfold sys_vtpmo, hw_walk, page_frame, in_large_page. cbv zeta.
  rewrite (land_masks cr3 ADDRESS_MASK HW_MASK 0xfff0000000000000) by done. fold (pml4_entry v).
  destruct (has (pml4_entry v) VALID) eqn:E4; [|by split]. destruct H4 as (P4 & H3); [done|].
  cbn [negb]. rewrite (plain_next _ P4). fold (pdp_entry v).
  destruct (has (pdp_entry v) VALID) eqn:E3; [|by split].
  destruct H3 as (P3 & L3 & H2); [done|]. cbn [negb]. rewrite L3, (plain_next _ P3). fold (pde_entry v).
  destruct (has (pde_entry v) VALID) eqn:E2; [|by split]. destruct H2 as (P2 & H1); [done|].
  cbn [negb]. destruct (plain_frame _ P2) as [F2 N2]. rewrite F2, (plain_next _ P2). fold (pte_entry v).
  destruct (has (pde_entry v) LH_MAPPING) eqn:L2; cbn [andb].
  { rewrite (land_masks (pde_entry v) HW_MASK HW_MASK_2M 0x1ff000) in * by done.
    split; [lia|]. intros f [= <-]. lia. }
  destruct (has (pte_entry v) VALID) eqn:E1; [|by split]. cbn [negb].
  destruct (plain_frame _ (H1 eq_refl)) as [F1 N1]. rewrite F1. split; [done|]. by intros f [= <-].
Qed.

Lemma sys_vtpmo_no_map v : plain_path v → sys_vtpmo v = NO_MAP ↔ hw_walk v = None.
Proof.
  intros Hp. destruct (sys_vtpmo_walk v Hp) as [-> Hf]. destruct (hw_walk v) as [f|]; [|done].
  specialize (Hf f eq_refl). split; [|done]. intros He. rewrite He in Hf. unfold NO_MAP in Hf. lia.
Qed.

(** The walk depends on the page only. *)
Lemma hw_walk_page v v' : (v / 4096 = v' / 4096)%Z → hw_walk v = hw_walk v'.
Proof.
  intros He. assert (Z.shiftr v 12 = Z.shiftr v' 12) as Hs by by rewrite !Z.shiftr_div_pow2 by lia.
  assert (∀ k, 12 ≤ k → Z.shiftr v k = Z.shiftr v' k)%Z as Hk.
  { intros k Hk. replace k with (12 + (k - 12))%Z by lia.
    by rewrite <- !Z.shiftr_shiftr, Hs by lia. }
  assert (PML4 v = PML4 v' ∧ PDP v = PDP v' ∧ PDE v = PDE v' ∧ PTE v = PTE v') as (H4 & H3 & H2 & H1).
  { unfold PML4, PDP, PDE, PTE. by rewrite !Hk by lia. }
  unfold hw_walk, pte_entry, pde_entry, pdp_entry, pml4_entry. by rewrite H1, H2, H3, H4.
Qed.
End walk.

(** ** The search *)

Section tables.
Context `{MC : Machine}.

(** A system call table at [addr]: the entries the search compares hold the
    address [ni], a multiple of 4 above [START], and no entry from 1 to 133 does. *)
Definition is_table (addr ni : Z) : Prop :=
  is_Some (word addr 0) ∧ word addr FIRST_NI_SYSCALL = Some ni ∧
  Z.land ni 0x3 = 0%Z ∧ (START < ni)%Z ∧ (∀ k, k ∈ other_ni → word addr k = Some ni) ∧
  ∀ i, (1 ≤ i < FIRST_NI_SYSCALL)%Z → ∃ w, word addr i = Some w ∧ w ≠ ni.

Definition no_table (lo hi : Z) : Prop :=
  ∀ a ni, (lo ≤ a < hi)%Z → (a mod 8 = 0)%Z → ¬ is_table a ni.

Definition readable (addr : Z) : Prop :=
  ∀ k, (0 ≤ k ≤ SEVENTH_NI_SYSCALL)%Z → is_Some (word addr k).

Lemma good_area_from_spec addr ni i n :
  word addr FIRST_NI_SYSCALL = Some ni →
  (∀ k, (i ≤ k < i + Z.of_nat n)%Z → is_Some (word addr k)) →
  ∃ b, good_area_from addr i n = Some b ∧
    (b = true ↔ ∀ k, (i ≤ k < i + Z.of_nat n)%Z → ∃ w, word addr k = Some w ∧ w ≠ ni).
Proof.
  intros Hni. revert i. induction n as [|n IH]; intros i Hr.
  { exists true. split; [done|]. split; [lia|done]. }
  destruct (Hr i) as [w Hw]; [lia|]. cbn [good_area_from]. rewrite Hw, Hni. cbn.
  case_decide as Hd.
  { exists false. split; [done|]. split; [done|]. intros Hall.
    destruct (Hall i) as (w' & Hw' & Hne); [lia|]. congruence. }
  destruct (IH (i + 1)%Z) as (b & Hb & Hiff); [intros k Hk; apply Hr; lia|].
  exists b. split; [done|]. rewrite Hiff. split; intros Hall k Hk.
  - destruct (decide (k = i)) as [->|]; [by exists w|]. apply Hall. lia.
  - apply Hall. lia.
Qed.

Lemma same_as_first_spec addr ni ks :
  word addr FIRST_NI_SYSCALL = Some ni → (∀ k, k ∈ ks → is_Some (word addr k)) →
  ∃ b, same_as_first addr ks = Some b ∧ (b = true ↔ ∀ k, k ∈ ks → word addr k = Some ni).
Proof.
  intros Hni. induction ks as [|k ks IH]; intros Hr.
  { exists true. split; [done|]. split; [|done]. intros _ k Hk. by apply not_elem_of_nil in Hk. }
  destruct (Hr k) as [w Hw]; [by left|]. cbn [same_as_first]. rewrite Hw, Hni. cbn.
  case_decide as Hd.
  - destruct IH as (b & Hb & Hiff); [intros; apply Hr; by right|]. exists b. split; [done|].
    rewrite Hiff. split; intros Hall k'; [|intros; apply Hall; by right].
    intros [->|?]%elem_of_cons; [congruence|by apply Hall].
  - exists false. split; [done|]. split; [done|]. intros Hall. specialize (Hall k ltac:(by left)).
    congruence.
Qed.

Lemma other_ni_range k : k ∈ other_ni → (FIRST_NI_SYSCALL < k ≤ SEVENTH_NI_SYSCALL)%Z.
Proof.
  unfold other_ni. rewrite !elem_of_cons, elem_of_nil. unfold FIRST_NI_SYSCALL, SECOND_NI_SYSCALL,
    THIRD_NI_SYSCALL, FOURTH_NI_SYSCALL, FIFTH_NI_SYSCALL, SIXTH_NI_SYSCALL, SEVENTH_NI_SYSCALL. lia.
Qed.

Lemma pattern_spec addr ni :
  readable addr → word addr FIRST_NI_SYSCALL = Some ni →
  ∃ b, pattern addr = Some b ∧ (b = true ↔ is_table addr ni).
Proof.
  intros Hr Hni. assert (∀ P : Prop, ¬ P → Some false = Some false ∧ (false = true ↔ P)) as Hno.
  { intros P HP. split; [done|]. split; [done|]. intros H. by destruct HP. }
  unfold pattern. rewrite Hni. cbn -[same_as_first good_area].
  destruct (Z.eqb_spec (Z.land ni 0x3) 0) as [H3|H3]; cbn -[same_as_first good_area].
  2:{ exists false. apply Hno. intros (_ & _ & H & _). done. }
  case_decide as H0.
  { exists false. apply Hno. intros (_ & _ & _ & H & _). unfold START in H. lia. }
  change 18446744069414584320%Z with START.
  destruct (Z.ltb_spec START ni) as [Hs|Hs]; cbn -[same_as_first good_area].
  2:{ exists false. apply Hno. intros (_ & _ & _ & H & _). lia. }
  destruct (same_as_first_spec addr ni other_ni Hni) as (b & -> & Hb).
  { intros k Hk%other_ni_range. apply Hr. unfold FIRST_NI_SYSCALL in Hk. lia. }
  cbn -[same_as_first good_area]. destruct b.
  2:{ exists false. apply Hno. intros (_ & _ & _ & _ & H' & _). by apply Hb in H'. }
  destruct (good_area_from_spec addr ni 1 133 Hni) as (b & Hb' & Hiff).
  { intros k Hk. apply Hr. unfold SEVENTH_NI_SYSCALL. lia. }
  exists b. split; [exact Hb'|]. rewrite Hiff. split.
  - intros Hall. split; [apply Hr; unfold SEVENTH_NI_SYSCALL; lia|]. do 3 (split; [done|]).
    split; [by apply Hb|]. intros i Hi. apply Hall. unfold FIRST_NI_SYSCALL in Hi. lia.
  - intros (_ & _ & _ & _ & _ & Hall) k Hk. apply Hall. unfold FIRST_NI_SYSCALL. lia.
Qed.

(** The address of a page. *)
Lemma address_mask v : (0 ≤ v < 2 ^ 64)%Z → Z.land v ADDRESS_MASK = (v / 4096 * 4096)%Z.
Proof.
  intros Hv. change ADDRESS_MASK with (Z.land (Z.ones 64) (Z.lnot (Z.ones 12))).
  rewrite Z.land_assoc, Z.land_ones, Z.mod_small, <- Z.ldiff_land by lia.
  rewrite Z.ldiff_ones_r, Z.shiftr_div_pow2, Z.shiftl_mul_pow2 by lia. done.
Qed.

Context `{ML : !MachineLaws}.

Definition mapped (v : Z) : Prop := is_Some (hw_walk v).

Lemma word_mapped addr k :
  (START ≤ addr + 8 * k < 2 ^ 64)%Z → (addr mod 8 = 0)%Z →
  is_Some (word addr k) ↔ mapped (addr + 8 * k).
Proof.
  intros Hr Hm. unfold word. rewrite uint64_small by (unfold START in Hr; lia). apply vmem_mapped; [done|].
  rewrite Z.mul_comm, Z.mod_add; [done|lia].
Qed.

Lemma mapped_page v v' : (v / 4096 = v' / 4096)%Z → mapped v → mapped v'.
Proof. unfold mapped. by intros ->%hw_walk_page. Qed.

Lemma sys_vtpmo_mapped v : (START ≤ v < 2 ^ 64)%Z → sys_vtpmo v ≠ NO_MAP ↔ mapped v.
Proof.
  intros Hv. rewrite (sys_vtpmo_no_map v (kernel_plain v Hv)). unfold mapped.
  destruct (hw_walk v); split; intros H; (done || by destruct H).
Qed.

(** Offsets in a page, in the range of the search. *)
Section page.
Context (p : Z) (Hp : (START ≤ 4096 * p ∧ 4096 * p < MAX_ADDR)%Z).

Lemma page_of i : (0 ≤ i < 4096)%Z → ((4096 * p + i) / 4096 = p)%Z.
Proof. intros Hi. rewrite Z.mul_comm, Z.div_add_l, Z.div_small; lia. Qed.

Lemma next_page_of i : (4096 ≤ i < 8192)%Z → ((4096 * p + i) / 4096 = p + 1)%Z.
Proof.
  intros Hi. replace (4096 * p + i)%Z with ((p + 1) * 4096 + (i - 4096))%Z by lia.
  rewrite Z.div_add_l, Z.div_small; lia.
Qed.

Lemma offset_aligned i : (i mod 8 = 0)%Z → ((4096 * p + i) mod 8 = 0)%Z.
Proof.
  intros Hi. replace (4096 * p + i)%Z with (i + (512 * p) * 8)%Z by lia.
  by rewrite Z.mod_add.
Qed.

(** The words of a table that starts in a mapped page are readable, when its
    last word is in a mapped page too. *)
Lemma page_readable i :
  (0 ≤ i < 4096)%Z → (i mod 8 = 0)%Z → mapped (4096 * p) → mapped (4096 * p + i + 1888) →
  readable (4096 * p + i).
Proof.
  intros Hi H8 Hm Hm' k Hk. unfold SEVENTH_NI_SYSCALL, START, MAX_ADDR in *.
  apply word_mapped; [unfold START; lia|by apply offset_aligned|].
  destruct (decide (i + 8 * k < 4096)%Z).
  - eapply mapped_page; [|exact Hm]. rewrite <- Z.add_assoc, page_of by lia.
    rewrite <- (Z.add_0_r (4096 * p)) at 1. apply page_of. lia.
  - eapply mapped_page; [|exact Hm']. rewrite <- !Z.add_assoc, !next_page_of by lia. done.
Qed.

Lemma is_table_mapped a ni :
  (4096 * p ≤ a < 4096 * p + 4096)%Z → (a mod 8 = 0)%Z → is_table a ni →
  mapped (4096 * p) ∧ mapped (a + 1888).
Proof.
  unfold START, MAX_ADDR in *. intros Ha H8 (H0 & _ & _ & _ & Ho & _). split.
  - apply word_mapped in H0; [|unfold START; lia|done]. eapply mapped_page; [|exact H0].
    replace (a + 8 * 0)%Z with (4096 * p + (a - 4096 * p))%Z by lia. rewrite page_of by lia.
    symmetry. rewrite <- (Z.add_0_r (4096 * p)). apply page_of. lia.
  - replace (a + 1888)%Z with (a + 8 * SEVENTH_NI_SYSCALL)%Z by (unfold SEVENTH_NI_SYSCALL; lia).
    apply word_mapped; [unfold SEVENTH_NI_SYSCALL, START; lia|done|]. rewrite Ho; [by eexists|].
    unfold other_ni. do 5 apply list_elem_of_further. apply list_elem_of_here.
Qed.

(** The test before the pattern: the table would end in an unmapped page. *)
Lemma second_page_test i :
  (0 ≤ i < 4096)%Z → mapped (4096 * p) →
  (uint64 (4096 * p + PAGE) =
     Z.land (uint64 (4096 * p + i + SEVENTH_NI_SYSCALL * 8)) ADDRESS_MASK ∧
   sys_vtpmo (uint64 (4096 * p + i + SEVENTH_NI_SYSCALL * 8)) = NO_MAP) ↔
  ¬ mapped (4096 * p + i + 1888).
Proof.
  intros Hi Hm. unfold SEVENTH_NI_SYSCALL, PAGE, START, MAX_ADDR in *.
  change (236 * 8)%Z with 1888%Z. rewrite !uint64_small, address_mask by lia.
  rewrite <- (sys_vtpmo_mapped (4096 * p + i + 1888)) by (unfold START; lia).
  destruct (decide (i + 1888 < 4096)%Z) as [Hlt|Hge].
  - rewrite <- Z.add_assoc, page_of by lia. split; [lia|]. intros H. destruct H.
    apply sys_vtpmo_mapped; [unfold START; lia|]. eapply mapped_page; [|exact Hm].
    rewrite page_of by lia. rewrite <- (Z.add_0_r (4096 * p)). apply page_of. lia.
  - rewrite <- Z.add_assoc, next_page_of by lia. split; [tauto|]. intros H.
    split; [lia|]. by destruct (decide (sys_vtpmo (4096 * p + (i + 1888)) = NO_MAP)).
Qed.

(** What the search of a page gives: the first table from offset [i] on. *)
Definition page_result (i : Z) (r : option (Z * Z)) : Prop :=
  match r with
  | Some (tbl, ni) =>
      (4096 * p + i ≤ tbl < 4096 * p + 4096)%Z ∧ (tbl mod 8 = 0)%Z ∧ is_table tbl ni ∧
      no_table (4096 * p + i) tbl
  | None => no_table (4096 * p + i) (4096 * p + 4096)
  end.

Lemma no_table_step i a :
  (i mod 8 = 0)%Z → (∀ ni, ¬ is_table (4096 * p + i) ni) → no_table (4096 * p + (i + 8)) a →
  no_table (4096 * p + i) a.
Proof.
  intros Hi Hn Hno b ni Hb H8. destruct (decide (b = 4096 * p + i)%Z) as [->|]; [apply Hn|].
  apply Hno; [|done]. split; [|lia].
  pose proof (offset_aligned i Hi). pose proof (Z.div_mod b 8 ltac:(lia)).
  pose proof (Z.div_mod (4096 * p + i) 8 ltac:(lia)). lia.
Qed.

Lemma validate_from_spec i n :
  (0 ≤ i)%Z → (i + 8 * Z.of_nat n = 4096)%Z → (i mod 8 = 0)%Z → mapped (4096 * p) →
  ∃ r, validate_from (4096 * p) i n = Some r ∧ page_result i r.
Proof.
  revert i. induction n as [|n IH]; intros i Hi Hn H8 Hm.
  { exists None. split; [done|]. intros a ni Ha. lia. }
  cbn [validate_from]. case_decide as Ht.
  - apply second_page_test in Ht; [|lia|done]. exists None. split; [done|].
    intros a ni Ha H8a Hta. destruct (is_table_mapped a ni) as [_ Hma]; [lia|done..|].
    apply Ht. eapply mapped_page; [|exact Hma].
    destruct (decide (i + 1888 < 4096)%Z) as [Hlt|Hge].
    { destruct Ht. eapply mapped_page; [|exact Hm]. rewrite <- Z.add_assoc, page_of by lia.
      rewrite <- (Z.add_0_r (4096 * p)) at 1. apply page_of. lia. }
    replace (a + 1888)%Z with (4096 * p + (a - 4096 * p + 1888))%Z by lia.
    rewrite <- Z.add_assoc, !next_page_of by lia. done.
  - rewrite second_page_test in Ht by (lia || done).
    assert (mapped (4096 * p + i + 1888)) as Hm'.
    { unfold mapped in *. destruct (hw_walk (4096 * p + i + 1888)); [by eexists|]. destruct Ht.
      by intros [? ?]. }
    rewrite uint64_small by (unfold START, MAX_ADDR in *; lia).
    pose proof (page_readable i ltac:(lia) H8 Hm Hm') as Hr.
    destruct (Hr FIRST_NI_SYSCALL) as [ni Hni]; [unfold FIRST_NI_SYSCALL, SEVENTH_NI_SYSCALL; lia|].
    destruct (pattern_spec _ ni Hr Hni) as (b & -> & Hb). cbn [mbind option_bind]. destruct b.
    + rewrite Hni. eexists. split; [reflexivity|]. split; [lia|]. split; [by apply offset_aligned|].
      split; [by apply Hb|]. intros a ni' Ha. lia.
    + destruct (IH (i + 8)%Z) as (r & Hv & Hres); [lia|lia|by rewrite <- Zplus_mod_idemp_l, H8|done|].
      exists r. split; [done|].
      assert (∀ ni', ¬ is_table (4096 * p + i) ni') as Hnt.
      { intros ni' Ht'. assert (ni' = ni) as -> by (destruct Ht' as (_ & Hw & _); congruence).
        by apply Hb in Ht'. }
      destruct r as [[tbl ni']|]; [|by apply no_table_step].
      destruct Hres as (? & ? & ? & ?). split; [lia|]. split; [done|]. split; [done|].
      by apply no_table_step.
Qed.
End page.
End tables.

(** *** The whole range *)

Section finder.
Context `{MC : Machine, ML : !MachineLaws}.

(** The first table from [lo] to [hi] is stored in the module's variables. *)
Definition found (lo hi : Z) (st st' : usctm) : Prop :=
  (∃ tbl ni, (lo ≤ tbl < hi)%Z ∧ (tbl mod 8 = 0)%Z ∧ is_table tbl ni ∧ no_table lo tbl ∧
     st' = mk_usctm ni tbl tbl ni (free_entries st)) ∨
  (st' = st ∧ no_table lo hi).

Lemma no_table_app lo mid hi : no_table lo mid → no_table mid hi → no_table lo hi.
Proof.
  intros H1 H2 a ni Ha. destruct (decide (a < mid)%Z); [apply H1|apply H2]; lia.
Qed.

Lemma found_later lo mid hi st st' :
  (lo ≤ mid)%Z → no_table lo mid → found mid hi st st' → found lo hi st st'.
Proof.
  intros Hle Hno [(tbl & ni & Hr & H8 & Ht & Hn & ->)|[-> Hn]].
  - left. exists tbl, ni. split; [lia|]. do 2 (split; [done|]). split; [|done].
    by eapply no_table_app.
  - right. split; [done|]. by eapply no_table_app.
Qed.

Lemma finder_from_spec p n st :
  (START ≤ 4096 * p)%Z → (4096 * p + 4096 * Z.of_nat n = MAX_ADDR)%Z →
  ∃ st', finder_from (4096 * p) n st = Some st' ∧ found (4096 * p) MAX_ADDR st st'.
Proof.
  revert p. induction n as [|n IH]; intros p Hs Hn.
  { exists st. split; [done|]. right. split; [done|]. intros a ni Ha. lia. }
  assert (START ≤ 4096 * p ∧ 4096 * p < MAX_ADDR)%Z as Hp by lia.
  destruct (IH (p + 1)%Z) as (st' & Hf & Hfound); [lia..|].
  replace (4096 * (p + 1))%Z with (4096 * p + 4096)%Z in Hf, Hfound by lia.
  assert (no_table (4096 * p) (4096 * p + 4096) → found (4096 * p) MAX_ADDR st st') as Hlater.
  { intros Hno. eapply found_later; [|exact Hno|exact Hfound]. lia. }
  cbn [finder_from]. pose proof (sys_vtpmo_mapped (4096 * p)) as Hmap.
  destruct (decide (sys_vtpmo (4096 * p) ≠ NO_MAP)) as [Hm|Hm]; rewrite Hmap in Hm by (unfold START, MAX_ADDR in *; lia).
  - destruct (validate_from_spec p Hp 0 512) as (r & Hv & Hr); [lia|lia|done|done|].
    unfold validate_page. rewrite Hv. cbn [mbind option_bind].
    unfold page_result in Hr. rewrite Z.add_0_r in Hr. destruct r as [[tbl ni]|]; [|by eauto].
    eexists. split; [reflexivity|]. left. exists tbl, ni. destruct Hr as (? & ? & ? & ?).
    split; [lia|]. done.
  - exists st'. split; [done|]. apply Hlater. intros a ni Ha H8 Ht.
    by destruct (is_table_mapped p Hp a ni) as [? _].
Qed.

Lemma syscall_table_finder_spec st :
  ∃ st', syscall_table_finder st = Some st' ∧ found START MAX_ADDR st st'.
Proof.
  unfold syscall_table_finder. change START with (4096 * (START / 4096))%Z at 1 2.
  apply finder_from_spec; [done|]. by rewrite N_nat_Z.
Qed.

(** *** The free entries *)

(** The 256 words of the table at [tbl]. *)
Definition table_words (tbl : Z) (words : list Z) : Prop :=
  length words = ENTRIES_TO_EXPLORE ∧
  ∀ k v, words !! k = Some v → word tbl (Z.of_nat k) = Some v.

(** [free] with the entries from [j] on overwritten by [l]. *)
Definition filled (j : nat) (l free : list Z) : list Z := take j free ++ l ++ drop (j + length l) free.

Lemma filled_nil j free : filled j [] free = free.
Proof. unfold filled. by rewrite Nat.add_0_r, app_nil_l, take_drop. Qed.

Lemma filled_cons j x l free :
  j < length free → filled (S j) l (<[j:=x]> free) = filled j (x :: l) free.
Proof.
  intros Hj. unfold filled. rewrite (take_S_r _ _ x) by by apply list_lookup_insert_eq.
  rewrite take_insert_ge, drop_insert_lt, <- app_assoc by lia. cbn [length app]. by rewrite Nat.add_succ_r.
Qed.

Lemma free_from_spec tbl ni words i n j free :
  table_words tbl words → i + n ≤ ENTRIES_TO_EXPLORE → length free = MAX_FREE → j < MAX_FREE →
  free_from tbl ni (Z.of_nat i) n j free =
  Some (filled j (Z.of_nat <$> take (MAX_FREE - j) (filter (λ k, words !! k = Some ni) (seq i n))) free).
Proof.
  intros [Hl Hw]. revert i j free. induction n as [|n IH]; intros i j free Hi Hf Hj.
  { cbn [seq free_from]. by rewrite filter_nil, take_nil, filled_nil. }
  destruct (lookup_lt_is_Some_2 words i) as [v Hv]; [lia|]. cbn [free_from seq].
  rewrite (Hw i v Hv). cbn [mbind option_bind].
  replace (Z.of_nat i + 1)%Z with (Z.of_nat (S i)) by lia. case_decide as Hd.
  - subst v. rewrite filter_cons_True by done. case_decide as Hmax.
    + replace (MAX_FREE - j) with 1 by lia. cbn [take fmap list_fmap]. rewrite take_0.
      cbn [fmap list_fmap]. rewrite <- filled_cons by lia. by rewrite filled_nil.
    + rewrite IH by (rewrite ?length_insert; lia). rewrite filled_cons by lia.
      by replace (MAX_FREE - j) with (S (MAX_FREE - S j)) by lia.
  - rewrite filter_cons_False by congruence. by apply IH; [lia|..].
Qed.

Definition ni_entries : list nat := [134; 174; 182; 183; 214; 215; 236].

Lemma table_ni_entries tbl ni words :
  is_table tbl ni → table_words tbl words → Forall (λ k, k ∈ slots words ni) ni_entries.
Proof.
  intros (_ & Hf & _ & _ & Ho & _) [Hl Hw].
  assert (∀ k, k < 256 → word tbl (Z.of_nat k) = Some ni → k ∈ slots words ni) as Hk.
  { intros k Hk Hwk. apply list_elem_of_filter. split; [|apply elem_of_seq; unfold TABLE_SIZE; lia].
    destruct (lookup_lt_is_Some_2 words k) as [v Hv]; [by rewrite Hl|]. rewrite Hv.
    apply Hw in Hv. congruence. }
  constructor; [by apply Hk; [lia|]|].
  repeat (constructor; [apply Hk; [lia|]; apply Ho; unfold other_ni; set_solver|]). constructor.
Qed.

Lemma table_slots tbl ni words :
  is_table tbl ni → table_words tbl words → 7 ≤ length (slots words ni).
Proof.
  intros Ht Hw. pose proof (table_ni_entries tbl ni words Ht Hw) as Hall.
  apply (submseteq_length ni_entries). apply NoDup_submseteq; [by apply (bool_decide_unpack _)|].
  intros k Hk. rewrite Forall_forall in Hall. by apply Hall.
Qed.

(** [get_entries] on a table where only the address of sys_ni_syscall repeats. *)
Lemma get_entries_only tbl ni words num w :
  is_table tbl ni → table_words tbl words → table words w →
  (∀ i z u, i < z < TABLE_SIZE → words !! i = Some u → words !! z = Some u → u = ni) →
  (1 ≤ num ≤ 7)%Z →
  get_entries num w = Ret (Some (take (Z.to_nat num) (slots words ni), ni)) w.
Proof.
  intros Htbl Hw Ht Honly Hnum. pose proof (table_slots tbl ni words Htbl Hw) as H7.
  assert (∀ v, first_repeated words v → v = ni) as Hrep.
  { intros v (i & z & Hiz & Hi & Hz & _). by eapply Honly. }
  destruct (get_entries_run words num w Ht) as (r & -> & Hspec).
  destruct Hspec as [v Hn Hv Hl|v Hv Hl|Hno|Hn].
  - by rewrite (Hrep v Hv).
  - rewrite (Hrep v Hv) in Hl. lia.
  - pose proof (table_ni_entries tbl ni words Htbl Hw) as [H1 [H2 _]%Forall_cons]%Forall_cons.
    apply slots_hold in H1 as [_ H1], H2 as [_ H2]. destruct (Hno 134 174 ni); [|done..].
    unfold TABLE_SIZE. lia.
  - unfold MAX_ACQUIRES in Hn. lia.
Qed.

Lemma init_publishes st st' : syscall_table_finder st = Some st' → usctm_init_module st = publish st'.
Proof. intros Hf. unfold usctm_init_module. by rewrite Hf. Qed.

Lemma publish_nothing : publish usctm_start = Some ((-1)%Z, usctm_start).
Proof. reflexivity. Qed.

Lemma publish_address st z st' : publish st = Some (z, st') → sys_call_table_address st' = sys_call_table_address st.
Proof. unfold publish. case_decide; [by intros [= _ <-]|]. by intros (l & _ & [= _ <-])%bind_Some. Qed.

(** The end of the load, once the search has found a table. *)
Lemma init_published tbl ni words :
  syscall_table_finder usctm_start = Some (mk_usctm ni tbl tbl ni (free_entries usctm_start)) →
  (START ≤ tbl)%Z → is_table tbl ni → table_words tbl words →
  let l := Z.of_nat <$> take MAX_FREE (slots words ni) in
  7 ≤ length l ∧
  usctm_init_module usctm_start =
    Some (0%Z, mk_usctm ni tbl tbl ni (l ++ replicate (MAX_FREE - length l) 0%Z)).
Proof.
  intros Hf Hr Ht Hw l. split.
  { unfold l. pose proof (table_slots tbl ni words Ht Hw). rewrite length_fmap, length_take. unfold MAX_FREE. lia. }
  rewrite (init_publishes _ _ Hf). unfold publish.
  cbn [hacked_syscall_tbl hacked_ni_syscall free_entries sys_call_table_address
       sys_ni_syscall_address usctm_start].
  rewrite decide_False by (unfold START in Hr; lia).
  pose proof (free_from_spec tbl ni words 0 ENTRIES_TO_EXPLORE 0 (replicate MAX_FREE 0%Z) Hw
                ltac:(lia) (length_replicate _ _) ltac:(unfold MAX_FREE; lia)) as Hfree.
  change (Z.of_nat 0) with 0%Z in Hfree. rewrite Hfree. cbn [mbind option_bind].
  unfold filled. by rewrite drop_replicate.
Qed.

(** ** Properties *)

(** C39. For an address whose walk has plain entries (no page of 1 GiB, frames below
    8 TiB, bits 52 to 62 clear, no PAT bit in a large page) [sys_vtpmo] gives -1
    exactly when the hardware walk of the page tables faults, the frame of the
    address in a page of 4 KiB, and the first frame of the page, not the one of the
    address, in a page of 2 MiB. *)
Theorem sys_vtpmo_correct v :
  plain_path v →
  (sys_vtpmo v = NO_MAP ↔ hw_walk v = None) ∧
  (∀ f, hw_walk v = Some f → sys_vtpmo v = if in_large_page v then (f - PTE v)%Z else f).
Proof.
  intros Hp. split; [by apply sys_vtpmo_no_map|]. intros f Hf. destruct (sys_vtpmo_walk v Hp) as [-> _]. by rewrite Hf.
Qed.

(** The search of kernel memory never touches an unmapped address; it stores
    the lowest table that starts in the range of the search, and leaves the
    variables as they were only when there is none. *)
Theorem syscall_table_finder_correct st :
  ∃ st', syscall_table_finder st = Some st' ∧
    ((∃ tbl ni, (START ≤ tbl < MAX_ADDR)%Z ∧ is_table tbl ni ∧
        (∀ a ni', (START ≤ a < tbl)%Z → (a mod 8 = 0)%Z → ¬ is_table a ni') ∧
        st' = mk_usctm ni tbl tbl ni (free_entries st)) ∨
     (st' = st ∧ ∀ a ni, (START ≤ a < MAX_ADDR)%Z → (a mod 8 = 0)%Z → ¬ is_table a ni)).
Proof.
  destruct (syscall_table_finder_spec st) as (st' & Hf & [(tbl & ni & ? & ? & ? & ? & ?)|[? ?]]);
    exists st'; (split; [done|]); [left; by exists tbl, ni|by right].
Qed.

(** C38. Loading the discoverer publishes the lowest table of kernel memory, with
    the first 15 entries that hold the address of sys_ni_syscall, in order, as
    the free entries, provided that the 256 words from a table on are mapped;
    with no table it fails with -1 and publishes nothing. *)
Theorem usctm_init_module_correct :
  (∀ tbl ni, (START ≤ tbl < MAX_ADDR)%Z → is_table tbl ni → ∃ words, table_words tbl words) →
  ∃ r st, usctm_init_module usctm_start = Some (r, st) ∧
    ((∃ tbl ni words, is_table tbl ni ∧ no_table START tbl ∧ table_words tbl words ∧ r = 0%Z ∧
        sys_call_table_address st = tbl ∧ sys_ni_syscall_address st = ni ∧
        let l := Z.of_nat <$> take MAX_FREE (slots words ni) in
        free_entries st = l ++ replicate (MAX_FREE - length l) 0%Z ∧ 7 ≤ length l) ∨
     (no_table START MAX_ADDR ∧ r = (-1)%Z ∧ st = usctm_start)).
Proof.
  intros Hwords. destruct (syscall_table_finder_spec usctm_start) as (st & Hf & Hst).
  destruct Hst as [(tbl & ni & Hr & _ & Ht & Hno & ->)|[-> Hno]].
  2:{ exists (-1)%Z, usctm_start. rewrite (init_publishes _ _ Hf), publish_nothing. split; [done|]. by right. }
  destruct (Hwords tbl ni Hr Ht) as [words Hw]. destruct (init_published tbl ni words Hf) as [H7 Hi]; [lia|done..|].
  eexists _, _. split; [exact Hi|]. left. exists tbl, ni, words. by do 6 (split; [done|]).
Qed.

(** C35. What the discoverer publishes serves the monitor: after a load that succeeds,
    when the address of sys_ni_syscall that it published is the only one that the table
    at the published address holds twice, [get_entries] finds the entries it is asked
    for (up to 7, the monitor needs 6), and they are the first ones that the discoverer
    published as free. *)
Theorem discovered_table_serves st words num w :
  usctm_init_module usctm_start = Some (0%Z, st) →
  table_words (sys_call_table_address st) words → table words w →
  (∀ i z u, i < z < TABLE_SIZE → words !! i = Some u → words !! z = Some u → u = sys_ni_syscall_address st) →
  (1 ≤ num ≤ 7)%Z →
  ∃ l, get_entries num w = Ret (Some (l, sys_ni_syscall_address st)) w ∧ length l = Z.to_nat num ∧
    Z.of_nat <$> l = take (Z.to_nat num) (free_entries st).
Proof.
  intros Hi Hw Ht Honly Hnum. destruct (syscall_table_finder_spec usctm_start) as (st0 & Hf & Hst).
  destruct Hst as [(tbl & ni & Hr & _ & Htbl & _ & ->)|[-> _]].
  2:{ rewrite (init_publishes _ _ Hf), publish_nothing in Hi. discriminate Hi. }
  pose proof Hi as Hp. rewrite (init_publishes _ _ Hf) in Hp. apply publish_address in Hp. rewrite Hp in Hw.
  destruct (init_published tbl ni words Hf) as [H7 Hi']; [lia|done..|].
  rewrite Hi' in Hi. injection Hi as <-. cbn [sys_ni_syscall_address free_entries] in *.
  set (n := Z.to_nat num). rewrite length_fmap, length_take in H7.
  exists (take n (slots words ni)). split; [by eapply get_entries_only|].
  split; [rewrite length_take; lia|]. rewrite take_app_le by (rewrite length_fmap, length_take; lia).
  rewrite <- fmap_take, take_take. by rewrite Nat.min_l by (unfold MAX_FREE; lia).
Qed.
End finder.
