(* ===== verification/Concrete.v ===== *)
(** * A concrete kernel

    Instances of the interfaces (an allocator that always succeeds with zeroed
    memory, a digest function, a file system where a dentry is its path, a
    kprobes implementation) and a loaded module, on which the hypotheses of the
    theorems hold. *)

From S2P Require Import Prelude CString Kernel Utils Blacklist Logger Kprobes Scth Monitor.
From S2P Require Import Security Mediation.

(** ** Instances *)

#[export] Instance demo_alloc : Alloc :=
  {| kmalloc_ok := λ _, true; fresh_byte := λ _ _, NUL; fresh_ptr := λ _ _, NULL |}.

#[export] Instance demo_zeroed : InitOnAlloc.
Proof. by split. Qed.

#[export] Instance demo_crypto : Crypto :=
  {| crypto_alloc_shash_ok := λ _, true; crypto_shash_digest_err := λ _, 0%Z;
     sizeof_shash_desc := 8; crypto_shash_descsize := 8;
     sha256 := λ msg, take 32 (msg ++ replicate 32 "0"%char) |}.

#[export] Instance demo_crypto_laws : CryptoLaws.
Proof.
  split. intros msg. change (sha256 msg) with (take 32 (msg ++ replicate 32 "0"%char)).
  rewrite length_take, length_app, length_replicate. lia.
Qed.

(** A dentry is its path; the parent of every dentry is the root directory. *)
#[export] Instance demo_vfs : Vfs :=
  {| dentry := buf; d_parent := λ _, lit "/";
     dentry_path_raw := λ d n,
       if decide (length d < n ∧ NUL ∉ d) then inr d else inl (- EINVAL)%Z |}.

Definition at_path (s : string) : @dentry demo_vfs := lit s.

#[export] Instance demo_vfs_laws : VfsLaws.
Proof.
  split; intros d n s; simpl dentry_path_raw; case_decide as Hd; try done;
    intros [= <-]; destruct Hd; [lia|done].
Qed.

#[export] Instance demo_log_file : LogFile := {| filp_open_err := λ _, 0%Z |}.

#[export] Instance demo_kprobes : KprobeAPI :=
  {| enable_kretprobe := λ k, (0%Z, kp_set_flags (Z.ldiff (kp_flags k) KPROBE_FLAG_DISABLED) k);
     disable_kretprobe := λ k, (0%Z, kp_set_flags (Z.lor (kp_flags k) KPROBE_FLAG_DISABLED) k);
     register_kretprobes := λ l, (0%Z, kp_set_registered true <$> l);
     unregister_kretprobes := λ l, kp_set_registered false <$> l |}.

#[export] Instance demo_kprobe_laws : KprobeLaws.
Proof. split; try done. by intros l l' [= <-]. Qed.

#[export] Instance demo_linked : Linked :=
  {| address_of := λ id, match id with
       | switch_rf_state => 9000 | get_rf_state => 9001 | add_blacklist => 9002
       | remove_blacklist => 9003 | print_blacklist => 9004 | get_blacklist_size => 9005 end%Z |}.

#[export] Instance demo_stack : Stack := {| stack_byte := λ _, NUL |}.
#[export] Instance demo_slab : Slab := {| krealloc_shrinks := false |}.

#[export] Instance demo_kretprobes : Kretprobes :=
  {| probed_call := λ k regs t f,
       if kp_enabled k then
         match kp_entry k with
         | Some h =>
             r ← run_entry h regs;
             match r with
             | (0%Z, Some m) => if kp_handler k then f ;; ret_handler t m else f
             | _ => f
             end
         | None => f
         end
       else f |}.

#[export] Instance demo_kretprobe_laws : KretprobeLaws.
Proof.
  split; simpl probed_call.
  - intros k regs t f w ->. done.
  - intros k h regs t f z r w w1 -> -> Hr Hz. unfold mbind, K_bind. rewrite Hr.
    by destruct z.
  - intros k h regs t f m w w1 -> -> -> Hr. unfold mbind, K_bind. by rewrite Hr.
Qed.

(** ** A loaded module

    The password is "pippo", the blacklist holds /tmp/a. *)

Definition demo_password : buf := lit "pippo".
Definition demo_user : user_ptr := demo_password ++ replicate 27 NUL.
Definition demo_digest : buf := sha256 demo_password.

Definition demo_mem : gmap ptr obj :=
  {[ 1%N := OBuf demo_user;
     2%N := OBuf (hex demo_digest ++ [NUL]);
     3%N := ONode (mk_node 4 NULL);
     4%N := OBuf (lit "/tmp/a" ++ [NUL]);
     5%N := OProbes kprobe_list;
     6%N := OBuf (lit "/tmp/a/b" ++ [NUL]);
     7%N := OBuf (lit "message" ++ [NUL]) ]}.

(** The table: 200 distinct words, then [sys_ni_syscall] in the last 56 entries. *)
Definition demo_words : list Z := (Z.of_nat <$> seq 1000 200) ++ replicate 56 77%Z.
Definition demo_sys : sys_table :=
  mk_sys_table 4096 demo_words (replicate 6 0%Z) (replicate 6 (-1)%Z) 0 0x80050033 0 (replicate 6 0%Z).

Definition demo_on (st : Z) : bool := bool_decide (st = RF_ON ∨ st = RF_REC_ON).

Definition demo_krp (registered on : bool) (p : probe_id) : kretprobe :=
  mk_kretprobe (Some (symbol_of p)) (if on then 0 else KPROBE_FLAG_DISABLED) true
    (Some (entry_of p)) (-1) sizeof_probe_data registered.

Definition demo (st : Z) : world :=
  mk_world (mk_heap demo_mem 8 0)
    (mk_globals (mk_rf st 2 3 false 1) 1 (demo_krp true (demo_on st)) 5 [] false [] demo_sys (λ _, 0)).

(** The module before it is loaded. *)
Definition demo_boot : world :=
  mk_world (mk_heap demo_mem 8 0)
    (mk_globals (mk_rf 0 NULL NULL false 0) 1 (demo_krp false false) NULL [] false [] demo_sys (λ _, 0)).

Definition demo_list : blacklist := mk_blacklist [lit "/tmp/a"] 1.

Lemma demo_wf h : h_mem h = demo_mem → h_brk h = 8%N → wf_heap h.
Proof.
  intros Hm Hb. split; [by rewrite Hb|]. rewrite Hm, Hb.
  change (map_Forall (λ p (_ : obj), (0 < p < 8)%N) demo_mem).
  apply (bool_decide_unpack _). vm_compute. exact I.
Qed.

Lemma demo_wf_st st : wf (demo st).
Proof. by apply demo_wf. Qed.

Lemma demo_rep st : bl_rep (demo st) demo_list.
Proof.
  split.
  - apply demo_wf_st.
  - done.
  - exists [(3%N, lit "/tmp/a")]. split; [|done]. split; [done|]. split; [done|].
    exists (mk_node 4 NULL), (lit "/tmp/a" ++ [NUL]). by split_and!.
  - apply NoDup_singleton.
  - constructor; [|constructor]. change (6 < PATH_MAX). unfold PATH_MAX. lia.
  - done.
Qed.

Lemma demo_stored st : stored_digest (demo st) demo_digest.
Proof. by split. Qed.

Lemma demo_secure st : (0 ≤ st ≤ 3)%Z → secure demo_digest demo_list (demo st).
Proof.
  intros Hst. split.
  - apply demo_rep.
  - apply demo_stored.
  - done.
  - split; [done|by intros p|]. intros p. unfold demo. cbn [rf_state g_rf w_glob g_krp].
    fold (demo_on st). by destruct (demo_on st).
Qed.

Lemma demo_mem_up n k : mem_up n k.
Proof. by intros i. Qed.

Lemma demo_crypto_up n : crypto_up n.
Proof. by split_and!. Qed.

Lemma demo_dentry_raw (s : buf) :
  length s < 4000 → NUL ∉ s → dentry_path_raw (s : @dentry demo_vfs) PATH_MAX = inr s.
Proof.
  intros Hl Hn. simpl dentry_path_raw. rewrite decide_True; [done|]. split; [|done].
  unfold PATH_MAX. lia.
Qed.

Lemma demo_dentry (s : string) :
  length (lit s) < 200 → NUL ∉ lit s → dentry_path_raw (at_path s) PATH_MAX = inr (lit s).
Proof.
  intros Hl Hn. apply demo_dentry_raw; [lia|done].
Qed.

(** ** The theorems on the concrete kernel: utils.c *)

Lemma encrypt_password_correct_witness :
  (∃ r w', encrypt_password 1%N (demo RF_ON) = Ret r w' ∧ demo_mem !! r = None ∧
     w_glob w' = w_glob (demo RF_ON) ∧
     mem w' = <[r := OBuf (hex (sha256 demo_password) ++ [NUL])]> demo_mem) ∧
  (hex (sha256 demo_password) = hex (sha256 (lit "other")) → sha256 demo_password = sha256 (lit "other")).
Proof.
  apply (encrypt_password_correct 1%N demo_user demo_password (lit "other") (demo RF_ON)).
  - apply demo_wf_st.
  - reflexivity.
  - reflexivity.
  - apply demo_crypto_up.
Defined.

Lemma password_check_decides_witness :
  ∃ z w', password_check demo_user (demo RF_OFF) = Ret z w' ∧ extends (demo RF_OFF) w' ∧
    (z = 0%Z ↔ sha256 demo_password = demo_digest) ∧ (z ≠ 0%Z → z = (- EACCES)%Z).
Proof.
  apply (password_check_decides demo_user demo_password demo_digest (demo RF_OFF)).
  - apply demo_wf_st.
  - apply demo_stored.
  - reflexivity.
  - apply demo_crypto_up.
  - vm_compute. lia.
  - reflexivity.
Defined.

(** The world after a successful password check. *)
Definition result {A} (o : outcome A) (w : world) : world :=
  match o with Ret _ w' => w' | Crash _ => w end.

Lemma password_check_never_wrong_witness :
  extends (demo RF_OFF) (result (password_check demo_user (demo RF_OFF)) (demo RF_OFF)) ∧
  ∃ pw, c_str (take PASSW_LEN demo_user) = Some pw ∧ sha256 pw = demo_digest.
Proof.
  apply (password_check_never_wrong demo_user demo_digest (demo RF_OFF)).
  - apply demo_wf_st.
  - apply demo_stored.
  - vm_compute. reflexivity.
Defined.

Lemma password_check_errors_witness :
  password_check demo_user (demo RF_OFF) ≠ Crash NullDeref ∧
  (∃ w', password_check [] (demo RF_OFF) = Ret (- EAGAIN)%Z w' ∧ extends (demo RF_OFF) w') ∧
  password_check (replicate 32 "x"%char) (demo RF_OFF) = Crash Overrun.
Proof.
  split; [by vm_compute|]. split.
  - apply (password_check_errors [] (demo RF_OFF)); [apply demo_wf_st|reflexivity|vm_compute; lia].
  - apply (password_check_errors (replicate 32 "x"%char) (demo RF_OFF));
      [apply demo_wf_st|reflexivity|apply demo_crypto_up|vm_compute; lia|reflexivity].
Defined.

Lemma get_path_from_dentry_path_witness :
  ∃ p b w', get_path_from_dentry (at_path "/tmp/a/b") (demo RF_ON) = Ret p w' ∧ extends (demo RF_ON) w' ∧
    mem w' !! p = Some (OBuf b) ∧ length b = 8 + 2 ∧ c_str b = Some (lit "/tmp/a/b").
Proof.
  assert (dentry_path_raw (at_path "/tmp/a/b") PATH_MAX = inr (lit "/tmp/a/b")) as Hd
    by (apply demo_dentry; [simpl; lia|by compute_done]).
  exact (get_path_from_dentry_path (at_path "/tmp/a/b") (lit "/tmp/a/b") (demo RF_ON)
    (demo_wf_st _) Hd (demo_mem_up _ _)).
Defined.

(** ** blacklist.c *)

Lemma demo_path_b : user_path (lit "/b") = Some (lit "/b").
Proof. vm_compute. reflexivity. Qed.

Lemma add_to_blacklist_refines_witness :
  ∃ w', add_to_blacklist (lit "/b") (demo RF_ON) = Ret 0%Z w' ∧ list_frame (demo RF_ON) w' ∧
    bl_rep w' (mk_blacklist [lit "/tmp/a"; lit "/b"] 2).
Proof.
  pose proof (add_to_blacklist_refines (lit "/b") demo_list (demo RF_ON) (demo_rep RF_ON)) as H.
  unfold spec_add in H. rewrite demo_path_b in H. rewrite decide_False in H by (by compute_done).
  exact H.
Defined.

Lemma remove_from_blacklist_refines_witness :
  ∃ w', remove_from_blacklist (lit "/b") (demo RF_ON) = Ret (- EINVAL)%Z w' ∧
    list_frame (demo RF_ON) w' ∧ bl_rep w' demo_list.
Proof.
  pose proof (remove_from_blacklist_refines (lit "/b") demo_list (demo RF_ON) (demo_rep RF_ON)) as H.
  unfold spec_remove in H. rewrite demo_path_b in H. rewrite decide_False in H by (by compute_done).
  exact H.
Defined.

Lemma add_remove_roundtrip_witness :
  ∃ w1 w2 a', add_to_blacklist (lit "/b") (demo RF_ON) = Ret 0%Z w1 ∧
    remove_from_blacklist (lit "/b") w1 = Ret 0%Z w2 ∧ bl_rep w2 a' ∧
    bl_paths a' = [lit "/tmp/a"] ∧ bl_size a' = 2%Z.
Proof.
  apply (add_remove_roundtrip (lit "/b") (lit "/b") demo_list (demo RF_ON)).
  - reflexivity.
  - apply demo_rep.
  - apply demo_path_b.
  - by compute_done.
Defined.

Lemma is_blacklisted_decides_witness :
  ∃ z, is_blacklisted 6%N (demo RF_ON) = Ret z (demo RF_ON) ∧
    (z = 1%Z ↔ protected RF_ON demo_list (lit "/tmp/a/b")) ∧ (z = 1%Z ∨ z = 0%Z).
Proof.
  apply (is_blacklisted_decides 6%N (lit "/tmp/a/b" ++ [NUL]) (lit "/tmp/a/b") demo_list (demo RF_ON)).
  - apply demo_rep.
  - reflexivity.
  - reflexivity.
Defined.

Lemma is_blacklisted_covers_witness : is_blacklisted 6%N (demo RF_REC_ON) = Ret 1%Z (demo RF_REC_ON).
Proof.
  apply (is_blacklisted_covers (lit "/tmp/a") (lit "/tmp/a/b") 6%N (lit "/tmp/a/b" ++ [NUL]) demo_list).
  - apply demo_rep.
  - done.
  - by right.
  - by compute_done.
  - reflexivity.
  - reflexivity.
  - left. by exists (lit "/b").
Defined.

Lemma add_unreadable_blocks_all_witness :
  ∃ w', add_to_blacklist [] (demo RF_ON) = Ret 0%Z w' ∧
    ∀ pp pb p, mem w' !! pp = Some (OBuf pb) → c_str pb = Some p → is_blacklisted pp w' = Ret 1%Z w'.
Proof.
  apply (add_unreadable_blocks_all demo_list (demo RF_ON)).
  - reflexivity.
  - apply demo_rep.
  - by compute_done.
  - done.
  - by left.
Defined.

(** ** logger.c *)

Definition demo_task : task := mk_task _ 11 10 0 0 (Some (at_path "/bin/sh")).

Lemma blocked_access_logged_witness :
  ∃ w1 wp, write_on_log demo_task (demo RF_ON) = Ret tt w1 ∧
    w_glob w1 = set_queue [wp] (w_glob (demo RF_ON)) ∧
    length (log_row demo_task (lit "/bin/sh")) ≤ 255 ∧
    (crypto_up (clock w1) → filp_open_err (clock w1 + 3) = 0%Z →
     ∃ w2, deferred_work wp w1 = Ret tt w2 ∧
       w_glob w2 = set_log [log_row demo_task (lit "/bin/sh")] (w_glob w1)).
Proof.
  apply (blocked_access_logged demo_task (at_path "/bin/sh") (lit "/bin/sh") (demo RF_ON)).
  - apply demo_wf_st.
  - reflexivity.
  - apply demo_dentry; [simpl; lia|by compute_done].
  - apply demo_mem_up.
Defined.

(** An allocator that has nothing left. *)
Definition empty_alloc : Alloc :=
  {| kmalloc_ok := λ _, false; fresh_byte := λ _ _, NUL; fresh_ptr := λ _ _, NULL |}.

Lemma write_on_log_bad_unlock_witness :
  write_on_log (AL := empty_alloc) demo_task (demo RF_ON) = Crash BadUnlock.
Proof.
  apply (write_on_log_bad_unlock (AL := empty_alloc) demo_task (demo RF_ON)).
  - reflexivity.
  - reflexivity.
Defined.

(** ** kprobes.c *)

Definition demo_regs (s : string) : pt_regs := mk_regs _ KOther (KDentry (at_path s)) KOther KOther.

Lemma demo_short (s : string) :
  length (lit s) ≤ 196 → NUL ∉ lit s → Forall2 short_path [at_path s] [lit s].
Proof.
  intros Hl Hn. constructor; [|constructor]. split; [|done]. apply demo_dentry; [lia|done].
Qed.

Lemma entry_handlers_decide_witness :
  ∃ z m w', run_entry inode_unlink_entry (demo_regs "/tmp/a/b") (demo RF_ON) = Ret (z, m) w' ∧
    extends (demo RF_ON) w' ∧ (z = 0%Z ↔ must_deny RF_ON demo_list [lit "/tmp/a/b"]) ∧
    (z = 0%Z ∨ z = 1%Z) ∧ match m with Some p => z = 0%Z ∧ message w' p | None => z = 1%Z end.
Proof.
  apply (entry_handlers_decide inode_unlink_entry (demo_regs "/tmp/a/b") [at_path "/tmp/a/b"]).
  - apply demo_rep.
  - reflexivity.
  - apply demo_short; [simpl; lia|by compute_done].
  - apply demo_mem_up.
Defined.

(** A path of 207 bytes under /tmp/a. *)
Definition long_path : buf := lit "/tmp/a/" ++ replicate 200 "x"%char.
Definition long_file : file := mk_file _ (long_path : @dentry demo_vfs) O_RDWR.

Lemma open_entry_overrun_witness :
  open_entry_handler (mk_regs _ (KFile long_file) KOther KOther KOther) (demo RF_ON) = Crash Overrun.
Proof.
  apply (open_entry_overrun long_file long_path demo_list (demo RF_ON)).
  - apply demo_rep.
  - reflexivity.
  - apply demo_dentry_raw; [vm_compute; lia|by compute_done].
  - vm_compute. lia.
  - split; [done|]. split; [done|]. split; [done|]. constructor. left.
    by exists (lit "/" ++ replicate 200 "x"%char).
  - apply demo_mem_up.
Defined.

Lemma ret_handler_denies_witness :
  ∃ w' wp, ret_handler demo_task 7%N (demo RF_ON) = Ret (- EACCES)%Z w' ∧ mem w' !! 7%N = None ∧
    w_glob w' = set_queue [wp] (w_glob (demo RF_ON)).
Proof.
  apply (ret_handler_denies demo_task (at_path "/bin/sh") (lit "/bin/sh") 7%N (demo RF_ON)).
  - apply demo_wf_st.
  - split; [done|]. exists (lit "message"). by split; [compute_done|].
  - reflexivity.
  - apply demo_dentry; [simpl; lia|by compute_done].
  - apply demo_mem_up.
Defined.

Lemma kretprobe_init_registers_witness :
  ∃ w', kretprobe_init demo_boot = Ret 0%Z w' ∧ probes_on false w'.
Proof.
  destruct (kretprobe_init_registers demo_boot) as (z & w' & Hr & Hon & _ & Hz); [by apply demo_wf|].
  rewrite Hz in Hr, Hon by reflexivity. exists w'. split; [exact Hr|by apply Hon].
Defined.

Lemma demo_probes st : (0 ≤ st ≤ 3)%Z → probes_on (demo_on st) (demo st).
Proof. intros Hst. apply demo_secure, Hst. Qed.

Lemma kprobes_toggle_witness :
  (∃ k, enable_kprobes (demo RF_OFF) = Ret tt (w_krp k (demo RF_OFF)) ∧
        probes_on true (w_krp k (demo RF_OFF))) ∧
  (∃ k, disable_kprobes (demo RF_OFF) = Ret tt (w_krp k (demo RF_OFF)) ∧
        probes_on false (w_krp k (demo RF_OFF))).
Proof. apply (kprobes_toggle false (demo RF_OFF)); [apply demo_wf_st|by apply (demo_probes RF_OFF)]. Defined.

Lemma kretprobe_clean_unregisters_witness :
  ∃ w', kretprobe_clean (demo RF_ON) = Ret tt w' ∧ mem w' !! 5%N = None ∧
    ∀ p, kp_registered (g_krp (w_glob w') p) = false.
Proof.
  apply (kretprobe_clean_unregisters true (demo RF_ON)); [apply demo_wf_st|by apply (demo_probes RF_ON)].
Defined.

Lemma kprobes_null_array_witness :
  enable_kprobes demo_boot = Crash NullDeref ∧ disable_kprobes demo_boot = Crash NullDeref.
Proof. apply (kprobes_null_array demo_boot). reflexivity. Defined.

(** ** scth.c *)

Lemma demo_table w : g_sys (w_glob w) = demo_sys → table demo_words w.
Proof. intros Hs. unfold table. rewrite Hs. split; [done|]. split; [done|]. by vm_compute; lia. Qed.

Lemma get_entries_correct_witness :
  ∃ r, get_entries 6 demo_boot = Ret r demo_boot ∧
    match r with
    | Some (l, v) =>
        first_repeated demo_words v ∧ l = take 6 (slots demo_words v) ∧
        Z.of_nat (length l) = 6%Z ∧ NoDup l ∧
        Forall (λ k, k < TABLE_SIZE ∧ demo_words !! k = Some v) l
    | None =>
        ¬ (1 ≤ 6 ≤ MAX_ACQUIRES)%Z ∨ no_repetition demo_words ∨
        ∃ v, first_repeated demo_words v ∧ (Z.of_nat (length (slots demo_words v)) < 6)%Z
    end.
Proof. apply (get_entries_correct demo_words 6 demo_boot). by apply demo_table. Defined.

Lemma write_protection_witness :
  write_entry 3 5 demo_boot = Crash WriteProtect ∧
  ∃ w', (unprotect_memory ;; write_entry 3 5 ;; protect_memory) demo_boot = Ret tt w' ∧
    st_cr0 (g_sys (w_glob w')) = 0x80050033%Z ∧
    st_entries (g_sys (w_glob w')) = <[3 := 5%Z]> demo_words ∧ w_heap w' = w_heap demo_boot.
Proof.
  destruct (write_protection 3 5 demo_boot) as [Hwp Hw].
  - done.
  - vm_compute. by split.
  - split; [by apply Hwp|exact Hw].
Defined.

(** ** stack_reference_monitor.c *)

Lemma initialize_syscalls_correct_witness :
  ∃ z s, initialize_syscalls demo_boot = Ret z (w_sys s demo_boot) ∧ st_cr0 s = 0x80050033%Z ∧
    ((z = 0%Z ∧ ∃ v, first_repeated demo_words v ∧
       let sl := take HACKED_ENTRIES (slots demo_words v) in
       st_codes s = Z.of_nat <$> sl ∧ NoDup sl ∧
       (∀ i k id, sl !! i = Some k → syscall_ids !! i = Some id →
          demo_words !! k = Some v ∧ st_entries s !! k = Some (address_of id)) ∧
       (∀ k, k ∉ sl → st_entries s !! k = demo_words !! k)) ∨
     (z = (- ERANGE)%Z ∧ st_entries s = demo_words ∧
      ∀ v, first_repeated demo_words v → length (slots demo_words v) < HACKED_ENTRIES)).
Proof. apply (initialize_syscalls_correct demo_words demo_boot). by apply demo_table. Defined.

Lemma sys_print_blacklist_text_witness :
  ∃ w', extends (demo RF_ON) w' ∧ sys_print_blacklist 100 1 (demo RF_ON) =
    Ret (if decide (length (blacklist_text [lit "/tmp/a"]) ≤ 100)
         then (0%Z, blacklist_text [lit "/tmp/a"])
         else ((- EAGAIN)%Z, take 100 (blacklist_text [lit "/tmp/a"]))) w'.
Proof.
  apply (sys_print_blacklist_text 100 1 demo_list (demo RF_ON)).
  - reflexivity.
  - vm_compute. by eexists.
  - apply demo_rep.
  - done.
  - constructor; [|constructor]. vm_compute. lia.
  - done.
  - reflexivity.
Defined.

Lemma demo_repeated : first_repeated demo_words 77.
Proof.
  destruct (get_entries_run demo_words 6 demo_boot) as (r & Hr & Hspec); [by apply demo_table|].
  assert (get_entries 6 demo_boot = Ret (Some ([200; 201; 202; 203; 204; 205], 77%Z)) demo_boot) as Hc
    by (vm_compute; reflexivity).
  rewrite Hc in Hr. injection Hr as <-. by inversion Hspec.
Qed.

Lemma demo_slots : HACKED_ENTRIES ≤ length (slots demo_words 77).
Proof. vm_compute. lia. Qed.

Lemma demo_unloaded : unloaded demo_password demo_boot.
Proof. split; [by apply demo_wf|done|]. by exists demo_user. Qed.

Lemma init_module_secures_witness :
  ∃ w', init_module demo_boot = Ret 0%Z w' ∧ secure demo_digest bl_empty w' ∧
    rf_state (rf w') = RF_OFF ∧ st_cr0 (g_sys (w_glob w')) = 0x80050033%Z ∧
    installed demo_words (take HACKED_ENTRIES (slots demo_words 77)) 77 (g_sys (w_glob w')).
Proof.
  apply (init_module_secures demo_words 77 demo_password demo_boot).
  - apply demo_unloaded.
  - by apply demo_table.
  - apply demo_repeated.
  - apply demo_slots.
  - apply demo_crypto_up.
  - reflexivity.
  - reflexivity.
Defined.

(** The module right after it is loaded. *)
Definition demo_loaded : world := result (init_module demo_boot) demo_boot.

Lemma demo_loaded_secure : secure demo_digest bl_empty demo_loaded.
Proof.
  destruct (init_module_run demo_words 77 demo_password demo_boot) as (w' & Hr & Hs & _).
  - apply demo_unloaded.
  - by apply demo_table.
  - apply demo_repeated.
  - apply demo_slots.
  - apply demo_crypto_up.
  - reflexivity.
  - reflexivity.
  - unfold demo_loaded. by rewrite Hr.
Qed.

(** The switch from OFF to REC_ON by root with the password. *)
Definition demo_switched : world :=
  result (sys_switch_rf_state RF_REC_ON demo_user 0 (demo RF_OFF)) (demo RF_OFF).

Lemma demo_switch : step (demo RF_OFF) demo_switched.
Proof. apply (step_switch RF_REC_ON demo_user 0 2). vm_compute. reflexivity. Qed.

Lemma demo_size_step w : step w w.
Proof. apply (step_size (rf_blacklist_size (rf w))). reflexivity. Qed.

Lemma runs_stay_secure_witness : ∃ a', secure demo_digest a' demo_switched.
Proof.
  apply (runs_stay_secure 1 demo_digest demo_list (demo RF_OFF) demo_switched).
  - by apply demo_secure.
  - eapply nsteps_l; [apply demo_switch|apply nsteps_O].
Defined.

Lemma state_change_authorised_witness :
  ∃ st u z, sys_switch_rf_state st u 0 (demo RF_OFF) = Ret z demo_switched ∧ knows demo_digest u ∧
    (0 ≤ st ≤ 3)%Z ∧ rf_state (rf demo_switched) = st.
Proof.
  apply (state_change_authorised demo_digest demo_list (demo RF_OFF) demo_switched).
  - by apply demo_secure.
  - apply demo_switch.
  - by vm_compute.
Defined.

(** The addition of /b in the state REC_ON. *)
Definition demo_added : world :=
  result (sys_add_to_blacklist (lit "/b") demo_user 0 (demo RF_REC_ON)) (demo RF_REC_ON).

Lemma demo_add :
  sys_add_to_blacklist (lit "/b") demo_user 0 (demo RF_REC_ON) = Ret 0%Z demo_added ∧
  secure demo_digest (bl_snoc (lit "/b") demo_list) demo_added.
Proof.
  destruct (edits_run (lit "/b") demo_user (lit "/b") demo_password demo_digest demo_list (demo RF_REC_ON))
    as [(w' & Hr & Hs) _].
  - reflexivity.
  - apply demo_crypto_up.
  - by apply demo_secure.
  - by left.
  - vm_compute. lia.
  - reflexivity.
  - reflexivity.
  - apply demo_path_b.
  - rewrite decide_False in Hr by (by compute_done). rewrite decide_False in Hs by (by compute_done).
    unfold demo_added. rewrite Hr. by split.
Qed.

Lemma blacklist_change_authorised_witness :
  ∃ path u k, may_edit demo_digest u 0 (demo RF_REC_ON) ∧ user_path path = Some k ∧
    ((sys_add_to_blacklist path u 0 (demo RF_REC_ON) = Ret 0%Z demo_added ∧
      [lit "/tmp/a"; lit "/b"] = [lit "/tmp/a"] ++ [k]) ∨
     (sys_remove_from_blacklist path u 0 (demo RF_REC_ON) = Ret 0%Z demo_added ∧
      [lit "/tmp/a"; lit "/b"] = filter (.≠ k) [lit "/tmp/a"])).
Proof.
  apply (blacklist_change_authorised demo_digest demo_list (bl_snoc (lit "/b") demo_list)
    (demo RF_REC_ON) demo_added).
  - by apply demo_secure.
  - apply demo_add.
  - eapply step_add, demo_add.
  - done.
Defined.

Lemma counter_covers_list_witness :
  ∃ a', secure demo_digest a' demo_loaded ∧ rf_blacklist_size (rf demo_loaded) = bl_size a' ∧
    (Z.of_nat (length (bl_paths a')) ≤ bl_size a')%Z ∧ (bl_size a' = 0%Z → bl_paths a' = []).
Proof.
  apply (counter_covers_list 1 demo_digest demo_loaded demo_loaded).
  - apply demo_loaded_secure.
  - eapply nsteps_l; [apply demo_size_step|apply nsteps_O].
  - done.
Defined.

Lemma unload_restores_table_witness :
  ∃ w1, init_module demo_boot = Ret 0%Z w1 ∧
    ∀ w2, nsteps step 3 w1 w2 →
    ∃ w3, cleanup_module w2 = Ret tt w3 ∧ st_entries (g_sys (w_glob w3)) = demo_words ∧
      st_cr0 (g_sys (w_glob w3)) = 0x80050033%Z ∧ ∀ p, kp_registered (g_krp (w_glob w3) p) = false.
Proof.
  apply (unload_restores_table 3 demo_words 77 demo_password demo_boot).
  - apply demo_unloaded.
  - by apply demo_table.
  - apply demo_repeated.
  - apply demo_slots.
  - apply demo_crypto_up.
  - reflexivity.
  - reflexivity.
Defined.

Lemma sys_switch_rf_state_result_witness :
  ∃ w', sys_switch_rf_state RF_ON demo_user 0 (demo RF_OFF) = Ret RF_ON w' ∧
    secure demo_digest demo_list w' ∧ rf_state (rf w') = RF_ON.
Proof.
  destruct (sys_switch_rf_state_result RF_ON demo_user demo_password 0 demo_digest demo_list (demo RF_OFF))
    as (z & w' & Hr & Hs & Hz).
  - by apply demo_secure.
  - apply demo_mem_up.
  - apply demo_crypto_up.
  - vm_compute. lia.
  - reflexivity.
  - assert ((z, rf_state (rf w')) = (RF_ON, RF_ON)) as Hz' by exact Hz.
    injection Hz' as -> Hst. exists w'. split; [exact Hr|]. split; [exact Hs|exact Hst].
Defined.

(** Memory runs out at the fifth request. *)
Definition alloc4 : Alloc :=
  {| kmalloc_ok := λ n, negb (n =? 4); fresh_byte := λ _ _, NUL; fresh_ptr := λ _ _, NULL |}.

Lemma alloc4_zeroed : InitOnAlloc (AL := alloc4).
Proof. by split. Qed.

Lemma switch_enomem_after_change_witness :
  ∃ w', sys_switch_rf_state (AL := alloc4) RF_ON demo_user 0 (demo RF_OFF) = Ret (- ENOMEM)%Z w' ∧
    rf_state (rf w') = RF_ON.
Proof.
  apply (switch_enomem_after_change (AL := alloc4) RF_ON demo_user demo_password demo_digest demo_list
    (demo RF_OFF)).
  - by apply demo_secure.
  - intros i Hi. do 4 (destruct i as [|i]; [done|]). lia.
  - by split_and!.
  - reflexivity.
  - vm_compute. lia.
  - reflexivity.
  - reflexivity.
  - done.
Defined.

Lemma edits_need_rec_state_witness :
  sys_add_to_blacklist (lit "/b") demo_user 0 (demo RF_ON) = Ret (- EPERM)%Z (demo RF_ON) ∧
  sys_remove_from_blacklist (lit "/b") demo_user 0 (demo RF_ON) = Ret (- EPERM)%Z (demo RF_ON).
Proof. apply (edits_need_rec_state (lit "/b") demo_user 0 (demo RF_ON)). by left. Defined.

Lemma edits_result_witness :
  (∃ w', sys_add_to_blacklist (lit "/b") demo_user 0 (demo RF_REC_ON) = Ret 0%Z w' ∧
     secure demo_digest (bl_snoc (lit "/b") demo_list) w') ∧
  (∃ w', sys_remove_from_blacklist (lit "/b") demo_user 0 (demo RF_REC_ON) = Ret 1%Z w' ∧
     secure demo_digest demo_list w').
Proof.
  destruct (edits_result (lit "/b") demo_user (lit "/b") demo_password demo_digest demo_list
    (demo RF_REC_ON)) as [Ha Hr].
  - reflexivity.
  - apply demo_crypto_up.
  - by apply demo_secure.
  - by left.
  - vm_compute. lia.
  - reflexivity.
  - reflexivity.
  - apply demo_path_b.
  - rewrite !decide_False in Ha by (by compute_done). rewrite !decide_False in Hr by (by compute_done).
    by split.
Defined.

(** A crypto API that is not there at the first request. *)
Definition late_crypto : Crypto :=
  {| crypto_alloc_shash_ok := λ n, negb (n =? 0); crypto_shash_digest_err := λ _, 0%Z;
     sizeof_shash_desc := 8; crypto_shash_descsize := 8;
     sha256 := λ msg, take 32 (msg ++ replicate 32 "0"%char) |}.

Lemma late_crypto_laws : CryptoLaws (CR := late_crypto).
Proof. split. apply demo_crypto_laws. Qed.

Lemma init_without_crypto_witness :
  ∃ w', init_module (CR := late_crypto) demo_boot = Ret 0%Z w' ∧ rf_password (rf w') = NULL ∧
    ∀ u pw', kmalloc_ok (clock w') = true → crypto_up (CR := late_crypto) (S (clock w')) →
      PASSW_LEN ≤ length u → c_str (take PASSW_LEN u) = Some pw' →
      password_check (CR := late_crypto) u w' = Crash NullDeref.
Proof.
  pose proof late_crypto_laws as Hlaws.
  apply (init_without_crypto (CR := late_crypto)
    (g_sys (w_glob (result (initialize_syscalls demo_boot) demo_boot))) demo_password demo_boot).
  - apply demo_unloaded.
  - vm_compute. reflexivity.
  - reflexivity.
Defined.

(** ** Mediation *)

(** The probed function: it succeeds. *)
Definition demo_fun : K Z := mret 0%Z.

Lemma demo_call (st : Z) (s : string) :
  (0 ≤ st ≤ 3)%Z → length (lit s) ≤ 196 → NUL ∉ lit s →
  call demo_digest demo_list 1 file_delete (demo_regs s) demo_task demo_fun [lit s] (lit "/bin/sh")
    (demo st).
Proof.
  intros Hst Hl Hn. split.
  - by apply demo_secure.
  - exists 0. split; [done|simpl; lia].
  - done.
  - exists [at_path s]. split; [done|]. by apply demo_short.
  - exists (at_path "/bin/sh"). split; [done|]. apply demo_dentry; [simpl; lia|by compute_done].
  - apply demo_mem_up.
  - intros w1 _. exists 0%Z, w1. split; [done|]. split; [done|]. apply demo_mem_up.
Qed.

Lemma blocked_call_returns_eacces_witness :
  ∃ w1 v w2 w' wp, extends (demo RF_ON) w1 ∧ demo_fun w1 = Ret v w2 ∧
    probed_call (g_krp (w_glob (demo RF_ON)) file_delete) (demo_regs "/tmp/a/b") demo_task demo_fun
      (demo RF_ON) = Ret (- EACCES)%Z w' ∧ g_queue (w_glob w') = [wp].
Proof.
  apply (blocked_call_returns_eacces demo_digest demo_list 1 file_delete (demo_regs "/tmp/a/b") demo_task
    demo_fun [lit "/tmp/a/b"] (lit "/bin/sh") (demo RF_ON)).
  - apply demo_call; [done|simpl; lia|by compute_done].
  - split; [by left|]. constructor. constructor. left. by exists (lit "/b").
Defined.

Lemma other_calls_pass_witness :
  ∃ w1, extends (demo RF_OFF) w1 ∧
    probed_call (g_krp (w_glob (demo RF_OFF)) file_delete) (demo_regs "/tmp/a/b") demo_task demo_fun
      (demo RF_OFF) = demo_fun w1.
Proof.
  apply (other_calls_pass demo_digest demo_list 1 file_delete (demo_regs "/tmp/a/b") demo_task
    demo_fun [lit "/tmp/a/b"] (lit "/bin/sh") (demo RF_OFF)).
  - apply demo_call; [done|simpl; lia|by compute_done].
  - intros [[H|H] _]; discriminate H.
Defined.

(** ** Memory that is not zeroed *)

(** An allocator whose objects hold old data. *)
Definition dirty_alloc : Alloc :=
  {| kmalloc_ok := λ _, true; fresh_byte := λ _ _, "x"%char; fresh_ptr := λ _ _, 3735928559%N |}.

(** The loaded module with an empty list. *)
Definition demo_empty : world :=
  mk_world (mk_heap demo_mem 8 0)
    (mk_globals (mk_rf RF_REC_ON 2 NULL false 0) 1 (demo_krp true true) 5 [] false [] demo_sys (λ _, 0)).

(** [add_to_blacklist] never initialises the [next] field of the node it
    links: with memory that is not zeroed the first addition succeeds and the
    second one follows the leftover pointer and crashes the kernel. *)
Theorem add_uninitialised_next :
  ∃ w', add_to_blacklist (AL := dirty_alloc) (lit "/a") demo_empty = Ret 0%Z w' ∧
    add_to_blacklist (AL := dirty_alloc) (lit "/b") w' = Crash WildAccess.
Proof.
  exists (result (add_to_blacklist (AL := dirty_alloc) (lit "/a") demo_empty) demo_empty).
  split; vm_compute; reflexivity.
Qed.
