(* ===== verification/ConcreteLog.v ===== *)
(** * A concrete device and machine

    Instances of the interfaces of the log file system (a device of four blocks
    that never fails) and of the discoverer (a machine whose kernel pages all map
    one frame that holds a system call table), on which the hypotheses of their
    theorems hold. *)

From S2P Require Import Prelude CString Kernel Scth LogFs Discoverer Concrete.

(** ** The log file system *)

#[export] Instance demo_fs_kernel : FsKernel :=
  {| sb_bread_ok := λ _, true; fs_kmalloc_ok := λ _, true; iget_ok := λ _, true;
     d_make_root_ok := true; heap_after := λ _, [NUL] |}.

#[export] Instance demo_mkfs : MkfsSystem :=
  {| mkfs_open_ok := true; mkfs_write := λ _ n, Some n; junk := λ _ n, replicate n NUL |}.

#[export] Instance demo_mkfs_laws : MkfsLaws.
Proof. split. intros i n. apply length_replicate. Qed.

Definition demo_dev : buf := replicate (4 * BLOCK) NUL.
Definition demo_row : buf := lit "11, 10, 0, 0, /bin/sh, 00".
Definition demo_big : buf := replicate (S BLOCK) "x"%char.

(** The file is the header line, of 58 bytes. *)
Lemma demo_body : length file_body = 58.
Proof. reflexivity. Qed.

Lemma demo_dev_length : length demo_dev = 4 * BLOCK.
Proof. apply length_replicate. Qed.

Lemma demo_dev_room : 2 * BLOCK + length file_body ≤ length demo_dev.
Proof. rewrite demo_dev_length, demo_body. pose proof BLOCK_Z as HB. lia. Qed.

Definition demo_fs : sfs := mk_sfs (image demo_dev) (Some (Z.of_nat (length file_body))) true false.

Lemma demo_fs_length : length (fs_dev demo_fs) = 4 * BLOCK.
Proof. exact (eq_trans (length_image demo_dev demo_dev_room) demo_dev_length). Qed.

Lemma demo_mounted : mounted demo_fs (length file_body).
Proof.
  pose proof BLOCK_Z as HB. pose proof demo_body.
  split; rewrite ?demo_fs_length; [reflexivity|reflexivity|lia|by exists 4|lia|done].
Qed.

Lemma demo_content : content demo_fs 58 = file_body.
Proof. pose proof (image_body demo_dev) as Hb. rewrite demo_body in Hb. exact Hb. Qed.

Lemma demo_row_string : is_Some (c_str (demo_row ++ heap_after (length demo_row))).
Proof. eexists. vm_compute. reflexivity. Qed.

Lemma demo_big_string : is_Some (c_str (demo_big ++ heap_after (length demo_big))).
Proof. eexists. vm_compute. reflexivity. Qed.

Lemma demo_pad : pad (length file_body) (length demo_row) = 0.
Proof.
  unfold pad. rewrite demo_body. change (length demo_row) with 25. pose proof BLOCK_Z.
  rewrite decide_False; [done|]. rewrite Nat.mod_small; lia.
Qed.

Lemma onefile_write_appends_witness :
  ∃ s', onefile_write demo_row (length demo_row) demo_fs = inr (25%Z, s') ∧
    content s' 83 = file_body ++ demo_row.
Proof.
  pose proof BLOCK_Z as HB. pose proof (demo_pad) as Hpad.
  pose proof (onefile_write_appends demo_fs (length file_body) demo_row demo_mounted
    ltac:(change (length demo_row) with 25; lia) eq_refl demo_row_string) as H.
  cbv zeta in H. rewrite Hpad, demo_body, decide_True in H.
  2:{ rewrite demo_fs_length. change (length demo_row) with 25. lia. }
  destruct H as (s' & H & _ & Hc & _). exists s'. split; [exact H|].
  change (58 + 0 + length demo_row) with 83 in Hc. by rewrite Hc, demo_content.
Defined.

Lemma onefilefs_read_correct_witness :
  read_all 59 10 0 demo_fs = inr (file_body, demo_fs).
Proof.
  pose proof (onefilefs_read_correct demo_fs (length file_body) 10 0 demo_mounted ltac:(lia)
    ltac:(lia) ltac:(lia)) as [_ H].
  rewrite demo_body in H. rewrite H, demo_content. reflexivity.
Defined.

Lemma mkfs_mount_roundtrip_witness :
  ∃ dev' s, mkfs_main 2 demo_dev = (0%Z, dev') ∧
    mount_lookup (unmounted dev') = inr ((0%Z, LDentry true), s) ∧
    mounted s (length file_body) ∧ content s (length file_body) = file_body.
Proof.
  apply mkfs_mount_roundtrip; [done|done|done|done|done|..]; [|exact demo_dev_room|];
    rewrite demo_dev_length; [by exists 4|]. pose proof BLOCK_Z as HB. lia.
Defined.

Lemma remount_forgets_appends_witness :
  ∃ s1 s2, onefile_write demo_row (length demo_row) demo_fs = inr (25%Z, s1) ∧
    (singlefilefs_kill_superblock ;; mount_lookup) s1 = inr ((0%Z, LDentry true), s2) ∧
    fs_inode s2 = Some 58%Z ∧ content s2 58 = file_body.
Proof.
  pose proof BLOCK_Z as HB. pose proof demo_pad as Hpad.
  apply (remount_forgets_appends demo_fs demo_row demo_dev); [done|done|done|done| | |done| |].
  - exact demo_mounted.
  - change (length demo_row) with 25. lia.
  - exact demo_row_string.
  - rewrite Hpad, demo_fs_length, demo_body. change (length demo_row) with 25. lia.
Defined.

Lemma onefile_write_overrun_witness :
  onefile_write demo_big (length demo_big) demo_fs = inl Overrun.
Proof.
  pose proof BLOCK_Z as HB. assert (length demo_big = S BLOCK) as Hl by apply length_replicate.
  apply (onefile_write_overrun demo_fs (length file_body)); [exact demo_mounted|lia|done| | |lia].
  - exact demo_big_string.
  - rewrite demo_fs_length, demo_body, Nat.div_small by lia. lia.
Defined.

(** ** The discoverer *)

(** Four levels of tables, each of them filled with one entry, and a frame whose
    words are those of a table: sys_ni_syscall at the entries of the pattern. *)
Definition demo_ni : Z := 0xffffffff00400000.
Definition demo_word (k : nat) : Z :=
  if decide (k ∈ ni_entries) then demo_ni else (0xffffffff00500000 + Z.of_nat k)%Z.

#[export] Instance demo_machine : Machine :=
  {| cr3 := 0x1000; phys := λ table _, (table + 0x1003)%Z;
     vmem := λ v, if decide (START ≤ v)%Z then Some (demo_word (Z.to_nat ((v mod 4096) / 8))) else None |}.

#[export] Instance demo_machine_laws : MachineLaws.
Proof.
  split.
  - intros v Hv _. cbn [vmem demo_machine]. rewrite decide_True by lia. split; intros _; [by exists 5%Z|by eexists].
  - intros v _. split; [done|]. intros _. split; [done|]. intros _. split; [done|]. split; [done|].
    intros _. split; [done|]. by intros _.
Qed.

Definition demo_tbl : Z := START.
Definition demo_table_words : list Z := demo_word <$> seq 0 256.

Lemma demo_word_at (k : nat) : k < 256 → word demo_tbl (Z.of_nat k) = Some (demo_word k).
Proof.
  intros Hk. unfold word. rewrite uint64_small by (unfold demo_tbl, START; lia).
  cbn [vmem demo_machine]. rewrite decide_True by (unfold demo_tbl; lia). do 2 f_equal. unfold demo_tbl, START.
  replace (18446744069414584320 + 8 * Z.of_nat k)%Z with (Z.of_nat k * 8 + 4503599626321920 * 4096)%Z by lia.
  rewrite Z.mod_add, Z.mod_small, Z.div_mul by lia. lia.
Qed.

Lemma demo_word_ni (k : nat) : demo_word k = demo_ni ↔ k ∈ ni_entries.
Proof. unfold demo_word, demo_ni. case_decide; split; intros; (done || lia). Qed.

Lemma demo_is_table : is_table demo_tbl demo_ni.
Proof.
  split; [|split; [|split; [done|split; [done|split]]]].
  - exists (demo_word 0). by apply (demo_word_at 0); lia.
  - apply (demo_word_at 134). lia.
  - intros k Hk. unfold other_ni in Hk. rewrite !elem_of_cons, elem_of_nil in Hk.
    destruct Hk as [->|[->|[->|[->|[->|[->|[]]]]]]];
      [apply (demo_word_at 174)|apply (demo_word_at 182)|apply (demo_word_at 183)
      |apply (demo_word_at 214)|apply (demo_word_at 215)|apply (demo_word_at 236)]; lia.
  - intros i Hi. unfold FIRST_NI_SYSCALL in Hi. exists (demo_word (Z.to_nat i)). split.
    { rewrite <- (demo_word_at (Z.to_nat i)) by lia. f_equal. lia. }
    rewrite demo_word_ni. unfold ni_entries. rewrite !elem_of_cons, elem_of_nil. lia.
Qed.

Lemma demo_words_at : table_words demo_tbl demo_table_words.
Proof.
  split; [reflexivity|]. intros k v Hv. unfold demo_table_words in Hv.
  rewrite list_lookup_fmap in Hv. apply fmap_Some in Hv as (j & [-> Hj]%lookup_seq & ->).
  by apply demo_word_at.
Qed.

Lemma sys_vtpmo_correct_witness :
  (sys_vtpmo demo_tbl = NO_MAP ↔ hw_walk demo_tbl = None) ∧ sys_vtpmo demo_tbl = 5%Z.
Proof.
  destruct (sys_vtpmo_correct demo_tbl) as [Hno Hf]; [apply kernel_plain; unfold demo_tbl, START; lia|].
  split; [exact Hno|]. by rewrite (Hf 5%Z).
Defined.

Lemma syscall_table_finder_correct_witness :
  syscall_table_finder usctm_start = Some (mk_usctm demo_ni demo_tbl demo_tbl demo_ni (free_entries usctm_start)).
Proof.
  destruct (syscall_table_finder_correct usctm_start)
    as (st' & Hf & [(tbl & ni & Hr & Ht & Hno & ->)|[_ Hno]]).
  - assert (tbl = demo_tbl) as ->.
    { destruct (decide (tbl = demo_tbl)) as [|Hne]; [done|].
      destruct (Hno demo_tbl demo_ni); [unfold demo_tbl in *; lia|done|exact demo_is_table]. }
    assert (ni = demo_ni) as -> by (destruct Ht as (_ & Hw & _); by injection Hw).
    exact Hf.
  - destruct (Hno demo_tbl demo_ni); [unfold demo_tbl, START, MAX_ADDR; lia|done|exact demo_is_table].
Defined.

(** Every address of the search is readable. *)
Lemma demo_words_any tbl : (START ≤ tbl < MAX_ADDR)%Z → ∃ words, table_words tbl words.
Proof.
  intros Htbl.
  set (f := λ k, demo_word (Z.to_nat ((uint64 (tbl + 8 * Z.of_nat k) mod 4096) / 8))).
  exists (f <$> seq 0 256). split; [reflexivity|]. intros k v Hv. rewrite list_lookup_fmap in Hv.
  apply fmap_Some in Hv as (j & [-> Hj]%lookup_seq & ->). unfold word, f. cbn [vmem demo_machine].
  rewrite decide_True; [done|]. rewrite uint64_small by (unfold START, MAX_ADDR in Htbl; lia). lia.
Qed.

Lemma usctm_init_module_correct_witness :
  ∃ st, usctm_init_module usctm_start = Some (0%Z, st) ∧ length (free_entries st) = MAX_FREE.
Proof.
  destruct usctm_init_module_correct
    as (r & st & Hi & [(tbl & ni & words & _ & _ & _ & -> & _ & _ & Hl & _)|[Hno _]]).
  - intros tbl ni Htbl _. by apply demo_words_any.
  - exists st. split; [exact Hi|]. rewrite Hl, length_app, length_replicate, length_fmap, length_take. lia.
  - destruct (Hno demo_tbl demo_ni); [unfold demo_tbl, START, MAX_ADDR; lia|done|exact demo_is_table].
Defined.

Definition demo_found : world :=
  mk_world (w_heap demo_boot)
    (set_sys (mk_sys_table demo_tbl demo_table_words (replicate 6 0%Z) (replicate 6 (-1)%Z) 0
                0x80050033 0 (replicate 6 0%Z)) (w_glob demo_boot)).

(** What the load of the discoverer publishes on this machine. *)
Lemma demo_published :
  ∃ l, usctm_init_module usctm_start = Some (0%Z, mk_usctm demo_ni demo_tbl demo_tbl demo_ni l).
Proof.
  destruct (syscall_table_finder_spec usctm_start) as (st & Hf & [(tbl & ni & Hr & _ & Ht & Hno & ->)|[_ Hno]]).
  - assert (tbl = demo_tbl) as ->.
    { destruct (decide (tbl = demo_tbl)) as [|Hne]; [done|].
      destruct (Hno demo_tbl demo_ni); [unfold demo_tbl in *; lia|done|exact demo_is_table]. }
    assert (ni = demo_ni) as ->.
    { destruct Ht as (_ & Hw & _). unfold FIRST_NI_SYSCALL in Hw. pose proof (demo_word_at 134 ltac:(lia)) as Hd.
      change (Z.of_nat 134) with 134%Z in Hd. rewrite Hd in Hw. by injection Hw as <-. }
    destruct (init_published _ _ _ Hf (ltac:(lia)) demo_is_table demo_words_at) as [_ Hi]. by eexists.
  - destruct (Hno demo_tbl demo_ni); [unfold demo_tbl, START, MAX_ADDR; lia|done|exact demo_is_table].
Qed.

Lemma discovered_table_serves_witness : ∃ st l,
  usctm_init_module usctm_start = Some (0%Z, st) ∧
  get_entries 6 demo_found = Ret (Some (l, demo_ni)) demo_found ∧ length l = 6 ∧
  Z.of_nat <$> l = take 6 (free_entries st).
Proof.
  destruct demo_published as [free Hi]. exists (mk_usctm demo_ni demo_tbl demo_tbl demo_ni free).
  destruct (discovered_table_serves (mk_usctm demo_ni demo_tbl demo_tbl demo_ni free) demo_table_words 6 demo_found)
    as (l & Hl); [exact Hi|exact demo_words_at| | |lia|].
  - split; [done|]. split; [done|]. unfold TABLE_SIZE. cbn [length]. reflexivity.
  - cbn [sys_ni_syscall_address]. clear Hi.
    intros i z u Hiz Hi' Hz. unfold demo_table_words in Hi', Hz. rewrite list_lookup_fmap in Hi', Hz.
    apply fmap_Some in Hi' as (i' & [-> Hi'']%lookup_seq & Hi'), Hz as (z' & [-> Hz']%lookup_seq & Hz).
    rewrite !Nat.add_0_l in *. rewrite Hi' in Hz |- *. unfold demo_word in *.
    case_decide; case_decide; unfold demo_ni in *; (done || lia).
  - exists l. split; [exact Hi|exact Hl].
Defined.
