(* ===== verification/ConcreteClient.v ===== *)
(** * A concrete session

    A kernel whose system call table has the free entries that client.h expects, a
    terminal, and users that type at the client, on which the hypotheses of the
    theorems about the client and the test programs hold; and a driver of the log
    file system that is registered and mounted, with the rows written to it. *)

From S2P Require Import Prelude CString Kernel Utils Blacklist Logger Kprobes Scth Monitor Security Mediation.
From S2P Require Import Syscall Stdio Client Sessions Deployment LogFs LogDriver LogPath UserPrograms.
From S2P Require Import Concrete ConcreteLog.

(** ** Instances *)

#[export] Instance demo_linked_laws : LinkedLaws.
Proof. split. by intros [] []. Qed.

#[export] Instance demo_other_calls : OtherCalls := {| other_call := λ _ _, mret ((- ENOSYS)%Z, []) |}.

#[export] Instance demo_available : Available.
Proof. split; [done|]. intros n. apply demo_crypto_up. Qed.

(** The three modules are loaded; the commands run elsewhere. *)
Definition shell_as (euid : Z) : Shell :=
  {| shell_euid := euid; shell_access := λ _ _, true; shell_run := λ _ w, w |}.

#[export] Instance shell_as_laws euid : ShellLaws (SH := shell_as euid).
Proof. by split. Qed.

Definition terminal_with (ok : bool) : Libc :=
  {| strerror := λ _, lit "error"; user_malloc := λ _ n, Some (replicate (Z.to_nat n) NUL);
     tcgetattr_ok := ok; tcset_new_ok := true; tcset_old_ok := true; after_argv := replicate 64 NUL |}.

#[local] Instance root_shell : Shell := shell_as 0.
#[local] Instance demo_libc : Libc := terminal_with true.

(** ** The kernel *)

(** A table with [sys_ni_syscall], here 77, at the entries of client.h. *)
Definition client_words : list Z :=
  (λ k, if decide (k ∈ client_slots) then 77%Z else Z.of_nat (1000 + k)) <$> seq 0 256.

Definition client_boot : world :=
  mk_world (mk_heap demo_mem 8 0)
    (mk_globals (mk_rf 0 NULL NULL false 0) 1 (demo_krp false false) NULL [] false []
       (mk_sys_table 4096 client_words (replicate 6 0%Z) (replicate 6 (-1)%Z) 0 0x80050033 0 (replicate 6 0%Z)) (λ _, 0)).

Lemma client_table : table client_words client_boot.
Proof. split; [done|]. split; [done|]. by vm_compute; lia. Qed.

Lemma client_free : take HACKED_ENTRIES (slots client_words 77) = client_slots.
Proof. vm_compute. reflexivity. Qed.

Lemma client_repeated : first_repeated client_words 77.
Proof.
  destruct (get_entries_run client_words 6 client_boot) as (r & Hr & Hspec); [by apply client_table|].
  assert (get_entries 6 client_boot = Ret (Some (client_slots, 77%Z)) client_boot) as Hc
    by (vm_compute; reflexivity).
  assert (r = Some (client_slots, 77%Z)) as ->.
  { apply (f_equal (λ o, match o with Ret x _ => x | Crash _ => None end)) in Hr.
    rewrite Hc in Hr. by symmetry. }
  by inversion Hspec.
Qed.

Lemma client_unloaded : unloaded demo_password client_boot.
Proof. split; [by apply demo_wf|done|]. by exists demo_user. Qed.

Lemma client_bound : Forall (λ k, k < length client_words) client_slots.
Proof. rewrite <- client_free. by eapply installed_bound, client_table. Qed.

(** The kernel with the module loaded. *)
Definition client_world : world := result (init_module client_boot) client_boot.

Lemma client_deployed : deployed demo_digest client_words 77 bl_empty client_world.
Proof.
  destruct (init_module_run client_words 77 demo_password client_boot) as (w' & Hr & Hs & _ & _ & Hi).
  - apply client_unloaded.
  - apply client_table.
  - apply client_repeated.
  - vm_compute. lia.
  - apply demo_crypto_up.
  - reflexivity.
  - reflexivity.
  - unfold client_world. rewrite Hr. rewrite client_free in Hi. by split.
Qed.

(** The same in a reconfiguration state. *)
Definition rec_world : world :=
  match sys_call SWITCH_STATE [AInt RF_REC_ON; APtr demo_user] client_world with
  | inr (_, w) => w
  | inl _ => client_world
  end.

#[local] Strategy 1000 [client_world rec_world].

Lemma client_state : rf_state (rf client_world) = RF_OFF.
Proof. vm_compute. reflexivity. Qed.

#[local] Instance demo_monitor : MonitorSpec world :=
  kernel_monitor demo_digest client_words 77 client_bound.

(** ** The terminal *)

Definition typing (s : buf) (w : world) : proc world := mk_proc s [] [] 0 0 w.
Definition demo_locals : locals :=
  mk_locals demo_user (replicate PATH_MAX NUL) (mk_mod_info None (replicate sizeof_command NUL)) None.

Lemma demo_ready s w st l : monitor w st l → ready demo_locals (typing s w) st l.
Proof. intros Hm. split; [reflexivity|apply length_replicate|exact Hm]. Qed.

Lemma off_monitor : monitor client_world RF_OFF [].
Proof. exists bl_empty. split; [apply client_deployed|]. split; [apply client_state|done]. Qed.

Lemma demo_right : accepts demo_password && root = true.
Proof. vm_compute. reflexivity. Qed.

Lemma rec_monitor : monitor rec_world RF_REC_ON [].
Proof.
  destruct (monitor_switch client_world RF_OFF [] RF_REC_ON demo_user demo_password off_monitor)
    as (w' & Hc & Hm); [unfold RF_REC_ON; lia|vm_compute; lia|reflexivity|].
  unfold rec_world. rewrite Hc. unfold switch_state in Hm. by rewrite demo_right in Hm.
Qed.

Lemma demo_terminal : terminal.
Proof. by split_and!. Qed.

Lemma demo_typed : typed demo_password.
Proof. split; [by compute_done|vm_compute; lia|done|by compute_done]. Qed.

(** ** The theorems on the concrete system: the client *)


(** A system where the modules are loaded and nothing has a state. *)
#[local] Instance idle_sys : Sys unit :=
  {| sys_call := λ _ _ s, inr ((0%Z, []), s); sys_access := λ _ _, true; sys_command := λ _ s, s |}.

(** The user asks for the home menu. *)
Definition to_home : proc unit := mk_proc (line (lit "home")) [] [] 0 0 tt.
Definition at_home : next * locals * proc unit :=
  match main_step MODULE_LOOP demo_locals to_home with
  | inr r => r
  | inl _ => (Exit EXIT_FAILURE, demo_locals, to_home)
  end.

Lemma module_menu_turns_witness :
  at_home.1.1 = Goto HOME ∧ module_turn tt (Goto HOME) tt ∧ Goto HOME ≠ Exit EXIT_FAILURE ∧
  length (mod_command (lo_mod at_home.1.2)) = sizeof_command.
Proof.
  split; [vm_compute; reflexivity|].
  apply (module_menu_turns demo_locals to_home (Goto HOME) at_home.1.2 at_home.2);
    [done|reflexivity|left; vm_compute; reflexivity].
Defined.

Lemma module_menu_faults_witness :
  main_step MODULE_LOOP demo_locals (typing (line (lit "install")) client_world) = inl (Fault NullDeref) ∧
  main_step MODULE_LOOP demo_locals (typing (line (replicate 256 "x"%char)) client_world) =
    inl (Fault Overrun).
Proof.
  split.
  - apply (module_menu_faults demo_locals _ [] []); [done|]. reflexivity.
  - apply (module_menu_faults demo_locals _ [] (replicate 256 "x"%char)); [done| | | |].
    + rewrite length_replicate. lia.
    + by intros [=]%elem_of_replicate_inv.
    + by intros c [= <-].
    + by rewrite app_nil_r.
Defined.

(** *** Sessions *)

Lemma demo_edited : edited demo_password = demo_password.
Proof. reflexivity. Qed.

Lemma demo_switch_state st st' : switch_state accepts root st st' demo_password = st'.
Proof. unfold switch_state. by rewrite demo_right. Qed.

Lemma demo_add_paths : add_paths accepts root RF_REC_ON [] (lit "/b") demo_password = [lit "/b"].
Proof. unfold add_paths. rewrite demo_right. reflexivity. Qed.

Lemma demo_remove_paths : remove_paths accepts root RF_REC_ON [] (lit "/b") demo_password = [].
Proof. unfold remove_paths. rewrite demo_right. reflexivity. Qed.

Definition switching (text : buf) : proc world :=
  typing (line (lit "1") ++ line (lit "0") ++ text) client_world.

Lemma switch_session_witness :
  ∃ lo' p', main_step HOME demo_locals (switching (line demo_password ++ line [])) =
    inr ((Goto HOME, lo'), p') ∧ p_in p' = [] ∧ ready lo' p' RF_ON [].
Proof.
  pose proof (switch_session demo_locals (switching (line demo_password ++ line []))
    RF_OFF [] "0"%char 0 demo_password [] demo_terminal (demo_ready _ _ _ _ off_monitor) eq_refl
    ltac:(lia) demo_typed eq_refl) as H.
  rewrite demo_edited, demo_switch_state in H. exact H.
Defined.

Lemma stale_password_session_witness :
  ∃ lo' p', main_step (LC := terminal_with false) HOME demo_locals (switching (line [])) =
    inr ((Goto HOME, lo'), p') ∧ p_in p' = [] ∧ ready lo' p' RF_ON [].
Proof.
  pose proof (stale_password_session (LC := terminal_with false) demo_locals (switching (line []))
    RF_OFF [] "0"%char 0 demo_password [] eq_refl (demo_ready _ _ _ _ off_monitor) eq_refl eq_refl
    ltac:(lia) eq_refl) as H.
  rewrite demo_switch_state in H. exact H.
Defined.

Lemma demo_typed_path : typed_path (lit "/b").
Proof. split; [done|reflexivity|by compute_done|]. change (2 < PATH_MAX). unfold PATH_MAX. lia. Qed.

Definition editing (choice : string) : proc world :=
  typing (line (lit choice) ++ line (lit "/b") ++ line demo_password ++ line []) rec_world.

Lemma edit_session_witness :
  (∃ lo' p', main_step HOME demo_locals (editing "3") =
    inr ((Goto HOME, lo'), p') ∧ p_in p' = [] ∧ ready lo' p' RF_REC_ON [lit "/b"]) ∧
  (∃ lo' p', main_step HOME demo_locals (editing "4") =
    inr ((Goto HOME, lo'), p') ∧ p_in p' = [] ∧ ready lo' p' RF_REC_ON []).
Proof.
  assert (2 ≤ RF_REC_ON)%Z as Hst by (unfold RF_REC_ON; lia). split.
  - pose proof (edit_session demo_locals (editing "3") RF_REC_ON [] (lit "/b") demo_password [] demo_terminal
      (demo_ready _ _ _ _ rec_monitor) Hst demo_typed_path demo_typed) as [H _].
    rewrite demo_edited, demo_add_paths in H. by apply H.
  - pose proof (edit_session demo_locals (editing "4") RF_REC_ON [] (lit "/b") demo_password [] demo_terminal
      (demo_ready _ _ _ _ rec_monitor) Hst demo_typed_path demo_typed) as [_ H].
    rewrite demo_edited, demo_remove_paths in H. by apply H.
Defined.

Lemma exit_session_witness :
  ∃ p', main_from 2 HOME demo_locals (typing (line (lit "3") ++ line (lit "exit")) client_world) =
    Some (inr (EXIT_SUCCESS, p')).
Proof.
  apply (exit_session demo_locals (typing (line (lit "3") ++ line (lit "exit")) client_world) RF_OFF [] []).
  - apply demo_ready, off_monitor.
  - by eexists.
  - reflexivity.
Defined.

Lemma switch_reconfigure_session_witness :
  ∃ p', switch_reconfigure [lit "switch_reconfigure"; lit "2"; demo_password] (typing [] client_world) =
      inr (EXIT_SUCCESS, p') ∧ monitor (p_sys p') RF_REC_ON [].
Proof.
  pose proof (switch_reconfigure_session (lit "switch_reconfigure") (lit "2") demo_password RF_OFF [] 2
    (typing [] client_world) off_monitor eq_refl ltac:(lia) ltac:(by compute_done) ltac:(vm_compute; lia)
    ltac:(vm_compute; lia)) as H.
  rewrite demo_right, demo_switch_state in H. exact H.
Defined.

(** *** On the kernel *)

Lemma errors_change_nothing_witness :
  secure demo_digest demo_list (demo RF_OFF) ∧ rf_state (rf (demo RF_OFF)) = RF_OFF.
Proof.
  destruct (errors_change_nothing add_blacklist [APtr (lit "/b"); APtr demo_user] 0 demo_digest demo_list
    (- EPERM)%Z [] (demo RF_OFF) (demo RF_OFF)) as (Hs & _ & Hst); [by apply demo_secure|reflexivity|done|].
  split; [exact Hs|]. by destruct Hst as [Hst|[Hst _]].
Defined.

(** A user other than root, with the right password. *)
Definition user_sys : Sys world := kernel_sys (SH := shell_as 1000).
Definition user_monitor : MonitorSpec world (SY := user_sys) :=
  kernel_monitor (SH := shell_as 1000) demo_digest client_words 77 client_bound.

Lemma unprivileged_programs_witness :
  ∃ res p', switch_reconfigure (SY := user_sys) [lit "switch_reconfigure"; lit "0"; demo_password]
      (typing [] client_world) = inr (res, p') ∧
    rf_state (rf (p_sys p')) = RF_OFF ∧ deployed demo_digest client_words 77 bl_empty (p_sys p').
Proof.
  destruct (wp_switch_reconfigure (SY := user_sys) (MS := user_monitor) (lit "switch_reconfigure") (lit "0")
    demo_password RF_OFF [] 0 (λ _ _, True) (typing [] client_world) off_monitor eq_refl ltac:(lia)
    ltac:(by compute_done) ltac:(vm_compute; lia) ltac:(vm_compute; lia) ltac:(done)) as (z & p' & Hr & _).
  exists z, p'. split; [exact Hr|].
  destruct (unprivileged_programs (SH := shell_as 1000) demo_digest client_words 77 bl_empty
    (typing [] client_world) client_bound client_deployed ltac:(done)) as [_ H].
  destruct (H _ z p' Hr) as [Hst Hd]. split; [|exact Hd]. rewrite Hst. exact client_state.
Defined.

Lemma loaded_kernel_session_witness :
  ∃ w1, init_module client_boot = Ret 0%Z w1 ∧
    ∀ p, p_sys p = w1 → p_in p = line (lit "1") ++ line (lit "2") ++ line demo_password ++ line [] →
    ∃ lo' p', main_step HOME demo_locals p = inr ((Goto HOME, lo'), p') ∧ p_in p' = [] ∧
      (∃ a, deployed (sha256 demo_password) client_words 77 a (p_sys p') ∧ bl_paths a = []) ∧
      rf_state (rf (p_sys p')) = RF_REC_ON.
Proof.
  pose proof (loaded_kernel_session client_words 77 demo_password client_boot demo_locals "2"%char 2
    demo_password [] client_unloaded client_table client_repeated client_free (λ l, eq_refl)
    demo_terminal eq_refl (length_replicate _ _) eq_refl ltac:(lia) demo_typed) as H.
  rewrite decide_True in H by done. exact H.
Defined.

(** ** The driver of the log file system *)

#[export] Instance demo_fs_types : FsTypes :=
  {| register_filesystem := λ name l,
       if decide (name ∈ l) then ((- EBUSY)%Z, l) else (0%Z, l ++ [name]);
     unregister_filesystem := λ name l,
       if decide (name ∈ l) then (0%Z, filter (.≠ name) l) else ((- EINVAL)%Z, l) |}.

#[export] Instance demo_fs_types_laws : FsTypesLaws.
Proof. split; intros name l Hin; simpl; by case_decide. Qed.

#[export] Instance demo_mount : MountBdev :=
  {| bdev_ok := true;
     mount_bdev := λ fill kill s,
       if fs_root s then inr (inr tt, s)
       else (z ← fill; if decide (z = 0%Z) then mret (inr tt) else kill ;; mret (inl z)) s |}.

#[export] Instance demo_mount_laws : MountLaws.
Proof.
  split.
  - done.
  - intros fill kill s Hs. exists (inr tt). cbn [mount_bdev demo_mount]. by rewrite Hs.
  - intros fill kill s _ Hs. cbn [mount_bdev demo_mount]. by rewrite Hs.
Qed.

Lemma log_driver_registers_witness :
  ∃ d, singlefilefs_init (mk_driver [lit "ext4"] demo_fs) = (0%Z, d) ∧ fs_mutex (ld_fs d) = false ∧
    singlefilefs_init d = ((- EBUSY)%Z, d) ∧ ld_types (singlefilefs_exit d) = [lit "ext4"] ∧
    ∀ b, fs_mutex (ld_fs (singlefilefs_init (mk_driver (ld_types d) (fs_set_mutex b (ld_fs d)))).2) = false.
Proof. apply (log_driver_registers [lit "ext4"] demo_fs). by compute_done. Defined.

Lemma demo_formatted : formatted (image demo_dev) (length file_body).
Proof.
  pose proof BLOCK_Z as HB. pose proof demo_body. pose proof demo_fs_length as Hl. cbn [fs_dev demo_fs] in Hl.
  split; [apply image_magic|apply image_size|rewrite Hl; lia|rewrite Hl; lia].
Qed.

Lemma demo_holds : holds_image (image demo_dev) (length file_body) demo_fs.
Proof.
  pose proof BLOCK_Z as HB. pose proof demo_body. split; [done|done|done|]. intros z [= <-].
  exists (length file_body). split; [done|]. split; [done|].
  pose proof demo_fs_length as Hl. cbn [fs_dev demo_fs] in Hl. rewrite Hl. lia.
Qed.

Lemma log_runs_keep_image_witness :
  ∃ s', onefile_write demo_row (length demo_row) demo_fs = inr (25%Z, s') ∧
    holds_image (image demo_dev) (length file_body) s' ∧
    ∃ s0 s1 s2, singlefilefs_kill_superblock s' = inr (tt, s0) ∧ singlefilefs_mount s0 = inr (inr tt, s1) ∧
     onefilefs_lookup UNIQUE_FILE_NAME s1 = inr (LDentry true, s2) ∧
     fs_inode s2 = Some (Z.of_nat (length file_body)) ∧
     content s2 (length file_body) = slice (image demo_dev) (2 * BLOCK) (length file_body).
Proof.
  pose proof BLOCK_Z as HB. pose proof demo_pad as Hpad. pose proof demo_body as Hb.
  destruct (write_run demo_fs (length file_body) demo_row demo_mounted) as (s' & Hw & _).
  { change (length demo_row) with 25. lia. }
  { reflexivity. }
  { apply demo_row_string. }
  { rewrite Hpad, Hb, demo_fs_length. change (length demo_row) with 25. lia. }
  exists s'. split; [exact Hw|].
  destruct (log_runs_keep_image (image demo_dev) (length file_body) demo_fs s' demo_formatted demo_holds)
    as [Hh Hre].
  - apply rtc_once. by eapply ls_write.
  - split; [exact Hh|]. by apply Hre.
Defined.

(** ** The way of a row *)

Definition demo_log_vfs : vfs := mk_vfs demo_fs true.

Lemma demo_log_open : log_open demo_log_vfs (length file_body).
Proof. by split; [apply demo_mounted|..]. Qed.

Lemma demo_after r : length r ≤ 255 → is_Some (c_str (r ++ heap_after (length r))).
Proof.
  intros _. destruct (c_str _) as [x|] eqn:He; [by exists x|]. apply c_str_None in He. set_solver.
Qed.

Lemma demo_runs_program : runs_program demo_task (lit "/bin/sh").
Proof. exists (at_path "/bin/sh"). split; [done|]. apply demo_dentry; [simpl; lia|by compute_done]. Qed.

(** Rows that fit in the first block take no padding. *)
Lemma pad_first off n : off + n < BLOCK → pad off n = 0.
Proof. intros H. unfold pad. rewrite decide_False; [done|]. rewrite Nat.mod_small; lia. Qed.

Lemma demo_rows_fit t s off n : off + n * 255 < BLOCK →
  off ≤ size_after off (replicate n (log_row t s)) ≤ off + n * 255.
Proof.
  pose proof (log_row_length t s) as Hr. revert off. induction n as [|n IH]; intros off Hn; [simpl; lia|].
  cbn [replicate size_after]. rewrite pad_first by lia. specialize (IH (off + 0 + length (log_row t s))). lia.
Qed.

(** The opening of the log file. *)
#[export] Instance demo_log_file : LogOpen :=
  {| filp_open := λ path '(w, v),
       if decide (path = LOG_FILE ∧ fs_root (v_fs v) = true ∧ v_dentry v = true) then
         of_K (k ← get_krp file_open;
           probed_call k (mk_regs _ (KFile (mk_file _ (at_path "/ref_monitor_log.txt") O_WRONLY)) KOther KOther KOther)
             (mk_task _ 20 20 0 0 None) (mret 0%Z)) (w, v)
       else inr ((- ENOENT)%Z, (w, v));
     log_dentry := at_path "/ref_monitor_log.txt"; worker := mk_task _ 20 20 0 0 None |}.

#[export] Instance demo_log_laws : LogOpenLaws.
Proof.
  split.
  - intros w v Hroot Hd. cbn [filp_open demo_log_file]. by rewrite decide_True by done.
  - intros w v Hroot. exists (- ENOENT)%Z. split; [done|]. cbn [filp_open demo_log_file].
    rewrite decide_False; [done|]. intros (_ & Hr & _). congruence.
  - done.
  - apply (demo_dentry "/ref_monitor_log.txt"); [simpl; lia|by compute_done].
Qed.

Lemma demo_log_free st : ¬ protected (rf_state (rf (demo st))) demo_list log_path.
Proof.
  intros (_ & _ & _ & He). revert He. change (bl_paths demo_list) with [lit "/tmp/a"].
  rewrite Exists_cons, Exists_nil. intros [He|[]]. apply (bool_decide_pack _) in He. by vm_compute in He.
Qed.

Lemma blocked_accesses_reach_log_file_witness :
  let rows := replicate 2 (log_row demo_task (lit "/bin/sh")) in
  ∃ w1 ps w2 v' c, log_all [demo_task; demo_task] (demo RF_ON) = Ret tt w1 ∧ g_queue (w_glob w1) = ps ∧
    run_queue ps (w_put (set_queue [] (w_glob w1)) w1, demo_log_vfs) = inr (tt, (w2, v')) ∧
    read_all (S (length c)) BLOCK 0 (v_fs v') = inr (c, v_fs v') ∧
    content demo_fs (length file_body) `prefix_of` c ∧ rows_at c (length file_body) rows.
Proof.
  apply (blocked_accesses_reach_log_file demo_digest demo_list [demo_task; demo_task] [lit "/bin/sh"; lit "/bin/sh"]
    (demo RF_ON) demo_log_vfs (length file_body)); [done|apply demo_crypto_up|done|apply demo_after
    |by apply demo_secure|apply demo_log_free|done| |apply demo_log_open|].
  - repeat constructor; apply demo_runs_program.
  - cbn [v_fs demo_log_vfs]. rewrite demo_fs_length, demo_body. pose proof BLOCK_Z as HB.
    pose proof (demo_rows_fit demo_task (lit "/bin/sh") 58 2 ltac:(lia)) as Hf.
    change ((λ e, log_row e.1 e.2) <$> zip [demo_task; demo_task] [lit "/bin/sh"; lit "/bin/sh"]) with
      (replicate 2 (log_row demo_task (lit "/bin/sh"))). lia.
Defined.

(** A queued item. *)
Lemma queued_in dg a w : secure dg a w → ∃ w' p, secure dg a w' ∧ rf w' = rf w ∧ queued w' p demo_task (lit "/bin/sh").
Proof.
  intros Hsec. destruct (write_on_log_run demo_task (at_path "/bin/sh") (lit "/bin/sh") w) as (w' & p & Hr & Hle & Hg & Hq & _).
  - apply Hsec.
  - reflexivity.
  - apply demo_dentry; [simpl; lia|by compute_done].
  - apply demo_mem_up.
  - apply fresh_byte_zero.
  - exists w', p. split; [|split; [by rewrite Hg|done]]. eapply secure_frame; [exact Hsec|apply Hle, Hsec|by rewrite Hg..|].
    intros q o Ho _. eapply lookup_weaken; [exact Ho|apply Hle].
Qed.

(** The kernel whose list has / as well. *)
Lemma demo_all_protected :
  ∃ w p, secure demo_digest (bl_snoc (lit "/") demo_list) w ∧ rf_state (rf w) = RF_ON ∧
    queued w p demo_task (lit "/bin/sh").
Proof.
  pose proof (add_refines (lit "/") demo_list (demo RF_ON) (demo_rep _)) as (w & _ & Hf & Hr).
  destruct (queued_in demo_digest (bl_snoc (lit "/") demo_list) w) as (w' & p & Hs & Hrf & Hq).
  { eapply secure_list; [exact Hf|exact Hr|by apply demo_secure]. }
  exists w', p. split; [done|]. split; [by rewrite Hrf, (list_frame_state _ _ Hf)|done].
Qed.

Lemma protected_log_faults_witness :
  ∃ w p, secure demo_digest (bl_snoc (lit "/") demo_list) w ∧ queued w p demo_task (lit "/bin/sh") ∧
    deferred_work_fs p (w, demo_log_vfs) = inl NullDeref.
Proof.
  destruct demo_all_protected as (w & p & Hsec & Hst & Hq). exists w, p. split; [exact Hsec|]. split; [exact Hq|].
  apply (protected_log_faults demo_digest (bl_snoc (lit "/") demo_list) 2 demo_task (lit "/bin/sh") p w demo_log_vfs
    (length file_body)).
  - reflexivity.
  - apply demo_crypto_up.
  - exact Hsec.
  - exists 0. split; [reflexivity|simpl; lia].
  - lia.
  - rewrite Hst. split; [by left|]. apply Exists_cons. left. by compute_done.
  - apply demo_log_open.
  - exact Hq.
Defined.

(** The file system that is not mounted. *)
Definition unmounted_vfs : vfs := mk_vfs (mk_sfs (image demo_dev) None false false) false.

Lemma log_row_errors_witness :
  ∃ w p w', deferred_work_fs p (w, unmounted_vfs) = inr (tt, (w', unmounted_vfs)) ∧ is_Some (mem w' !! p).
Proof.
  destruct (queued_in demo_digest demo_list (demo RF_ON)) as (w & p & Hsec & _ & Hq); [by apply demo_secure|]. exists w, p.
  assert (wf w) as Hwf by apply Hsec.
  destruct (log_row_errors demo_task (lit "/bin/sh") p w unmounted_vfs demo_crypto_up Hwf Hq) as [H _].
  destruct (H eq_refl) as (w' & Hr & _ & Hp). by exists w'.
Defined.

(** ** The test programs *)

#[export] Instance demo_user_env : UserEnv :=
  {| pw_name := Some (lit "stack1"); login := Some (lit "stack1"); after_literal := λ _, replicate 64 NUL;
     frame := replicate 300 "x"%char; stray_int := 77; stray_ptr := []; open_frame := replicate 32 NUL |}.

Lemma add_user_session_witness :
  ∃ p', add_user (typing [] rec_world) = inr (0%Z, p') ∧
    monitor (p_sys p') RF_REC_ON [lit "/home/stack1/Desktop/rf/"].
Proof.
  destruct (add_user_session (typing [] rec_world) RF_REC_ON [] rec_monitor) as (p' & Hr & Hm);
    [by exists (lit "stack1")|vm_compute; lia..|]. exists p'.
  pose proof demo_right as Hright. apply andb_true_iff in Hright as [Ha Hro].
  rewrite decide_True in Hr.
  2:{ clear Hr Hm. split; [unfold RF_REC_ON; lia|]. split; [exact Ha|]. split; [exact Hro|]. apply not_elem_of_nil. }
  split; [exact Hr|]. clear Hr. change (lit "pippo") with demo_password in Hm. unfold add_paths in Hm.
  rewrite demo_right in Hm. exact Hm.
Defined.

Lemma remove_user_session_witness :
  ∃ u s1, user_path u = Some (lit "/home/stack1/Desktop/rf/") ∧
    sys_call REMOVE_FROM_BLACKLIST [APtr u; APtr (literal (lit "1234"))] rec_world = inr (((- EACCES)%Z, []), s1) ∧
    monitor s1 RF_REC_ON [] ∧
    (int32 stray_int ≠ counter s1 → ∃ p', remove_user (typing [] rec_world) = inr (1%Z, p') ∧ p_sys p' = s1).
Proof.
  apply (remove_user_session (UE := demo_user_env) (typing [] rec_world) RF_REC_ON [] (lit "stack1") rec_monitor eq_refl);
    [by compute_done|vm_compute; lia..].
Defined.

#[export] Instance demo_open_call : OpenCall :=
  {| open_call := λ path v, if decide (path = LOG_FILE) then (3%Z, v) else ((- ENOENT)%Z, v) |}.
#[export] Instance demo_open_laws : OpenLaws.
Proof.
  split. intros name v s Hroot Hn Hl. cbn [open_call demo_open_call].
  assert (∀ x, onefilefs_lookup x (v_fs v) = inr (LNone, s) → x ≠ UNIQUE_FILE_NAME ∧ s = v_fs v) as Hx.
  { intros x. unfold onefilefs_lookup. intros Hx. split.
    - intros ->. rewrite lookup_name_eq in Hx. revert Hx. erewrite FS_bind_inr by reflexivity. rewrite decide_True by done.
      destruct (negb _); [done|]. unfold fs_get. erewrite FS_bind_inr by reflexivity. destruct (fs_inode _); [done|].
      unfold mbind, FS_bind. destruct (sb_bread _ _) as [|[[b|] s']]; [done| |done]. by destruct (i_size_write _ _) as [|[]].
    - revert Hx. unfold mbind, FS_bind. destruct (fs_opt _ _ _) as [|[c s0]] eqn:Hc; [done|].
      assert (s0 = v_fs v) as ->. { unfold fs_opt in Hc. destruct (strcmp _ _); [by injection Hc|done]. }
      case_decide; [|by intros [= <-]]. destruct (negb _); [done|].
      destruct (fs_get _) as [|[]]; [done|]. destruct (fs_inode _); [done|]. destruct (sb_bread _ _) as [|[[b|] s']]; [done| |done].
      by destruct (i_size_write _ _) as [|[]]. }
  destruct (Hx name Hl) as [Hne ->]. rewrite decide_False; [by destruct v|].
  intros He. apply Hne. by apply (inj (MOUNT_DIR ++.)).
Qed.

Lemma log_user_misses_file_witness :
  ∃ p' gap, log_user_to LOG_FILE (mk_proc [] [] [] 0 0 demo_log_vfs) = inr (0%Z, p') ∧ length gap = 0 ∧
    content (v_fs (p_sys p')) 89 = content demo_fs 58 ++ gap ++ LOG_MESSAGE.
Proof.
  destruct (log_user_misses_file (mk_proc [] [] [] 0 0 demo_log_vfs)) as [_ H]; [reflexivity|].
  pose proof BLOCK_Z as HB. specialize (H LOG_FILE 3%Z (length file_body) eq_refl ltac:(lia) demo_mounted eq_refl).
  change (length LOG_MESSAGE) with 31 in H. rewrite demo_body, pad_first in H by lia. apply H.
  - apply (demo_after LOG_MESSAGE). vm_compute. lia.
  - cbn [p_sys v_fs demo_log_vfs]. rewrite demo_fs_length. lia.
Defined.
