(* ===== verification/ConcreteThreads.v ===== *)
(** * Concrete processors

    The world of Concrete with several processors: the three races, and five requests
    that run at the same time, on which the hypotheses of the theorems about every
    interleaving hold. *)

From S2P Require Import Prelude CString Kernel Utils Blacklist Logger Kprobes Scth Monitor Security.
From S2P Require Import Mediation Concurrency ProbeThreads ProbeLogic Interleaving Concrete.
From S2P Require Import LogFs LogPath LogInterleaving ConcreteLog ConcreteClient.

(** ** Races *)

Lemma switch_race_witness :
  ∃ w', rtc pool_step ([switch_thread RF_ON demo_user 0; switch_thread RF_OFF demo_user 0], demo RF_OFF)
      ([Done RF_ON; Done RF_ON], w') ∧
    rf_state (rf w') = RF_ON ∧ (∀ p, kp_enabled (g_krp (w_glob w') p) = false) ∧
    ¬ ∃ a', secure demo_digest a' w'.
Proof.
  apply (switch_race demo_digest demo_user demo_password demo_list (demo RF_OFF)).
  - reflexivity.
  - apply demo_crypto_up.
  - vm_compute. lia.
  - reflexivity.
  - reflexivity.
  - by apply demo_secure.
Defined.

Lemma edit_race_witness :
  ∃ ts w1 w2,
    rtc pool_step ([remove_thread (lit "/tmp/a") demo_user 0; switch_thread RF_ON demo_user 0],
      demo RF_REC_ON) (ts, w1) ∧
    secure demo_digest demo_list w1 ∧ rf_state (rf w1) = RF_ON ∧
    rtc pool_step (ts, w1) ([Done 0%Z; Done RF_ON], w2) ∧
    secure demo_digest (bl_remove (lit "/tmp/a") demo_list) w2 ∧ rf_state (rf w2) = RF_ON.
Proof.
  apply (edit_race demo_digest demo_user demo_password (lit "/tmp/a") (lit "/tmp/a") demo_list (demo RF_REC_ON)).
  - reflexivity.
  - apply demo_crypto_up.
  - vm_compute. lia.
  - reflexivity.
  - reflexivity.
  - by apply demo_secure.
  - unfold demo, RF_REC_ON. cbn. lia.
  - vm_compute. reflexivity.
  - by compute_done.
Defined.

(** The kernel with a second path. *)
Lemma demo_two_paths :
  ∃ w, secure demo_digest (bl_snoc (lit "/b") demo_list) w ∧ rf_state (rf w) = RF_REC_ON.
Proof.
  pose proof (add_refines (lit "/b") demo_list (demo RF_REC_ON) (demo_rep _)) as (w & _ & Hf & Hr).
  exists w. split; [|by rewrite (list_frame_state _ _ Hf)]. eapply secure_list; [exact Hf|exact Hr|by apply demo_secure].
Qed.

Lemma print_race_witness :
  ∃ w t w', secure demo_digest (bl_snoc (lit "/b") demo_list) w ∧
    rtc pool_step ([r ← print_thread 100 2; mret r.1; remove_thread (lit "/b") demo_user 0], w) ([t; Done 0%Z], w') ∧
    faults t w'.
Proof.
  destruct demo_two_paths as (w & Hsec & Hst).
  destruct (print_race 100 (lit "/b") (lit "/tmp/a") (lit "/b") demo_user demo_password demo_digest
    (bl_snoc (lit "/b") demo_list) w) as (t & w' & Hr & Hf).
  - reflexivity.
  - apply demo_crypto_up.
  - exact Hsec.
  - rewrite Hst. unfold RF_REC_ON. lia.
  - vm_compute. lia.
  - reflexivity.
  - reflexivity.
  - vm_compute. reflexivity.
  - reflexivity.
  - vm_compute. lia.
  - vm_compute. by split.
  - reflexivity.
  - vm_compute. by eexists.
  - exists w, t, w'. split; [exact Hsec|]. split; [exact Hr|exact Hf].
Defined.

(** ** Five requests *)

(** The dispatch of the probes, one part after the other, with two instances of each
    probe. *)
#[export] Instance demo_kretprobe_threads : KretprobeThreads :=
  {| instances := λ _, 2;
     probed_thread := λ p k regs t f,
       if kp_enabled k then
         match kp_entry k with
         | Some h =>
             b ← part (take_instance 2 p);
             if b : bool then
               r ← run_entry_thread h regs;
               match r with
               | (0%Z, Some m) =>
                   if kp_handler k then f ;; z ← ret_handler_thread t m; part (give_instance p) ;; mret z else f
               | _ => part (give_instance p) ;; f
               end
             else f
         | None => f
         end
       else f |}.

#[export] Instance demo_kretprobe_thread_laws : KretprobeThreadLaws.
Proof.
  split; simpl probed_thread.
  - intros p k regs t f ->. done.
  - intros p k h regs t f -> ->. eexists. split; [reflexivity|]. split; [by intros []|by intros ->].
Qed.

(** The deletion of a protected file, an addition, a removal of the added path, a
    switch and the counter. *)
Definition demo_requests : list request :=
  [RCall file_delete (demo_regs "/tmp/a/b") demo_task demo_fun; RAdd (lit "/b") demo_user 0;
   RRemove (lit "/b") demo_user 0; RSwitch RF_REC_ON demo_user 0; RSize].

Lemma demo_password_readable : password_readable demo_user.
Proof. split; [vm_compute; lia|]. by exists demo_password. Qed.

Lemma demo_call_ok :
  call_ok file_delete (demo_regs "/tmp/a/b") demo_task demo_fun [lit "/tmp/a/b"] (lit "/bin/sh").
Proof.
  destruct (demo_call RF_ON "/tmp/a/b") as [_ _ _ Ht Hx _ _]; [done|simpl; lia|by compute_done|].
  split; [exact Ht|exact Hx|]. intros w _. by exists 0%Z, w.
Qed.

Lemma demo_requests_ok : Forall request_ok demo_requests.
Proof.
  pose proof demo_password_readable. unfold demo_requests.
  constructor; [exists [lit "/tmp/a/b"], (lit "/bin/sh"); apply demo_call_ok|].
  constructor; [split; [done|by exists (lit "/b")]|]. constructor; [split; [done|by exists (lit "/b")]|].
  by repeat constructor.
Qed.

Lemma demo_kept : ¬ removed demo_requests (lit "/tmp/a").
Proof.
  intros (path & u & euid & Hin & Hp). unfold demo_requests in Hin.
  rewrite !elem_of_cons in Hin. destruct Hin as [|[|[[= -> -> ->]|[|[|Hin]]]]]; [done..|by apply not_elem_of_nil in Hin].
Qed.

Lemma demo_switched st : switched demo_requests st → st = RF_ON ∨ st = RF_REC_ON.
Proof.
  intros (_ & u & euid & Hin). unfold demo_requests in Hin. rewrite !elem_of_cons in Hin.
  destruct Hin as [|[|[|[[= -> _ _]|[|Hin]]]]]; [done..|by right|done|by apply not_elem_of_nil in Hin].
Qed.

(** No path of these protects the log file. *)
Lemma demo_log_entries k : k ∈ bl_paths demo_list ∨ added demo_requests k → ¬ matches k log_path.
Proof.
  intros Hk.
  assert (k = lit "/tmp/a" ∨ k = lit "/b") as [-> | ->].
  { destruct Hk as [Hk|(path & u & euid & Hin & Hp)].
    - left. by apply list_elem_of_singleton in Hk.
    - right. unfold demo_requests in Hin. rewrite !elem_of_cons in Hin.
      destruct Hin as [|[[= -> -> ->]|[|[|[|Hin]]]]]; [done|by injection Hp|done..|by apply not_elem_of_nil in Hin]. }
  - by compute_done.
  - by compute_done.
Qed.

(** A run in which all have returned. *)
Lemma demo_run : ∃ ts w' z,
  rtc pool_step (thread_of <$> demo_requests, demo RF_ON) (ts, w') ∧ Forall returned ts ∧ ts !! 0 = Some (Done z).
Proof.
  destruct (all_return demo_digest demo_list demo_requests (demo RF_ON)) as (ts & w' & Hrun & Hret & Hlen).
  - reflexivity.
  - apply demo_crypto_up.
  - by apply demo_secure.
  - exact demo_requests_ok.
  - destruct ts as [|t ts]; [done|]. apply Forall_cons in Hret as [[z ->] Hr].
    exists (Done z :: ts), w', z. split; [exact Hrun|]. split; [|done]. constructor; [by exists z|done].
Qed.

Lemma interleaving_safe_witness : ∃ ts w',
  rtc pool_step (thread_of <$> demo_requests, demo RF_ON) (ts, w') ∧
  Forall (λ t, ¬ faults t w') ts ∧
  (rf_state (rf w') = rf_state (rf (demo RF_ON)) ∨ switched demo_requests (rf_state (rf w'))) ∧
  stored_digest w' demo_digest ∧
  (∀ pr, probe_set true pr (g_krp (w_glob w') pr)) ∧
  (rf_lock (rf w') = false → ∃ a', bl_rep w' a' ∧
     (∀ k, k ∈ bl_paths a' → k ∈ bl_paths demo_list ∨ added demo_requests k) ∧
     (∀ k, k ∈ bl_paths demo_list → ¬ removed demo_requests k → k ∈ bl_paths a')).
Proof.
  destruct demo_run as (ts & w' & z & Hrun & _ & _). exists ts, w'. split; [exact Hrun|].
  apply (interleaving_safe demo_digest demo_list demo_requests (demo RF_ON)).
  - reflexivity.
  - apply demo_crypto_up.
  - by apply demo_secure.
  - exact demo_requests_ok.
  - exact Hrun.
Defined.

Lemma interleaving_protects_witness : ∃ ts w' z,
  rtc pool_step (thread_of <$> demo_requests, demo RF_ON) (ts, w') ∧ ts !! 0 = Some (Done z) ∧
  z = (- EACCES)%Z ∧ ∃ wp, wp ∈ g_queue (w_glob w') ∧ queued w' wp demo_task (lit "/bin/sh").
Proof.
  destruct demo_run as (ts & w' & z & Hrun & _ & Hz). exists ts, w', z. split; [exact Hrun|]. split; [exact Hz|].
  apply (interleaving_protects demo_digest demo_list demo_requests (demo RF_ON) ts w' 0 file_delete (demo_regs "/tmp/a/b") demo_task demo_fun
    [lit "/tmp/a/b"] (lit "/bin/sh") (lit "/tmp/a") (lit "/tmp/a/b")).
  - reflexivity.
  - apply demo_crypto_up.
  - by apply demo_secure.
  - exact demo_requests_ok.
  - vm_compute. split; [intros [=]|reflexivity].
  - by left.
  - apply demo_switched.
  - reflexivity.
  - apply demo_call_ok.
  - vm_compute. lia.
  - by compute_done.
  - exact demo_kept.
  - by compute_done.
  - by compute_done.
  - exact Hrun.
  - exact Hz.
Defined.

Lemma interleaved_denials_reach_log_file_witness : ∃ ts w' rows,
  rtc pool_step (thread_of <$> demo_requests, demo RF_ON) (ts, w') ∧
  log_row demo_task (lit "/bin/sh") ∈ rows ∧ length rows = length (g_queue (w_glob w')) ∧
  (2 * BLOCK + size_after (length file_body) rows ≤ length (fs_dev demo_fs) →
   ∃ w2 v' c, run_queue (g_queue (w_glob w')) (w_put (set_queue [] (w_glob w')) w', demo_log_vfs) = inr (tt, (w2, v')) ∧
     read_all (S (length c)) BLOCK 0 (v_fs v') = inr (c, v_fs v') ∧
     content demo_fs (length file_body) `prefix_of` c ∧ rows_at c (length file_body) rows).
Proof.
  destruct demo_run as (ts & w' & z & Hrun & Hret & Hz).
  destruct (interleaved_denials_reach_log_file demo_digest demo_list demo_requests (demo RF_ON)
    ts w' demo_log_vfs (length file_body)) as (rows & Hrows & Hrest).
  - reflexivity.
  - apply demo_crypto_up.
  - reflexivity.
  - apply demo_after.
  - by apply demo_secure.
  - reflexivity.
  - exact demo_requests_ok.
  - exact demo_log_entries.
  - vm_compute. split; [intros [=]|reflexivity].
  - by left.
  - apply demo_switched.
  - exact Hrun.
  - exact Hret.
  - apply demo_log_open.
  - exists ts, w', rows. split; [exact Hrun|]. split; [|exact Hrest].
    apply (Hrows 0 file_delete (demo_regs "/tmp/a/b") demo_task demo_fun [lit "/tmp/a/b"] (lit "/bin/sh") (lit "/tmp/a")
      (lit "/tmp/a/b") z); [reflexivity|apply demo_call_ok|vm_compute; lia|by compute_done|exact demo_kept|by compute_done..|exact Hz].
Defined.

Lemma interleaving_finishes_witness :
  sn pool_step (thread_of <$> demo_requests, demo RF_ON) ∧
  ∀ ts w', rtc pool_step (thread_of <$> demo_requests, demo RF_ON) (ts, w') →
    Forall returned ts ∨ ∃ c, pool_step (ts, w') c.
Proof.
  apply (interleaving_finishes demo_digest demo_list demo_requests (demo RF_ON)).
  - reflexivity.
  - apply demo_crypto_up.
  - by apply demo_secure.
  - exact demo_requests_ok.
Defined.
